(* ===== verification/_CoqProject ===== *)
-Q . S2P
Prelude.v
Canonical.v
Sha256.v
Sha256Spec.v
Status.v
Ids.v
Codec.v
Limits.v
Graph.v
Builder.v
Path.v
Request.v
View.v
ViewFacts.v
Result.v
Reach.v
PathSearch.v
Dijkstra.v
SearchFacts.v
PlainFacts.v
ExpandedFacts.v
RouteFacts.v
BudgetFacts.v
SpurFacts.v
YenFacts.v
TransitFacts.v
Planner.v
Concurrent.v
Retention.v
PlanFacts.v
Identity.v
Lifecycle.v
Sources.v
SourcesFacts.v
Parse.v
PlanCodec.v
Wire.v
Payloads.v
RequestCodec.v
ResultCodec.v
Store.v
StoreFacts.v
StoreFile.v
Net.v
Dist.v
Delivery.v
DistSystem.v
DistPeers.v
DistFacts.v
Service.v
Exchange.v
Explain.v
