(* ===== verification/Prelude.v ===== *)
(** Verification of Path Planner, a deterministic library that turns a published
    fabric snapshot and a planning request into a ranked set of candidate paths.
    The sources are the C++ files under src/src and src/include/pathplanner; this
    development translates them file by file and proves what they promise.

    * How the program works

    A [FabricSnapshotBuilder] (graph.cpp) collects node, edge, endpoint, state,
    capability and failure-domain records and [Build]s an immutable
    [FabricSnapshot] identified by the SHA-256 of its canonical encoding. The
    planner runtime (planner.cpp) publishes snapshots and answers requests:
    [Plan] captures the current inputs under the lock, validates the request
    (request.cpp), resolves the endpoints, builds the planning view of what the
    hard constraints allow (planning_view.cpp), enumerates routes (search.cpp:
    two shortest-path searches, Yen's algorithm, staged transit), turns them into
    candidates with checked costs (path.cpp), ranks, annotates and optionally
    validates them, compares the watermark it captured with the current one and
    publishes the result with its identity and generation (result.cpp). Plans can
    be retained; a reverse index from subjects to plans drives targeted
    invalidation, and currentness and replanning compare a plan with the present.

    A coordinator (dist.cpp) serves workers and clients over sessions: a worker
    registers the boot identity and the snapshot it holds, a client's request is
    relayed to one worker, and the worker's publication is checked against epoch,
    fences and snapshot before it answers the client and is retained and saved
    (store.cpp). Frames and payloads are those of proto.cpp, the sockets those of
    net.cpp. sources.cpp makes snapshots: synthetic fabrics and the local host.

    * Files

    - Prelude.v: early returns, machine integers, the total-order interface
      [Ordered], the standard algorithms (sort, unique, lower_bound, ...).
    - Canonical.v, Sha256.v: canonical.cpp and sha256.cpp; [Writes] and [Reads] are
      the interfaces of every encoder and decoder. Sha256Spec.v: FIPS 180-4 on its own
      terms, and that sha256.cpp computes it. Codec.v: unique decoding.
    - Status.v, Ids.v, Limits.v: status.hpp, ids.hpp, limits.hpp; the interface
      [CppEnum] gives every enumeration its wire values and names.
    - Graph.v, Builder.v: graph.cpp, the records and the builder.
    - Path.v: path.cpp. Request.v: request.cpp.
    - View.v, ViewFacts.v: planning_view.cpp and its invariant [ViewWf].
    - Result.v, Identity.v: result.cpp and the identity of plans.
    - Reach.v: the breadth-first search of planner.cpp.
    - PathSearch.v: search.cpp. Dijkstra.v: Dijkstra's algorithm on an abstract
      graph, of which PlainFacts.v (search over nodes) and ExpandedFacts.v (search
      over hops and nodes) are the instances; SearchFacts.v: what they share, with
      the interface [Searchable] a view offers to the searches; RouteFacts.v: the
      contract of [ShortestPath]; BudgetFacts.v: the work budget; SpurFacts.v and
      YenFacts.v: Yen's algorithm; TransitFacts.v: required transit.
    - Planner.v: planner.cpp, every member function as its critical sections.
      Concurrent.v: their interleavings. Retention.v: retained plans and the
      reverse index. PlanFacts.v: [Plan] end to end. Lifecycle.v: currentness and
      replanning.
    - Explain.v: the renderers of explain.cpp.
    - Parse.v: strict decoders; the interface [Parses p P enc] says that a decoder
      accepts exactly the encodings of the values in [P]. PlanCodec.v: the decoders of
      paths, costs and evidence that store.cpp and proto.cpp both define.
    - Wire.v, Payloads.v, RequestCodec.v, ResultCodec.v: proto.cpp, the frames and the
      payloads of the wire protocol.
    - Store.v, StoreFacts.v, StoreFile.v: store.cpp, the image of the retained plans,
      its exactness and the recovery of plans, and the store file.
    - Net.v: the endpoint texts and the buffer loops of net.cpp.
    - Dist.v, DistPeers.v, Service.v: dist.cpp, the coordinator, the worker and the
      client, and how they start and stop. Delivery.v: what the bytes of a session
      deliver. DistSystem.v: the critical sections of every session and of the owner
      as a step relation, with its invariant. DistFacts.v and Exchange.v: acceptance,
      fences, recovery, and a request's way from client to worker and back.
    - Sources.v, SourcesFacts.v: sources.cpp, the generator and the local host.

    * How the code is modelled

    A struct is a Record and an enumeration an Inductive type with the names of
    the source; an unsigned integer is a [Z] with its wrap-around written out
    ([wrap32], [wrap64]); an identifier is the list of its bytes; a vector is a
    list; an unordered map with string keys is a gmap. A member function that
    changes its object takes the object and returns it ([ByteWriter], [Builder],
    [Work], [Runtime]); [early r when c ;; k] is an early return. A [std::sort] with
    a strict total order is a stable merge sort. An out-of-range read the source
    rules out by an earlier check has a default value.

    The runtime's mutex is modelled by its critical sections: [Plan] is the
    composition of [begin_plan], [compute], [watermark_moved] and [publish], and in
    Concurrent.v the critical sections of any number of calls interleave freely in
    the step relation [step]. The authority validator is code of the caller: it is
    a function argument of the capture, and nothing is assumed of it.

    * What the theorems show

    - Snapshots: what Build accepts (the documented conditions, but for duplicates that
      are not neighbours and a ceiling on the encoding), that it publishes a coherent
      snapshot, independently of the order of insertion, and that the digest identifies
      the content.
    - Requests: what validation accepts, and which limits it looks at.
    - Views: a view is exactly the eligible graph of the request, in standard mode
      rests on proven states, and construction fails exactly when an endpoint is
      not eligible.
    - Search: [ShortestPath] returns the canonical minimum of the allowed walks; the
      enumeration is Yen's; required transit is visited in order; budgets are
      accounted exactly and loops end; the failure-domain member limit is exact.
    - Planning: every candidate of a plan keeps the promises of the request (but for the
      member limit under required transit); without required transit and authority the
      candidates are the best routes, in canonical order; no result is CURRENT when its
      inputs changed while it was computed.
    - Lifecycle: the reverse index covers exactly the retained plans, a notice
      touches exactly the plans that rest on what it names and retires those that lost
      an element, a currentness report is CURRENT exactly when nothing the plan rests on
      moved, replanning classifies exactly.
    - Encodings: round trips, canonicity, checked arithmetic, digests as identities, and
      SHA-256 as the standard defines it.
    - Wire protocol: every decoder accepts exactly the encodings of well-formed values
      within the receiver's limits, so a message arrives unchanged or is refused.
    - Distribution: no interleaving of sessions accepts a publication its checks
      refuse, a fenced boot stays fenced, a restart recovers no authority, a turn of a
      session is a run of the step relation, and a plan made through the coordinator
      is the wire image of the worker's own plan.
    - Sources: the generator's draws end and are exact, every family has exactly the
      links of its description ([family_link]), a fabric is published whole or refused,
      with a route between its reported ends unless it is to be disconnected; the local
      host's view is exactly its adapters.
    - Store: the same for the image on disk; a plan comes back with its content but
      never as current; a save of storable plans cut off anywhere leaves the old store
      or the new one.

    * Bounds and fuel

    Loops without a structural bound take fuel: the main loop of a search one unit
    per queue entry ([PlainSearch] and [ExpandedSearch] pass one more than the
    adjacencies that can be queued), Yen's loop one unit per wanted route, the
    transit product its number of combinations, all computed from the inputs.
    BudgetFacts.v shows that the search loops end within the fuel. The chunked read of
    the store file takes one unit per byte ([read_chunks_spec]). The rejection loop of
    the generator is bounded by the 2^64 values of its stream, all of which it
    visits ([attempt], [Below_accepts]).

    * Not modelled

    The system calls of net.cpp and the threads of dist.cpp: what a socket, a listener
    or a random device answers is an argument, a session is its position in the list
    of sessions, and a wait that ends by its bound is a step that may be taken. The
    enumeration of the adapters by the platform (sources.cpp) is the argument
    [discovered]; the detail texts of a failed [Build] are left out, and so are the
    version strings (version.cpp). The command line (apps), the benchmarks, the
    examples and the tests call the library and print.
    A file system is a map from paths to contents on which renaming is atomic; a power
    loss that takes written data back is not modelled. The stage hooks of the planner run outside its lock and only observe; what a hook may do to the runtime
    through other calls is an interleaving of Concurrent.v. The content of the
    explanation text of a rejected build is left out. *)

(** The prelude itself: early-return notation, fixed-width unsigned integers, the
    total-order interface the identifiers and sort keys implement, and the models of
    the standard-library algorithms ([std::sort], [std::unique], [std::lower_bound],
    [std::binary_search], [std::adjacent_find]) the sources call. *)

From stdpp Require Export base tactics list sorting strings sets gmap.
From Stdlib Require Export ZArith Lia.

Declare Scope pp_scope.
Delimit Scope pp_scope with pp.
Open Scope pp_scope.
Open Scope Z_scope.

(** [if (c) { return r; } k] of the sources. *)
Notation "'early' r 'when' c ';;' k" := (if c then r else k)
  (at level 10, r at level 99, c at level 99, k at level 200,
   format "'[v' 'early'  r  'when'  c ';;' '//' k ']'") : pp_scope.

(** [if (auto e = c; e.has_value()) { return r; } k] of the sources. *)
Notation "'onerror' e ':=' c 'give' r ';;' k" := (match c with Some e => r | None => k end)
  (at level 10, e name, c at level 99, r at level 99, k at level 200,
   format "'[v' 'onerror'  e  ':='  c  'give'  r ';;' '//' k ']'") : pp_scope.

(** Left-to-right application: [w |> f] is a method call on a state. *)
Notation "x |> f" := (f x)
  (at level 62, left associativity, only parsing) : pp_scope.

(** ** Proof automation *)

Create HintDb pp discriminated.

(** Case analysis on every [if]/[match] scrutinee of the goal or the context. *)
Ltac split_match :=
  repeat match goal with
         | |- context [if ?c then _ else _] => destruct c eqn:?
         | |- context [match ?c with _ => _ end] => destruct c eqn:?
         | H : context [if ?c then _ else _] |- _ => destruct c eqn:?
         | H : context [match ?c with _ => _ end] |- _ => destruct c eqn:?
         end.

(** Turns the boolean tests of the code into propositions. *)
Ltac bool_to_prop :=
  repeat match goal with
         | H : (_ && _)%bool = true |- _ => apply andb_true_iff in H as [? ?]
         | H : (_ || _)%bool = false |- _ => apply orb_false_iff in H as [? ?]
         | H : (_ && _)%bool = false |- _ => apply andb_false_iff in H
         | H : (_ || _)%bool = true |- _ => apply orb_true_iff in H
         | H : negb _ = true |- _ => apply negb_true_iff in H
         | H : negb _ = false |- _ => apply negb_false_iff in H
         | H : (_ =? _)%nat = true |- _ => apply Nat.eqb_eq in H
         | H : (_ =? _)%nat = false |- _ => apply Nat.eqb_neq in H
         | H : (_ <? _)%nat = true |- _ => apply Nat.ltb_lt in H
         | H : (_ <? _)%nat = false |- _ => apply Nat.ltb_ge in H
         | H : (_ <=? _)%nat = true |- _ => apply Nat.leb_le in H
         | H : (_ <=? _)%nat = false |- _ => apply Nat.leb_gt in H
         | H : (_ =? _)%Z = true |- _ => apply Z.eqb_eq in H
         | H : (_ =? _)%Z = false |- _ => apply Z.eqb_neq in H
         | H : (_ <? _)%Z = true |- _ => apply Z.ltb_lt in H
         | H : (_ <? _)%Z = false |- _ => apply Z.ltb_ge in H
         | H : (_ <=? _)%Z = true |- _ => apply Z.leb_le in H
         | H : (_ <=? _)%Z = false |- _ => apply Z.leb_gt in H
         | H : (_ >? _)%Z = true |- _ => rewrite Z.gtb_ltb in H
         | H : (_ >? _)%Z = false |- _ => rewrite Z.gtb_ltb in H
         | H : (_ >=? _)%Z = true |- _ => rewrite Z.geb_leb in H
         | H : (_ >=? _)%Z = false |- _ => rewrite Z.geb_leb in H
         | H : bool_decide _ = true |- _ => apply bool_decide_eq_true in H
         | H : bool_decide _ = false |- _ => apply bool_decide_eq_false in H
         end.

(** ** Fixed-width unsigned integers *)

Definition u8_max : Z := 255.
Definition u32_max : Z := 4294967295.
Definition u64_max : Z := 18446744073709551615.
Definition wrap32 (z : Z) : Z := z mod 4294967296.
Definition wrap64 (z : Z) : Z := z mod 18446744073709551616.

(** Byte strings are lists of byte values. *)
Definition is_byte (b : Z) : Prop := 0 <= b < 256.
Abbreviation bytes := (list Z) (only parsing).

Lemma wrap64_small z : 0 <= z <= u64_max → wrap64 z = z.
Proof. unfold wrap64, u64_max. intros. apply Z.mod_small. lia. Qed.

Lemma wrap32_small z : 0 <= z <= u32_max → wrap32 z = z.
Proof. unfold wrap32, u32_max. intros. apply Z.mod_small. lia. Qed.

Lemma wrap64_range z : 0 <= wrap64 z <= u64_max.
Proof.
  unfold wrap64, u64_max. pose proof (Z.mod_pos_bound z 18446744073709551616). lia.
Qed.

#[export] Hint Resolve wrap64_small wrap32_small : pp.

(** ** Total orders

    [operator<=>] of the identifiers, the subject keys and the tuples of sort
    keys: a three-way comparison that decides equality. *)
Class Ordered (A : Type) := {
  cmp : A → A → comparison;
  cmp_eq : ∀ x y, cmp x y = Eq ↔ x = y;
  cmp_swap : ∀ x y, cmp y x = CompOpp (cmp x y);
  cmp_trans : ∀ x y z, cmp x y = Lt → cmp y z = Lt → cmp x z = Lt
}.

Definition ltb `{Ordered A} (x y : A) : bool :=
  match cmp x y with Lt => true | _ => false end.
Definition eqb `{Ordered A} (x y : A) : bool :=
  match cmp x y with Eq => true | _ => false end.
(** The non-strict order a sort by [<] leaves the elements in. *)
Definition ole `{Ordered A} (x y : A) : Prop := ltb y x = false.

#[export] Instance ole_dec `{Ordered A} : RelDecision (@ole A _).
Proof. intros x y. unfold ole. apply bool_eq_dec. Defined.

Section ordered.
Context `{Ordered A}.
Implicit Types x y z : A.

Lemma cmp_refl x : cmp x x = Eq.
Proof. by apply cmp_eq. Qed.

Lemma ltb_lt x y : ltb x y = true ↔ cmp x y = Lt.
Proof. unfold ltb. by destruct (cmp x y). Qed.

Lemma eqb_eq x y : eqb x y = true ↔ x = y.
Proof. unfold eqb. rewrite <- cmp_eq. by destruct (cmp x y). Qed.

Lemma eqb_neq x y : eqb x y = false ↔ x ≠ y.
Proof. rewrite <- eqb_eq. by destruct (eqb x y). Qed.

Lemma eqb_refl x : eqb x x = true.
Proof. by apply eqb_eq. Qed.

Lemma ltb_irrefl x : ltb x x = false.
Proof. unfold ltb. by rewrite cmp_refl. Qed.

Lemma ltb_trans x y z : ltb x y = true → ltb y z = true → ltb x z = true.
Proof. rewrite !ltb_lt. apply cmp_trans. Qed.

Lemma ltb_asym x y : ltb x y = true → ltb y x = false.
Proof. unfold ltb. rewrite (cmp_swap x y). by destruct (cmp x y). Qed.

Lemma ltb_trichotomy x y : ltb x y = true ∨ x = y ∨ ltb y x = true.
Proof.
  unfold ltb. rewrite (cmp_swap x y). destruct (cmp x y) eqn:E; auto.
  right; left. by apply cmp_eq.
Qed.

Lemma ltb_neq x y : ltb x y = true → x ≠ y.
Proof. intros Hlt ->. by rewrite ltb_irrefl in Hlt. Qed.

Lemma ole_antisym x y : ole x y → ole y x → x = y.
Proof. unfold ole. intros. destruct (ltb_trichotomy x y) as [|[]]; congruence. Qed.

Lemma ole_lt_or_eq x y : ole x y ↔ ltb x y = true ∨ x = y.
Proof.
  unfold ole. split.
  - intros Hle. destruct (ltb_trichotomy x y) as [|[]]; auto. congruence.
  - intros [Hlt| ->]; [by apply ltb_asym|apply ltb_irrefl].
Qed.

#[export] Instance ole_transitive : Transitive (@ole A _).
Proof.
  intros x y z. rewrite !ole_lt_or_eq.
  intros [?| ->] [?| ->]; eauto using ltb_trans.
Qed.

#[export] Instance ole_total : Total (@ole A _).
Proof.
  intros x y. unfold ole. destruct (ltb y x) eqn:E; [|by left].
  right. by apply ltb_asym.
Qed.

Definition ordered_eq_dec : EqDecision A.
Proof.
  intros x y. destruct (eqb x y) eqn:E; [left; by apply eqb_eq|].
  right. by apply eqb_neq.
Defined.
End ordered.

#[export] Instance Z_ordered : Ordered Z.
Proof.
  refine {| cmp := Z.compare |}.
  - intros. apply Z.compare_eq_iff.
  - intros. apply Z.compare_antisym.
  - intros x y z. rewrite !Z.compare_lt_iff. lia.
Defined.

(** Bytewise lexicographic order. Arrays of one type have one length, so the
    two mismatched cases are never reached by the code's [for (i < N)] loop;
    they are chosen to keep the order total. *)
Fixpoint lex_cmp `{Ordered A} (l1 l2 : list A) : comparison :=
  match l1, l2 with
  | [], [] => Eq
  | [], _ :: _ => Lt
  | _ :: _, [] => Gt
  | x :: l1', y :: l2' =>
      match cmp x y with
      | Eq => lex_cmp l1' l2'
      | c => c
      end
  end.

#[export] Instance list_ordered `{Ordered A} : Ordered (list A).
Proof.
  refine {| cmp := lex_cmp |}.
  - induction x as [|a x IH]; intros [|b y]; simpl; try done.
    destruct (cmp a b) eqn:E.
    + apply cmp_eq in E as ->. rewrite IH. naive_solver.
    + split; [done|]. intros [= -> ->]. by rewrite cmp_refl in E.
    + split; [done|]. intros [= -> ->]. by rewrite cmp_refl in E.
  - induction x as [|a x IH]; intros [|b y]; simpl; try done.
    rewrite (cmp_swap a b). destruct (cmp a b); simpl; auto.
  - induction x as [|a x IH]; intros [|b y] [|c z]; simpl; try done.
    destruct (cmp a b) eqn:E1; destruct (cmp b c) eqn:E2; try done.
    + apply cmp_eq in E1, E2. subst. rewrite cmp_refl. eauto.
    + apply cmp_eq in E1. subst. by rewrite E2.
    + apply cmp_eq in E2. subst. by rewrite E1.
    + by rewrite (cmp_trans _ _ _ E1 E2).
Defined.

#[export] Instance prod_ordered `{Ordered A, Ordered B} : Ordered (A * B).
Proof.
  refine {| cmp p q := match cmp p.1 q.1 with Eq => cmp p.2 q.2 | c => c end |}.
  - intros [a b] [a' b']. simpl. destruct (cmp a a') eqn:E.
    + apply cmp_eq in E as ->. rewrite cmp_eq. naive_solver.
    + split; [done|]. intros [= -> ->]. by rewrite cmp_refl in E.
    + split; [done|]. intros [= -> ->]. by rewrite cmp_refl in E.
  - intros [a b] [a' b']. simpl. rewrite (cmp_swap a a').
    destruct (cmp a a'); simpl; auto using cmp_swap.
  - intros [a b] [a' b'] [a'' b'']. simpl.
    destruct (cmp a a') eqn:E1; destruct (cmp a' a'') eqn:E2; try done.
    + apply cmp_eq in E1 as ->, E2 as ->. rewrite cmp_refl. apply cmp_trans.
    + apply cmp_eq in E1 as ->. by rewrite E2.
    + apply cmp_eq in E2 as ->. by rewrite E1.
    + by rewrite (cmp_trans _ _ _ E1 E2).
Defined.

(** An order pulled back along an injection (a struct's key). *)
Definition inj_ordered {A B} `{Ordered B} (f : A → B) (Hinj : ∀ x y, f x = f y → x = y) :
  Ordered A.
Proof.
  refine {| cmp x y := cmp (f x) (f y) |}.
  - intros x y. rewrite cmp_eq. split; [apply Hinj|by intros ->].
  - intros. apply cmp_swap.
  - intros x y z. apply cmp_trans.
Defined.

#[export] Instance nat_ordered : Ordered nat := inj_ordered Z.of_nat Nat2Z.inj.

(** [std::string]: bytewise. *)
Definition string_codes (s : string) : list Z :=
  map (λ c, Z.of_N (Ascii.N_of_ascii c)) (String.list_ascii_of_string s).

Lemma string_codes_inj s1 s2 : string_codes s1 = string_codes s2 → s1 = s2.
Proof.
  revert s2. induction s1 as [|c1 s1 IH]; intros [|c2 s2]; try done.
  unfold string_codes. cbn [String.list_ascii_of_string map]. intros [= Hc Hs].
  f_equal; [|by apply IH].
  rewrite <- (Ascii.ascii_N_embedding c1), <- (Ascii.ascii_N_embedding c2). f_equal. lia.
Qed.

#[export] Instance string_ordered : Ordered string := inj_ordered string_codes string_codes_inj.

(** ** The standard algorithms on vectors

    [std::sort(v.begin(), v.end(), key(a) < key(b))] is modelled by a stable
    merge sort on the key; where two elements share a key the standard leaves
    their order open, and the theorems that depend on the order assume unique
    keys. *)
Section algorithms.
Context {A K : Type} `{Ordered K} (key : A → K).

Definition key_le (x y : A) : Prop := ole (key x) (key y).

#[export] Instance key_le_dec : RelDecision key_le.
Proof. intros x y. unfold key_le. apply _. Defined.

Definition sort_by (l : list A) : list A := merge_sort key_le l.

(** [key(v[i - 1]) < key(v[i])] for every [i >= 1]. *)
Fixpoint is_sorted_unique (l : list A) : bool :=
  match l with
  | x :: ((y :: _) as l') => ltb (key x) (key y) && is_sorted_unique l'
  | _ => true
  end.

(** [std::adjacent_find(...) != end] under equality of keys. *)
Fixpoint has_adjacent (l : list A) : bool :=
  match l with
  | x :: ((y :: _) as l') => eqb (key x) (key y) || has_adjacent l'
  | _ => false
  end.

(** [v.erase(std::unique(...), v.end())]: keeps the first of each run. *)
Fixpoint unique_by (l : list A) : list A :=
  match l with
  | [] => []
  | x :: l' =>
      match unique_by l' with
      | y :: r => if eqb (key x) (key y) then x :: r else x :: y :: r
      | [] => [x]
      end
  end.

(** [std::lower_bound] on a range partitioned by [key(x) < k]: the part of
    the range from the first element not below [k]. *)
Fixpoint lower_bound (l : list A) (k : K) : list A :=
  match l with
  | [] => []
  | x :: l' => if ltb (key x) k then lower_bound l' k else l
  end.

(** [lower_bound] followed by the [it == end || it->key != k] test. *)
Definition find_sorted (l : list A) (k : K) : option A :=
  match lower_bound l k with
  | x :: _ => if eqb (key x) k then Some x else None
  | [] => None
  end.

Definition strictly_sorted (l : list A) : Prop :=
  StronglySorted (λ x y, ltb (key x) (key y) = true) l.

#[export] Instance key_le_transitive : Transitive key_le.
Proof. intros x y z. unfold key_le. apply ole_transitive. Qed.
#[export] Instance key_le_total : Total key_le.
Proof. intros x y. unfold key_le. apply ole_total. Qed.

Lemma sort_by_perm l : Permutation (sort_by l) l.
Proof. apply merge_sort_Permutation. Qed.

Lemma sort_by_sorted l : StronglySorted key_le (sort_by l).
Proof. apply (StronglySorted_merge_sort _). Qed.

Lemma elem_of_sort_by x l : x ∈ sort_by l ↔ x ∈ l.
Proof. by rewrite (sort_by_perm l). Qed.

Lemma length_sort_by l : length (sort_by l) = length l.
Proof. by rewrite (sort_by_perm l). Qed.

Lemma is_sorted_unique_spec l : is_sorted_unique l = true ↔ strictly_sorted l.
Proof.
  unfold strictly_sorted. induction l as [|x [|y l] IH].
  - split; [constructor|done].
  - split; [repeat constructor|done].
  - change (is_sorted_unique (x :: y :: l)) with
      (ltb (key x) (key y) && is_sorted_unique (y :: l)).
    rewrite andb_true_iff, IH. split.
    + intros [Hxy Hs]. constructor; [done|]. constructor; [done|].
      apply StronglySorted_inv in Hs as [_ Hall].
      eapply Forall_impl; [exact Hall|]. intros z. by apply ltb_trans.
    + intros [Hs Hall]%StronglySorted_inv. split; [|done].
      by apply Forall_cons in Hall as [? _].
Qed.

Lemma find_sorted_Some l k x : find_sorted l k = Some x → x ∈ l ∧ key x = k.
Proof.
  unfold find_sorted. induction l as [|y l IH]; simpl; [done|].
  destruct (ltb (key y) k) eqn:E.
  - intros Hf. destruct (IH Hf). by rewrite elem_of_cons; auto.
  - destruct (eqb (key y) k) eqn:E'; [|done].
    intros [= ->]. apply eqb_eq in E'. split; [by left|done].
Qed.

Lemma find_sorted_complete l x :
  strictly_sorted l → x ∈ l → find_sorted l (key x) = Some x.
Proof.
  unfold find_sorted, strictly_sorted.
  induction 1 as [|y l Hs IH Hall]; [by intros ?%elem_of_nil|].
  rewrite elem_of_cons. intros [->|Hx]; simpl.
  - by rewrite ltb_irrefl, eqb_refl.
  - rewrite Forall_forall in Hall. rewrite Hall by done. by apply IH.
Qed.

Lemma find_sorted_None l k :
  strictly_sorted l → find_sorted l k = None ↔ ∀ x, x ∈ l → key x ≠ k.
Proof.
  intros Hs. split.
  - intros Hf x Hx <-. by rewrite (find_sorted_complete l x) in Hf.
  - intros Hne. destruct (find_sorted l k) as [x|] eqn:E; [|done].
    apply find_sorted_Some in E as [Hx <-]. by destruct (Hne x).
Qed.

Lemma strictly_sorted_inj l x y :
  strictly_sorted l → x ∈ l → y ∈ l → key x = key y → x = y.
Proof.
  intros Hs Hx Hy Hk. pose proof (find_sorted_complete l x Hs Hx) as H1.
  pose proof (find_sorted_complete l y Hs Hy) as H2. rewrite Hk in H1. congruence.
Qed.
End algorithms.

(** [std::sort], [std::unique], [std::binary_search] on a vector of keys. *)
Definition sort_ids `{Ordered A} (l : list A) : list A := sort_by id l.
Definition unique_ids `{Ordered A} (l : list A) : list A := unique_by id l.
Definition binary_search `{Ordered A} (l : list A) (x : A) : bool :=
  match find_sorted id l x with Some _ => true | None => false end.

Section search.
Context `{Ordered A}.

(** Binary search decides membership of any sorted range, duplicates included. *)
Lemma binary_search_sorted (l : list A) x :
  StronglySorted (key_le id) l → binary_search l x = true ↔ x ∈ l.
Proof.
  unfold binary_search, find_sorted.
  induction 1 as [|y l Hs IH Hall]; simpl.
  - split; [done|]. by intros ?%elem_of_nil.
  - destruct (ltb y x) eqn:E.
    + rewrite IH, elem_of_cons. split; [auto|]. intros [->|]; [|done].
      by rewrite ltb_irrefl in E.
    + destruct (eqb y x) eqn:E'.
      * apply eqb_eq in E'. subst. split; [by left|done].
      * split; [done|]. rewrite elem_of_cons. intros [->|Hin].
        { by rewrite eqb_refl in E'. }
        rewrite Forall_forall in Hall. specialize (Hall x Hin).
        unfold key_le, id in Hall. apply eqb_neq in E'.
        destruct E'. by apply ole_antisym.
Qed.

Lemma binary_search_sort_ids (l : list A) x :
  binary_search (sort_ids l) x = true ↔ x ∈ l.
Proof.
  rewrite binary_search_sorted by apply sort_by_sorted. apply elem_of_sort_by.
Qed.

(** Sorting and comparing neighbours finds every duplicate. *)
Lemma has_adjacent_sorted (l : list A) :
  StronglySorted (key_le id) l → has_adjacent id l = false ↔ NoDup l.
Proof.
  induction 1 as [|x l Hs IH Hall]; [split; [constructor|done]|].
  destruct l as [|y l]; [split; [intros; apply NoDup_singleton|done]|].
  change (has_adjacent id (x :: y :: l)) with (eqb x y || has_adjacent id (y :: l))%bool.
  rewrite orb_false_iff, IH, (NoDup_cons x), eqb_neq.
  split; intros [Hne Hnd]; (split; [|done]).
  - rewrite elem_of_cons. intros [->|Hin]; [done|].
    apply Forall_cons in Hall as [Hxy _].
    apply StronglySorted_inv in Hs as [_ Hs]. rewrite Forall_forall in Hs.
    specialize (Hs x Hin). destruct Hne. by apply ole_antisym.
  - intros ->. apply Hne. by left.
Qed.

Lemma has_adjacent_sort_ids (l : list A) :
  has_adjacent id (sort_ids l) = false ↔ NoDup l.
Proof.
  rewrite has_adjacent_sorted by apply sort_by_sorted.
  unfold sort_ids. by rewrite sort_by_perm.
Qed.

(** Two sorted copies are equal exactly when the lists are permutations. *)
Lemma sort_ids_perm (l1 l2 : list A) : sort_ids l1 = sort_ids l2 ↔ Permutation l1 l2.
Proof.
  unfold sort_ids. split.
  - intros Heq. by rewrite <- (sort_by_perm id l1), Heq, sort_by_perm.
  - intros Hp. apply (StronglySorted_unique_strong (key_le id)); [|apply sort_by_sorted..|].
    + intros x y _ _. apply ole_antisym.
    + by rewrite !sort_by_perm.
Qed.
End search.

(** The first early return of a checking loop. *)
Fixpoint first_error {A E} (check : A → option E) (l : list A) : option E :=
  match l with
  | [] => None
  | x :: l => match check x with Some e => Some e | None => first_error check l end
  end.

Lemma first_error_None {A E} (check : A → option E) l :
  first_error check l = None ↔ ∀ x, x ∈ l → check x = None.
Proof.
  induction l as [|x l IH]; simpl.
  - split; [by intros _ ? ?%elem_of_nil|done].
  - destruct (check x) eqn:Hx.
    + split; [done|]. intros Hall. rewrite (Hall x) in Hx; [done|by left].
    + rewrite IH. split.
      * intros Hall y [->|Hy]%elem_of_cons; auto.
      * intros Hall y Hy. apply Hall. by right.
Qed.

Lemma first_error_Some {A E} (check : A → option E) l e :
  first_error check l = Some e → ∃ x, x ∈ l ∧ check x = Some e.
Proof.
  induction l as [|x l IH]; simpl; [done|].
  destruct (check x) eqn:Hx.
  - intros [= ->]. exists x. split; [by left|done].
  - intros (y & Hy & Hc)%IH. exists y. split; [by right|done].
Qed.

(** ** Sorting is insensitive to the input order when keys are unique *)

Lemma strictly_sorted_of_key_le {A K} `{Ordered K} (key : A → K) l :
  StronglySorted (key_le key) l → NoDup (map key l) → strictly_sorted key l.
Proof.
  unfold strictly_sorted. induction 1 as [|x l Hs IH Hall]; [constructor|].
  simpl. rewrite NoDup_cons. intros [Hx Hnd]. constructor; [by apply IH|].
  rewrite Forall_forall in *. intros y Hy. specialize (Hall y Hy).
  unfold key_le in Hall. apply ole_lt_or_eq in Hall as [|Heq]; [done|].
  destruct Hx. rewrite Heq. by apply list_elem_of_fmap_2.
Qed.

Lemma strictly_sorted_NoDup {A K} `{Ordered K} (key : A → K) l :
  strictly_sorted key l → NoDup (map key l).
Proof.
  unfold strictly_sorted. induction 1 as [|x l Hs IH Hall]; simpl; [constructor|].
  apply NoDup_cons. split; [|done]. intros (y & Heq & Hy)%list_elem_of_fmap.
  rewrite Forall_forall in Hall. specialize (Hall y Hy).
  rewrite Heq in Hall. by rewrite ltb_irrefl in Hall.
Qed.

Lemma strictly_sorted_perm_eq {A K} `{Ordered K} (key : A → K) l1 l2 :
  strictly_sorted key l1 → strictly_sorted key l2 → Permutation l1 l2 → l1 = l2.
Proof.
  unfold strictly_sorted. intros H1. revert l2.
  induction H1 as [|x l1 H1 IH Hx]; intros l2 H2 Hp.
  { symmetry. by apply Permutation_nil. }
  destruct H2 as [|y l2 H2 Hy]; [by apply Permutation_sym, Permutation_nil in Hp|].
  rewrite Forall_forall in Hx, Hy.
  assert (x = y) as ->.
  { assert (Hxin : x ∈ y :: l2) by (rewrite <- Hp; by left).
    assert (Hyin : y ∈ x :: l1) by (rewrite Hp; by left).
    apply elem_of_cons in Hxin as [?|Hxin]; [done|].
    apply elem_of_cons in Hyin as [?|Hyin]; [done|].
    specialize (Hx y Hyin). specialize (Hy x Hxin). apply ltb_asym in Hx. congruence. }
  f_equal. apply IH; [done|]. by apply Permutation_cons_inv in Hp.
Qed.

Lemma sort_by_perm_eq {A K} `{Ordered K} (key : A → K) l1 l2 :
  NoDup (map key l1) → Permutation l1 l2 → sort_by key l1 = sort_by key l2.
Proof.
  intros Hnd Hp. apply (strictly_sorted_perm_eq key).
  - apply strictly_sorted_of_key_le; [apply sort_by_sorted|]. by rewrite sort_by_perm.
  - apply strictly_sorted_of_key_le; [apply sort_by_sorted|].
    by rewrite sort_by_perm, <- Hp.
  - by rewrite !sort_by_perm.
Qed.

(** Neighbour duplicates of any list are duplicates; a list without duplicate
    keys has none. *)
Lemma has_adjacent_NoDup {A K} `{Ordered K} (key : A → K) l :
  NoDup (map key l) → has_adjacent key l = false.
Proof.
  induction l as [|x [|y l] IH]; [done|done|].
  simpl map. rewrite NoDup_cons. intros [Hx Hnd].
  change (has_adjacent key (x :: y :: l)) with
    (eqb (key x) (key y) || has_adjacent key (y :: l))%bool.
  rewrite IH by done. rewrite orb_false_r. apply eqb_neq. intros Heq.
  apply Hx. rewrite Heq. by left.
Qed.

Lemma is_sorted_unique_sort {A K} `{Ordered K} (key : A → K) l :
  is_sorted_unique key (sort_by key l) = true ↔ NoDup (map key l).
Proof.
  rewrite is_sorted_unique_spec. split.
  - intros Hs%strictly_sorted_NoDup. by rewrite sort_by_perm in Hs.
  - intros Hnd. apply strictly_sorted_of_key_le; [apply sort_by_sorted|].
    by rewrite sort_by_perm.
Qed.

(** [sort] then [unique] keeps exactly the elements, once each. *)
Lemma elem_of_unique_ids `{Ordered A} (x : A) l : x ∈ unique_ids l ↔ x ∈ l.
Proof.
  unfold unique_ids. induction l as [|y l IH]; simpl; [done|].
  rewrite (elem_of_cons l), <- IH. destruct (unique_by id l) as [|z r].
  { apply elem_of_cons. }
  unfold id. destruct (eqb y z) eqn:E; rewrite !elem_of_cons; [|reflexivity].
  apply eqb_eq in E. subst. tauto.
Qed.

Lemma unique_ids_sorted `{Ordered A} (l : list A) :
  StronglySorted (key_le id) l → strictly_sorted id (unique_ids l).
Proof.
  unfold unique_ids, strictly_sorted.
  induction 1 as [|x l Hs IH Hall]; simpl; [constructor|].
  assert (Hmem : ∀ z, z ∈ unique_by id l → key_le id x z).
  { intros z Hz. rewrite Forall_forall in Hall. apply Hall. by apply elem_of_unique_ids. }
  destruct (unique_by id l) as [|z r] eqn:E; [repeat constructor|].
  apply StronglySorted_inv in IH as IH'. destruct IH' as [Hr Hz].
  unfold id in *. destruct (eqb x z) eqn:Exz.
  - apply eqb_eq in Exz. subst. by constructor.
  - constructor; [done|]. rewrite Forall_forall. intros w Hw.
    assert (Hxz : ltb x z = true).
    { specialize (Hmem z ltac:(by left)). unfold key_le in Hmem.
      apply ole_lt_or_eq in Hmem as [|Heq]; [done|]. subst.
      by rewrite eqb_refl in Exz. }
    apply elem_of_cons in Hw as [->|Hw]; [done|].
    rewrite Forall_forall in Hz. eauto using ltb_trans.
Qed.

(** ** Sums over lists *)

Definition zsum {A} (f : A → Z) (l : list A) : Z := fold_right (λ x s, f x + s) 0 l.

Lemma zsum_cons {A} (f : A → Z) x l : zsum f (x :: l) = f x + zsum f l.
Proof. done. Qed.

Lemma zsum_app {A} (f : A → Z) l1 l2 : zsum f (l1 ++ l2) = zsum f l1 + zsum f l2.
Proof. induction l1 as [|x l1 IH]; simpl; [done|]. unfold zsum in *. simpl. lia. Qed.

Lemma zsum_nonneg {A} (f : A → Z) l : Forall (λ x, 0 <= f x) l → 0 <= zsum f l.
Proof. induction 1; simpl; unfold zsum in *; simpl; lia. Qed.

Lemma zsum_add {A} (f g : A → Z) l : zsum (λ x, f x + g x) l = zsum f l + zsum g l.
Proof. induction l as [|x l IH]; simpl; unfold zsum in *; simpl; lia. Qed.

Lemma zsum_mul {A} (f : A → Z) k l : zsum (λ x, k * f x) l = k * zsum f l.
Proof. induction l as [|x l IH]; unfold zsum in *; simpl; lia. Qed.

Lemma zsum_const {A} k (l : list A) : zsum (λ _, k) l = k * Z.of_nat (length l).
Proof. induction l as [|x l IH]; unfold zsum in *; simpl; lia. Qed.

Lemma zsum_ext {A} (f g : A → Z) l : (∀ x, x ∈ l → f x = g x) → zsum f l = zsum g l.
Proof.
  induction l as [|x l IH]; intros Hext; [done|]. unfold zsum in *. simpl.
  rewrite (Hext x) by by left. rewrite IH; [done|]. intros. apply Hext. by right.
Qed.

(** ** Positions in sorted vectors *)

(** [it - v.begin()] of the element [find_sorted] returns. *)
Definition find_index {A K} `{Ordered K} (key : A → K) (l : list A) (k : K) : option nat :=
  match find_sorted key l k with
  | Some _ => Some (length l - length (lower_bound key l k))%nat
  | None => None
  end.

Lemma find_index_Some {A K} `{Ordered K} (key : A → K) l k i :
  find_index key l k = Some i → ∃ x, l !! i = Some x ∧ key x = k ∧ find_sorted key l k = Some x.
Proof.
  unfold find_index, find_sorted. intros Hf.
  assert (Hd : ∃ l', l = l' ++ lower_bound key l k).
  { clear Hf. induction l as [|x l [l' IH]]; simpl; [by exists []|].
    destruct (ltb (key x) k); [exists (x :: l'); simpl; by rewrite <- IH|by exists []]. }
  destruct Hd as [l' Hl]. destruct (lower_bound key l k) as [|x r] eqn:Hlb; [done|].
  destruct (eqb (key x) k) eqn:Ek; [|done]. injection Hf as <-. exists x.
  apply eqb_eq in Ek. split; [|done].
  assert (Hi : (length l - S (length r))%nat = length l').
  { rewrite Hl, length_app. simpl. lia. }
  rewrite Hi, Hl. by rewrite list_lookup_middle.
Qed.

Lemma find_index_None {A K} `{Ordered K} (key : A → K) l k :
  find_index key l k = None ↔ find_sorted key l k = None.
Proof. unfold find_index. by destruct (find_sorted key l k). Qed.

Lemma strictly_sorted_lookup_inj {A K} `{Ordered K} (key : A → K) l i j x y :
  strictly_sorted key l → l !! i = Some x → l !! j = Some y → key x = key y → i = j.
Proof.
  intros Hs Hi Hj Hk. pose proof (strictly_sorted_NoDup key l Hs) as Hnd.
  apply (NoDup_lookup _ i j (key x) Hnd); rewrite list_lookup_fmap.
  - by rewrite Hi.
  - by rewrite Hj, Hk.
Qed.

Lemma find_index_lookup {A K} `{Ordered K} (key : A → K) l i x :
  strictly_sorted key l → l !! i = Some x → find_index key l (key x) = Some i.
Proof.
  intros Hs Hi. assert (Hin : x ∈ l) by (by eapply list_elem_of_lookup_2).
  pose proof (find_sorted_complete key l x Hs Hin) as Hf.
  destruct (find_index key l (key x)) as [j|] eqn:Hj; [|apply find_index_None in Hj; congruence].
  apply find_index_Some in Hj as (y & Hy & Hk & _). f_equal.
  by eapply (strictly_sorted_lookup_inj key).
Qed.

(** In a list sorted by [f], the elements below a bound are a prefix. *)
Definition count_below {A} (f : A → nat) (u : nat) (l : list A) : nat :=
  length (List.filter (λ x, (f x <? u)%nat) l).

Lemma sorted_count_below {A} (f : A → nat) l i x u :
  StronglySorted (λ x y, (f x <= f y)%nat) l → l !! i = Some x →
  (f x < u)%nat ↔ (i < count_below f u l)%nat.
Proof.
  intros Hs. revert i. unfold count_below.
  induction Hs as [|y l Hs IH Hall]; intros i Hi; [by rewrite lookup_nil in Hi|].
  rewrite Forall_forall in Hall. simpl. destruct (f y <? u)%nat eqn:E; bool_to_prop; simpl.
  - destruct i as [|i]; simpl in Hi; [injection Hi as <-; lia|].
    rewrite (IH i Hi). lia.
  - assert (Hnone : List.filter (λ x, (f x <? u)%nat) l = []).
    { clear -Hall E. induction l as [|z l IHl]; [done|]. simpl.
      assert (f y <= f z)%nat by (apply Hall; by left).
      rewrite (proj2 (Nat.ltb_ge (f z) u)) by lia. apply IHl. intros w Hw. apply Hall. by right. }
    rewrite Hnone. simpl. destruct i as [|i]; simpl in Hi; [injection Hi as <-; lia|].
    apply list_elem_of_lookup_2 in Hi. specialize (Hall x Hi). lia.
Qed.

Lemma StronglySorted_lookup_lt {A} (R : A → A → Prop) l i j x y :
  StronglySorted R l → l !! i = Some x → l !! j = Some y → (i < j)%nat → R x y.
Proof.
  intros Hs. revert i j. induction Hs as [|z l Hs IH Hall]; intros i j Hi Hj Hlt; [done|].
  destruct j as [|j]; [lia|]. simpl in Hj. destruct i as [|i]; simpl in Hi.
  - injection Hi as <-. rewrite Forall_forall in Hall. by eapply Hall, list_elem_of_lookup_2.
  - apply (IH i j); [done..|lia].
Qed.

Lemma StronglySorted_of_lookup {A} (R : A → A → Prop) l :
  (∀ i j x y, l !! i = Some x → l !! j = Some y → (i < j)%nat → R x y) → StronglySorted R l.
Proof.
  induction l as [|z l IH]; intros HR; [constructor|]. constructor.
  - apply IH. intros i j x y Hi Hj Hlt. apply (HR (S i) (S j)); [done..|lia].
  - rewrite Forall_forall. intros y [j Hj]%list_elem_of_lookup_1.
    apply (HR 0%nat (S j)); [done..|lia].
Qed.

(** ** Loops *)

(** [for (x : l) { ... }] over a state, left early when the body asks for it:
    the flag says whether it did. *)
Fixpoint for_each {A S} (body : A → S → S * bool) (l : list A) (s : S) : S * bool :=
  match l with
  | [] => (s, false)
  | x :: l => let '(s, stop) := body x s in early (s, true) when stop ;; for_each body l s
  end.

Lemma for_each_invariant {A S} (P : list A → S → Prop) (body : A → S → S * bool) l s :
  (∀ x l s, P (x :: l) s → (body x s).2 = false → P l (body x s).1) →
  P l s → (for_each body l s).2 = false → P [] (for_each body l s).1.
Proof.
  intros Hstep. revert s. induction l as [|x l IH]; intros s Hs Hf; [done|].
  simpl in *. specialize (Hstep x l s Hs). destruct (body x s) as [s' stop]. simpl in *.
  destruct stop; [done|]. apply IH; auto.
Qed.

Lemma nth_replicate {A} n (d : A) i : nth i (replicate n d) d = d.
Proof. revert i. induction n as [|n IH]; intros [|i]; simpl; auto. Qed.

Lemma nth_insert {A} (l : list A) i x j d :
  (i < length l)%nat → nth j (<[i := x]> l) d = if decide (j = i) then x else nth j l d.
Proof.
  intros Hi. rewrite !nth_lookup. destruct (decide (j = i)) as [->|Hne].
  - by rewrite list_lookup_insert_eq.
  - by rewrite list_lookup_insert_ne.
Qed.

(** Loops over equal bodies. *)
Lemma fold_left_ext {A B} (f g : A → B → A) l a :
  (∀ a x, x ∈ l → f a x = g a x) → fold_left f l a = fold_left g l a.
Proof.
  revert a. induction l as [|x l IH]; intros a Hfg; [done|]. simpl.
  rewrite Hfg by by left. apply IH. intros. apply Hfg. by right.
Qed.

Lemma existsb_ext {A} (f g : A → bool) l : (∀ x, x ∈ l → f x = g x) → existsb f l = existsb g l.
Proof.
  induction l as [|x l IH]; intros Hfg; [done|]. simpl. rewrite Hfg by by left.
  rewrite IH; [done|]. intros. apply Hfg. by right.
Qed.

Lemma find_ext {A} (f g : A → bool) l : (∀ x, x ∈ l → f x = g x) → List.find f l = List.find g l.
Proof.
  induction l as [|x l IH]; intros Hfg; [done|]. simpl. rewrite Hfg by by left.
  rewrite IH; [done|]. intros. apply Hfg. by right.
Qed.

(** Comparing pairs and lists that start alike. *)
Lemma ole_pair_same {A B} `{Ordered A, Ordered B} (x : A) (y y' : B) :
  ole (x, y) (x, y') ↔ ole y y'.
Proof. unfold ole, ltb. simpl. by rewrite cmp_refl. Qed.

Lemma ole_cons_same {A B} `{Ordered A, Ordered B} (x : A) (l l' : list A) (y y' : B) :
  ole (x :: l, y) (x :: l', y') ↔ ole (l, y) (l', y').
Proof. unfold ole, ltb. simpl. by rewrite cmp_refl. Qed.

(** A loop that skips elements, and a loop over mapped elements. *)
Lemma fold_left_skip {A B} (skip : B → bool) (f : A → B → A) l a :
  fold_left (λ a x, if skip x then a else f a x) l a =
  fold_left f (List.filter (λ x, negb (skip x)) l) a.
Proof. revert a. induction l as [|x l IH]; intros a; simpl; [done|]. by destruct (skip x); simpl. Qed.

Lemma fold_left_map {A B C} (f : A → C → A) (g : B → C) l a :
  fold_left f (map g l) a = fold_left (λ a x, f a (g x)) l a.
Proof. revert a. induction l as [|x l IH]; intros a; simpl; auto. Qed.

(** A loop that leaves an observation of the state alone. *)
Lemma fold_left_invariant_eq {A B C} (f : A → C) (g : A → B → A) l a :
  (∀ a x, f (g a x) = f a) → f (fold_left g l a) = f a.
Proof. intros Hg. revert a. induction l as [|x l IH]; intros a; simpl; [done|]. by rewrite IH. Qed.

(** A loop that was left early ends in a state the body left early in. *)
Lemma for_each_stopped {A S} (P : S → Prop) (body : A → S → S * bool) l s :
  (∀ x s, (body x s).2 = true → P (body x s).1) →
  (for_each body l s).2 = true → P (for_each body l s).1.
Proof.
  intros Hb. revert s. induction l as [|x l IH]; intros s; simpl; [done|].
  specialize (Hb x s). destruct (body x s) as [s' stop]. simpl in *. destruct stop; [auto|apply IH].
Qed.
