(* ===== verification/Canonical.v ===== *)
(** canonical.hpp / canonical.cpp: the length-prefixed little-endian encoder
    [ByteWriter] with its ceiling, the strict latching decoder [ByteReader],
    and the lowercase hex codec.  [Wrote] and [Reads] are the two interfaces
    every later encoder and decoder is proved against. *)

From S2P Require Import Prelude.

Definition kDefaultEncodingCeiling : Z := 1048576.

(** ** ByteWriter *)

Record ByteWriter := MkWriter {
  data_ : bytes;
  ceiling_ : Z;
  overflowed_ : bool
}.

Definition new_writer (ceiling : Z) : ByteWriter := MkWriter [] ceiling false.
Definition writer_size (w : ByteWriter) : Z := Z.of_nat (length (data_ w)).

Definition PutByte (value : Z) (w : ByteWriter) : ByteWriter :=
  early w when overflowed_ w ;;
  early MkWriter (data_ w) (ceiling_ w) true when (writer_size w + 1 >? ceiling_ w) ;;
  MkWriter (data_ w ++ [value]) (ceiling_ w) (overflowed_ w).

Definition Put (value : bytes) (w : ByteWriter) : ByteWriter :=
  early w when overflowed_ w ;;
  early MkWriter (data_ w) (ceiling_ w) true
    when (Z.of_nat (length value) >? ceiling_ w - writer_size w) ;;
  MkWriter (data_ w ++ value) (ceiling_ w) (overflowed_ w).

Definition U8 (value : Z) (w : ByteWriter) : ByteWriter := PutByte value w.

Definition U16 (value : Z) (w : ByteWriter) : ByteWriter :=
  w |> PutByte (Z.land value 255) |> PutByte (Z.land (Z.shiftr value 8) 255).

(** [for (shift = 0; shift < bits; shift += 8) PutByte((value >> shift) & 0xFF)] *)
Definition put_shifted (shifts : list Z) (value : Z) (w : ByteWriter) : ByteWriter :=
  fold_left (λ w shift, PutByte (Z.land (Z.shiftr value shift) 255) w) shifts w.

Definition U32 (value : Z) (w : ByteWriter) : ByteWriter :=
  put_shifted [0; 8; 16; 24] value w.

Definition U64 (value : Z) (w : ByteWriter) : ByteWriter :=
  put_shifted [0; 8; 16; 24; 32; 40; 48; 56] value w.

(** The [while (value >= 0x80)] loop; ten rounds cover every 64-bit value. *)
Fixpoint VarU64_loop (fuel : nat) (value : Z) (w : ByteWriter) : ByteWriter :=
  match fuel with
  | O => w
  | S fuel =>
      if value >=? 128
      then VarU64_loop fuel (Z.shiftr value 7)
             (PutByte (Z.lor (Z.land value 127) 128) w)
      else PutByte value w
  end.

Definition VarU64 (value : Z) (w : ByteWriter) : ByteWriter := VarU64_loop 10 value w.

Definition FixedBytes (value : bytes) (w : ByteWriter) : ByteWriter := Put value w.

Definition Bytes (value : bytes) (w : ByteWriter) : ByteWriter :=
  w |> VarU64 (Z.of_nat (length value)) |> Put value.

(** Characters are their byte values. *)
Definition char_code (c : Ascii.ascii) : Z := Z.of_N (Ascii.N_of_ascii c).
Definition text_bytes (s : string) : bytes := map char_code (String.list_ascii_of_string s).

Definition Text (value : string) (w : ByteWriter) : ByteWriter :=
  w |> VarU64 (Z.of_nat (length (text_bytes value))) |> Put (text_bytes value).

Definition Bool (value : bool) (w : ByteWriter) : ByteWriter :=
  PutByte (if value then 1 else 0) w.

(** ** ByteReader: a state monad whose failure is latched in the reader *)

Record ByteReader := MkReader {
  rdata_ : bytes;
  position_ : nat;
  failed_ : bool
}.

Definition new_reader (data : bytes) : ByteReader := MkReader data 0 false.
Definition AtEnd (r : ByteReader) : bool := (position_ r =? length (rdata_ r))%nat.
Definition Remaining (r : ByteReader) : nat := (length (rdata_ r) - position_ r)%nat.
Definition rfail (r : ByteReader) : ByteReader := MkReader (rdata_ r) (position_ r) true.
Definition advance (n : nat) (r : ByteReader) : ByteReader :=
  MkReader (rdata_ r) (position_ r + n) (failed_ r).

Definition Reader (A : Type) : Type := ByteReader → option A * ByteReader.
Definition rret {A} (a : A) : Reader A := λ r, (Some a, r).
Definition rbind {A B} (m : Reader A) (k : A → Reader B) : Reader B := λ r,
  match m r with
  | (Some a, r') => k a r'
  | (None, r') => (None, r')
  end.
Notation "'let!' x ':=' m 'in' k" := (rbind m (λ x, k))
  (at level 10, x binder, m at level 99, k at level 200) : pp_scope.
(** [failed_ = true; return std::nullopt] when the test holds. *)
Definition fail_when {A} (c : bool) (k : Reader A) : Reader A := λ r,
  if c then (None, rfail r) else k r.

Definition Need (count : nat) (r : ByteReader) : bool * ByteReader :=
  early (false, r) when failed_ r ;;
  early (false, rfail r) when (Remaining r <? count)%nat ;;
  (true, r).

(** View over the next [length] bytes. *)
Definition View (len : nat) : Reader bytes := λ r,
  let '(ok, r) := Need len r in
  if ok then (Some (take len (drop (position_ r) (rdata_ r))), advance len r) else (None, r).

Definition RU8 : Reader Z := λ r,
  let '(ok, r) := Need 1 r in
  if ok then (Some (nth (position_ r) (rdata_ r) 0), advance 1 r) else (None, r).

(** [for (i < n) value |= data_[position_ + i] << (8 * i)] *)
Definition gather (n : nat) (r : ByteReader) : Z :=
  fold_left (λ value i,
    Z.lor value (Z.shiftl (nth (position_ r + i) (rdata_ r) 0) (8 * Z.of_nat i)))
    (seq 0 n) 0.

Definition RUint (n : nat) : Reader Z := λ r,
  let '(ok, r) := Need n r in
  if ok then (Some (gather n r), advance n r) else (None, r).

Definition RU16 : Reader Z := RUint 2.
Definition RU32 : Reader Z := RUint 4.
Definition RU64 : Reader Z := RUint 8.

Definition kVarU64MaxBytes : nat := 10.

(** [n] is the number of rounds left, [i] the round index, [shift = 7 * i]. *)
Fixpoint RVarU64_loop (n i : nat) (value : Z) : Reader Z :=
  match n with
  | O => λ r, (None, rfail r)
  | S n =>
      let! byte := RU8 in
      let shift := 7 * Z.of_nat i in
      let low := Z.land byte 127 in
      fail_when ((shift =? 63) && (low >? 1))
      (let value := Z.lor value (Z.shiftl low shift) in
       if Z.land byte 128 =? 0
       then fail_when ((0 <? i)%nat && (low =? 0)) (rret value)
       else RVarU64_loop n (S i) value)
  end.

Definition RVarU64 : Reader Z := RVarU64_loop kVarU64MaxBytes 0 0.

Definition RText : Reader bytes :=
  let! len := RVarU64 in
  λ r, fail_when (len >? Z.of_nat (length (rdata_ r))) (View (Z.to_nat len)) r.

Definition RBool : Reader bool :=
  let! value := RU8 in
  fail_when (value >? 1) (rret (value =? 1)).

Definition RFixedBytes (n : nat) : Reader bytes := View n.

(** ** Hex *)

Definition IsLowerHexDigit (c : Ascii.ascii) : bool :=
  ((48 <=? char_code c) && (char_code c <=? 57)) ||
  ((97 <=? char_code c) && (char_code c <=? 102)).

Definition LowerHexValue (c : Ascii.ascii) : Z :=
  if char_code c <=? 57 then char_code c - 48 else char_code c - 97 + 10.

Definition kDigits : string := "0123456789abcdef".

Definition hex_digit (v : Z) : Ascii.ascii :=
  match String.get (Z.to_nat v) kDigits with Some c => c | None => Ascii.zero end.

Fixpoint HexEncode (bs : bytes) : string :=
  match bs with
  | [] => ""
  | b :: bs =>
      String.String (hex_digit (Z.shiftr b 4))
        (String.String (hex_digit (Z.land b 15)) (HexEncode bs))
  end.

(** The loop over [out.size()] bytes; the size test is [HexDecodeStrict]'s. *)
Fixpoint hex_decode_loop (n : nat) (text : string) : option bytes :=
  match n, text with
  | O, _ => Some []
  | S n, String.String high (String.String low rest) =>
      early None when (negb (IsLowerHexDigit high) || negb (IsLowerHexDigit low)) ;;
      tail ← hex_decode_loop n rest;
      Some (Z.lor (Z.shiftl (LowerHexValue high) 4) (LowerHexValue low) :: tail)
  | S _, _ => None
  end.

Definition HexDecodeStrict (text : string) (out_size : nat) : option bytes :=
  early None when negb (String.length text =? out_size * 2)%nat ;;
  hex_decode_loop out_size text.

(** ** What each writer operation appends *)

Definition le_bytes (n : nat) (v : Z) : bytes :=
  map (λ i, Z.land (Z.shiftr v (8 * Z.of_nat i)) 255) (seq 0 n).

Fixpoint varint (fuel : nat) (v : Z) : bytes :=
  match fuel with
  | O => []
  | S fuel =>
      if v >=? 128 then Z.lor (Z.land v 127) 128 :: varint fuel (Z.shiftr v 7) else [v]
  end.
Definition varint_bytes (v : Z) : bytes := varint 10 v.

(** [Wrote w bs w']: [w'] is [w] with [bs] appended, or latched in overflow
    when they do not fit under the ceiling. *)
Definition Wrote (w : ByteWriter) (bs : bytes) (w' : ByteWriter) : Prop :=
  ceiling_ w' = ceiling_ w ∧
  (if overflowed_ w || (writer_size w + Z.of_nat (length bs) >? ceiling_ w)
   then overflowed_ w' = true
   else w' = MkWriter (data_ w ++ bs) (ceiling_ w) false).

(** The writer's invariant: the stored bytes never exceed the ceiling. *)
Definition writer_ok (w : ByteWriter) : Prop := writer_size w <= ceiling_ w.

Lemma new_writer_ok c : 0 <= c → writer_ok (new_writer c).
Proof. done. Qed.

Lemma Wrote_refl w : writer_ok w → Wrote w [] w.
Proof.
  unfold Wrote, writer_ok. intros Hok. split; [done|].
  destruct w as [d c []]; simpl in *; [done|].
  rewrite Z.add_0_r. destruct (_ >? _) eqn:E; bool_to_prop; [lia|].
  by rewrite app_nil_r.
Qed.

Lemma Wrote_trans w1 w2 w3 bs cs :
  Wrote w1 bs w2 → Wrote w2 cs w3 → Wrote w1 (bs ++ cs) w3.
Proof.
  unfold Wrote, writer_size. intros [Hc1 H1] [Hc2 H2]. split; [congruence|].
  rewrite length_app, Nat2Z.inj_add.
  destruct (overflowed_ w1) eqn:Ho; simpl in *.
  { by rewrite H1 in H2. }
  destruct (_ >? _) eqn:E1 in H1.
  - rewrite H1 in H2. simpl in H2. bool_to_prop.
    destruct (_ >? _) eqn:E2; [done|]. bool_to_prop. lia.
  - subst w2. simpl in *. bool_to_prop.
    rewrite length_app, Nat2Z.inj_add, <- Z.add_assoc in H2.
    destruct (_ >? _) eqn:E2; [done|]. by rewrite app_assoc.
Qed.

Lemma Wrote_Put w bs : writer_ok w → Wrote w bs (Put bs w).
Proof.
  unfold Wrote, Put, writer_ok, writer_size. intros Hok.
  destruct (overflowed_ w) eqn:Ho; [done|]. simpl.
  destruct (_ >? _) eqn:E; bool_to_prop; destruct (_ >? _) eqn:E2; bool_to_prop; try done; lia.
Qed.

Lemma Wrote_PutByte w b : writer_ok w → Wrote w [b] (PutByte b w).
Proof.
  unfold Wrote, PutByte, writer_ok, writer_size. intros Hok.
  destruct (overflowed_ w) eqn:Ho; [done|]. simpl.
  by destruct (_ >? _).
Qed.

Lemma PutByte_ok w b : writer_ok w → writer_ok (PutByte b w).
Proof.
  unfold writer_ok, PutByte, writer_size. intros Hok.
  destruct (overflowed_ w); [done|]. destruct (_ >? _) eqn:E; [done|].
  bool_to_prop. simpl. rewrite length_app. simpl. lia.
Qed.

Lemma Put_ok w bs : writer_ok w → writer_ok (Put bs w).
Proof.
  unfold writer_ok, Put, writer_size. intros Hok.
  destruct (overflowed_ w); [done|]. destruct (_ >? _) eqn:E; [done|].
  bool_to_prop. simpl. rewrite length_app. lia.
Qed.

#[export] Hint Resolve PutByte_ok Put_ok Wrote_refl Wrote_Put Wrote_PutByte : pp.

(** [Writes op bs]: the operation preserves the invariant and appends [bs]. *)
Definition Writes (op : ByteWriter → ByteWriter) (bs : bytes) : Prop :=
  ∀ w, writer_ok w → writer_ok (op w) ∧ Wrote w bs (op w).

Lemma Writes_comp f g a b : Writes f a → Writes g b → Writes (λ w, g (f w)) (a ++ b).
Proof.
  intros Hf Hg w Hw. destruct (Hf w Hw) as [Hok Hwf].
  destruct (Hg (f w) Hok) as [Hok' Hwg]. eauto using Wrote_trans.
Qed.

Lemma Writes_id : Writes (λ w, w) [].
Proof. intros w. auto with pp. Qed.

Lemma Writes_fold {A} (op : A → ByteWriter → ByteWriter) (enc : A → bytes) l :
  (∀ x, x ∈ l → Writes (op x) (enc x)) →
  Writes (λ w, fold_left (λ w x, op x w) l w) (flat_map enc l).
Proof.
  induction l as [|x l IH]; intros Hop; simpl; [apply Writes_id|].
  refine (Writes_comp (op x) _ _ _ (Hop x _) (IH _)); [by left|].
  intros y Hy. apply Hop. by right.
Qed.

Lemma Writes_PutByte b : Writes (PutByte b) [b].
Proof. intros w. auto with pp. Qed.

Lemma Writes_FixedBytes bs : Writes (FixedBytes bs) bs.
Proof. intros w. unfold FixedBytes. auto with pp. Qed.

Lemma Writes_put_shifted l v :
  Writes (put_shifted l v) (map (λ s, Z.land (Z.shiftr v s) 255) l).
Proof.
  unfold put_shifted.
  replace (map _ l) with (flat_map (λ s, [Z.land (Z.shiftr v s) 255]) l)
    by (clear; induction l; simpl; congruence).
  apply (Writes_fold (λ s, PutByte (Z.land (Z.shiftr v s) 255))).
  intros s _. apply Writes_PutByte.
Qed.

Lemma Writes_U32 v : Writes (U32 v) (le_bytes 4 v).
Proof. apply Writes_put_shifted. Qed.

Lemma Writes_U64 v : Writes (U64 v) (le_bytes 8 v).
Proof. apply Writes_put_shifted. Qed.

Lemma Writes_U16 v : Writes (U16 v) (le_bytes 2 v).
Proof.
  unfold le_bytes. simpl. rewrite Z.shiftr_0_r.
  apply (Writes_comp (PutByte _) (PutByte _) [_] [_]); apply Writes_PutByte.
Qed.

Lemma Writes_VarU64_loop fuel v : Writes (VarU64_loop fuel v) (varint fuel v).
Proof.
  revert v. induction fuel as [|fuel IH]; intros v; simpl; [apply Writes_id|].
  destruct (v >=? 128); [|apply Writes_PutByte].
  apply (Writes_comp (PutByte _) (VarU64_loop fuel _) [_]); [apply Writes_PutByte|apply IH].
Qed.

Lemma Writes_VarU64 v : Writes (VarU64 v) (varint_bytes v).
Proof. apply Writes_VarU64_loop. Qed.

Lemma Writes_Bool b : Writes (Bool b) [if b then 1 else 0].
Proof. apply Writes_PutByte. Qed.

Lemma Writes_U8 v : Writes (U8 v) [v].
Proof. apply Writes_PutByte. Qed.

Lemma Writes_Text s :
  Writes (Text s) (varint_bytes (Z.of_nat (length (text_bytes s))) ++ text_bytes s).
Proof. apply (Writes_comp (VarU64 _) (Put _)); [apply Writes_VarU64|apply Writes_FixedBytes]. Qed.

Create HintDb writes discriminated.
#[export] Hint Constants Opaque : writes.
#[export] Hint Resolve Writes_id Writes_PutByte Writes_FixedBytes Writes_U8 Writes_U16
  Writes_U32 Writes_U64 Writes_VarU64 Writes_Bool Writes_Text : writes.

(** Splits a pipeline of writer operations into its stages. *)
Ltac writes_step :=
  lazymatch goal with
  | |- Writes (λ w, fold_left (λ w' x, ?op x w') ?l w) _ => apply Writes_fold; intros ? _
  | |- Writes (λ w, ?f (?g w)) _ => eapply (Writes_comp (λ w, g w) f)
  | |- Writes (λ w, @?g w) _ => progress eauto with writes
  end.

(** ** Round trips *)

(** [Reads dec bs a]: wherever [bs] stands in the input, [dec] consumes exactly
    it and returns [a]. *)
Definition Reads {A} (dec : Reader A) (bs : bytes) (a : A) : Prop :=
  ∀ pre post,
    dec (MkReader (pre ++ bs ++ post) (length pre) false) =
      (Some a, MkReader (pre ++ bs ++ post) (length pre + length bs) false).

Lemma Reads_ret {A} (a : A) : Reads (rret a) [] a.
Proof. intros pre post. unfold rret. simpl. by rewrite Nat.add_0_r. Qed.

Lemma Reads_bind {A B} (m : Reader A) (k : A → Reader B) bs cs a b :
  Reads m bs a → Reads (k a) cs b → Reads (rbind m k) (bs ++ cs) b.
Proof.
  intros Hm Hk pre post. unfold rbind.
  specialize (Hm pre (cs ++ post)). specialize (Hk (pre ++ bs) post).
  rewrite <- !app_assoc in Hk. rewrite <- !app_assoc, Hm.
  rewrite length_app in Hk. rewrite Hk, length_app. by rewrite Nat.add_assoc.
Qed.

Lemma Reads_fail_when {A} c (k : Reader A) bs a :
  c = false → Reads k bs a → Reads (fail_when c k) bs a.
Proof. intros -> Hk pre post. apply Hk. Qed.

Lemma drop_prefix (pre l : bytes) : drop (length pre) (pre ++ l) = l.
Proof. by rewrite drop_app_length. Qed.

Lemma Need_prefix n pre bs post :
  n = length bs →
  Need n (MkReader (pre ++ bs ++ post) (length pre) false) =
    (true, MkReader (pre ++ bs ++ post) (length pre) false).
Proof.
  intros ->. unfold Need, Remaining. simpl. rewrite !length_app.
  destruct (_ <? _)%nat eqn:E; [|done]. bool_to_prop. lia.
Qed.

Lemma Reads_View n bs : n = length bs → Reads (View n) bs bs.
Proof.
  intros Hn pre post. unfold View. rewrite Need_prefix by done. simpl.
  rewrite drop_prefix, Hn, take_app_length. unfold advance. simpl. done.
Qed.

Lemma nth_prefix i pre bs post :
  (i < length bs)%nat → nth (length pre + i) (pre ++ bs ++ post) 0 = nth i bs 0.
Proof.
  intros Hi. rewrite app_nth2 by lia. rewrite app_nth1 by lia. f_equal. lia.
Qed.

Lemma Reads_U8 b : Reads RU8 [b] b.
Proof.
  intros pre post. unfold RU8. rewrite Need_prefix by done. cbn -[nth].
  by rewrite app_nth2, Nat.sub_diag by lia.
Qed.

(** The byte at index [i] of the little-endian form. *)
Lemma nth_le_bytes n v i :
  (i < n)%nat → nth i (le_bytes n v) 0 = Z.land (Z.shiftr v (8 * Z.of_nat i)) 255.
Proof.
  intros Hi. unfold le_bytes.
  rewrite (nth_indep _ 0 (Z.land (Z.shiftr v (8 * Z.of_nat 0)) 255))
    by (rewrite length_map, length_seq; lia).
  rewrite (map_nth (λ i, Z.land (Z.shiftr v (8 * Z.of_nat i)) 255)).
  by rewrite seq_nth by lia.
Qed.

Lemma length_le_bytes n v : length (le_bytes n v) = n.
Proof. unfold le_bytes. by rewrite length_map, length_seq. Qed.

(** Or-ing a shifted chunk above the bits already gathered is an addition. *)
Lemma lor_shiftl_add a b s :
  0 <= s → 0 <= a < 2 ^ s → Z.lor a (Z.shiftl b s) = a + b * 2 ^ s.
Proof.
  intros Hs Ha. rewrite <- Z.shiftl_mul_pow2 by done.
  assert (Hdisj : Z.land a (Z.shiftl b s) = 0).
  { apply Z.bits_inj'. intros n Hn. rewrite Z.land_spec, Z.bits_0.
    destruct (Z.lt_ge_cases n s).
    - rewrite Z.shiftl_spec_low by lia. apply andb_false_r.
    - destruct (Z.eq_dec a 0) as [->|]; [by rewrite Z.bits_0|].
      assert (a < 2 ^ n).
      { apply Z.lt_le_trans with (2 ^ s); [lia|]. apply Z.pow_le_mono_r; lia. }
      assert (Z.log2 a < n) by (apply Z.log2_lt_pow2; lia).
      by rewrite (Z.bits_above_log2 a n) by lia. }
  by rewrite Z.add_nocarry_lxor, Z.lxor_lor by done.
Qed.

Lemma land_255 z : Z.land z 255 = z mod 2 ^ 8.
Proof. change 255 with (Z.ones 8). by apply Z.land_ones. Qed.

Lemma le_bytes_range n v : Forall is_byte (le_bytes n v).
Proof.
  unfold le_bytes. apply Forall_forall. intros b [i [-> _]]%list_elem_of_fmap.
  rewrite land_255. apply Z.mod_pos_bound. lia.
Qed.

(** Gathering the first [k] bytes recovers [v mod 2^(8k)]. *)
Lemma gather_le_bytes n v pre post k :
  (k <= n)%nat →
  fold_left (λ value i,
    Z.lor value (Z.shiftl (nth (length pre + i) (pre ++ le_bytes n v ++ post) 0)
                          (8 * Z.of_nat i))) (seq 0 k) 0 = v mod 2 ^ (8 * Z.of_nat k).
Proof.
  induction k as [|k IH]; intros Hk; [by rewrite Z.mod_1_r|].
  rewrite seq_S, fold_left_app, IH by lia. simpl.
  rewrite nth_prefix by (rewrite length_le_bytes; lia).
  rewrite nth_le_bytes by lia.
  rewrite lor_shiftl_add by (try apply Z.mod_pos_bound; lia).
  rewrite land_255, Z.shiftr_div_pow2 by lia.
  replace (8 * Z.of_nat (S k)) with (8 * Z.of_nat k + 8) by lia.
  rewrite Z.pow_add_r by lia.
  rewrite (Z.rem_mul_r v (2 ^ (8 * Z.of_nat k)) (2 ^ 8)) by lia. lia.
Qed.

Lemma Reads_UInt n v : 0 <= v < 2 ^ (8 * Z.of_nat n) → Reads (RUint n) (le_bytes n v) v.
Proof.
  intros Hv pre post. unfold RUint.
  rewrite Need_prefix by (by rewrite length_le_bytes). cbn -[seq nth].
  unfold gather. cbn [position_ rdata_]. rewrite gather_le_bytes by done.
  rewrite Z.mod_small by done. by rewrite length_le_bytes.
Qed.

Lemma Reads_U32 v : 0 <= v <= u32_max → Reads RU32 (le_bytes 4 v) v.
Proof. unfold u32_max. intros. apply Reads_UInt. simpl. lia. Qed.

Lemma Reads_U64 v : 0 <= v <= u64_max → Reads RU64 (le_bytes 8 v) v.
Proof. unfold u64_max. intros. apply Reads_UInt. simpl. lia. Qed.

Lemma Reads_Bool (b : bool) : Reads RBool [if b then 1 else 0] b.
Proof.
  rewrite <- (app_nil_r [if b then 1 else 0]).
  eapply Reads_bind; [apply Reads_U8|].
  apply Reads_fail_when; [by destruct b|]. destruct b; apply Reads_ret.
Qed.

(** ** LEB128: round trip and canonicity *)

Lemma land_127 z : Z.land z 127 = z mod 128.
Proof. change 127 with (Z.ones 7). by apply Z.land_ones. Qed.

Lemma land_128 z : 0 <= z < 256 → (Z.land z 128 =? 0) = (z <? 128).
Proof.
  intros Hz.
  assert (Hall : forallb (λ n, Bool.eqb (Z.land (Z.of_nat n) 128 =? 0) (Z.of_nat n <? 128))
                   (seq 0 256) = true) by (by vm_compute).
  rewrite forallb_forall in Hall.
  specialize (Hall (Z.to_nat z)). rewrite Z2Nat.id in Hall by lia.
  apply eqb_prop, Hall, in_seq. lia.
Qed.

Lemma lor_128 z : Z.lor (z mod 128) 128 = z mod 128 + 128.
Proof.
  change (Z.lor (z mod 128) 128) with (Z.lor (z mod 2 ^ 7) (Z.shiftl 1 7)).
  rewrite lor_shiftl_add; [done|lia|]. apply Z.mod_pos_bound. lia.
Qed.

(** The value range the decoder still accepts at round [i]. *)
Definition varint_room (i : nat) : Z := 2 ^ (64 - 7 * Z.of_nat i).

Lemma varint_room_step i v :
  (i < 9)%nat → 0 <= v < varint_room i → 0 <= v / 128 < varint_room (S i).
Proof.
  unfold varint_room. intros Hi Hv. split; [apply Z.div_pos; lia|].
  apply Z.div_lt_upper_bound; [lia|].
  replace (64 - 7 * Z.of_nat i) with (7 + (64 - 7 * Z.of_nat (S i))) in Hv by lia.
  rewrite Z.pow_add_r in Hv by lia. change (2 ^ 7) with 128 in Hv. lia.
Qed.

Lemma Reads_VarU64_loop n i v acc :
  (n + i = 10)%nat → (1 <= n)%nat → 0 <= v < varint_room i →
  ((0 < i)%nat → v ≠ 0) → 0 <= acc < 2 ^ (7 * Z.of_nat i) →
  Reads (RVarU64_loop n i acc) (varint n v) (acc + v * 2 ^ (7 * Z.of_nat i)).
Proof.
  revert i v acc. induction n as [|n IH]; intros i v acc Hni Hn Hv Hnz Hacc; [lia|].
  cbn [varint RVarU64_loop].
  assert (Hlast : i = 9%nat → v < 2) by (intros ->; unfold varint_room in Hv; simpl in Hv; lia).
  destruct (v >=? 128) eqn:Hbig; bool_to_prop.
  - rewrite land_127, lor_128. pose proof (Z.mod_pos_bound v 128 ltac:(lia)).
    change (?x :: ?l) with ([x] ++ l). eapply Reads_bind; [apply Reads_U8|].
    rewrite land_127, <- (Z.add_mod_idemp_r _ 128), Z.add_0_r, Z.mod_mod by lia.
    apply Reads_fail_when.
    { destruct (Z.eq_dec (7 * Z.of_nat i) 63); [|by rewrite (proj2 (Z.eqb_neq _ _))].
      assert (i = 9%nat) by lia. lia. }
    rewrite land_128, (proj2 (Z.ltb_ge _ _)) by lia.
    rewrite lor_shiftl_add by lia. rewrite Z.shiftr_div_pow2 by lia.
    assert (i < 9)%nat by (destruct (decide (i = 9%nat)); [lia|lia]).
    change (2 ^ 7) with 128 in *.
    replace (acc + v * 2 ^ (7 * Z.of_nat i)) with
      (acc + v mod 128 * 2 ^ (7 * Z.of_nat i) + v / 128 * 2 ^ (7 * Z.of_nat (S i))).
    + apply IH; [lia|lia|by apply varint_room_step| |].
      * pose proof (Z.div_le_lower_bound v 128 1 ltac:(lia)). lia.
      * replace (7 * Z.of_nat (S i)) with (7 * Z.of_nat i + 7) by lia.
        rewrite Z.pow_add_r by lia. change (2 ^ 7) with 128. nia.
    + replace (7 * Z.of_nat (S i)) with (7 + 7 * Z.of_nat i) by lia.
      rewrite Z.pow_add_r by lia. change (2 ^ 7) with 128.
      rewrite (Z.div_mod v 128) at 3 by lia. lia.
  - rewrite <- (app_nil_r [v]). eapply Reads_bind; [apply Reads_U8|].
    rewrite land_127, Z.mod_small by lia. apply Reads_fail_when.
    { destruct (Z.eq_dec (7 * Z.of_nat i) 63); [|by rewrite (proj2 (Z.eqb_neq _ _))].
      assert (i = 9%nat) by lia. rewrite (Z.gtb_ltb v). destruct (1 <? v) eqn:?; bool_to_prop; [lia|].
      apply andb_false_r. }
    rewrite land_128, (proj2 (Z.ltb_lt _ _)) by lia. apply Reads_fail_when.
    { destruct (0 <? i)%nat eqn:?; bool_to_prop; [|done]. apply Z.eqb_neq. lia. }
    rewrite lor_shiftl_add by lia. apply Reads_ret.
Qed.

Lemma Reads_VarU64 v : 0 <= v <= u64_max → Reads RVarU64 (varint_bytes v) v.
Proof.
  unfold u64_max. intros Hv.
  pose proof (Reads_VarU64_loop 10 0 v 0) as HR. rewrite Z.mul_1_r in HR.
  apply HR; try lia. unfold varint_room. simpl. lia.
Qed.

Lemma RU8_inv r b r' :
  RU8 r = (Some b, r') →
  failed_ r = false ∧ r' = advance 1 r ∧
  drop (position_ r) (rdata_ r) = b :: drop (S (position_ r)) (rdata_ r).
Proof.
  unfold RU8, Need, Remaining. destruct (failed_ r) eqn:Hf; [done|].
  destruct (_ <? _)%nat eqn:E; [done|]. bool_to_prop. intros [= <- <-].
  split_and!; [done..|].
  destruct (lookup_lt_is_Some_2 (rdata_ r) (position_ r) ltac:(lia)) as [x Hx].
  rewrite (drop_S _ _ _ Hx). f_equal. by rewrite (nth_lookup_Some _ _ _ _ Hx).
Qed.

Lemma RVarU64_loop_inv n i acc r v r' :
  (n + i = 10)%nat → Forall is_byte (rdata_ r) → 0 <= acc < 2 ^ (7 * Z.of_nat i) →
  RVarU64_loop n i acc r = (Some v, r') →
  ∃ x rest, 0 <= x < varint_room i ∧ ((0 < i)%nat → x ≠ 0) ∧
    v = acc + x * 2 ^ (7 * Z.of_nat i) ∧
    drop (position_ r) (rdata_ r) = varint n x ++ rest ∧
    r' = advance (length (varint n x)) r.
Proof.
  revert i acc r. induction n as [|n IH]; intros i acc r Hni Hbytes Hacc; [done|].
  cbn [RVarU64_loop]. unfold rbind at 1.
  destruct (RU8 r) as [[b|] r1] eqn:E; [|done].
  apply RU8_inv in E as (Hf & -> & Hdrop).
  assert (Hb : is_byte b).
  { rewrite Forall_forall in Hbytes. apply Hbytes.
    rewrite <- (take_drop (position_ r)), Hdrop, elem_of_app. right. by left. }
  unfold is_byte in Hb. unfold fail_when at 1.
  destruct (_ && _) eqn:Hguard; [done|].
  rewrite land_127 in *. pose proof (Z.mod_pos_bound b 128 ltac:(lia)) as Hlow.
  assert (Hroom : 64 - 7 * Z.of_nat i = 7 + (64 - 7 * Z.of_nat (S i))) by lia.
  assert (H63 : i = 9%nat → b mod 128 <= 1).
  { intros ->. change (7 * Z.of_nat 9 =? 63) with true in Hguard.
    rewrite Z.gtb_ltb in Hguard. by apply Z.ltb_ge in Hguard. }
  clear Hguard. rewrite lor_shiftl_add by lia.
  rewrite land_128 by done. destruct (b <? 128) eqn:Hsmall; bool_to_prop.
  - rewrite Z.mod_small in * by lia. unfold fail_when.
    destruct (_ && _) eqn:Hz; [done|]. unfold rret. intros [= <- <-].
    exists b, (drop (S (position_ r)) (rdata_ r)). split_and!.
    + lia.
    + unfold varint_room. destruct (decide (i = 9%nat)) as [->|]; [simpl; lia|].
      apply Z.lt_le_trans with (2 ^ 7); [lia|]. apply Z.pow_le_mono_r; lia.
    + intros Hi ->. apply Nat.ltb_lt in Hi. by rewrite Hi in Hz.
    + done.
    + simpl. destruct (b >=? 128) eqn:?; bool_to_prop; [lia|done].
    + simpl. destruct (b >=? 128) eqn:?; bool_to_prop; [lia|done].
  - intros Hloop. apply IH in Hloop as (x & rest & Hx & Hnz & -> & Hd & ->); [|lia|done|].
    2:{ replace (7 * Z.of_nat (S i)) with (7 * Z.of_nat i + 7) by lia.
        rewrite Z.pow_add_r by lia. change (2 ^ 7) with 128. nia. }
    assert (i ≠ 9%nat).
    { intros ->. unfold varint_room in Hx. change (2 ^ (64 - 7 * Z.of_nat 10)) with 0 in Hx. lia. }
    specialize (Hnz ltac:(lia)).
    assert (Hdiv : (b mod 128 + x * 128) / 128 = x)
      by (rewrite Z.div_add, Z.div_small by lia; lia).
    assert (Hmod : (b mod 128 + x * 128) mod 128 = b mod 128)
      by (rewrite Z.mod_add, Z.mod_mod by lia; done).
    assert (Henc : varint (S n) (b mod 128 + x * 128) = b :: varint n x).
    { cbn [varint]. destruct (_ >=? 128) eqn:?; bool_to_prop; [|lia].
      rewrite land_127, lor_128, Hmod, Z.shiftr_div_pow2 by lia.
      change (2 ^ 7) with 128. rewrite Hdiv. f_equal.
      pose proof (Z.mod_eq b 128 ltac:(lia)). assert (b / 128 = 1); [|lia].
      symmetry. apply (Z.div_unique b 128 1 (b - 128)); lia. }
    exists (b mod 128 + x * 128), rest. split_and!; [lia| |lia| | |].
    + unfold varint_room in *. rewrite Hroom, Z.pow_add_r by lia.
      change (2 ^ 7) with 128. lia.
    + replace (7 * Z.of_nat (S i)) with (7 + 7 * Z.of_nat i) by lia.
      rewrite Z.pow_add_r by lia. change (2 ^ 7) with 128. lia.
    + rewrite Henc, Hdrop. simpl in *. rewrite Nat.add_1_r in Hd. by rewrite Hd.
    + rewrite Henc. unfold advance. simpl. f_equal. lia.
Qed.

Lemma length_varint n v : (1 <= length (varint (S n) v) <= S n)%nat.
Proof.
  revert v. induction n as [|n IH]; intros v; cbn [varint].
  { destruct (_ >=? _); simpl; lia. }
  destruct (_ >=? _); [|simpl; lia]. specialize (IH (Z.shiftr v 7)).
  cbn [length]. cbn [varint] in IH. lia.
Qed.

(** ** Hex round trips *)

(** Finite checks over the 256 byte values and the 256 characters. *)
Lemma hex_byte_check b : is_byte b →
  IsLowerHexDigit (hex_digit (Z.shiftr b 4)) = true ∧
  IsLowerHexDigit (hex_digit (Z.land b 15)) = true ∧
  Z.lor (Z.shiftl (LowerHexValue (hex_digit (Z.shiftr b 4))) 4)
        (LowerHexValue (hex_digit (Z.land b 15))) = b.
Proof.
  intros Hb.
  set (P z := IsLowerHexDigit (hex_digit (Z.shiftr z 4)) &&
              IsLowerHexDigit (hex_digit (Z.land z 15)) &&
              (Z.lor (Z.shiftl (LowerHexValue (hex_digit (Z.shiftr z 4))) 4)
                 (LowerHexValue (hex_digit (Z.land z 15))) =? z)).
  assert (Hall : forallb (λ n, P (Z.of_nat n)) (seq 0 256) = true) by (by vm_compute).
  rewrite forallb_forall in Hall. specialize (Hall (Z.to_nat b)).
  unfold is_byte in Hb. rewrite Z2Nat.id in Hall by lia. unfold P in Hall.
  rewrite !andb_true_iff, Z.eqb_eq in Hall.
  destruct Hall as [[? ?] ?]; [|done]. apply in_seq. lia.
Qed.

Lemma hex_char_check c : IsLowerHexDigit c = true →
  0 <= LowerHexValue c < 16 ∧ hex_digit (LowerHexValue c) = c.
Proof.
  destruct c as [[] [] [] [] [] [] [] []]; vm_compute; intros H;
    solve [discriminate H | split; [split; [intros ?|]; done|reflexivity]].
Qed.

Lemma nibble_join h l : 0 <= h < 16 → 0 <= l < 16 →
  Z.shiftr (Z.lor (Z.shiftl h 4) l) 4 = h ∧ Z.land (Z.lor (Z.shiftl h 4) l) 15 = l ∧
  is_byte (Z.lor (Z.shiftl h 4) l).
Proof.
  intros Hh Hl. rewrite Z.lor_comm, lor_shiftl_add by (simpl; lia).
  change 15 with (Z.ones 4). rewrite Z.land_ones, Z.shiftr_div_pow2 by lia.
  unfold is_byte. change (2 ^ 4) with 16. split_and!; [..|lia|lia].
  - rewrite Z.div_add, Z.div_small by lia. lia.
  - rewrite Z.mod_add, Z.mod_small by lia. done.
Qed.

Lemma length_HexEncode bs : String.length (HexEncode bs) = (length bs * 2)%nat.
Proof. induction bs; simpl; lia. Qed.

Lemma hex_decode_encode bs :
  Forall is_byte bs → hex_decode_loop (length bs) (HexEncode bs) = Some bs.
Proof.
  induction 1 as [|b bs Hb _ IH]; [done|]. cbn [HexEncode length hex_decode_loop].
  destruct (hex_byte_check b Hb) as (-> & -> & ->). simpl. by rewrite IH.
Qed.

Lemma hex_decode_loop_inv n text bs :
  String.length text = (n * 2)%nat → hex_decode_loop n text = Some bs →
  HexEncode bs = text ∧ length bs = n ∧ Forall is_byte bs.
Proof.
  revert text bs. induction n as [|n IH]; intros text bs Hlen; simpl.
  { intros [= <-]. by destruct text. }
  destruct text as [|high [|low rest]]; [done|done|].
  destruct (IsLowerHexDigit high) eqn:Hh; [|done].
  destruct (IsLowerHexDigit low) eqn:Hl; [|done]. simpl.
  destruct (hex_decode_loop n rest) as [tail|] eqn:E; [|done]. simpl.
  intros [= <-]. simpl in Hlen. apply IH in E as (HE & Hn & Hb); [|lia].
  apply hex_char_check in Hh as [Hh Hhc], Hl as [Hl Hlc].
  destruct (nibble_join _ _ Hh Hl) as (Hs & Ha & Hbyte).
  cbn [HexEncode length]. rewrite Hs, Ha, Hhc, Hlc, HE, Hn. auto.
Qed.

(** ** Theorems *)

(** Encoding any 64-bit value as LEB128 on a writer with room for it and
    decoding the bytes from any position of any input returns the value and
    consumes exactly those bytes. *)
Theorem varint_roundtrip v w :
  0 <= v <= u64_max → writer_ok w → overflowed_ w = false →
  writer_size w + 10 <= ceiling_ w →
  let w' := VarU64 v w in
  overflowed_ w' = false ∧
  ∃ bs, data_ w' = data_ w ++ bs ∧ (1 <= length bs <= 10)%nat ∧
    ∀ pre post, RVarU64 (MkReader (pre ++ bs ++ post) (length pre) false) =
      (Some v, MkReader (pre ++ bs ++ post) (length pre + length bs) false).
Proof.
  intros Hv Hok Hov Hroom. cbn zeta.
  pose proof (length_varint 9 v) as Hlen. fold (varint_bytes v) in Hlen.
  destruct (Writes_VarU64 v w Hok) as [_ [_ HW]]. rewrite Hov in HW. simpl in HW.
  destruct (_ >? _) eqn:E in HW; bool_to_prop; [lia|]. rewrite HW. simpl.
  split; [done|]. exists (varint_bytes v). split_and!; [done|lia|lia|].
  by apply Reads_VarU64.
Qed.

(** C30: the decoder is canonical.  Whenever it returns a value the value fits 64
    bits and the bytes it consumed are the encoder's own shortest form, so no
    second byte string decodes to the same value. *)
Theorem varint_canonical r v r' :
  Forall is_byte (rdata_ r) → RVarU64 r = (Some v, r') →
  0 <= v <= u64_max ∧ r' = advance (length (varint_bytes v)) r ∧
  take (length (varint_bytes v)) (drop (position_ r) (rdata_ r)) = varint_bytes v.
Proof.
  intros Hb HR.
  destruct (RVarU64_loop_inv 10 0 0 r v r' eq_refl Hb ltac:(lia) HR)
    as (x & rest & Hx & _ & -> & Hd & ->).
  change (2 ^ (7 * Z.of_nat 0)) with 1 in *. rewrite Z.mul_1_r, Z.add_0_l.
  unfold varint_room in Hx. change (2 ^ (64 - 7 * Z.of_nat 0)) with (u64_max + 1) in Hx.
  split_and!; [lia..|done|]. unfold varint_bytes. by rewrite Hd, take_app_length.
Qed.

(** The hex codec is a bijection between byte strings and lowercase texts of
    twice their length. *)
Lemma HexDecodeStrict_spec text bs n :
  HexDecodeStrict text n = Some bs ↔ Forall is_byte bs ∧ length bs = n ∧ HexEncode bs = text.
Proof.
  unfold HexDecodeStrict. split.
  - destruct (_ =? _)%nat eqn:E; [|done]. bool_to_prop. simpl. intros Hd.
    apply hex_decode_loop_inv in Hd as (? & ? & ?); auto.
  - intros (Hb & <- & <-). rewrite length_HexEncode, Nat.eqb_refl. simpl.
    by apply hex_decode_encode.
Qed.

Example varint_roundtrip_witness :
  overflowed_ (VarU64 624485 (new_writer 64)) = false ∧
  data_ (VarU64 624485 (new_writer 64)) = [229; 142; 38].
Proof.
  destruct (varint_roundtrip 624485 (new_writer 64)) as [H _];
    [done|done|done|done|]. split; [exact H|reflexivity].
Defined.

Example varint_canonical_witness :
  RVarU64 (new_reader [229; 142; 38; 7]) = (Some 624485, MkReader [229; 142; 38; 7] 3 false) ∧
  take 3 [229; 142; 38; 7] = varint_bytes 624485.
Proof.
  assert (HR : RVarU64 (new_reader [229; 142; 38; 7]) =
               (Some 624485, MkReader [229; 142; 38; 7] 3 false)) by reflexivity.
  split; [exact HR|].
  destruct (varint_canonical (new_reader [229; 142; 38; 7]) 624485 _
    ltac:(repeat constructor; discriminate) HR) as (_ & _ & H). exact H.
Defined.

(** An over-long form is refused and latches the reader. *)
Example varint_overlong : RVarU64 (new_reader [128; 0]) = (None, MkReader [128; 0] 2 true).
Proof. reflexivity. Qed.
