(* ===== verification/Sha256.v ===== *)
(** sha256.hpp / sha256.cpp: the streaming SHA-256 used for every content
    identity.  The state machine ([Update] in arbitrary chunks, [Finish]) is
    reduced to one pass over the padded message, block by block; Sha256Spec.v
    shows that this pass is the function FIPS 180-4 defines. *)

From S2P Require Import Prelude Canonical.

Definition kSha256Bytes : nat := 32.

(** ** The compression function *)

(** Each row in hexadecimal, as the source writes it, above its decimal values. *)
Definition kRoundConstants : list Z := [
  (* 428a2f98 71374491 b5c0fbcf e9b5dba5 3956c25b 59f111f1 923f82a4 ab1c5ed5 *)
  1116352408; 1899447441; 3049323471; 3921009573; 961987163; 1508970993; 2453635748; 2870763221;
  (* d807aa98 12835b01 243185be 550c7dc3 72be5d74 80deb1fe 9bdc06a7 c19bf174 *)
  3624381080; 310598401; 607225278; 1426881987; 1925078388; 2162078206; 2614888103; 3248222580;
  (* e49b69c1 efbe4786 0fc19dc6 240ca1cc 2de92c6f 4a7484aa 5cb0a9dc 76f988da *)
  3835390401; 4022224774; 264347078; 604807628; 770255983; 1249150122; 1555081692; 1996064986;
  (* 983e5152 a831c66d b00327c8 bf597fc7 c6e00bf3 d5a79147 06ca6351 14292967 *)
  2554220882; 2821834349; 2952996808; 3210313671; 3336571891; 3584528711; 113926993; 338241895;
  (* 27b70a85 2e1b2138 4d2c6dfc 53380d13 650a7354 766a0abb 81c2c92e 92722c85 *)
  666307205; 773529912; 1294757372; 1396182291; 1695183700; 1986661051; 2177026350; 2456956037;
  (* a2bfe8a1 a81a664b c24b8b70 c76c51a3 d192e819 d6990624 f40e3585 106aa070 *)
  2730485921; 2820302411; 3259730800; 3345764771; 3516065817; 3600352804; 4094571909; 275423344;
  (* 19a4c116 1e376c08 2748774c 34b0bcb5 391c0cb3 4ed8aa4a 5b9cca4f 682e6ff3 *)
  430227734; 506948616; 659060556; 883997877; 958139571; 1322822218; 1537002063; 1747873779;
  (* 748f82ee 78a5636f 84c87814 8cc70208 90befffa a4506ceb bef9a3f7 c67178f2 *)
  1955562222; 2024104815; 2227730452; 2361852424; 2428436474; 2756734187; 3204031479; 3329325298].

Definition kInitialState : list Z := [
  (* 6a09e667 bb67ae85 3c6ef372 a54ff53a 510e527f 9b05688c 1f83d9ab 5be0cd19 *)
  1779033703; 3144134277; 1013904242; 2773480762; 1359893119; 2600822924; 528734635; 1541459225].

Definition RotateRight (value : Z) (n : Z) : Z :=
  Z.lor (Z.shiftr value n) (wrap32 (Z.shiftl value (32 - n))).

Definition schedule_word (block : bytes) (i : nat) : Z :=
  Z.lor (Z.lor (Z.lor (Z.shiftl (nth (i * 4) block 0) 24)
                      (Z.shiftl (nth (i * 4 + 1) block 0) 16))
               (Z.shiftl (nth (i * 4 + 2) block 0) 8))
        (nth (i * 4 + 3) block 0).

Definition schedule_step (schedule : list Z) (i : nat) : list Z :=
  let w15 := nth (i - 15) schedule 0 in
  let w2 := nth (i - 2) schedule 0 in
  let s0 := Z.lxor (Z.lxor (RotateRight w15 7) (RotateRight w15 18)) (Z.shiftr w15 3) in
  let s1 := Z.lxor (Z.lxor (RotateRight w2 17) (RotateRight w2 19)) (Z.shiftr w2 10) in
  schedule ++ [wrap32 (nth (i - 16) schedule 0 + s0 + nth (i - 7) schedule 0 + s1)].

Definition schedule_of (block : bytes) : list Z :=
  fold_left schedule_step (seq 16 48) (map (schedule_word block) (seq 0 16)).

(** The eight working variables [a .. h]. *)
Definition working : Type := Z * Z * Z * Z * Z * Z * Z * Z.

Definition round (schedule : list Z) (v : working) (i : nat) : working :=
  let '(a, b, c, d, e, f, g, h) := v in
  let sigma1 := Z.lxor (Z.lxor (RotateRight e 6) (RotateRight e 11)) (RotateRight e 25) in
  let choice := Z.lxor (Z.land e f) (Z.land (Z.lxor e u32_max) g) in
  let temp1 := wrap32 (h + sigma1 + choice + nth i kRoundConstants 0 + nth i schedule 0) in
  let sigma0 := Z.lxor (Z.lxor (RotateRight a 2) (RotateRight a 13)) (RotateRight a 22) in
  let majority := Z.lxor (Z.lxor (Z.land a b) (Z.land a c)) (Z.land b c) in
  let temp2 := wrap32 (sigma0 + majority) in
  (wrap32 (temp1 + temp2), a, b, c, wrap32 (d + temp1), e, f, g).

Definition Transform (state : list Z) (block : bytes) : list Z :=
  let s i := nth i state 0 in
  let '(a, b, c, d, e, f, g, h) :=
    fold_left (round (schedule_of block)) (seq 0 64)
      (s 0, s 1, s 2, s 3, s 4, s 5, s 6, s 7)%nat in
  [wrap32 (s 0%nat + a); wrap32 (s 1%nat + b); wrap32 (s 2%nat + c); wrap32 (s 3%nat + d);
   wrap32 (s 4%nat + e); wrap32 (s 5%nat + f); wrap32 (s 6%nat + g); wrap32 (s 7%nat + h)].

(** ** The streaming hasher *)

Record Sha256 := MkSha {
  state_ : list Z;
  buffer_ : bytes;          (* 64 bytes; only the first [buffered_] are live *)
  total_bytes_ : Z;
  buffered_ : nat
}.

Definition new_Sha256 : Sha256 := MkSha kInitialState (replicate 64 0) 0 0.

(** [while (buffered_ < buffer_.size() && offset < data.size())] *)
Fixpoint fill (data buffer : bytes) (n : nat) : bytes * nat * bytes :=
  match data with
  | b :: rest => if (n <? 64)%nat then fill rest (<[n := b]> buffer) (S n) else (buffer, n, data)
  | [] => (buffer, n, [])
  end.

(** [while (data.size() - offset >= buffer_.size()) Transform(...)] *)
Fixpoint direct (fuel : nat) (state : list Z) (data : bytes) : list Z * bytes :=
  match fuel with
  | O => (state, data)
  | S fuel =>
      if (64 <=? length data)%nat
      then direct fuel (Transform state (take 64 data)) (drop 64 data)
      else (state, data)
  end.

(** [while (offset < data.size())]: the tail goes to the buffer. *)
Fixpoint stash (data buffer : bytes) (n : nat) : bytes * nat :=
  match data with
  | b :: rest => stash rest (<[n := b]> buffer) (S n)
  | [] => (buffer, n)
  end.

Definition Update (data : bytes) (s : Sha256) : Sha256 :=
  let total := wrap64 (total_bytes_ s + Z.of_nat (length data)) in
  let '(state, buffer, buffered, rest) :=
    if (0 <? buffered_ s)%nat then
      let '(buffer, buffered, rest) := fill data (buffer_ s) (buffered_ s) in
      if (buffered =? 64)%nat
      then (Transform (state_ s) buffer, buffer, 0%nat, rest)
      else (state_ s, buffer, buffered, rest)
    else (state_ s, buffer_ s, buffered_ s, data) in
  let '(state, rest) := direct (length rest) state rest in
  let '(buffer, buffered) := stash rest buffer buffered in
  MkSha state buffer total buffered.

(** [while (buffered_ != 56) Update(zero)]: at most 64 rounds. *)
Fixpoint pad_zeros (fuel : nat) (s : Sha256) : Sha256 :=
  match fuel with
  | O => s
  | S fuel => if (buffered_ s =? 56)%nat then s else pad_zeros fuel (Update [0] s)
  end.

(** [(bit_length >> (8 * (7 - i))) & 0xFF] for [i < 8]. *)
Definition length_bytes (bit_length : Z) : bytes :=
  map (λ i, Z.land (Z.shiftr bit_length (8 * (7 - Z.of_nat i))) 255) (seq 0 8).

Definition word_bytes (w : Z) : bytes :=
  [Z.land (Z.shiftr w 24) 255; Z.land (Z.shiftr w 16) 255;
   Z.land (Z.shiftr w 8) 255; Z.land w 255].

Definition Finish (s : Sha256) : bytes :=
  let bit_length := wrap64 (total_bytes_ s * 8) in
  let s := Update [0x80] s in
  let s := pad_zeros 64 s in
  let s := Update (length_bytes bit_length) s in
  flat_map word_bytes (state_ s).

Definition Hash (data : bytes) : bytes := Finish (Update data new_Sha256).

(** [Sha256Digest::IsZero]. *)
Definition IsZero (digest : bytes) : bool := forallb (λ b, b =? 0) digest.

(** ** The block-wise specification (FIPS 180-4) *)

Fixpoint compress (k : nat) (state : list Z) (msg : bytes) : list Z :=
  match k with
  | O => state
  | S k => compress k (Transform state (take 64 msg)) (drop 64 msg)
  end.

(** A one bit, the fewest zeros that reach 56 modulo 64, and the bit length. *)
Definition sha_zeros (n : nat) : nat := ((119 - n mod 64) mod 64)%nat.
Definition sha_pad (msg : bytes) : bytes :=
  msg ++ [0x80] ++ replicate (sha_zeros (length msg)) 0 ++
  length_bytes (wrap64 (Z.of_nat (length msg) * 8)).

Definition sha256_spec (msg : bytes) : bytes :=
  let m := sha_pad msg in
  flat_map word_bytes (compress (length m / 64) kInitialState m).

(** ** Refinement *)

(** [Absorbed s msg]: the hasher has consumed [msg]: the whole blocks are
    compressed into the state and the tail is live in the buffer. *)
Definition Absorbed (s : Sha256) (msg : bytes) : Prop :=
  ∃ k blocks tail,
    msg = blocks ++ tail ∧ length blocks = (64 * k)%nat ∧ (length tail < 64)%nat ∧
    state_ s = compress k kInitialState blocks ∧
    length (buffer_ s) = 64%nat ∧ take (length tail) (buffer_ s) = tail ∧
    buffered_ s = length tail ∧ total_bytes_ s = wrap64 (Z.of_nat (length msg)).

Lemma compress_app k k' st a b :
  length a = (64 * k)%nat → compress (k + k') st (a ++ b) = compress k' (compress k st a) b.
Proof.
  revert st a. induction k as [|k IH]; intros st a Hlen; simpl.
  { by destruct a. }
  rewrite take_app_le, drop_app_le by lia. apply IH. rewrite length_drop. lia.
Qed.

Lemma compress_prefix k st a b :
  length a = (64 * k)%nat → compress k st (a ++ b) = compress k st a.
Proof.
  intros Hlen. rewrite <- (Nat.add_0_r k) at 1. by rewrite compress_app.
Qed.

Lemma stash_spec data buffer n :
  (n + length data <= length buffer)%nat →
  ∃ buffer', stash data buffer n = (buffer', n + length data)%nat ∧
    length buffer' = length buffer ∧
    take (n + length data) buffer' = take n buffer ++ data.
Proof.
  revert buffer n. induction data as [|b data IH]; intros buffer n Hn; simpl in *.
  { exists buffer. by rewrite Nat.add_0_r, app_nil_r. }
  destruct (IH (<[n:=b]> buffer) (S n)) as (buf & HS & Hl & Ht).
  { rewrite length_insert. lia. }
  exists buf. rewrite length_insert in Hl. rewrite Nat.add_succ_r in *.
  split_and!; [exact HS|done|]. cbn [Nat.add] in Ht. rewrite Ht.
  rewrite (take_S_r _ _ b) by (apply list_lookup_insert_eq; lia).
  rewrite take_insert_ge by lia. by rewrite <- app_assoc.
Qed.

Lemma fill_spec data buffer n :
  length buffer = 64%nat → (n <= 64)%nat →
  let m := Nat.min (64 - n) (length data) in
  ∃ buffer', fill data buffer n = (buffer', n + m, drop m data)%nat ∧
    length buffer' = 64%nat ∧ take (n + m) buffer' = take n buffer ++ take m data.
Proof.
  cbn zeta. revert buffer n. induction data as [|b data IH]; intros buffer n Hl Hn; simpl.
  { exists buffer. by rewrite Nat.min_0_r, Nat.add_0_r, app_nil_r. }
  destruct (n <? 64)%nat eqn:E; bool_to_prop.
  - destruct (IH (<[n:=b]> buffer) (S n)) as (buf & HF & Hb & Ht);
      [by rewrite length_insert|lia|].
    exists buf. replace (Nat.min (64 - n) (S (length data)))
      with (S (Nat.min (64 - S n) (length data))) by lia.
    rewrite Nat.add_succ_r. split_and!; [exact HF|done|].
    cbn [Nat.add take] in *. rewrite Ht.
    rewrite (take_S_r _ _ b) by (apply list_lookup_insert_eq; lia).
    rewrite take_insert_ge by lia. by rewrite <- app_assoc.
  - exists buffer. replace n with 64%nat by lia. simpl.
    by rewrite app_nil_r.
Qed.

Lemma direct_spec fuel st data :
  (length data <= fuel)%nat →
  ∃ k blocks tail, data = blocks ++ tail ∧ length blocks = (64 * k)%nat ∧
    (length tail < 64)%nat ∧ direct fuel st data = (compress k st blocks, tail).
Proof.
  revert st data. induction fuel as [|fuel IH]; intros st data Hf; cbn [direct].
  { exists 0%nat, [], []. destruct data; simpl in *; [|lia]. split_and!; [done..|lia|done]. }
  destruct (64 <=? length data)%nat eqn:E; bool_to_prop.
  - destruct (IH (Transform st (take 64 data)) (drop 64 data)) as (k & bl & tl & Hd & Hb & Ht & HD).
    { rewrite length_drop. lia. }
    assert (Hlen : length (take 64 data) = 64%nat) by (rewrite length_take; lia).
    exists (S k), (take 64 data ++ bl), tl. split_and!.
    + by rewrite <- app_assoc, <- Hd, take_drop.
    + rewrite length_app. lia.
    + done.
    + rewrite HD. cbn [compress].
      by rewrite (take_app_length' _ _ 64), (drop_app_length' _ _ 64) by lia.
  - exists 0%nat, [], data. by split_and!.
Qed.

Lemma Absorbed_new : Absorbed new_Sha256 [].
Proof. exists 0%nat, [], []. split_and!; try done. simpl. lia. Qed.

Lemma wrap64_add a b : wrap64 (wrap64 a + b) = wrap64 (a + b).
Proof. unfold wrap64. by rewrite Z.add_mod_idemp_l. Qed.

(** The direct-then-stash half of [Update], entered with an empty buffer. *)
Lemma Absorbed_direct s msg data k blocks buffer total st :
  msg = blocks → length blocks = (64 * k)%nat → length buffer = 64%nat →
  st = compress k kInitialState blocks →
  total = wrap64 (Z.of_nat (length (msg ++ data))) →
  s = (let '(state, rest) := direct (length data) st data in
       let '(buffer, buffered) := stash rest buffer 0 in
       MkSha state buffer total buffered) →
  Absorbed s (msg ++ data).
Proof.
  intros -> Hb Hbuf -> -> ->.
  destruct (direct_spec (length data) (compress k kInitialState blocks) data)
    as (k' & bl & tl & Hd & Hbl & Htl & HD); [done|].
  rewrite HD. destruct (stash_spec tl buffer 0) as (buf & HS & Hl & Ht); [lia|].
  simpl in HS. rewrite HS. exists (k + k')%nat, (blocks ++ bl), tl.
  simpl. rewrite length_app. split_and!; try done; [|lia| |congruence].
  - by rewrite Hd, app_assoc.
  - by rewrite compress_app.
Qed.

Lemma Update_absorbs s msg data : Absorbed s msg → Absorbed (Update data s) (msg ++ data).
Proof.
  intros (k & bl & tl & -> & Hbl & Htl & Hst & Hbuf & Htake & Hn & Htot).
  assert (Htotal : wrap64 (total_bytes_ s + Z.of_nat (length data)) =
                   wrap64 (Z.of_nat (length ((bl ++ tl) ++ data)))).
  { by rewrite Htot, wrap64_add, (length_app (bl ++ tl) data), Nat2Z.inj_add. }
  unfold Update. destruct (0 <? buffered_ s)%nat eqn:E; bool_to_prop; rewrite Hn in *.
  2:{ destruct tl; [|simpl in E; lia]. rewrite app_nil_r in *. simpl.
      eapply (Absorbed_direct _ bl data k bl (buffer_ s)); [done..|exact Htotal|reflexivity]. }
  destruct (fill_spec data (buffer_ s) (length tl)) as (buf & HF & Hl & Ht); [done|lia|].
  rewrite Htake in Ht. rewrite HF. 
  assert (Hm : ∃ m, m = Nat.min (64 - length tl) (length data)) by eauto.
  destruct Hm as [m Hm]. rewrite <- Hm in *.
  destruct (_ =? 64)%nat eqn:E64; bool_to_prop.
  - assert (Hfull : buf = tl ++ take m data) by (rewrite <- Ht, E64, take_ge by lia; done).
    rewrite <- (take_drop m data) at 3. rewrite (app_assoc (bl ++ tl)).
    eapply (Absorbed_direct _ _ (drop m data) (S k) _ buf); [reflexivity| |done| | |reflexivity].
    + rewrite !length_app, length_take. lia.
    + rewrite <- app_assoc, <- Hfull, <- (Nat.add_1_r k), compress_app by done. simpl.
      by rewrite take_ge, Hst by lia.
    + by rewrite <- app_assoc, take_drop.
  - assert (m = length data) as Hm' by lia. rewrite Hm', drop_all. simpl.
    rewrite Hm', (take_ge data) in Ht by lia.
    exists k, bl, (tl ++ data). simpl. rewrite length_app.
    split_and!; try done; [by rewrite app_assoc|lia].
Qed.


Lemma Absorbed_buffered s msg : Absorbed s msg → buffered_ s = (length msg mod 64)%nat.
Proof.
  intros (k & bl & tl & -> & Hbl & Htl & _ & _ & _ & Hn & _).
  rewrite Hn, length_app, Hbl. rewrite (Nat.add_comm (64 * k)), (Nat.mul_comm 64).
  by rewrite Nat.Div0.mod_add, Nat.mod_small.
Qed.

(** Zeros still to append after [n] bytes so that the count is 56 modulo 64. *)
Definition zeros_to_56 (n : nat) : nat := ((120 - n mod 64) mod 64)%nat.

Lemma zeros_to_56_step n :
  (n mod 64 ≠ 56 → zeros_to_56 n = S (zeros_to_56 (S n)))%nat.
Proof.
  unfold zeros_to_56. intros Hne. pose proof (Nat.mod_upper_bound n 64 ltac:(lia)).
  replace ((S n) mod 64)%nat with ((n mod 64 + 1) mod 64)%nat
    by (rewrite Nat.Div0.add_mod_idemp_l; f_equal; lia).
  generalize dependent (n mod 64)%nat. intros r Hne Hr.
  destruct (decide (r = 63)%nat) as [->|]; [done|]. rewrite (Nat.mod_small (r + 1)) by lia.
  destruct (decide (r < 56)%nat).
  - replace (120 - r)%nat with (56 - r + 1 * 64)%nat by lia.
    replace (120 - (r + 1))%nat with (55 - r + 1 * 64)%nat by lia.
    rewrite !Nat.Div0.mod_add, !Nat.mod_small by lia. lia.
  - rewrite !Nat.mod_small by lia. lia.
Qed.

Lemma pad_zeros_absorbs fuel s msg :
  Absorbed s msg → (zeros_to_56 (length msg) <= fuel)%nat →
  Absorbed (pad_zeros fuel s) (msg ++ replicate (zeros_to_56 (length msg)) 0).
Proof.
  revert s msg. induction fuel as [|fuel IH]; intros s msg HA Hf.
  { replace (zeros_to_56 (length msg)) with 0%nat by lia. by rewrite app_nil_r. }
  cbn [pad_zeros]. rewrite (Absorbed_buffered s msg HA).
  destruct (_ =? _)%nat eqn:E; bool_to_prop.
  - unfold zeros_to_56. rewrite E. by rewrite app_nil_r.
  - rewrite (zeros_to_56_step _ E) in *. cbn [replicate].
    change (0 :: ?l) with ([0] ++ l). rewrite (app_assoc msg).
    replace (S (length msg)) with (length (msg ++ [0])) in *
      by (rewrite length_app; simpl; lia).
    apply IH; [by apply Update_absorbs|lia].
Qed.

Lemma Finish_absorbed s msg : Absorbed s msg → Finish s = sha256_spec msg.
Proof.
  intros HA. pose proof HA as (? & ? & ? & _ & _ & _ & _ & _ & _ & _ & Htot).
  unfold Finish. rewrite Htot.
  replace (wrap64 (wrap64 (Z.of_nat (length msg)) * 8))
    with (wrap64 (Z.of_nat (length msg) * 8)) by (unfold wrap64; by rewrite Z.mul_mod_idemp_l).
  apply (Update_absorbs _ _ [0x80]) in HA.
  apply (pad_zeros_absorbs 64) in HA.
  2:{ unfold zeros_to_56. pose proof (Nat.mod_upper_bound (120 - length (msg ++ [128]) mod 64) 64).
      lia. }
  apply (Update_absorbs _ _ (length_bytes (wrap64 (Z.of_nat (length msg) * 8)))) in HA.
  assert (Hz : zeros_to_56 (length (msg ++ [128])) = sha_zeros (length msg)).
  { unfold zeros_to_56, sha_zeros. rewrite length_app. simpl length.
    rewrite <- Nat.Div0.add_mod_idemp_l.
    pose proof (Nat.mod_upper_bound (length msg) 64 ltac:(lia)).
    destruct (decide (length msg mod 64 = 63)%nat) as [->|]; [done|].
    rewrite (Nat.mod_small (_ + 1)) by lia. f_equal. lia. }
  rewrite Hz, <- !app_assoc in HA. fold (sha_pad msg) in HA.
  destruct HA as (k & bl & tl & Hpad & Hbl & Htl & Hst & _ & _ & Hn & _).
  unfold sha256_spec. cbn zeta. rewrite Hst.
  assert (Hmod : (length (sha_pad msg) mod 64 = 0)%nat).
  { unfold sha_pad, sha_zeros. rewrite !length_app, length_replicate.
    unfold length_bytes. rewrite length_map, length_seq. simpl length.
    pose proof (Nat.mod_upper_bound (length msg) 64 ltac:(lia)) as Hr.
    pose proof (Nat.div_mod_eq (length msg) 64) as Hdm.
    set (r := (length msg mod 64)%nat) in *.
    assert (Hq : ∃ q, (length msg + (1 + ((119 - r) mod 64 + 8)) = 64 * q)%nat).
    { destruct (decide (r < 56)%nat).
      - replace (119 - r)%nat with (55 - r + 1 * 64)%nat by lia.
        rewrite Nat.Div0.mod_add, Nat.mod_small by lia. exists (length msg / 64 + 1)%nat. lia.
      - rewrite Nat.mod_small by lia. exists (length msg / 64 + 2)%nat. lia. }
    destruct Hq as [q ->]. rewrite Nat.mul_comm. by rewrite Nat.Div0.mod_mul. }
  assert (tl = []) as ->.
  { rewrite Hpad, length_app, Hbl, (Nat.add_comm (64 * k)), (Nat.mul_comm 64),
      Nat.Div0.mod_add, Nat.mod_small in Hmod by done. by apply nil_length_inv. }
  rewrite app_nil_r in Hpad. rewrite Hpad, Hbl.
  by rewrite Nat.mul_comm, Nat.div_mul.
Qed.

Lemma Hash_spec msg : Hash msg = sha256_spec msg.
Proof. apply Finish_absorbed. apply (Update_absorbs _ []), Absorbed_new. Qed.

(** ** Theorems *)

Lemma Update_chunks chunks :
  Finish (fold_left (λ s chunk, Update chunk s) chunks new_Sha256) =
  sha256_spec (concat chunks).
Proof.
  apply Finish_absorbed. change (concat chunks) with ([] ++ concat chunks).
  generalize Absorbed_new. generalize new_Sha256, (@nil Z).
  induction chunks as [|c chunks IH]; intros s msg HA; simpl; [by rewrite app_nil_r|].
  rewrite app_assoc. apply IH. by apply Update_absorbs.
Qed.

(** A digest has 32 bytes. *)
Lemma length_Transform state block : length (Transform state block) = 8%nat.
Proof. unfold Transform. cbv zeta. by destruct (fold_left _ _ _) as [[[[[[[a b] c] d] e] f] g] h]. Qed.

Lemma length_compress k state msg : length state = 8%nat → length (compress k state msg) = 8%nat.
Proof. revert state msg. induction k; intros state msg Hs; simpl; [done|]. apply IHk, length_Transform. Qed.

Lemma length_Hash msg : length (Hash msg) = 32%nat.
Proof.
  rewrite Hash_spec. unfold sha256_spec. cbv zeta.
  pose proof (length_compress (length (sha_pad msg) / 64) kInitialState (sha_pad msg) eq_refl) as Hl.
  destruct (compress _ _ _) as [|s0 [|s1 [|s2 [|s3 [|s4 [|s5 [|s6 [|s7 [|]]]]]]]]]; try done.
Qed.

(** Hashing in two pieces. *)
Lemma Hash_two a b : Finish (Update b (Update a new_Sha256)) = Hash (a ++ b).
Proof.
  rewrite Hash_spec. pose proof (Update_chunks [a; b]) as H. simpl in H. by rewrite app_nil_r in H.
Qed.

(** The published test vector for the three bytes "abc". *)
Example sha256_abc :
  HexEncode (Hash (text_bytes "abc")) =
  "ba7816bf8f01cfea414140de5dae2223b00361a396177a9cb410ff61f20015ad"%string.
Proof. by vm_compute. Qed.

Example sha256_abc_chunks :
  Finish (Update (text_bytes "c") (Update (text_bytes "ab") new_Sha256)) =
  sha256_spec (text_bytes "abc").
Proof. apply (Update_chunks [text_bytes "ab"; text_bytes "c"]). Qed.
