(* ===== verification/Sha256Spec.v ===== *)
(** SHA-256 as FIPS 180-4 defines it, with definitions of its own (arithmetic on 32-bit
    words, constants from the roots of the first primes, padding counted in bits), and
    the proof that the hasher of sha256.cpp computes it. *)

From S2P Require Import Prelude Canonical Sha256.

Open Scope list_scope.
Open Scope Z_scope.

(** ** FIPS 180-4 *)

Module Fips.
(** Section 2.2.2: the operations on 32-bit words. *)
Definition w32 : Z := 2 ^ 32.
Definition rotr (n x : Z) : Z := x / 2 ^ n + x mod 2 ^ n * 2 ^ (32 - n).
Definition shr (n x : Z) : Z := x / 2 ^ n.
Definition xor3 (x y z : Z) : Z := Z.lxor (Z.lxor x y) z.

(** Section 4.1.2: the six logical functions. *)
Definition Ch (x y z : Z) : Z := Z.lxor (Z.land x y) (Z.land (Z.lnot x) z).
Definition Maj (x y z : Z) : Z := xor3 (Z.land x y) (Z.land x z) (Z.land y z).
Definition Sigma0 (x : Z) : Z := xor3 (rotr 2 x) (rotr 13 x) (rotr 22 x).
Definition Sigma1 (x : Z) : Z := xor3 (rotr 6 x) (rotr 11 x) (rotr 25 x).
Definition sigma0 (x : Z) : Z := xor3 (rotr 7 x) (rotr 18 x) (shr 3 x).
Definition sigma1 (x : Z) : Z := xor3 (rotr 17 x) (rotr 19 x) (shr 10 x).

(** The largest [r] with [r ^ k <= n], bit by bit from [2 ^ bits] down. *)
Fixpoint root_below (k : Z) (bits : nat) (n r : Z) : Z :=
  match bits with
  | O => r
  | S bits =>
      let r' := r + 2 ^ Z.of_nat bits in
      root_below k bits n (if r' ^ k <=? n then r' else r)
  end.
Definition prime (n : nat) : bool := forallb (λ d, negb (n mod d =? 0)%nat) (seq 2 (n - 2)).
Definition primes : list Z := map Z.of_nat (List.filter prime (seq 2 310)).

(** Sections 4.2.2 and 5.3.3: the first 32 bits of the fractional parts of the cube roots
    of the first 64 primes, and of the square roots of the first eight. *)
Definition K : list Z := map (λ p, root_below 3 40 (p * 2 ^ 96) 0 mod w32) primes.
Definition H0 : list Z := map (λ p, root_below 2 40 (p * 2 ^ 64) 0 mod w32) (take 8 primes).

(** Section 5.1.1: a one bit, the fewest zero bits that leave 448 modulo 512, and the
    length in bits in 64 bits; in whole bytes, the first of which holds the one bit. *)
Definition bit_length (msg : bytes) : Z := 8 * Z.of_nat (length msg).
Definition zero_bits (l : Z) : Z := (448 - (l + 1)) mod 512.
Definition big_endian_64 (l : Z) : bytes := map (λ i, l / 256 ^ i mod 256) [7; 6; 5; 4; 3; 2; 1; 0].
Definition pad (msg : bytes) : bytes :=
  let l := bit_length msg in
  msg ++ [128] ++ replicate (Z.to_nat ((zero_bits l - 7) / 8)) 0 ++ big_endian_64 l.

(** Section 5.2.1: a block is sixteen big-endian words. *)
Definition big_endian (l : bytes) : Z := fold_left (λ n b, n * 256 + b) l 0.
Definition words (block : bytes) : list Z :=
  map (λ t, big_endian (take 4 (drop (4 * t) block))) (seq 0 16).

(** Section 6.2.2, step 1: the message schedule, the newest word first. *)
Definition extend (w : list Z) : list Z :=
  let W t := nth (t - 1) w 0 in
  (sigma1 (W 2%nat) + W 7%nat + sigma0 (W 15%nat) + W 16%nat) mod w32 :: w.
Definition schedule (block : bytes) : list Z := rev (Nat.iter 48 extend (rev (words block))).

(** Step 3, for one constant and one word of the schedule. *)
Definition vars : Type := Z * Z * Z * Z * Z * Z * Z * Z.
Definition step (v : vars) (kw : Z * Z) : vars :=
  let '(a, b, c, d, e, f, g, h) := v in
  let T1 := (h + Sigma1 e + Ch e f g + kw.1 + kw.2) mod w32 in
  let T2 := (Sigma0 a + Maj a b c) mod w32 in
  ((T1 + T2) mod w32, a, b, c, (d + T1) mod w32, e, f, g).

(** Steps 2 and 4. *)
Definition compress (H : vars) (block : bytes) : vars :=
  let '(a, b, c, d, e, f, g, h) := fold_left step (zip K (schedule block)) H in
  let '(a0, b0, c0, d0, e0, f0, g0, h0) := H in
  ((a0 + a) mod w32, (b0 + b) mod w32, (c0 + c) mod w32, (d0 + d) mod w32,
   (e0 + e) mod w32, (f0 + f) mod w32, (g0 + g) mod w32, (h0 + h) mod w32).

Definition vars_of (l : list Z) : vars :=
  let H i := nth i l 0 in
  (H 0, H 1, H 2, H 3, H 4, H 5, H 6, H 7)%nat.
Definition list_of (v : vars) : list Z :=
  let '(a, b, c, d, e, f, g, h) := v in [a; b; c; d; e; f; g; h].

Definition blocks (m : bytes) : list bytes :=
  map (λ i, take 64 (drop (64 * i) m)) (seq 0 (length m / 64)).
Definition bytes_of (w : Z) : bytes := map (λ i, w / 256 ^ i mod 256) [3; 2; 1; 0].

Definition sha256 (msg : bytes) : bytes :=
  flat_map bytes_of (list_of (fold_left compress (blocks (pad msg)) (vars_of H0))).
End Fips.

(** ** The operations agree *)

Definition is_word (x : Z) : Prop := 0 <= x < Fips.w32.

Lemma w32_value : Fips.w32 = 4294967296.
Proof. reflexivity. Qed.

Lemma wrap32_mod x : wrap32 x = x mod Fips.w32.
Proof. reflexivity. Qed.

Lemma mod_word x : is_word (x mod Fips.w32).
Proof. apply Z.mod_pos_bound. reflexivity. Qed.

Lemma low_bits b n m : 0 <= n <= m → 0 <= b < 2 ^ n → Z.testbit b m = false.
Proof. intros Hn Hb. rewrite <-(Z.mod_small b (2 ^ n)) by done. apply Z.mod_pow2_bits_high. lia. Qed.

Lemma lor_disjoint a b n : 0 <= n → 0 <= b < 2 ^ n → Z.lor (Z.shiftl a n) b = a * 2 ^ n + b.
Proof.
  intros Hn Hb. rewrite <-Z.shiftl_mul_pow2 by done. rewrite <-Z.add_lor_land.
  assert (Z.land (Z.shiftl a n) b = 0) as ->; [|lia].
  apply Z.bits_inj'. intros m Hm. rewrite Z.land_spec, Z.bits_0.
  destruct (decide (m < n)) as [Hlt|Hge].
  - by rewrite Z.shiftl_spec_low.
  - rewrite (low_bits b n m) by lia. apply andb_false_r.
Qed.

Lemma rotate_spec x n : is_word x → 0 < n < 32 → RotateRight x n = Fips.rotr n x.
Proof.
  intros Hx Hn. unfold RotateRight, Fips.rotr, wrap32.
  assert (0 < 2 ^ n) as H1 by (apply Z.pow_pos_nonneg; lia).
  assert (0 < 2 ^ (32 - n)) as H2 by (apply Z.pow_pos_nonneg; lia).
  assert (2 ^ n * 2 ^ (32 - n) = 4294967296) as H3.
  { rewrite <-Z.pow_add_r by lia. by replace (n + (32 - n)) with 32 by lia. }
  assert ((Z.shiftl x (32 - n)) mod 4294967296 = Z.shiftl (x mod 2 ^ n) (32 - n)) as ->.
  { rewrite !Z.shiftl_mul_pow2 by lia. rewrite <-H3. by rewrite Z.mul_mod_distr_r by lia. }
  rewrite Z.lor_comm, lor_disjoint, Z.shiftr_div_pow2; [apply Z.add_comm|lia|lia|].
  rewrite Z.shiftr_div_pow2 by lia. split; [apply Z.div_pos; unfold is_word in Hx; lia|].
  apply Z.div_lt_upper_bound; [done|]. rewrite H3. exact (proj2 Hx).
Qed.

Lemma shift_spec x n : 0 <= n → Z.shiftr x n = Fips.shr n x.
Proof. apply Z.shiftr_div_pow2. Qed.

Lemma choice_spec e f g :
  is_word e → is_word g →
  Z.lxor (Z.land e f) (Z.land (Z.lxor e u32_max) g) = Fips.Ch e f g.
Proof.
  intros He Hg. unfold Fips.Ch. f_equal. apply Z.bits_inj'. intros m Hm.
  rewrite !Z.land_spec, Z.lxor_spec, Z.lnot_spec by done.
  destruct (decide (m < 32)) as [Hlt|Hge].
  - change u32_max with (Z.ones 32). rewrite Z.ones_spec_low by lia. by rewrite xorb_true_r.
  - rewrite (low_bits g 32 m) by (lia || exact Hg). by rewrite !andb_false_r.
Qed.

Lemma word_of_bytes b0 b1 b2 b3 :
  is_byte b0 → is_byte b1 → is_byte b2 → is_byte b3 →
  Z.lor (Z.lor (Z.lor (Z.shiftl b0 24) (Z.shiftl b1 16)) (Z.shiftl b2 8)) b3 =
  Fips.big_endian [b0; b1; b2; b3].
Proof.
  unfold is_byte. intros H0 H1 H2 H3.
  assert (Z.lor (Z.shiftl b0 24) (Z.shiftl b1 16) = Z.shiftl (b0 * 256 + b1) 16) as ->.
  { change 24 with (8 + 16). rewrite <-Z.shiftl_shiftl, <-Z.shiftl_lor by lia.
    by rewrite lor_disjoint by lia. }
  assert (Z.lor (Z.shiftl (b0 * 256 + b1) 16) (Z.shiftl b2 8) =
          Z.shiftl ((b0 * 256 + b1) * 256 + b2) 8) as ->.
  { change 16 with (8 + 8). rewrite <-Z.shiftl_shiftl, <-Z.shiftl_lor by lia.
    by rewrite lor_disjoint by lia. }
  rewrite lor_disjoint by lia. unfold Fips.big_endian. cbn [fold_left]. lia.
Qed.

Lemma constants_spec : kRoundConstants = Fips.K ∧ kInitialState = Fips.H0.
Proof. split; vm_compute; reflexivity. Qed.

(** ** The message schedule *)

Lemma words_spec block :
  length block = 64%nat → Forall is_byte block →
  map (schedule_word block) (seq 0 16) = Fips.words block ∧ Forall is_word (Fips.words block).
Proof.
  intros Hl Hb. do 64 (destruct block as [|? block]; [discriminate Hl|]).
  destruct block; [|discriminate Hl].
  repeat match goal with H : Forall is_byte (_ :: _) |- _ => apply Forall_cons in H as [? H] end.
  split.
  - unfold Fips.words. cbn [seq map Nat.mul Nat.add drop take].
    unfold schedule_word. cbn [nth Nat.mul Nat.add]. by rewrite !word_of_bytes by done.
  - unfold Fips.words. cbn [seq map Nat.mul Nat.add drop take].
    repeat (constructor; [unfold Fips.big_endian, is_word, is_byte in *; rewrite w32_value; cbn [fold_left]; lia|]).
    constructor.
Qed.

Lemma nth_word l i : Forall is_word l → is_word (nth i l 0).
Proof.
  intros Hl. rewrite nth_lookup. destruct (l !! i) as [x|] eqn:E; cbn.
  - rewrite Forall_forall in Hl. apply Hl. by eapply list_elem_of_lookup_2.
  - unfold is_word. rewrite w32_value. lia.
Qed.

Lemma nth_newest (l : list Z) i t :
  length l = i → (1 <= t <= i)%nat → nth (i - t) l 0 = nth (t - 1) (rev l) 0.
Proof.
  intros Hl Ht. rewrite rev_nth by lia. f_equal. lia.
Qed.

Lemma extend_spec l i :
  length l = i → (16 <= i)%nat → Forall is_word l →
  rev (schedule_step l i) = Fips.extend (rev l) ∧ Forall is_word (schedule_step l i).
Proof.
  intros Hl Hi Hw. unfold schedule_step, Fips.extend. cbv zeta.
  rewrite !rotate_spec by (lia || by apply nth_word). rewrite !shift_spec by lia.
  rewrite !(nth_newest l i) by lia. split.
  - rewrite rev_app_distr. cbn [rev app]. f_equal. rewrite wrap32_mod. f_equal.
    unfold Fips.sigma0, Fips.sigma1, Fips.xor3. lia.
  - apply Forall_app. split; [done|]. apply Forall_singleton. rewrite wrap32_mod. apply mod_word.
Qed.

Lemma extends_spec n l i :
  length l = i → (16 <= i)%nat → Forall is_word l →
  rev (fold_left schedule_step (seq i n) l) = Nat.iter n Fips.extend (rev l) ∧
  Forall is_word (fold_left schedule_step (seq i n) l).
Proof.
  revert l i. induction n as [|n IH]; intros l i Hl Hi Hw; [done|].
  cbn [seq fold_left]. destruct (extend_spec l i Hl Hi Hw) as [Heq Hw'].
  destruct (IH (schedule_step l i) (S i)) as [H1 H2]; [|lia|done|].
  { unfold schedule_step. rewrite length_app. cbn. lia. }
  split; [|done]. rewrite H1, Heq. symmetry. apply Nat.iter_succ_r.
Qed.

Lemma schedule_spec block :
  length block = 64%nat → Forall is_byte block →
  schedule_of block = Fips.schedule block ∧ Forall is_word (schedule_of block).
Proof.
  intros Hl Hb. destruct (words_spec block Hl Hb) as [Hwords Hw]. unfold schedule_of, Fips.schedule.
  rewrite Hwords. destruct (extends_spec 48 (Fips.words block) 16) as [H1 H2];
    [unfold Fips.words; by rewrite length_map|lia|done|].
  split; [|done]. by rewrite <-H1, rev_involutive.
Qed.

Lemma length_schedule block : length (schedule_of block) = 64%nat.
Proof.
  unfold schedule_of.
  assert (∀ n i l, length (fold_left schedule_step (seq i n) l) = (length l + n)%nat) as H.
  { induction n as [|n IH]; intros i l; cbn [seq fold_left]; [lia|].
    rewrite IH. unfold schedule_step. rewrite length_app. cbn. lia. }
  rewrite H. by rewrite length_map, length_seq.
Qed.

(** ** The rounds *)

Definition all_words (v : Fips.vars) : Prop := Forall is_word (Fips.list_of v).

Lemma round_spec sched v i :
  all_words v →
  round sched v i = Fips.step v (nth i kRoundConstants 0, nth i sched 0) ∧
  all_words (round sched v i).
Proof.
  destruct v as [[[[[[[a b] c] d] e] f] g] h]. unfold all_words. cbn [Fips.list_of].
  rewrite !Forall_cons. intros (Ha & Hb & Hc & Hd & He & Hf & Hg & Hh & _).
  unfold round, Fips.step. cbv zeta. cbn [fst snd].
  rewrite !rotate_spec by (done || lia). rewrite choice_spec by done. split; [reflexivity|].
  cbn [Fips.list_of]. rewrite !Forall_cons, !wrap32_mod. split_and!; try done; apply mod_word.
Qed.

(** A loop over the indices of two lists is a loop over their pairs. *)
Lemma fold_zip {A} (f : A → Z * Z → A) (l k : list Z) v :
  length l = length k →
  fold_left (λ v i, f v (nth i l 0, nth i k 0)) (seq 0 (length l)) v = fold_left f (zip l k) v.
Proof.
  revert k v. induction l as [|x l IH]; intros [|y k] v Hl; [done..|].
  cbn [length seq fold_left zip zip_with nth]. injection Hl as Hl. rewrite <-(IH k) by done.
  rewrite <-(seq_shift (length l)). generalize (f v (x, y)). clear IH.
  induction (seq 0 (length l)) as [|i s IHs]; intros u; [done|]. cbn [map fold_left nth]. apply IHs.
Qed.

Lemma rounds_spec sched js v :
  all_words v →
  fold_left (round sched) js v =
    fold_left (λ v i, Fips.step v (nth i kRoundConstants 0, nth i sched 0)) js v ∧
  all_words (fold_left (round sched) js v).
Proof.
  revert v. induction js as [|i js IH]; intros v Hv; [done|]. cbn [fold_left].
  destruct (round_spec sched v i Hv) as [Heq Hw]. destruct (IH _ Hw) as [H1 H2].
  rewrite H1, Heq. split; [done|]. by rewrite <-Heq, <-H1.
Qed.

Lemma Transform_spec state block :
  length state = 8%nat → Forall is_word state → length block = 64%nat → Forall is_byte block →
  Fips.vars_of (Transform state block) = Fips.compress (Fips.vars_of state) block ∧
  Forall is_word (Transform state block).
Proof.
  intros Hs Hw Hl Hb.
  destruct state as [|s0 [|s1 [|s2 [|s3 [|s4 [|s5 [|s6 [|s7 [|]]]]]]]]]; try discriminate Hs.
  change (Fips.vars_of [s0; s1; s2; s3; s4; s5; s6; s7]) with (s0, s1, s2, s3, s4, s5, s6, s7).
  unfold Transform, Fips.compress. cbn [nth].
  match goal with |- context [fold_left (round _) _ ?v0] =>
    destruct (rounds_spec (schedule_of block) (seq 0 64) v0) as [H1 H2]; [exact Hw|] end.
  pose proof (fold_zip Fips.step kRoundConstants (schedule_of block)) as Hzip.
  change (length kRoundConstants) with 64%nat in Hzip.
  rewrite H1, Hzip by (by rewrite length_schedule).
  rewrite (proj1 (schedule_spec block Hl Hb)), (proj1 constants_spec).
  destruct (fold_left Fips.step _ _) as [[[[[[[a b] c] d] e] f] g] h].
  cbn [Fips.vars_of nth]. split; [reflexivity|]. rewrite !wrap32_mod.
  repeat (constructor; [apply mod_word|]). constructor.
Qed.

(** ** Padding and the digest *)

Lemma low_byte x n : 0 <= n → Z.land (Z.shiftr x n) 255 = x / 2 ^ n mod 256.
Proof.
  intros Hn. change 255 with (Z.ones 8). rewrite Z.land_ones by lia. by rewrite Z.shiftr_div_pow2.
Qed.

Lemma length_bytes_spec l : length_bytes l = Fips.big_endian_64 l.
Proof. unfold length_bytes. cbn [seq map]. by rewrite !low_byte by lia. Qed.

Lemma word_bytes_spec w : word_bytes w = Fips.bytes_of w.
Proof.
  unfold word_bytes. rewrite !low_byte by lia. unfold Fips.bytes_of. cbn [map].
  rewrite Z.div_1_r. change 255 with (Z.ones 8). by rewrite Z.land_ones by lia.
Qed.

Lemma zeros_spec (n : nat) :
  Z.of_nat (sha_zeros n) = (Fips.zero_bits (8 * Z.of_nat n) - 7) / 8.
Proof.
  unfold sha_zeros, Fips.zero_bits. rewrite Nat2Z.inj_mod, Nat2Z.inj_sub, Nat2Z.inj_mod.
  - change (Z.of_nat 64) with 64. change (Z.of_nat 119) with 119.
    Z.to_euclidean_division_equations. lia.
  - pose proof (Nat.mod_upper_bound n 64). lia.
Qed.

Lemma pad_spec msg : Fips.bit_length msg < 2 ^ 64 → sha_pad msg = Fips.pad msg.
Proof.
  intros Hl. unfold sha_pad, Fips.pad, Fips.bit_length in *. cbv zeta.
  rewrite <-zeros_spec, Nat2Z.id, length_bytes_spec. do 5 f_equal.
  rewrite wrap64_small; [lia|]. change (2 ^ 64) with (u64_max + 1) in Hl. lia.
Qed.

Lemma pad_bytes msg : Forall is_byte msg → Forall is_byte (Fips.pad msg).
Proof.
  intros H. unfold Fips.pad. cbv zeta. apply Forall_app. split; [done|].
  apply Forall_app. split; [by constructor|]. apply Forall_app. split.
  - apply Forall_replicate. by unfold is_byte.
  - apply Forall_map, Forall_true. intros i. apply Z.mod_pos_bound. lia.
Qed.

Definition first_blocks (k : nat) (m : bytes) : list bytes :=
  map (λ i, take 64 (drop (64 * i) m)) (seq 0 k).

Lemma first_blocks_S k m : first_blocks (S k) m = take 64 m :: first_blocks k (drop 64 m).
Proof.
  unfold first_blocks. cbn [seq map]. f_equal. rewrite <-(seq_shift k 0), map_map.
  apply map_ext. intros i. rewrite drop_drop. by replace (64 + 64 * i)%nat with (64 * S i)%nat by lia.
Qed.

Lemma compress_S k state m : compress (S k) state m = compress k (Transform state (take 64 m)) (drop 64 m).
Proof. reflexivity. Qed.

Lemma fold_left_cons {A B} (f : A → B → A) x l a : fold_left f (x :: l) a = fold_left f l (f a x).
Proof. reflexivity. Qed.

Lemma compress_spec k state m :
  length m = (64 * k)%nat → Forall is_byte m → length state = 8%nat → Forall is_word state →
  Fips.vars_of (compress k state m) =
  fold_left Fips.compress (first_blocks k m) (Fips.vars_of state).
Proof.
  revert state m. induction k as [|k IH]; intros state m Hm Hb Hs Hw; [reflexivity|].
  destruct (Transform_spec state (take 64 m)) as [Heq Hw']; [exact Hs|exact Hw| |by apply Forall_take|].
  { rewrite length_take. lia. }
  rewrite compress_S, first_blocks_S, fold_left_cons, <-Heq.
  apply IH; [rewrite length_drop; lia|by apply Forall_drop|apply length_Transform|exact Hw'].
Qed.

Lemma list_of_vars l : length l = 8%nat → Fips.list_of (Fips.vars_of l) = l.
Proof. intros Hl. do 8 (destruct l as [|? l]; [discriminate Hl|]). by destruct l. Qed.

Lemma sha_pad_length msg : (length (sha_pad msg) mod 64 = 0)%nat.
Proof.
  unfold sha_pad, sha_zeros. rewrite !length_app, length_replicate. cbn [length].
  change (length (length_bytes _)) with 8%nat.
  apply Nat2Z.inj. rewrite Nat2Z.inj_mod, !Nat2Z.inj_add, Nat2Z.inj_mod, Nat2Z.inj_sub, Nat2Z.inj_mod
    by (pose proof (Nat.mod_upper_bound (length msg) 64); lia).
  change (Z.of_nat 64) with 64. change (Z.of_nat 119) with 119.
  Z.to_euclidean_division_equations. lia.
Qed.

Lemma spec_agrees msg :
  Forall is_byte msg → Fips.bit_length msg < 2 ^ 64 → sha256_spec msg = Fips.sha256 msg.
Proof.
  intros Hb Hl. unfold sha256_spec, Fips.sha256. cbv zeta.
  pose proof (sha_pad_length msg) as Hmod. rewrite (pad_spec msg Hl) in *.
  set (m := Fips.pad msg) in *.
  assert (length m = (64 * (length m / 64))%nat) as Hm.
  { rewrite (Nat.div_mod_eq (length m) 64) at 1. lia. }
  rewrite <-(list_of_vars (compress _ _ _)) by (by apply length_compress).
  rewrite compress_spec; [|exact Hm|by apply pad_bytes|done|].
  - rewrite (proj2 constants_spec). apply flat_map_ext, word_bytes_spec.
  - rewrite (proj2 constants_spec). unfold Fips.H0. apply Forall_map, Forall_true.
    intros p. apply mod_word.
Qed.

(** C29: the streaming hasher computes SHA-256: however a message is cut into [Update]
    calls, [Finish] returns the digest FIPS 180-4 defines for their concatenation, for
    every message of fewer than 2^64 bits, which is all the standard covers. *)
Theorem sha256_streaming (chunks : list bytes) :
  Forall is_byte (concat chunks) → Fips.bit_length (concat chunks) < 2 ^ 64 →
  Finish (fold_left (λ s chunk, Update chunk s) chunks new_Sha256) = Fips.sha256 (concat chunks).
Proof. intros Hb Hl. rewrite Update_chunks. by apply spec_agrees. Qed.

(** The three bytes "abc" in two pieces have the digest the standard's example gives. *)
Lemma sha256_streaming_witness :
  Finish (Update (text_bytes "c") (Update (text_bytes "ab") new_Sha256)) = Fips.sha256 [97; 98; 99] ∧
  HexEncode (Hash [97; 98; 99]) =
    "ba7816bf8f01cfea414140de5dae2223b00361a396177a9cb410ff61f20015ad"%string.
Proof.
  split; [|vm_compute; reflexivity].
  apply (sha256_streaming [text_bytes "ab"; text_bytes "c"]).
  - repeat (constructor; [by unfold is_byte; vm_compute|]). constructor.
  - reflexivity.
Defined.
