(* ===== verification/Status.v ===== *)
(** status.hpp / status.cpp: the enumerations that cross a representation
    boundary, their stable numeric values and name tables, the parse and render
    functions, the severity order of [Currentness], the authority scope masks
    and the diagnostic codes.  [CppEnum] is the interface an enumeration with a
    name table offers; the round-trip theorem is proved once against it. *)

From S2P Require Import Prelude.

(** ** Enum plumbing *)

Record EnumEntry := MkEntry { entry_name : string; entry_value : Z }.

Fixpoint EnumValueFromName (table : list EnumEntry) (name : string) : option Z :=
  match table with
  | [] => None
  | e :: table =>
      if String.eqb (entry_name e) name then Some (entry_value e)
      else EnumValueFromName table name
  end.

(** The empty string stands for "no such value". *)
Fixpoint EnumNameFromValue (table : list EnumEntry) (value : Z) : string :=
  match table with
  | [] => ""
  | e :: table =>
      if entry_value e =? value then entry_name e else EnumNameFromValue table value
  end.

(** An [enum class] with explicit values and its name table.  [enum_ok] is the
    coherence the sources rely on: distinct values, distinct non-empty names,
    and a table that lists exactly the enumerators. *)
Class CppEnum (E : Type) := {
  enum_value : E → Z;
  enum_all : list E;
  enum_names : list EnumEntry;
  enum_complete : ∀ x, x ∈ enum_all;
  enum_ok :
    NoDup (map enum_value enum_all) ∧
    map enum_value enum_all = map entry_value enum_names ∧
    NoDup (map entry_name enum_names) ∧
    Forall (λ e, entry_name e ≠ ""%string) enum_names
}.

(** [static_cast<Enum>(value)] for a value the table knows. *)
Definition enum_of_value {E} `{CppEnum E} (z : Z) : option E :=
  List.find (λ x, enum_value x =? z) enum_all.

Definition ParseEnum {E} `{CppEnum E} (name : string) : option E :=
  value ← EnumValueFromName enum_names name; enum_of_value value.

Definition EnumName {E} `{CppEnum E} (x : E) : string :=
  let name := EnumNameFromValue enum_names (enum_value x) in
  if String.eqb name "" then "UNKNOWN_VALUE"%string else name.

Definition IsKnownEnumValue (table : list EnumEntry) (value : Z) : bool :=
  negb (String.eqb (EnumNameFromValue table value) "").

(** Discharges the laws of an enumeration by computation. *)
Ltac enum_instance value all names :=
  refine {| enum_value := value; enum_all := all; enum_names := names |};
  [ let x := fresh "x" in intros x;
    apply list_elem_of_In; destruct x; vm_compute; tauto
  | split_and!;
    [ apply (bool_decide_unpack _); vm_compute; exact I
    | vm_compute; reflexivity
    | apply (bool_decide_unpack _); vm_compute; exact I
    | apply (bool_decide_unpack _); vm_compute; exact I ] ].

Section enum_facts.
Context {E} `{CppEnum E}.
Implicit Types x y : E.

Lemma enum_value_inj x y : enum_value x = enum_value y → x = y.
Proof.
  destruct enum_ok as [Hnd _]. pose proof (enum_complete x) as Hx.
  pose proof (enum_complete y) as Hy. revert Hnd Hx Hy.
  induction enum_all as [|z l IH]; [by intros _ ?%elem_of_nil|].
  simpl. rewrite NoDup_cons, !elem_of_cons. intros [Hz Hnd] [->|Hx] [->|Hy] Heq; auto.
  - destruct Hz. rewrite Heq. by apply (list_elem_of_fmap_2 enum_value).
  - destruct Hz. rewrite <- Heq. by apply (list_elem_of_fmap_2 enum_value).
Qed.

Definition enum_eqb x y : bool := enum_value x =? enum_value y.

Lemma enum_eqb_eq x y : enum_eqb x y = true ↔ x = y.
Proof.
  unfold enum_eqb. rewrite Z.eqb_eq. split; [apply enum_value_inj|by intros ->].
Qed.

#[export] Instance enum_eq_dec : EqDecision E.
Proof.
  intros x y. destruct (enum_value x =? enum_value y) eqn:Heq.
  - left. by apply enum_value_inj, Z.eqb_eq.
  - right. intros ->. by rewrite Z.eqb_refl in Heq.
Defined.

Lemma enum_of_value_value x : enum_of_value (enum_value x) = Some x.
Proof.
  unfold enum_of_value. destruct (List.find _ _) as [y|] eqn:Hf.
  - apply find_some in Hf as [_ Heq]. apply Z.eqb_eq in Heq.
    by apply enum_value_inj in Heq as ->.
  - assert (Hin : In x enum_all) by (apply list_elem_of_In, enum_complete).
    pose proof (find_none _ _ Hf x Hin) as Hn. simpl in Hn. by rewrite Z.eqb_refl in Hn.
Qed.

Lemma enum_of_value_Some z x : enum_of_value z = Some x → enum_value x = z.
Proof. intros [_ Heq]%find_some. by apply Z.eqb_eq. Qed.
End enum_facts.

(** Lookups in a table with distinct names and values. *)
Lemma EnumNameFromValue_elem table v :
  EnumNameFromValue table v ≠ ""%string →
  MkEntry (EnumNameFromValue table v) v ∈ table.
Proof.
  induction table as [|[n w] table IH]; simpl; [done|].
  destruct (w =? v) eqn:E; bool_to_prop; [intros _; subst; by left|right; auto].
Qed.

Lemma EnumValueFromName_elem table n v :
  EnumValueFromName table n = Some v → MkEntry n v ∈ table.
Proof.
  induction table as [|[m w] table IH]; simpl; [done|].
  destruct (String.eqb_spec m n) as [->|]; [intros [= ->]; by left|right; auto].
Qed.

Lemma EnumValueFromName_complete table n v :
  NoDup (map entry_name table) → MkEntry n v ∈ table → EnumValueFromName table n = Some v.
Proof.
  induction table as [|[m w] table IH]; simpl; [by intros _ ?%elem_of_nil|].
  rewrite NoDup_cons, elem_of_cons. intros [Hm Hnd] [[= -> ->]|Hin].
  { by rewrite String.eqb_refl. }
  destruct (String.eqb_spec m n) as [->|]; [|by apply IH].
  destruct Hm. by apply (list_elem_of_fmap_2 entry_name _ _ Hin).
Qed.

Lemma EnumNameFromValue_complete table n v :
  NoDup (map entry_value table) → MkEntry n v ∈ table → EnumNameFromValue table v = n.
Proof.
  induction table as [|[m w] table IH]; simpl; [by intros _ ?%elem_of_nil|].
  rewrite NoDup_cons, elem_of_cons. intros [Hm Hnd] [[= -> ->]|Hin].
  { by rewrite Z.eqb_refl. }
  destruct (w =? v) eqn:E; bool_to_prop; [subst|by apply IH].
  destruct Hm. by apply (list_elem_of_fmap_2 entry_value _ _ Hin).
Qed.

(** For every enumeration with a coherent table, rendering and parsing are
    inverse: an enumerator's name parses back to it, and a text that parses is
    exactly the name of the enumerator it parses to. *)
Theorem enum_roundtrip {E} `{CppEnum E} (name : string) (x : E) :
  ParseEnum name = Some x ↔ EnumName x = name.
Proof.
  destruct enum_ok as (Hnd & Hvals & Hnames & Hne).
  unfold ParseEnum, EnumName. split.
  - destruct (EnumValueFromName enum_names name) as [v|] eqn:Hv; [|done]. simpl.
    intros Hx%enum_of_value_Some. subst v. apply EnumValueFromName_elem in Hv as Hin.
    rewrite Hvals in Hnd. rewrite (EnumNameFromValue_complete _ _ _ Hnd Hin).
    rewrite Forall_forall in Hne. specialize (Hne _ Hin). simpl in Hne.
    by destruct (String.eqb_spec name "") as [->|].
  - assert (Hin : ∃ n, MkEntry n (enum_value x) ∈ enum_names).
    { assert (Hx : enum_value x ∈ map enum_value enum_all)
        by apply (list_elem_of_fmap_2 enum_value), enum_complete.
      rewrite Hvals in Hx. apply list_elem_of_fmap in Hx as ([n v] & Heq & Hin).
      simpl in Heq. subst v. eauto. }
    destruct Hin as [n Hin]. rewrite Hvals in Hnd.
    rewrite (EnumNameFromValue_complete _ _ _ Hnd Hin).
    rewrite Forall_forall in Hne. specialize (Hne _ Hin). simpl in Hne.
    destruct (String.eqb_spec n "") as [->|]; [done|]. intros <-.
    rewrite (EnumValueFromName_complete _ _ _ Hnames Hin). simpl. apply enum_of_value_value.
Qed.

(** ** The enumerations *)

Notation "'entries' l" := (map (λ '(n, v), MkEntry n v) l)
  (at level 10, l at level 9, only parsing) : pp_scope.

Module PlanStatus.
Inductive t : Set :=
  | kPlanned | kNoPath | kSourceUnknown | kDestinationUnknown | kSourceStale
  | kDestinationStale | kTopologyStale | kEpochStale | kConstraintUnsatisfied
  | kResourceLimit | kRevalidationRequired | kMalformedRequest | kUnauthorized | kUnsupported
  | kTruncatedByLimit.

Definition all : list t :=
  [kPlanned; kNoPath; kSourceUnknown; kDestinationUnknown; kSourceStale; kDestinationStale;
  kTopologyStale; kEpochStale; kConstraintUnsatisfied; kResourceLimit; kRevalidationRequired;
  kMalformedRequest; kUnauthorized; kUnsupported; kTruncatedByLimit].

Definition value (x : t) : Z :=
  match x with
  | kPlanned => 1 | kNoPath => 2 | kSourceUnknown => 3 | kDestinationUnknown => 4
  | kSourceStale => 5 | kDestinationStale => 6 | kTopologyStale => 7 | kEpochStale => 8
  | kConstraintUnsatisfied => 9 | kResourceLimit => 10 | kRevalidationRequired => 11
  | kMalformedRequest => 12 | kUnauthorized => 13 | kUnsupported => 14
  | kTruncatedByLimit => 15
  end.

Definition names : list EnumEntry := entries
  [("PLANNED"%string, 1); ("NO_PATH"%string, 2); ("SOURCE_UNKNOWN"%string, 3);
  ("DESTINATION_UNKNOWN"%string, 4); ("SOURCE_STALE"%string, 5);
  ("DESTINATION_STALE"%string, 6); ("TOPOLOGY_STALE"%string, 7); ("EPOCH_STALE"%string, 8);
  ("CONSTRAINT_UNSATISFIED"%string, 9); ("RESOURCE_LIMIT"%string, 10);
  ("REVALIDATION_REQUIRED"%string, 11); ("MALFORMED_REQUEST"%string, 12);
  ("UNAUTHORIZED"%string, 13); ("UNSUPPORTED"%string, 14); ("TRUNCATED_BY_LIMIT"%string, 15)].

#[export] Instance enum : CppEnum t.
Proof. enum_instance value all names. Defined.
End PlanStatus.

Module Currentness.
Inductive t : Set :=
  | kCurrent | kRevalidationRequired | kStaleTopology | kStaleLinkState | kStalePortState
  | kStaleCapability | kStaleFailureDomain | kStalePolicy | kStaleEpoch | kRetired.

Definition all : list t :=
  [kCurrent; kRevalidationRequired; kStaleTopology; kStaleLinkState; kStalePortState;
  kStaleCapability; kStaleFailureDomain; kStalePolicy; kStaleEpoch; kRetired].

Definition value (x : t) : Z :=
  match x with
  | kCurrent => 1 | kRevalidationRequired => 2 | kStaleTopology => 3 | kStaleLinkState => 4
  | kStalePortState => 5 | kStaleCapability => 6 | kStaleFailureDomain => 7
  | kStalePolicy => 8 | kStaleEpoch => 9 | kRetired => 10
  end.

Definition names : list EnumEntry := entries
  [("CURRENT"%string, 1); ("REVALIDATION_REQUIRED"%string, 2); ("STALE_TOPOLOGY"%string, 3);
  ("STALE_LINK_STATE"%string, 4); ("STALE_PORT_STATE"%string, 5);
  ("STALE_CAPABILITY"%string, 6); ("STALE_FAILURE_DOMAIN"%string, 7);
  ("STALE_POLICY"%string, 8); ("STALE_EPOCH"%string, 9); ("RETIRED"%string, 10)].

#[export] Instance enum : CppEnum t.
Proof. enum_instance value all names. Defined.
End Currentness.

Module LinkState.
Inductive t : Set :=
  | kUp | kDown | kFaulted | kRetired | kRevalidationRequired | kUnknown | kDegraded.

Definition all : list t :=
  [kUp; kDown; kFaulted; kRetired; kRevalidationRequired; kUnknown; kDegraded].

Definition value (x : t) : Z :=
  match x with
  | kUp => 1 | kDown => 2 | kFaulted => 3 | kRetired => 4 | kRevalidationRequired => 5
  | kUnknown => 6 | kDegraded => 7
  end.

Definition names : list EnumEntry := entries
  [("UP"%string, 1); ("DOWN"%string, 2); ("FAULTED"%string, 3); ("RETIRED"%string, 4);
  ("REVALIDATION_REQUIRED"%string, 5); ("UNKNOWN"%string, 6); ("DEGRADED"%string, 7)].

#[export] Instance enum : CppEnum t.
Proof. enum_instance value all names. Defined.
End LinkState.

Module PortState.
Inductive t : Set :=
  | kUp | kAdminDisabled | kDraining | kMaintenance | kRetired | kSuperseded
  | kRevalidationRequired | kUnknown.

Definition all : list t :=
  [kUp; kAdminDisabled; kDraining; kMaintenance; kRetired; kSuperseded;
  kRevalidationRequired; kUnknown].

Definition value (x : t) : Z :=
  match x with
  | kUp => 1 | kAdminDisabled => 2 | kDraining => 3 | kMaintenance => 4 | kRetired => 5
  | kSuperseded => 6 | kRevalidationRequired => 7 | kUnknown => 8
  end.

Definition names : list EnumEntry := entries
  [("UP"%string, 1); ("ADMIN_DISABLED"%string, 2); ("DRAINING"%string, 3);
  ("MAINTENANCE"%string, 4); ("RETIRED"%string, 5); ("SUPERSEDED"%string, 6);
  ("REVALIDATION_REQUIRED"%string, 7); ("UNKNOWN"%string, 8)].

#[export] Instance enum : CppEnum t.
Proof. enum_instance value all names. Defined.
End PortState.

Module PathLayer.
Inductive t : Set :=
  | kPhysical | kLogical | kOverlay | kTunnel.

Definition all : list t :=
  [kPhysical; kLogical; kOverlay; kTunnel].

Definition value (x : t) : Z :=
  match x with
  | kPhysical => 1 | kLogical => 2 | kOverlay => 3 | kTunnel => 4
  end.

Definition names : list EnumEntry := entries
  [("PHYSICAL"%string, 1); ("LOGICAL"%string, 2); ("OVERLAY"%string, 3); ("TUNNEL"%string, 4)].

#[export] Instance enum : CppEnum t.
Proof. enum_instance value all names. Defined.
End PathLayer.

Module RelationshipType.
Inductive t : Set :=
  | kDirectLink | kLogicalAdjacency | kTunnelEncapsulation | kPortPairing.

Definition all : list t :=
  [kDirectLink; kLogicalAdjacency; kTunnelEncapsulation; kPortPairing].

Definition value (x : t) : Z :=
  match x with
  | kDirectLink => 1 | kLogicalAdjacency => 2 | kTunnelEncapsulation => 3 | kPortPairing => 4
  end.

Definition names : list EnumEntry := entries
  [("DIRECT_LINK"%string, 1); ("LOGICAL_ADJACENCY"%string, 2);
  ("TUNNEL_ENCAPSULATION"%string, 3); ("PORT_PAIRING"%string, 4)].

#[export] Instance enum : CppEnum t.
Proof. enum_instance value all names. Defined.
End RelationshipType.

Module EndpointClass.
Inductive t : Set :=
  | kEndpoint | kNic | kPort | kSwitchAttachment | kLogicalEndpoint.

Definition all : list t :=
  [kEndpoint; kNic; kPort; kSwitchAttachment; kLogicalEndpoint].

Definition value (x : t) : Z :=
  match x with
  | kEndpoint => 1 | kNic => 2 | kPort => 3 | kSwitchAttachment => 4 | kLogicalEndpoint => 5
  end.

Definition names : list EnumEntry := entries
  [("ENDPOINT"%string, 1); ("NIC"%string, 2); ("PORT"%string, 3);
  ("SWITCH_ATTACHMENT"%string, 4); ("LOGICAL_ENDPOINT"%string, 5)].

#[export] Instance enum : CppEnum t.
Proof. enum_instance value all names. Defined.
End EndpointClass.

Module EvidenceSource.
Inductive t : Set :=
  | kReal | kSynthetic | kMixed.

Definition all : list t :=
  [kReal; kSynthetic; kMixed].

Definition value (x : t) : Z :=
  match x with
  | kReal => 1 | kSynthetic => 2 | kMixed => 3
  end.

Definition names : list EnumEntry := entries
  [("REAL"%string, 1); ("SYNTHETIC"%string, 2); ("MIXED"%string, 3)].

#[export] Instance enum : CppEnum t.
Proof. enum_instance value all names. Defined.
End EvidenceSource.

Module PlanningMode.
Inductive t : Set :=
  | kStandard | kDiagnosticNonCurrent.

Definition all : list t :=
  [kStandard; kDiagnosticNonCurrent].

Definition value (x : t) : Z :=
  match x with
  | kStandard => 1 | kDiagnosticNonCurrent => 2
  end.

Definition names : list EnumEntry := entries
  [("STANDARD"%string, 1); ("DIAGNOSTIC_NON_CURRENT"%string, 2)].

#[export] Instance enum : CppEnum t.
Proof. enum_instance value all names. Defined.
End PlanningMode.

Module ReplanOutcome.
Inductive t : Set :=
  | kUnchanged | kOrderingChanged | kCandidateSetChanged | kNoPath | kRevalidationRequired.

Definition all : list t :=
  [kUnchanged; kOrderingChanged; kCandidateSetChanged; kNoPath; kRevalidationRequired].

Definition value (x : t) : Z :=
  match x with
  | kUnchanged => 1 | kOrderingChanged => 2 | kCandidateSetChanged => 3 | kNoPath => 4
  | kRevalidationRequired => 5
  end.

Definition names : list EnumEntry := entries
  [("UNCHANGED"%string, 1); ("ORDERING_CHANGED"%string, 2);
  ("CANDIDATE_SET_CHANGED"%string, 3); ("NO_PATH"%string, 4);
  ("REVALIDATION_REQUIRED"%string, 5)].

#[export] Instance enum : CppEnum t.
Proof. enum_instance value all names. Defined.
End ReplanOutcome.

Module AuthorityValidation.
Inductive t : Set :=
  | kNotRequested | kValidated | kRejected | kUnavailable.

Definition all : list t :=
  [kNotRequested; kValidated; kRejected; kUnavailable].

Definition value (x : t) : Z :=
  match x with
  | kNotRequested => 1 | kValidated => 2 | kRejected => 3 | kUnavailable => 4
  end.

Definition names : list EnumEntry := entries
  [("NOT_REQUESTED"%string, 1); ("VALIDATED"%string, 2); ("REJECTED"%string, 3);
  ("UNAVAILABLE"%string, 4)].

#[export] Instance enum : CppEnum t.
Proof. enum_instance value all names. Defined.
End AuthorityValidation.

Module DiagnosticCode.
Inductive t : Set :=
  | kMalformedIdentifier | kDuplicateIdentifier | kUnknownEndpoint | kAmbiguousEndpoint
  | kEntityGenerationMismatch | kTopologyGenerationMismatch | kEpochMismatch | kLinkStateDown
  | kLinkStateFaulted | kLinkStateRetired | kLinkStateRevalidationRequired
  | kLinkStateUnknown | kLinkStateDegradedDisallowed | kPortAdminDisabled | kPortDraining
  | kPortMaintenance | kPortRetired | kPortSuperseded | kPortRevalidationRequired
  | kPortUnknown | kCapabilityUnknown | kCapabilityInsufficient | kFailureDomainForbidden
  | kFailureDomainUnknown | kFailureDomainMemberLimitExceeded | kFailureDomainClassForbidden
  | kForbiddenNode | kForbiddenLink | kForbiddenPort | kRequiredNodeMissing
  | kRequiredAnySetUnsatisfied | kMaxHopsExceeded | kLayerMismatch | kSelfLoopRejected
  | kDisconnectedGraph | kNoStructuralPath | kCostOverflow | kHopCountOverflow
  | kWorkBudgetExhausted | kCandidateLimitExceeded | kConstraintCountExceeded
  | kRequestedCandidatesAboveCeiling | kDuplicateConstraintEntry | kZeroHopSelfPathDisallowed
  | kStaleEvidence | kInvalidationWatermarkChanged | kWorkerBootFenced
  | kCoordinatorEpochStale | kAuthorityScopeInsufficient | kPersistenceCorrupt
  | kPersistenceVersionUnsupported | kPersistenceDigestMismatch | kPersistenceTrailingBytes
  | kPersistenceDuplicatePlan | kPersistenceDuplicateCandidate | kPersistenceLimitExceeded
  | kProtocolMalformedFrame | kProtocolVersionMismatch | kProtocolIntegrityMismatch
  | kProtocolTrailingBytes | kProtocolUnknownMessage | kProtocolReceiveBoundExceeded
  | kProtocolSessionLimit | kProtocolSlowPeer | kGraphTooLarge | kTooManyEdges
  | kNonCurrentCandidate | kAuthorityValidationRejected | kAuthorityValidationUnavailable
  | kUnsupportedEndpointClass | kUnsupportedLayer | kUnsupportedRequest | kTruncatedByLimit
  | kUnknownSourceEntity | kUnknownDestinationEntity | kSnapshotNotAvailable | kPlanNotFound
  | kPlanRetired | kDuplicatePlanIdentity | kCancelled | kPersistenceImpossibleValue.

Definition all : list t :=
  [kMalformedIdentifier; kDuplicateIdentifier; kUnknownEndpoint; kAmbiguousEndpoint;
  kEntityGenerationMismatch; kTopologyGenerationMismatch; kEpochMismatch; kLinkStateDown;
  kLinkStateFaulted; kLinkStateRetired; kLinkStateRevalidationRequired; kLinkStateUnknown;
  kLinkStateDegradedDisallowed; kPortAdminDisabled; kPortDraining; kPortMaintenance;
  kPortRetired; kPortSuperseded; kPortRevalidationRequired; kPortUnknown; kCapabilityUnknown;
  kCapabilityInsufficient; kFailureDomainForbidden; kFailureDomainUnknown;
  kFailureDomainMemberLimitExceeded; kFailureDomainClassForbidden; kForbiddenNode;
  kForbiddenLink; kForbiddenPort; kRequiredNodeMissing; kRequiredAnySetUnsatisfied;
  kMaxHopsExceeded; kLayerMismatch; kSelfLoopRejected; kDisconnectedGraph; kNoStructuralPath;
  kCostOverflow; kHopCountOverflow; kWorkBudgetExhausted; kCandidateLimitExceeded;
  kConstraintCountExceeded; kRequestedCandidatesAboveCeiling; kDuplicateConstraintEntry;
  kZeroHopSelfPathDisallowed; kStaleEvidence; kInvalidationWatermarkChanged;
  kWorkerBootFenced; kCoordinatorEpochStale; kAuthorityScopeInsufficient;
  kPersistenceCorrupt; kPersistenceVersionUnsupported; kPersistenceDigestMismatch;
  kPersistenceTrailingBytes; kPersistenceDuplicatePlan; kPersistenceDuplicateCandidate;
  kPersistenceLimitExceeded; kProtocolMalformedFrame; kProtocolVersionMismatch;
  kProtocolIntegrityMismatch; kProtocolTrailingBytes; kProtocolUnknownMessage;
  kProtocolReceiveBoundExceeded; kProtocolSessionLimit; kProtocolSlowPeer; kGraphTooLarge;
  kTooManyEdges; kNonCurrentCandidate; kAuthorityValidationRejected;
  kAuthorityValidationUnavailable; kUnsupportedEndpointClass; kUnsupportedLayer;
  kUnsupportedRequest; kTruncatedByLimit; kUnknownSourceEntity; kUnknownDestinationEntity;
  kSnapshotNotAvailable; kPlanNotFound; kPlanRetired; kDuplicatePlanIdentity; kCancelled;
  kPersistenceImpossibleValue].

Definition value (x : t) : Z :=
  match x with
  | kMalformedIdentifier => 1 | kDuplicateIdentifier => 2 | kUnknownEndpoint => 3
  | kAmbiguousEndpoint => 4 | kEntityGenerationMismatch => 5
  | kTopologyGenerationMismatch => 6 | kEpochMismatch => 7 | kLinkStateDown => 8
  | kLinkStateFaulted => 9 | kLinkStateRetired => 10 | kLinkStateRevalidationRequired => 11
  | kLinkStateUnknown => 12 | kLinkStateDegradedDisallowed => 13 | kPortAdminDisabled => 14
  | kPortDraining => 15 | kPortMaintenance => 16 | kPortRetired => 17 | kPortSuperseded => 18
  | kPortRevalidationRequired => 19 | kPortUnknown => 20 | kCapabilityUnknown => 21
  | kCapabilityInsufficient => 22 | kFailureDomainForbidden => 23
  | kFailureDomainUnknown => 24 | kFailureDomainMemberLimitExceeded => 25
  | kFailureDomainClassForbidden => 26 | kForbiddenNode => 27 | kForbiddenLink => 28
  | kForbiddenPort => 29 | kRequiredNodeMissing => 30 | kRequiredAnySetUnsatisfied => 31
  | kMaxHopsExceeded => 32 | kLayerMismatch => 33 | kSelfLoopRejected => 34
  | kDisconnectedGraph => 35 | kNoStructuralPath => 36 | kCostOverflow => 37
  | kHopCountOverflow => 38 | kWorkBudgetExhausted => 39 | kCandidateLimitExceeded => 40
  | kConstraintCountExceeded => 41 | kRequestedCandidatesAboveCeiling => 42
  | kDuplicateConstraintEntry => 43 | kZeroHopSelfPathDisallowed => 44 | kStaleEvidence => 45
  | kInvalidationWatermarkChanged => 46 | kWorkerBootFenced => 47
  | kCoordinatorEpochStale => 48 | kAuthorityScopeInsufficient => 49
  | kPersistenceCorrupt => 50 | kPersistenceVersionUnsupported => 51
  | kPersistenceDigestMismatch => 52 | kPersistenceTrailingBytes => 53
  | kPersistenceDuplicatePlan => 54 | kPersistenceDuplicateCandidate => 55
  | kPersistenceLimitExceeded => 56 | kProtocolMalformedFrame => 57
  | kProtocolVersionMismatch => 58 | kProtocolIntegrityMismatch => 59
  | kProtocolTrailingBytes => 60 | kProtocolUnknownMessage => 61
  | kProtocolReceiveBoundExceeded => 62 | kProtocolSessionLimit => 63
  | kProtocolSlowPeer => 64 | kGraphTooLarge => 65 | kTooManyEdges => 66
  | kNonCurrentCandidate => 67 | kAuthorityValidationRejected => 68
  | kAuthorityValidationUnavailable => 69 | kUnsupportedEndpointClass => 70
  | kUnsupportedLayer => 71 | kUnsupportedRequest => 72 | kTruncatedByLimit => 73
  | kUnknownSourceEntity => 74 | kUnknownDestinationEntity => 75
  | kSnapshotNotAvailable => 76 | kPlanNotFound => 77 | kPlanRetired => 78
  | kDuplicatePlanIdentity => 79 | kCancelled => 80 | kPersistenceImpossibleValue => 81
  end.

Definition names : list EnumEntry := entries
  [("MALFORMED_IDENTIFIER"%string, 1); ("DUPLICATE_IDENTIFIER"%string, 2);
  ("UNKNOWN_ENDPOINT"%string, 3); ("AMBIGUOUS_ENDPOINT"%string, 4);
  ("ENTITY_GENERATION_MISMATCH"%string, 5); ("TOPOLOGY_GENERATION_MISMATCH"%string, 6);
  ("EPOCH_MISMATCH"%string, 7); ("LINK_STATE_DOWN"%string, 8);
  ("LINK_STATE_FAULTED"%string, 9); ("LINK_STATE_RETIRED"%string, 10);
  ("LINK_STATE_REVALIDATION_REQUIRED"%string, 11); ("LINK_STATE_UNKNOWN"%string, 12);
  ("LINK_STATE_DEGRADED_DISALLOWED"%string, 13); ("PORT_ADMIN_DISABLED"%string, 14);
  ("PORT_DRAINING"%string, 15); ("PORT_MAINTENANCE"%string, 16); ("PORT_RETIRED"%string, 17);
  ("PORT_SUPERSEDED"%string, 18); ("PORT_REVALIDATION_REQUIRED"%string, 19);
  ("PORT_UNKNOWN"%string, 20); ("CAPABILITY_UNKNOWN"%string, 21);
  ("CAPABILITY_INSUFFICIENT"%string, 22); ("FAILURE_DOMAIN_FORBIDDEN"%string, 23);
  ("FAILURE_DOMAIN_UNKNOWN"%string, 24); ("FAILURE_DOMAIN_MEMBER_LIMIT_EXCEEDED"%string, 25);
  ("FAILURE_DOMAIN_CLASS_FORBIDDEN"%string, 26); ("FORBIDDEN_NODE"%string, 27);
  ("FORBIDDEN_LINK"%string, 28); ("FORBIDDEN_PORT"%string, 29);
  ("REQUIRED_NODE_MISSING"%string, 30); ("REQUIRED_ANY_SET_UNSATISFIED"%string, 31);
  ("MAX_HOPS_EXCEEDED"%string, 32); ("LAYER_MISMATCH"%string, 33);
  ("SELF_LOOP_REJECTED"%string, 34); ("DISCONNECTED_GRAPH"%string, 35);
  ("NO_STRUCTURAL_PATH"%string, 36); ("COST_OVERFLOW"%string, 37);
  ("HOP_COUNT_OVERFLOW"%string, 38); ("WORK_BUDGET_EXHAUSTED"%string, 39);
  ("CANDIDATE_LIMIT_EXCEEDED"%string, 40); ("CONSTRAINT_COUNT_EXCEEDED"%string, 41);
  ("REQUESTED_CANDIDATES_ABOVE_CEILING"%string, 42);
  ("DUPLICATE_CONSTRAINT_ENTRY"%string, 43); ("ZERO_HOP_SELF_PATH_DISALLOWED"%string, 44);
  ("STALE_EVIDENCE"%string, 45); ("INVALIDATION_WATERMARK_CHANGED"%string, 46);
  ("WORKER_BOOT_FENCED"%string, 47); ("COORDINATOR_EPOCH_STALE"%string, 48);
  ("AUTHORITY_SCOPE_INSUFFICIENT"%string, 49); ("PERSISTENCE_CORRUPT"%string, 50);
  ("PERSISTENCE_VERSION_UNSUPPORTED"%string, 51); ("PERSISTENCE_DIGEST_MISMATCH"%string, 52);
  ("PERSISTENCE_TRAILING_BYTES"%string, 53); ("PERSISTENCE_DUPLICATE_PLAN"%string, 54);
  ("PERSISTENCE_DUPLICATE_CANDIDATE"%string, 55); ("PERSISTENCE_LIMIT_EXCEEDED"%string, 56);
  ("PROTOCOL_MALFORMED_FRAME"%string, 57); ("PROTOCOL_VERSION_MISMATCH"%string, 58);
  ("PROTOCOL_INTEGRITY_MISMATCH"%string, 59); ("PROTOCOL_TRAILING_BYTES"%string, 60);
  ("PROTOCOL_UNKNOWN_MESSAGE"%string, 61); ("PROTOCOL_RECEIVE_BOUND_EXCEEDED"%string, 62);
  ("PROTOCOL_SESSION_LIMIT"%string, 63); ("PROTOCOL_SLOW_PEER"%string, 64);
  ("GRAPH_TOO_LARGE"%string, 65); ("TOO_MANY_EDGES"%string, 66);
  ("NON_CURRENT_CANDIDATE"%string, 67); ("AUTHORITY_VALIDATION_REJECTED"%string, 68);
  ("AUTHORITY_VALIDATION_UNAVAILABLE"%string, 69); ("UNSUPPORTED_ENDPOINT_CLASS"%string, 70);
  ("UNSUPPORTED_LAYER"%string, 71); ("UNSUPPORTED_REQUEST"%string, 72);
  ("TRUNCATED_BY_LIMIT"%string, 73); ("UNKNOWN_SOURCE_ENTITY"%string, 74);
  ("UNKNOWN_DESTINATION_ENTITY"%string, 75); ("SNAPSHOT_NOT_AVAILABLE"%string, 76);
  ("PLAN_NOT_FOUND"%string, 77); ("PLAN_RETIRED"%string, 78);
  ("DUPLICATE_PLAN_IDENTITY"%string, 79); ("CANCELLED"%string, 80);
  ("PERSISTENCE_IMPOSSIBLE_VALUE"%string, 81)].

#[export] Instance enum : CppEnum t.
Proof. enum_instance value all names. Defined.
End DiagnosticCode.

(** Visible to every file that requires this one. *)
#[export] Existing Instances
  PlanStatus.enum
  Currentness.enum
  LinkState.enum
  PortState.enum
  PathLayer.enum
  RelationshipType.enum
  EndpointClass.enum
  EvidenceSource.enum
  PlanningMode.enum
  ReplanOutcome.enum
  AuthorityValidation.enum
  DiagnosticCode.enum.

(** ** Severity of currentness *)

Definition CurrentnessSeverity (value : Currentness.t) : Z :=
  match value with
  | Currentness.kRetired => 0
  | Currentness.kStaleEpoch => 1
  | Currentness.kStaleTopology => 2
  | Currentness.kStaleLinkState => 3
  | Currentness.kStalePortState => 4
  | Currentness.kStaleCapability => 5
  | Currentness.kStaleFailureDomain => 6
  | Currentness.kStalePolicy => 7
  | Currentness.kRevalidationRequired => 8
  | Currentness.kCurrent => 9
  end.

Definition MoreSevere (a b : Currentness.t) : Currentness.t :=
  if CurrentnessSeverity a <=? CurrentnessSeverity b then a else b.

Lemma CurrentnessSeverity_inj a b :
  CurrentnessSeverity a = CurrentnessSeverity b → a = b.
Proof. destruct a, b; done. Qed.

#[export] Instance MoreSevere_assoc : Assoc (=) MoreSevere.
Proof. intros a b c. by destruct a, b, c. Qed.
#[export] Instance MoreSevere_comm : Comm (=) MoreSevere.
Proof. intros a b. by destruct a, b. Qed.
#[export] Instance MoreSevere_idem : IdemP (=) MoreSevere.
Proof. intros a. by destruct a. Qed.
#[export] Instance MoreSevere_left_id : LeftId (=) Currentness.kCurrent MoreSevere.
Proof. intros a. by destruct a. Qed.

(** ** Statuses that carry candidates *)

Definition CarriesCandidates (status : PlanStatus.t) : bool :=
  match status with
  | PlanStatus.kPlanned | PlanStatus.kTruncatedByLimit
  | PlanStatus.kRevalidationRequired => true
  | _ => false
  end.

(** ** Caller authority scope *)

Module AuthorityScope.
Definition kNone : Z := 0.
Definition kSubmitPlanRequest : Z := Z.shiftl 1 0.
Definition kReadPlan : Z := Z.shiftl 1 1.
Definition kPublishPlanResult : Z := Z.shiftl 1 2.
Definition kAdvanceEpoch : Z := Z.shiftl 1 3.
Definition kFenceWorker : Z := Z.shiftl 1 4.
End AuthorityScope.

Definition HasScope (mask scope : Z) : bool := Z.land mask scope =? scope.
Definition CombineScopes (a b : Z) : Z := Z.lor a b.
