(* ===== verification/Ids.v ===== *)
(** ids.hpp: the strongly typed fixed-width identifiers ([FixedId]) and the
    bounded unsigned quantities ([StrongUInt]) with checked arithmetic and
    canonical decimal text. *)

From S2P Require Import Prelude Canonical Sha256.

(** ** FixedId *)

(** One tag per identity domain; identifiers of two tags are two types. *)
Inductive IdTag : Set :=
  | NodeIdTag | LinkIdTag | PortIdTag | EndpointIdTag | SwitchIdTag
  | FailureDomainIdTag | FailureDomainClassTag | CapabilityIdTag
  | CandidatePathIdTag | PathPlanIdTag | PlanningRequestIdTag | ConstraintSetIdTag
  | SnapshotIdTag | PublisherIdTag | WorkerBootIdTag | MutationAttemptIdTag.

Definition kByteCount (tag : IdTag) : nat :=
  match tag with
  | FailureDomainIdTag | FailureDomainClassTag | CapabilityIdTag
  | PublisherIdTag | WorkerBootIdTag | MutationAttemptIdTag => 8
  | _ => 16
  end.
Definition kTextLength (tag : IdTag) : nat := (kByteCount tag * 2)%nat.

Record FixedId (tag : IdTag) := FromBytes { id_bytes : bytes }.
Arguments FromBytes {tag} _.
Arguments id_bytes {tag} _.

Abbreviation NodeId := (FixedId NodeIdTag).
Abbreviation LinkId := (FixedId LinkIdTag).
Abbreviation PortId := (FixedId PortIdTag).
Abbreviation EndpointId := (FixedId EndpointIdTag).
Abbreviation SwitchId := (FixedId SwitchIdTag).
Abbreviation FailureDomainId := (FixedId FailureDomainIdTag).
Abbreviation FailureDomainClass := (FixedId FailureDomainClassTag).
Abbreviation CapabilityId := (FixedId CapabilityIdTag).
Abbreviation CandidatePathId := (FixedId CandidatePathIdTag).
Abbreviation PathPlanId := (FixedId PathPlanIdTag).
Abbreviation PlanningRequestId := (FixedId PlanningRequestIdTag).
Abbreviation ConstraintSetId := (FixedId ConstraintSetIdTag).
Abbreviation SnapshotId := (FixedId SnapshotIdTag).
Abbreviation PublisherId := (FixedId PublisherIdTag).
Abbreviation WorkerBootId := (FixedId WorkerBootIdTag).
Abbreviation MutationAttemptId := (FixedId MutationAttemptIdTag).

(** The value of the C++ type: [N] bytes. *)
Definition id_wf {tag} (x : FixedId tag) : Prop :=
  length (id_bytes x) = kByteCount tag ∧ Forall is_byte (id_bytes x).

(** The reserved nil identifier [FixedId{}]. *)
Definition nil_id (tag : IdTag) : FixedId tag := FromBytes (replicate (kByteCount tag) 0).

Definition FromDigest (tag : IdTag) (digest : bytes) : FixedId tag :=
  FromBytes (take (kByteCount tag) digest).

Definition IsValid {tag} (x : FixedId tag) : bool := existsb (λ b, negb (b =? 0)) (id_bytes x).

Definition ParseId (tag : IdTag) (text : string) : option (FixedId tag) :=
  early None when negb (String.length text =? kTextLength tag)%nat ;;
  bs ← HexDecodeStrict text (kByteCount tag);
  let id : FixedId tag := FromBytes bs in
  early None when negb (IsValid id) ;;
  Some id.

Definition IdToString {tag} (x : FixedId tag) : string := HexEncode (id_bytes x).

(** [operator<=>]: bytewise. *)
#[export] Instance FixedId_ordered tag : Ordered (FixedId tag).
Proof.
  refine (inj_ordered id_bytes _). intros [x] [y]. simpl. congruence.
Defined.

#[export] Instance FixedId_eq_dec tag : EqDecision (FixedId tag) := ordered_eq_dec.

#[export] Instance FixedId_inhabited tag : Inhabited (FixedId tag) := populate (nil_id tag).

(** Keys of hash maps are the textual form of identifiers. *)
#[export] Program Instance FixedId_countable tag : Countable (FixedId tag) := {|
  encode x := encode (id_bytes x);
  decode p := FromBytes <$> decode p
|}.
Next Obligation. intros tag [x]. simpl. by rewrite decode_encode. Qed.

Lemma nil_id_wf tag : id_wf (nil_id tag).
Proof.
  split; simpl; [apply length_replicate|].
  apply Forall_replicate. unfold is_byte. lia.
Qed.

Lemma IdToString_inj {tag} (x y : FixedId tag) :
  id_wf x → id_wf y → IdToString x = IdToString y → x = y.
Proof.
  intros [Hx1 Hx2] [Hy1 Hy2] Heq. destruct x as [x], y as [y]. simpl in *. f_equal.
  assert (HexDecodeStrict (HexEncode x) (kByteCount tag) = Some x)
    by (by apply HexDecodeStrict_spec).
  assert (HexDecodeStrict (HexEncode y) (kByteCount tag) = Some y)
    by (by apply HexDecodeStrict_spec).
  unfold IdToString in Heq. simpl in Heq. congruence.
Qed.

(** ** StrongUInt

    [tmax] is the largest value of the representation type [T], [bound] the
    [MaxValue] of the instance. *)

Definition wrapT (tmax z : Z) : Z := z mod (tmax + 1).

Definition TryFrom (bound value : Z) : option Z :=
  early None when (value >? bound) ;; Some value.

Definition CheckedAddT (tmax bound a b : Z) : option Z :=
  early None when (a >? wrapT tmax (bound - b)) ;;
  TryFrom bound (wrapT tmax (a + b)).

Definition CheckedMulT (tmax bound a factor : Z) : option Z :=
  early None when (negb (factor =? 0) && (a >? wrapT tmax (bound / factor))) ;;
  TryFrom bound (wrapT tmax (a * factor)).

Definition kMaxHopCount : Z := 65535.
Definition kMaxCandidateRank : Z := 4095.

(** The instances used by the planner: every 64-bit quantity has the full range
    as its bound. *)
Definition CostValue_Max : Z := u64_max.
Definition CheckedAdd (a b : Z) : option Z := CheckedAddT u64_max u64_max a b.
Definition CheckedMul (a factor : Z) : option Z := CheckedMulT u64_max u64_max a factor.

Definition digit_char (d : Z) : Ascii.ascii := Ascii.ascii_of_N (Z.to_N (48 + d)).

(** The digit loop of [Parse]. *)
Fixpoint parse_digits (tmax bound : Z) (value : Z) (text : string) : option Z :=
  match text with
  | String.EmptyString => Some value
  | String.String c text =>
      early None when ((char_code c <? 48) || (char_code c >? 57)) ;;
      let digit := char_code c - 48 in
      early None when (value >? wrapT tmax ((bound - digit) / 10)) ;;
      parse_digits tmax bound (wrapT tmax (value * 10 + digit)) text
  end.

Definition ParseUInt (tmax bound : Z) (text : string) : option Z :=
  early None when ((String.length text =? 0)%nat || (20 <? String.length text)%nat) ;;
  early None when ((1 <? String.length text)%nat &&
                   match text with String.String c _ => char_code c =? 48 | _ => false end) ;;
  parse_digits tmax bound 0 text.

(** [while (remaining > 0) { push_back('0' + remaining % 10); remaining /= 10; }];
    the characters come out least significant first. *)
Fixpoint digit_loop (fuel : nat) (remaining : Z) : list Ascii.ascii :=
  match fuel with
  | O => []
  | S fuel =>
      if remaining >? 0
      then digit_char (remaining mod 10) :: digit_loop fuel (remaining / 10)
      else []
  end.

(** Twenty rounds cover every 64-bit value; the swap loop reverses the buffer. *)
Definition UIntToString (value : Z) : string :=
  if value =? 0 then "0"%string
  else String.string_of_list_ascii (rev (digit_loop 20 value)).

(** ** Facts about checked arithmetic *)

Lemma CheckedAdd_spec a b :
  0 <= a <= u64_max → 0 <= b <= u64_max →
  CheckedAdd a b = if a + b <=? u64_max then Some (a + b) else None.
Proof.
  unfold CheckedAdd, CheckedAddT, TryFrom, wrapT. intros Ha Hb.
  rewrite (Z.mod_small (u64_max - b)) by lia.
  destruct (a >? _) eqn:E; bool_to_prop; destruct (_ <=? _) eqn:E2; bool_to_prop; try lia; [done|].
  rewrite Z.mod_small by lia. destruct (_ >? _) eqn:E3; bool_to_prop; [lia|done].
Qed.

Lemma CheckedAdd_Some a b c :
  0 <= a <= u64_max → 0 <= b <= u64_max →
  CheckedAdd a b = Some c ↔ c = a + b ∧ a + b <= u64_max.
Proof.
  intros Ha Hb. rewrite CheckedAdd_spec by done.
  destruct (_ <=? _) eqn:E; bool_to_prop; split.
  - by intros [= <-].
  - by intros [-> _].
  - done.
  - lia.
Qed.

Lemma CheckedAdd_None a b :
  0 <= a <= u64_max → 0 <= b <= u64_max → CheckedAdd a b = None ↔ u64_max < a + b.
Proof.
  intros Ha Hb. rewrite CheckedAdd_spec by done.
  destruct (_ <=? _) eqn:E; bool_to_prop; split; try done; lia.
Qed.

Lemma CheckedMul_spec a f :
  0 <= a <= u64_max → 0 <= f <= u64_max →
  CheckedMul a f = if a * f <=? u64_max then Some (a * f) else None.
Proof.
  unfold CheckedMul, CheckedMulT, TryFrom, wrapT. intros Ha Hf.
  destruct (Z.eq_dec f 0) as [->|Hf0].
  { rewrite Z.mul_0_r. simpl. done. }
  rewrite (proj2 (Z.eqb_neq f 0)) by done. simpl.
  assert (Hdiv : 0 <= u64_max / f <= u64_max).
  { split; [apply Z.div_pos; lia|]. apply Z.div_le_upper_bound; nia. }
  rewrite (Z.mod_small (u64_max / f)) by lia.
  pose proof (Z.mul_div_le u64_max f ltac:(lia)) as Hle.
  destruct (a >? _) eqn:E; bool_to_prop; destruct (_ <=? _) eqn:E2; bool_to_prop; try done.
  - assert (a <= u64_max / f) by (apply Z.div_le_lower_bound; lia). lia.
  - rewrite Z.mod_small by nia. destruct (_ >? _) eqn:E3; bool_to_prop; [lia|done].
  - assert (a * f <= u64_max / f * f) by nia. lia.
Qed.

(** ** Decimal text *)

Section decimal.
Definition is_digit (d : Z) : Prop := 0 <= d <= 9.

(** The number a digit string denotes: most significant digit first, and least
    significant digit first. *)
Definition num (acc : Z) (ds : list Z) : Z := fold_left (λ v d, v * 10 + d) ds acc.
Fixpoint num_lsb (ds : list Z) : Z :=
  match ds with [] => 0 | d :: ds => d + 10 * num_lsb ds end.
Definition digit_text (ds : list Z) : string :=
  String.string_of_list_ascii (map digit_char ds).

Lemma char_code_digit d : is_digit d → char_code (digit_char d) = 48 + d.
Proof.
  unfold is_digit, char_code, digit_char. intros Hd.
  rewrite Ascii.N_ascii_embedding by lia. lia.
Qed.

Lemma digit_char_code c : 48 <= char_code c <= 57 → digit_char (char_code c - 48) = c.
Proof.
  unfold digit_char, char_code. intros Hc.
  replace (48 + (Z.of_N (Ascii.N_of_ascii c) - 48)) with (Z.of_N (Ascii.N_of_ascii c)) by lia.
  by rewrite N2Z.id, Ascii.ascii_N_embedding.
Qed.

Lemma num_ge acc ds : 0 <= acc → Forall is_digit ds → acc <= num acc ds.
Proof.
  intros Hacc Hds. revert acc Hacc. induction Hds as [|d ds Hd _ IH]; intros acc Hacc.
  { simpl. lia. }
  unfold is_digit in Hd. unfold num in *. simpl. specialize (IH (acc * 10 + d)). lia.
Qed.

Lemma num_rev ds : num 0 (rev ds) = num_lsb ds.
Proof.
  induction ds as [|d ds IH]; [done|]. cbn [rev num_lsb]. unfold num in *.
  rewrite fold_left_app, IH. simpl. lia.
Qed.

Lemma num_lsb_pos ds :
  Forall is_digit ds → last ds ≠ Some 0 → ds ≠ [] → 0 < num_lsb ds.
Proof.
  induction 1 as [|d ds Hd Hds IH]; [done|]. intros Hlast _. unfold is_digit in Hd.
  destruct ds as [|e ds]; simpl in *.
  - assert (d ≠ 0) by congruence. lia.
  - specialize (IH Hlast ltac:(done)). lia.
Qed.

Lemma digit_loop_num fuel ds :
  Forall is_digit ds → last ds ≠ Some 0 → (length ds <= fuel)%nat →
  digit_loop fuel (num_lsb ds) = map digit_char ds.
Proof.
  intros Hds. revert fuel. induction Hds as [|d ds Hd Hds IH]; intros fuel Hlast Hlen.
  { by destruct fuel. }
  destruct fuel as [|fuel]; [simpl in Hlen; lia|].
  pose proof (num_lsb_pos (d :: ds) ltac:(by constructor) Hlast ltac:(done)) as Hpos.
  cbn [digit_loop num_lsb map] in *. unfold is_digit in Hd.
  rewrite (proj2 (Z.gtb_lt _ _)) by lia.
  rewrite (Z.mul_comm 10), Z.mod_add, Z.div_add, Z.mod_small, Z.div_small by lia.
  f_equal. apply IH; [|simpl in Hlen; lia]. by destruct ds.
Qed.

Lemma digit_loop_digits fuel v :
  0 <= v < 10 ^ Z.of_nat fuel →
  ∃ ds, digit_loop fuel v = map digit_char ds ∧ Forall is_digit ds ∧
    num_lsb ds = v ∧ last ds ≠ Some 0 ∧ (length ds <= fuel)%nat.
Proof.
  revert v. induction fuel as [|fuel IH]; intros v Hv.
  { exists []. simpl in *. split_and!; [done|constructor|lia|done|lia]. }
  cbn [digit_loop]. destruct (v >? 0) eqn:E; bool_to_prop.
  2:{ exists []. simpl. split_and!; [done|constructor|lia|done|lia]. }
  destruct (IH (v / 10)) as (ds & Hloop & Hds & Hnum & Hlast & Hlen).
  { split; [apply Z.div_pos; lia|]. apply Z.div_lt_upper_bound; [lia|].
    rewrite Nat2Z.inj_succ, Z.pow_succ_r in Hv by lia. lia. }
  pose proof (Z.mod_pos_bound v 10 ltac:(lia)). pose proof (Z.div_mod v 10 ltac:(lia)).
  exists (v mod 10 :: ds). simpl. rewrite Hloop. split_and!.
  - done.
  - constructor; [unfold is_digit; lia|done].
  - lia.
  - destruct ds as [|e ds]; [|done]. simpl in *. intros [= Hz]. lia.
  - lia.
Qed.

Context (tmax bound : Z) (Hbound : 9 <= bound <= tmax).

(** The per-digit overflow test is exact. *)
Lemma digit_guard acc d :
  0 <= acc <= bound → is_digit d →
  (acc >? wrapT tmax ((bound - d) / 10)) = negb (acc * 10 + d <=? bound).
Proof.
  unfold is_digit, wrapT. intros Hacc Hd.
  assert (Hq : 0 <= (bound - d) / 10 <= bound).
  { split; [apply Z.div_pos; lia|]. apply Z.div_le_upper_bound; lia. }
  rewrite Z.mod_small by lia.
  pose proof (Z.div_mod (bound - d) 10 ltac:(lia)).
  pose proof (Z.mod_pos_bound (bound - d) 10 ltac:(lia)).
  destruct (_ >? _) eqn:E; destruct (_ <=? _) eqn:E2; bool_to_prop; simpl; try done; lia.
Qed.

Lemma parse_digits_text ds acc :
  0 <= acc <= bound → Forall is_digit ds → num acc ds <= bound →
  parse_digits tmax bound acc (digit_text ds) = Some (num acc ds).
Proof.
  intros Hacc Hds. revert acc Hacc. induction Hds as [|d ds Hd Hds IH]; intros acc Hacc Hle.
  { done. }
  unfold digit_text in *. cbn [map String.string_of_list_ascii parse_digits].
  rewrite char_code_digit by done. unfold is_digit in Hd.
  rewrite (proj2 (Z.ltb_ge (48 + d) 48)) by lia. rewrite Z.gtb_ltb.
  rewrite (proj2 (Z.ltb_ge 57 (48 + d))) by lia. cbn [orb].
  replace (48 + d - 48) with d by lia. rewrite digit_guard by done.
  unfold num in *. cbn [fold_left] in *.
  pose proof (num_ge (acc * 10 + d) ds ltac:(lia) Hds) as Hge. unfold num in Hge.
  rewrite (proj2 (Z.leb_le _ _)) by lia. cbn [negb]. unfold wrapT.
  rewrite Z.mod_small by lia. apply IH; [lia|done].
Qed.

Lemma parse_digits_inv text acc v :
  0 <= acc <= bound → parse_digits tmax bound acc text = Some v →
  ∃ ds, text = digit_text ds ∧ Forall is_digit ds ∧ v = num acc ds ∧ v <= bound.
Proof.
  revert acc. induction text as [|c text IH]; intros acc Hacc; cbn [parse_digits].
  { intros [= <-]. exists []. split_and!; [done|constructor|done|lia]. }
  destruct (_ || _) eqn:Hc; [done|]. rewrite Z.gtb_ltb in Hc. bool_to_prop.
  assert (Hd : is_digit (char_code c - 48)) by (unfold is_digit; lia).
  rewrite digit_guard by done. destruct (_ <=? _) eqn:E; [|done]. bool_to_prop. cbn [negb].
  unfold wrapT. unfold is_digit in Hd. rewrite Z.mod_small by lia. intros Hp.
  apply IH in Hp as (ds & -> & Hds & -> & Hle); [|lia].
  exists ((char_code c - 48) :: ds). split_and!; [|by constructor|done|done].
  unfold digit_text. cbn [map String.string_of_list_ascii].
  by rewrite digit_char_code by lia.
Qed.
End decimal.

Lemma length_digit_text ds : String.length (digit_text ds) = length ds.
Proof.
  unfold digit_text. induction ds as [|d ds IH]; simpl; [done|]. by rewrite IH.
Qed.

Lemma UIntToString_digits v :
  0 < v < 10 ^ 20 →
  ∃ ds, UIntToString v = digit_text (rev ds) ∧ Forall is_digit ds ∧ num_lsb ds = v ∧
    last ds ≠ Some 0 ∧ (1 <= length ds <= 20)%nat.
Proof.
  intros Hv. destruct (digit_loop_digits 20 v) as (ds & Hl & Hds & Hnum & Hlast & Hlen);
    [change (Z.of_nat 20) with 20; lia|].
  exists ds. unfold UIntToString. rewrite (proj2 (Z.eqb_neq v 0)) by lia.
  rewrite Hl. split_and!; try done.
  - unfold digit_text. by rewrite map_rev.
  - destruct ds as [|d ds]; [|clear - Hlen; simpl in *; lia]. clear - Hnum Hv. unfold num_lsb in Hnum. simpl in Hnum. lia.
Qed.

(** A nonempty digit text without a leading zero is rendered by the value it
    denotes. *)
Lemma UIntToString_num ds :
  Forall is_digit ds → (1 <= length ds <= 20)%nat → head ds ≠ Some 0 →
  UIntToString (num 0 ds) = digit_text ds.
Proof.
  intros Hds Hlen Hhead. rewrite <- (rev_involutive ds), num_rev.
  assert (Hrev : Forall is_digit (rev ds)) by (by apply Forall_rev).
  assert (Hlast : last (rev ds) ≠ Some 0).
  { destruct ds as [|d ds]; [done|]. simpl rev. rewrite last_snoc. done. }
  assert (Hne : rev ds ≠ []).
  { intros Hnil. apply (f_equal length) in Hnil. rewrite length_rev in Hnil. simpl in *. lia. }
  pose proof (num_lsb_pos _ Hrev Hlast Hne). unfold UIntToString.
  rewrite (proj2 (Z.eqb_neq _ 0)) by lia.
  rewrite digit_loop_num by (try done; rewrite length_rev; lia).
  unfold digit_text. by rewrite (map_rev _ (rev ds)).
Qed.

Lemma leading_zero_text ds :
  Forall is_digit ds →
  match digit_text ds with String.String c _ => char_code c =? 48 | _ => false end =
  match ds with d :: _ => d =? 0 | [] => false end.
Proof.
  destruct 1 as [|d ds Hd Hds]; [done|]. unfold digit_text.
  cbn [map String.string_of_list_ascii]. rewrite char_code_digit by done.
  unfold is_digit in Hd. destruct (d =? 0) eqn:E; bool_to_prop.
  - by subst.
  - apply Z.eqb_neq. lia.
Qed.

(** Decimal text is canonical for every bounded quantity of the planner.  A
    text parses to [v] exactly when [v] is within the bound and the text is the
    rendering of [v]: overflow, signs, blanks and leading zeros are all refused
    and nothing valid is. *)
Theorem uint_text_roundtrip tmax bound text v :
  9 <= bound <= tmax → tmax <= u64_max →
  ParseUInt tmax bound text = Some v ↔ 0 <= v <= bound ∧ UIntToString v = text.
Proof.
  intros Hb Ht. unfold u64_max in Ht. unfold ParseUInt. split.
  - destruct (_ || _) eqn:Hlen; [done|]. bool_to_prop.
    destruct (_ && _) eqn:Hzero; [done|]. intros Hp.
    apply parse_digits_inv in Hp as (ds & -> & Hds & -> & Hle); [|done|lia].
    rewrite length_digit_text in *. pose proof (num_ge 0 ds ltac:(lia) Hds).
    split; [lia|]. rewrite leading_zero_text in Hzero by done.
    destruct ds as [|d ds]; [simpl in *; lia|].
    destruct (Z.eq_dec d 0) as [->|Hd]; [|apply UIntToString_num; [done|simpl in *; lia|simpl; congruence]].
    destruct ds as [|e ds]; [reflexivity|]. cbn in Hzero. discriminate Hzero.
  - intros [Hv <-]. destruct (Z.eq_dec v 0) as [->|Hv0].
    { change (UIntToString 0) with (digit_text [0]).
      change (parse_digits tmax bound 0 (digit_text [0]) = Some (num 0 [0])).
      apply parse_digits_text; [done|lia|repeat constructor; lia|]. unfold num. simpl. lia. }
    destruct (UIntToString_digits v) as (ds & -> & Hds & Hnum & Hlast & Hlen); [lia|].
    assert (Hrev : Forall is_digit (rev ds)) by (by apply Forall_rev).
    rewrite length_digit_text, length_rev.
    destruct (_ || _) eqn:Hl; bool_to_prop; [destruct Hl; bool_to_prop; lia|].
    rewrite leading_zero_text by done.
    replace (match rev ds with d :: _ => d =? 0 | [] => false end) with false.
    2:{ destruct ds as [|d ds _] using rev_ind; [done|]. rewrite last_snoc in Hlast.
        rewrite rev_app_distr. simpl. symmetry. apply Z.eqb_neq. congruence. }
    rewrite andb_false_r, parse_digits_text by (try done; try lia; rewrite num_rev; lia).
    by rewrite num_rev, Hnum.
Qed.

Example uint_text_roundtrip_witness :
  ParseUInt u32_max kMaxHopCount "65535" = Some 65535 ∧
  ParseUInt u32_max kMaxHopCount "65536" = None ∧
  ParseUInt u32_max kMaxHopCount "007" = None.
Proof.
  split; [|split; reflexivity].
  apply (uint_text_roundtrip u32_max kMaxHopCount "65535" 65535);
    [split; discriminate|discriminate|split; [split; discriminate|reflexivity]].
Defined.

(** Identifier text is exact: a text parses to an identifier exactly when
    that identifier is well formed, is not nil, and renders to the text. *)
Theorem id_text_roundtrip tag text (x : FixedId tag) :
  ParseId tag text = Some x ↔ id_wf x ∧ IsValid x = true ∧ IdToString x = text.
Proof.
  unfold ParseId, kTextLength. split.
  - destruct (_ =? _)%nat; [|done]. cbn [negb].
    destruct (HexDecodeStrict text (kByteCount tag)) as [bs|] eqn:E; [|done]. simpl.
    destruct (IsValid _) eqn:HV; [|done]. intros [= <-].
    by apply HexDecodeStrict_spec in E as (? & ? & ?).
  - intros ([Hlen Hb] & HV & <-). unfold IdToString.
    rewrite length_HexEncode, Hlen, Nat.eqb_refl. cbn [negb].
    assert (HD : HexDecodeStrict (HexEncode (id_bytes x)) (kByteCount tag) = Some (id_bytes x))
      by (by apply HexDecodeStrict_spec).
    rewrite HD. simpl. destruct x as [b]. simpl in *. by rewrite HV.
Qed.

(** Checked addition never wraps: it returns the exact sum when that fits the
    64-bit range and nothing otherwise; likewise for the product. *)
Theorem checked_arithmetic_exact a b :
  0 <= a <= u64_max → 0 <= b <= u64_max →
  CheckedAdd a b = (if a + b <=? u64_max then Some (a + b) else None) ∧
  CheckedMul a b = (if a * b <=? u64_max then Some (a * b) else None).
Proof. intros Ha Hb. split; [by apply CheckedAdd_spec|by apply CheckedMul_spec]. Qed.

Example checked_arithmetic_exact_witness :
  CheckedAdd u64_max 1 = None ∧ CheckedMul 4294967296 4294967295 = Some 18446744069414584320.
Proof.
  split.
  - rewrite (proj1 (checked_arithmetic_exact u64_max 1 ltac:(split; discriminate)
                                             ltac:(split; discriminate))). reflexivity.
  - rewrite (proj2 (checked_arithmetic_exact 4294967296 4294967295 ltac:(split; discriminate)
                                             ltac:(split; discriminate))). reflexivity.
Defined.
