(* ===== verification/Codec.v ===== *)
(** Unique decoding of the canonical encodings: an encoder is [PrefixFree] on a
    domain when an encoded value can be split off the front of any byte string
    in one way only.  The primitives of [ByteWriter] are prefix free on the
    values of their C++ types, lists with a length prefix are when their
    elements are, and a struct is when its fields are written one after the
    other, so the digests of the planner are digests of one value. *)

From S2P Require Import Prelude Canonical Status Ids.

Definition PrefixFree {A} (P : A → Prop) (enc : A → bytes) : Prop :=
  ∀ x y r1 r2, P x → P y → enc x ++ r1 = enc y ++ r2 → x = y ∧ r1 = r2.

Lemma PrefixFree_inj {A} (P : A → Prop) enc x y :
  PrefixFree P enc → P x → P y → enc x = enc y → x = y.
Proof. intros Hpf Hx Hy Heq. apply (Hpf x y [] []); [done|done|]. by rewrite Heq. Qed.

(** A decoder makes its encoder prefix free. *)
Lemma Reads_PrefixFree {A} (P : A → Prop) (dec : Reader A) (enc : A → bytes) :
  (∀ x, P x → Reads dec (enc x) x) → PrefixFree P enc.
Proof.
  intros Hr x y r1 r2 Hx Hy Heq.
  pose proof (Hr x Hx [] r1) as H1. pose proof (Hr y Hy [] r2) as H2.
  simpl in H1, H2. rewrite Heq in H1. rewrite H1 in H2. injection H2 as -> Hlen.
  split; [done|]. by apply app_inj_1 in Heq as [_ ?].
Qed.

Definition u64_fits (v : Z) : Prop := 0 <= v <= u64_max.
Definition u32_fits (v : Z) : Prop := 0 <= v <= u32_max.

Lemma PrefixFree_U32 : PrefixFree u32_fits (le_bytes 4).
Proof. apply (Reads_PrefixFree _ RU32). apply Reads_U32. Qed.

Lemma PrefixFree_U64 : PrefixFree u64_fits (le_bytes 8).
Proof. apply (Reads_PrefixFree _ RU64). apply Reads_U64. Qed.

Lemma PrefixFree_VarU64 : PrefixFree u64_fits varint_bytes.
Proof. apply (Reads_PrefixFree _ RVarU64). apply Reads_VarU64. Qed.

Definition bool_bytes (b : bool) : bytes := [if b then 1 else 0].

Lemma PrefixFree_Bool : PrefixFree (λ _, True) bool_bytes.
Proof. apply (Reads_PrefixFree _ RBool). intros. apply Reads_Bool. Qed.

Lemma PrefixFree_id tag : PrefixFree (@id_wf tag) id_bytes.
Proof.
  intros [x] [y] r1 r2 [Hx _] [Hy _] Heq. simpl in *.
  apply app_inj_1 in Heq as [-> ->]; [done|congruence].
Qed.

(** Fixed-length byte arrays. *)
Lemma PrefixFree_fixed n : PrefixFree (λ bs : bytes, length bs = n) (λ bs, bs).
Proof. intros x y r1 r2 Hx Hy Heq. apply app_inj_1 in Heq; [done|congruence]. Qed.

Definition enum_fits {E} `{CppEnum E} (x : E) : Prop := u32_fits (enum_value x).
Definition enum_bytes {E} `{CppEnum E} (x : E) : bytes := le_bytes 4 (enum_value x).

Lemma PrefixFree_enum {E} `{CppEnum E} : PrefixFree enum_fits enum_bytes.
Proof.
  intros x y r1 r2 Hx Hy Heq. apply PrefixFree_U32 in Heq as [Heq ->]; [|done..].
  split; [by apply enum_value_inj|done].
Qed.

(** [VarU64(v.size())] followed by the elements. *)
Definition list_bytes {A} (enc : A → bytes) (l : list A) : bytes :=
  varint_bytes (Z.of_nat (length l)) ++ flat_map enc l.

Definition list_fits {A} (P : A → Prop) (l : list A) : Prop :=
  Z.of_nat (length l) <= u64_max ∧ Forall P l.

Lemma PrefixFree_list {A} (P : A → Prop) enc :
  PrefixFree P enc → PrefixFree (list_fits P) (list_bytes enc).
Proof.
  intros Hpf x y r1 r2 [Hlx Hx] [Hly Hy] Heq. unfold list_bytes in Heq.
  rewrite <- !app_assoc in Heq. apply PrefixFree_VarU64 in Heq as [Hlen Heq]; [|unfold u64_fits; lia..].
  apply Nat2Z.inj in Hlen. clear Hlx Hly. revert y Hlen Hy Heq.
  induction x as [|a x IH]; intros [|b y] Hlen Hy Heq; try done.
  simpl in Heq. rewrite <- !app_assoc in Heq.
  apply Forall_cons in Hx as [Ha Hx], Hy as [Hb Hy].
  apply Hpf in Heq as [-> Heq]; [|done..].
  destruct (IH Hx y) as [-> ->]; [simpl in Hlen; lia|done..].
Qed.

Lemma PrefixFree_Text :
  PrefixFree (λ s, Z.of_nat (length (text_bytes s)) <= u64_max)
    (λ s, varint_bytes (Z.of_nat (length (text_bytes s))) ++ text_bytes s).
Proof.
  intros x y r1 r2 Hx Hy Heq. rewrite <- !app_assoc in Heq.
  apply PrefixFree_VarU64 in Heq as [Hlen Heq]; [|unfold u64_fits; lia..].
  apply Nat2Z.inj in Hlen. apply app_inj_1 in Heq as [Heq ->]; [|done].
  split; [|done]. clear -Heq. revert y Heq. unfold text_bytes.
  induction x as [|c x IH]; intros [|d y]; simpl; try done.
  intros [= Hc Heq]. f_equal; [|by apply IH].
  unfold char_code in Hc. apply N2Z.inj in Hc.
  by rewrite <- (Ascii.ascii_N_embedding c), Hc, Ascii.ascii_N_embedding.
Qed.

(** An optional value with a presence flag. *)
Definition option_bytes {A} (enc : A → bytes) (o : option A) : bytes :=
  match o with Some x => bool_bytes true ++ enc x | None => bool_bytes false end.
Definition option_fits {A} (P : A → Prop) (o : option A) : Prop :=
  match o with Some x => P x | None => True end.

Lemma PrefixFree_option {A} (P : A → Prop) enc :
  PrefixFree P enc → PrefixFree (option_fits P) (option_bytes enc).
Proof.
  intros Hpf [x|] [y|] r1 r2 Hx Hy Heq; simpl in *; try done.
  - injection Heq as Heq. by apply Hpf in Heq as [-> ->].
  - injection Heq as ->. done.
Qed.

Create HintDb prefix_free discriminated.
#[export] Hint Constants Opaque : prefix_free.
#[export] Hint Resolve PrefixFree_U32 PrefixFree_U64 PrefixFree_VarU64 PrefixFree_Bool
  PrefixFree_id PrefixFree_enum PrefixFree_list PrefixFree_Text PrefixFree_option : prefix_free.

#[export] Hint Extern 3 (u64_fits _) => (unfold u64_fits in *; lia) : core.

(** Splits the leading field off an equation of two encodings. *)
Ltac peel H :=
  rewrite <- ?app_assoc in H;
  lazymatch type of H with
  | ?enc ?x ++ _ = ?enc ?y ++ _ =>
      let A := type of x in
      let P := fresh "P" in
      let Hpf := fresh "Hpf" in
      let E := fresh "E" in
      evar (P : A → Prop);
      assert (Hpf : PrefixFree P enc) by (subst P; eauto with prefix_free);
      subst P; apply Hpf in H as [E H]; [clear Hpf|solve [eauto]..]
  end.

(** Peels every field of two equal encodings, then compares the records. *)
Tactic Notation "prefix_free_record" tactic3(unfolds) :=
  let x := fresh "x" in let y := fresh "y" in let H := fresh "Heq" in
  intros x y ? ? ? ? H; unfolds; destruct_and?;
  repeat peel H; destruct x, y; simpl in *; by subst.

(** ** The writer produces the encodings *)

Lemma Writes_enum {E} `{CppEnum E} (x : E) : Writes (U32 (enum_value x)) (enum_bytes x).
Proof. apply Writes_U32. Qed.

Lemma Writes_bool (b : bool) : Writes (Bool b) (bool_bytes b).
Proof. apply Writes_Bool. Qed.

Lemma Writes_list {A} (op : A → ByteWriter → ByteWriter) (enc : A → bytes) l :
  (∀ x, Writes (op x) (enc x)) →
  Writes (λ w, fold_left (λ w x, op x w) l (VarU64 (Z.of_nat (length l)) w))
    (list_bytes enc l).
Proof.
  intros Hop. apply (Writes_comp (VarU64 _) (λ w, fold_left (λ w x, op x w) l w)).
  - apply Writes_VarU64.
  - apply Writes_fold. auto.
Qed.

#[export] Hint Resolve Writes_enum Writes_bool Writes_list : writes.

(** The content of a fresh writer that did not overflow. *)
Lemma Writes_new_writer op bs c :
  Writes op bs → 0 <= c →
  let w := op (new_writer c) in
  (overflowed_ w = false ↔ Z.of_nat (length bs) <= c) ∧
  (overflowed_ w = false → data_ w = bs).
Proof.
  intros Hw Hc. destruct (Hw (new_writer c)) as [_ [_ Hwr]]; [done|]. simpl.
  unfold writer_size in Hwr. simpl in Hwr.
  destruct (_ >? _) eqn:E; bool_to_prop.
  - split; [|congruence]. split; [congruence|lia].
  - rewrite Hwr. simpl. split; [|done]. split; [lia|done].
Qed.
