(* ===== verification/Limits.v ===== *)
(** limits.hpp, the [ValidateLimits] half of graph.cpp, version.hpp and the
    statistics record of planner.hpp: the resource bounds every component
    reads and the counters the runtime keeps. *)

From S2P Require Import Prelude Status Ids.

Definition kPlanningRuleVersion : Z := 1.
Definition kPathEncodingVersion : Z := 1.
Definition kPlanDigestSchemeVersion : Z := 1.

Record ResourceLimits := MkLimits {
  (* snapshot shape *)
  max_nodes : Z; max_edges : Z; max_endpoints : Z; max_ports_per_node : Z;
  max_link_state_records : Z; max_port_state_records : Z; max_capability_bindings : Z;
  max_failure_domains : Z; lim_max_members_per_failure_domain : Z;
  (* request shape *)
  max_candidates_per_request : Z; lim_max_hops : Z; max_constraints_total : Z;
  max_forbidden_ids : Z; max_required_ids : Z; max_required_any_sets : Z;
  max_members_in_any_set : Z; max_transit_alternatives : Z; max_transit_combinations : Z;
  max_capability_requirements : Z; max_forbidden_domain_classes : Z;
  (* deterministic work budget *)
  max_expanded_states : Z; max_spur_searches : Z; max_queue_entries : Z; max_search_states : Z;
  (* retention and explanation *)
  max_retained_plans : Z; max_history_entries : Z; max_explanation_entries : Z;
  max_reverse_dependency_entries : Z; max_persisted_plans : Z; max_enumeration_candidates : Z;
  (* protocol and sessions *)
  max_frame_bytes : Z; max_sessions : Z; max_concurrent_requests : Z; max_workers : Z;
  receive_bound_ms : Z; send_bound_ms : Z; connect_bound_ms : Z
}.

Definition default_limits : ResourceLimits := {|
  max_nodes := Z.shiftl 1 20; max_edges := Z.shiftl 1 22; max_endpoints := Z.shiftl 1 20;
  max_ports_per_node := 4096; max_link_state_records := Z.shiftl 1 22;
  max_port_state_records := Z.shiftl 1 22; max_capability_bindings := Z.shiftl 1 22;
  max_failure_domains := Z.shiftl 1 18; lim_max_members_per_failure_domain := Z.shiftl 1 16;
  max_candidates_per_request := 64; lim_max_hops := 512; max_constraints_total := 4096;
  max_forbidden_ids := 2048; max_required_ids := 256; max_required_any_sets := 64;
  max_members_in_any_set := 256; max_transit_alternatives := 1024;
  max_transit_combinations := 64; max_capability_requirements := 256;
  max_forbidden_domain_classes := 256;
  max_expanded_states := 50 * 1000 * 1000; max_spur_searches := 4 * 1000 * 1000;
  max_queue_entries := 20 * 1000 * 1000; max_search_states := 4 * 1000 * 1000;
  max_retained_plans := 4096; max_history_entries := 64; max_explanation_entries := 256;
  max_reverse_dependency_entries := Z.shiftl 1 20; max_persisted_plans := 65536;
  max_enumeration_candidates := 256;
  max_frame_bytes := Z.shiftl 1 20; max_sessions := 256; max_concurrent_requests := 256;
  max_workers := 64; receive_bound_ms := 15000; send_bound_ms := 15000;
  connect_bound_ms := 10000
|}.

(** [static bool Exceeds(std::size_t count, std::uint32_t limit)]. *)
Definition Exceeds (count : nat) (limit : Z) : bool := Z.of_nat count >? limit.

Import DiagnosticCode.

Definition ValidateLimits (l : ResourceLimits) : option DiagnosticCode.t :=
  early Some kGraphTooLarge
    when ((max_nodes l =? 0) || (max_edges l =? 0) || (max_endpoints l =? 0) ||
          (max_ports_per_node l =? 0)) ;;
  early Some kCandidateLimitExceeded
    when ((max_candidates_per_request l =? 0) ||
          (max_candidates_per_request l >? kMaxCandidateRank)) ;;
  early Some kMaxHopsExceeded
    when ((lim_max_hops l =? 0) || (lim_max_hops l >? kMaxHopCount)) ;;
  early Some kProtocolMalformedFrame
    when ((max_frame_bytes l <? 64) || (max_frame_bytes l >? Z.shiftl 256 20)) ;;
  early Some kProtocolSessionLimit
    when ((max_sessions l =? 0) || (max_workers l =? 0) || (max_concurrent_requests l =? 0)) ;;
  early Some kProtocolReceiveBoundExceeded
    when ((receive_bound_ms l =? 0) || (connect_bound_ms l =? 0) || (send_bound_ms l =? 0)) ;;
  early Some kWorkBudgetExhausted
    when ((max_expanded_states l =? 0) || (max_spur_searches l =? 0) ||
          (max_queue_entries l =? 0)) ;;
  early Some kPersistenceLimitExceeded
    when ((max_retained_plans l =? 0) || (max_history_entries l =? 0) ||
          (max_explanation_entries l =? 0)) ;;
  early Some kConstraintCountExceeded
    when ((max_constraints_total l =? 0) || (max_forbidden_ids l =? 0) ||
          (max_required_ids l =? 0)) ;;
  early Some kConstraintCountExceeded
    when ((max_required_any_sets l =? 0) || (max_members_in_any_set l =? 0)) ;;
  None.

Record PlannerStatistics := MkStats {
  plans_computed : Z; plans_published : Z; plans_publish_rejected_stale : Z;
  candidates_returned : Z; states_expanded : Z; queue_pushes : Z; spur_searches : Z;
  snapshots_published : Z; epochs_advanced : Z; invalidations_applied : Z; plans_retired : Z
}.

Definition zero_stats : PlannerStatistics := MkStats 0 0 0 0 0 0 0 0 0 0 0.

(** The counters are 64-bit and wrap. *)
Definition MergeStats (t s : PlannerStatistics) : PlannerStatistics := {|
  plans_computed := wrap64 (plans_computed t + plans_computed s);
  plans_published := wrap64 (plans_published t + plans_published s);
  plans_publish_rejected_stale :=
    wrap64 (plans_publish_rejected_stale t + plans_publish_rejected_stale s);
  candidates_returned := wrap64 (candidates_returned t + candidates_returned s);
  states_expanded := wrap64 (states_expanded t + states_expanded s);
  queue_pushes := wrap64 (queue_pushes t + queue_pushes s);
  spur_searches := wrap64 (spur_searches t + spur_searches s);
  snapshots_published := wrap64 (snapshots_published t + snapshots_published s);
  epochs_advanced := wrap64 (epochs_advanced t + epochs_advanced s);
  invalidations_applied := wrap64 (invalidations_applied t + invalidations_applied s);
  plans_retired := wrap64 (plans_retired t + plans_retired s)
|}.

Example default_limits_valid : ValidateLimits default_limits = None.
Proof. reflexivity. Qed.
