(* ===== verification/Graph.v ===== *)
(** graph.hpp / graph.cpp: the topology records, the consumed views with their
    binary searches, the generation binding and evidence of a snapshot, the
    canonical encoding of a snapshot and the builder that turns published
    records into an immutable, coherent [FabricSnapshot].  The human-readable
    [detail] text of a rejected build is not modelled. *)

From S2P Require Import Prelude Canonical Sha256 Status Ids Codec Limits.

Module SubjectKind.
Inductive t : Set :=
  | kNode | kLink | kPort.

Definition all : list t :=
  [kNode; kLink; kPort].

Definition value (x : t) : Z :=
  match x with
  | kNode => 1 | kLink => 2 | kPort => 3
  end.

Definition names : list EnumEntry := entries
  [("NODE"%string, 1); ("LINK"%string, 2); ("PORT"%string, 3)].

#[export] Instance enum : CppEnum t.
Proof. enum_instance value all names. Defined.
End SubjectKind.
#[export] Existing Instance SubjectKind.enum.

(** ** Subject keys *)

Record SubjectKey := MkSubject { sk_kind : SubjectKind.t; sk_bytes : bytes }.

Definition ForNode (x : NodeId) : SubjectKey := MkSubject SubjectKind.kNode (id_bytes x).
Definition ForLink (x : LinkId) : SubjectKey := MkSubject SubjectKind.kLink (id_bytes x).
Definition ForPort (x : PortId) : SubjectKey := MkSubject SubjectKind.kPort (id_bytes x).

Definition AsNode (k : SubjectKey) : option NodeId :=
  early None when negb (enum_eqb (sk_kind k) SubjectKind.kNode) ;; Some (FromBytes (sk_bytes k)).
Definition AsLink (k : SubjectKey) : option LinkId :=
  early None when negb (enum_eqb (sk_kind k) SubjectKind.kLink) ;; Some (FromBytes (sk_bytes k)).
Definition AsPort (k : SubjectKey) : option PortId :=
  early None when negb (enum_eqb (sk_kind k) SubjectKind.kPort) ;; Some (FromBytes (sk_bytes k)).

(** [operator<=>]: the kind, then the bytes. *)
#[export] Instance SubjectKey_ordered : Ordered SubjectKey.
Proof.
  refine (inj_ordered (λ k, (enum_value (sk_kind k), sk_bytes k)) _).
  intros [k1 b1] [k2 b2]. simpl. intros [= Hk ->]. f_equal. by apply enum_value_inj.
Defined.
#[export] Instance SubjectKey_eq_dec : EqDecision SubjectKey := ordered_eq_dec.

(** ** Topology records *)

Record NodeRecord := MkNode {
  n_id : NodeId; n_attachment : SwitchId; n_entity_generation : Z;
  n_structural_generation : Z; n_ports : list PortId
}.

Record EdgeRecord := MkEdge {
  e_id : LinkId; e_from : NodeId; e_to : NodeId; e_from_port : PortId; e_to_port : PortId;
  e_layer : PathLayer.t; e_relationship : RelationshipType.t; e_static_cost : Z;
  e_entity_generation : Z; e_structural_generation : Z
}.

Record EndpointRecord := MkEndpoint {
  ep_id : EndpointId; ep_class : EndpointClass.t; ep_node : NodeId; ep_port : PortId;
  ep_entity_generation : Z
}.

Definition RelationshipMatchesLayer (r : RelationshipType.t) (l : PathLayer.t) : bool :=
  match r with
  | RelationshipType.kDirectLink => enum_eqb l PathLayer.kPhysical
  | RelationshipType.kPortPairing => enum_eqb l PathLayer.kPhysical
  | RelationshipType.kLogicalAdjacency => enum_eqb l PathLayer.kLogical
  | RelationshipType.kTunnelEncapsulation =>
      enum_eqb l PathLayer.kTunnel || enum_eqb l PathLayer.kOverlay
  end.

(** ** Views *)

Record LinkStateRecord := MkLinkState { ls_link : LinkId; ls_state : LinkState.t }.
Record PortStateRecord := MkPortState { ps_port : PortId; ps_state : PortState.t }.
Record CapabilityBinding := MkBinding {
  cb_subject : SubjectKey; cb_capability : CapabilityId; cb_value : Z
}.
Record FailureDomainRecord := MkDomain {
  fd_domain : FailureDomainId; fd_risk_class : FailureDomainClass; fd_members : list SubjectKey
}.

Record LinkStateView := MkLinkStateView { ls_records : list LinkStateRecord }.
Definition new_LinkStateView (records : list LinkStateRecord) : LinkStateView :=
  MkLinkStateView (sort_by ls_link records).
Definition FindLinkState (v : LinkStateView) (link : LinkId) : option LinkStateRecord :=
  find_sorted ls_link (ls_records v) link.
Definition LinkStateOf (v : LinkStateView) (link : LinkId) : LinkState.t :=
  match FindLinkState v link with Some r => ls_state r | None => LinkState.kUnknown end.

Record PortStateView := MkPortStateView { ps_records : list PortStateRecord }.
Definition new_PortStateView (records : list PortStateRecord) : PortStateView :=
  MkPortStateView (sort_by ps_port records).
Definition FindPortState (v : PortStateView) (port : PortId) : option PortStateRecord :=
  find_sorted ps_port (ps_records v) port.
Definition PortStateOf (v : PortStateView) (port : PortId) : PortState.t :=
  match FindPortState v port with Some r => ps_state r | None => PortState.kUnknown end.

Definition binding_key (b : CapabilityBinding) : SubjectKey * CapabilityId :=
  (cb_subject b, cb_capability b).
Record CapabilityView := MkCapabilityView { cv_bindings : list CapabilityBinding }.
Definition new_CapabilityView (bindings : list CapabilityBinding) : CapabilityView :=
  MkCapabilityView (sort_by binding_key bindings).
Definition LookupCapability (v : CapabilityView) (subject : SubjectKey)
    (capability : CapabilityId) : option Z :=
  cb_value <$> find_sorted binding_key (cv_bindings v) (subject, capability).

Record FailureDomainView := MkFailureDomainView {
  fdv_domains : list FailureDomainRecord;
  fdv_membership : list (SubjectKey * FailureDomainId);
  fdv_complete : bool
}.
Definition domain_memberships (r : FailureDomainRecord) : list (SubjectKey * FailureDomainId) :=
  map (λ m, (m, fd_domain r)) (fd_members r).
Definition new_FailureDomainView (domains : list FailureDomainRecord) (complete : bool) :
  FailureDomainView :=
  let domains := sort_by fd_domain domains in
  let membership := flat_map domain_memberships domains in
  MkFailureDomainView domains (unique_ids (sort_ids membership)) complete.
Definition FindDomain (v : FailureDomainView) (domain : FailureDomainId) :
  option FailureDomainRecord :=
  find_sorted fd_domain (fdv_domains v) domain.

Record Membership := MkMembership { mb_known : bool; mb_domains : list FailureDomainId }.

(** The scan [cursor != end && cursor->first == subject]. *)
Fixpoint take_subject (subject : SubjectKey) (l : list (SubjectKey * FailureDomainId)) :
  list FailureDomainId :=
  match l with
  | p :: l => if eqb p.1 subject then p.2 :: take_subject subject l else []
  | [] => []
  end.

Definition MembershipOf (v : FailureDomainView) (subject : SubjectKey) : Membership :=
  let domains := take_subject subject (lower_bound fst (fdv_membership v) subject) in
  let found := negb (length domains =? 0)%nat in
  MkMembership (found || fdv_complete v) domains.

(** ** Generations and evidence *)

Record SnapshotGenerations := MkGenerations {
  g_topology : Z; g_link_state : Z; g_ports : Z; g_capabilities : Z;
  g_failure_domains : Z; g_epoch : Z; g_policy : Z; g_constraints : Z
}.
Definition zero_generations : SnapshotGenerations := MkGenerations 0 0 0 0 0 0 0 0.

#[export] Instance SnapshotGenerations_eq_dec : EqDecision SnapshotGenerations.
Proof. solve_decision. Defined.

Definition EncodeGenerations (g : SnapshotGenerations) (w : ByteWriter) : ByteWriter :=
  w |> U64 (g_topology g) |> U64 (g_link_state g) |> U64 (g_ports g)
    |> U64 (g_capabilities g) |> U64 (g_failure_domains g) |> U64 (g_epoch g)
    |> U64 (g_policy g) |> U64 (g_constraints g).

Record EvidenceVector := MkEvidence {
  ev_snapshot : SnapshotId; ev_generations : SnapshotGenerations;
  ev_source : EvidenceSource.t; ev_publish_sequence : Z
}.

#[export] Instance EvidenceVector_eq_dec : EqDecision EvidenceVector.
Proof. solve_decision. Defined.

Definition EncodeEvidence (e : EvidenceVector) (w : ByteWriter) : ByteWriter :=
  w |> FixedBytes (id_bytes (ev_snapshot e))
    |> EncodeGenerations (ev_generations e)
    |> U32 (enum_value (ev_source e))
    |> U64 (ev_publish_sequence e).

(** One [if (prior.x != current.x) worst = MoreSevere(worst, verdict)]. *)
Definition bump (changed : bool) (verdict worst : Currentness.t) : Currentness.t :=
  if changed then MoreSevere worst verdict else worst.

Definition ClassifyEvidence (prior current : EvidenceVector) : Currentness.t :=
  let p := ev_generations prior in
  let c := ev_generations current in
  Currentness.kCurrent
    |> bump (negb (g_topology p =? g_topology c)) Currentness.kStaleTopology
    |> bump (negb (g_link_state p =? g_link_state c)) Currentness.kStaleLinkState
    |> bump (negb (g_ports p =? g_ports c)) Currentness.kStalePortState
    |> bump (negb (g_capabilities p =? g_capabilities c)) Currentness.kStaleCapability
    |> bump (negb (g_failure_domains p =? g_failure_domains c)) Currentness.kStaleFailureDomain
    |> bump (negb (g_policy p =? g_policy c)) Currentness.kStalePolicy
    |> bump (negb (g_epoch p =? g_epoch c)) Currentness.kStaleEpoch.

(** ** FabricSnapshot *)

Record FabricSnapshot := MkSnapshot {
  s_generations : SnapshotGenerations; s_source : EvidenceSource.t; s_limits : ResourceLimits;
  s_nodes : list NodeRecord; s_edges : list EdgeRecord; s_endpoints : list EndpointRecord;
  s_link_states : LinkStateView; s_port_states : PortStateView;
  s_capabilities : CapabilityView; s_failure_domains : FailureDomainView;
  s_digest : bytes
}.

Definition SnapshotIdOf (s : FabricSnapshot) : SnapshotId := FromDigest SnapshotIdTag (s_digest s).
Definition FindNode (s : FabricSnapshot) (x : NodeId) : option NodeRecord :=
  find_sorted n_id (s_nodes s) x.
Definition FindEdge (s : FabricSnapshot) (x : LinkId) : option EdgeRecord :=
  find_sorted e_id (s_edges s) x.
Definition FindEndpoint (s : FabricSnapshot) (x : EndpointId) : option EndpointRecord :=
  find_sorted ep_id (s_endpoints s) x.

Definition Evidence (s : FabricSnapshot) : EvidenceVector :=
  MkEvidence (SnapshotIdOf s) (s_generations s) (s_source s) 0.

(** [writer.VarU64(v.size()); for (x : v) op(x)]. *)
Definition write_list {A} (op : A → ByteWriter → ByteWriter) (l : list A) (w : ByteWriter) :
  ByteWriter :=
  fold_left (λ w x, op x w) l (VarU64 (Z.of_nat (length l)) w).

Definition EncodeNode (n : NodeRecord) (w : ByteWriter) : ByteWriter :=
  w |> FixedBytes (id_bytes (n_id n)) |> FixedBytes (id_bytes (n_attachment n))
    |> U64 (n_entity_generation n) |> U64 (n_structural_generation n)
    |> write_list (λ p, FixedBytes (id_bytes p)) (n_ports n).

Definition EncodeEdge (e : EdgeRecord) (w : ByteWriter) : ByteWriter :=
  w |> FixedBytes (id_bytes (e_id e)) |> FixedBytes (id_bytes (e_from e))
    |> FixedBytes (id_bytes (e_to e)) |> FixedBytes (id_bytes (e_from_port e))
    |> FixedBytes (id_bytes (e_to_port e)) |> U32 (enum_value (e_layer e))
    |> U32 (enum_value (e_relationship e)) |> U32 (e_static_cost e)
    |> U64 (e_entity_generation e) |> U64 (e_structural_generation e).

Definition EncodeEndpoint (e : EndpointRecord) (w : ByteWriter) : ByteWriter :=
  w |> FixedBytes (id_bytes (ep_id e)) |> U32 (enum_value (ep_class e))
    |> FixedBytes (id_bytes (ep_node e)) |> FixedBytes (id_bytes (ep_port e))
    |> U64 (ep_entity_generation e).

Definition EncodeLinkState (r : LinkStateRecord) (w : ByteWriter) : ByteWriter :=
  w |> FixedBytes (id_bytes (ls_link r)) |> U32 (enum_value (ls_state r)).

Definition EncodePortState (r : PortStateRecord) (w : ByteWriter) : ByteWriter :=
  w |> FixedBytes (id_bytes (ps_port r)) |> U32 (enum_value (ps_state r)).

Definition EncodeSubject (k : SubjectKey) (w : ByteWriter) : ByteWriter :=
  w |> U32 (enum_value (sk_kind k)) |> FixedBytes (sk_bytes k).

Definition EncodeBinding (b : CapabilityBinding) (w : ByteWriter) : ByteWriter :=
  w |> EncodeSubject (cb_subject b) |> FixedBytes (id_bytes (cb_capability b))
    |> U64 (cb_value b).

Definition EncodeDomain (r : FailureDomainRecord) (w : ByteWriter) : ByteWriter :=
  w |> FixedBytes (id_bytes (fd_domain r)) |> FixedBytes (id_bytes (fd_risk_class r))
    |> write_list EncodeSubject (fd_members r).

Definition EncodeSnapshot (s : FabricSnapshot) (w : ByteWriter) : ByteWriter :=
  w |> U32 kPathEncodingVersion
    |> EncodeGenerations (s_generations s)
    |> U32 (enum_value (s_source s))
    |> write_list EncodeNode (s_nodes s)
    |> write_list EncodeEdge (s_edges s)
    |> write_list EncodeEndpoint (s_endpoints s)
    |> write_list EncodeLinkState (ls_records (s_link_states s))
    |> write_list EncodePortState (ps_records (s_port_states s))
    |> write_list EncodeBinding (cv_bindings (s_capabilities s))
    |> VarU64 (Z.of_nat (length (fdv_domains (s_failure_domains s))))
    |> Bool (fdv_complete (s_failure_domains s))
    |> (λ w, fold_left (λ w r, EncodeDomain r w) (fdv_domains (s_failure_domains s)) w).

(** ** View lookups *)

Lemma ltb_pair_fst {A B} `{Ordered A, Ordered B} (p q : A * B) :
  ltb p q = true → ole p.1 q.1.
Proof.
  unfold ltb, ole. simpl. destruct (cmp p.1 q.1) eqn:E; intros Hlt; try done.
  - apply cmp_eq in E as ->. by rewrite ltb_irrefl.
  - apply ltb_asym. by apply ltb_lt.
Qed.

Lemma ltb_pair_snd {A B} `{Ordered A, Ordered B} (p q : A * B) :
  ltb p q = true → p.1 = q.1 → ltb p.2 q.2 = true.
Proof.
  unfold ltb. simpl. intros Hlt Heq. by rewrite Heq, cmp_refl in Hlt.
Qed.

Lemma elem_of_take_subject_head s l d :
  StronglySorted (λ p q : SubjectKey * FailureDomainId, ole p.1 q.1) l →
  Forall (λ p, ole s p.1) l →
  d ∈ take_subject s l ↔ (s, d) ∈ l.
Proof.
  induction 1 as [|[s' d'] l Hs IH Hall]; intros Hle; [split; by intros ?%elem_of_nil|].
  apply Forall_cons in Hle as [Hs' Hle]. simpl in *. destruct (eqb s' s) eqn:E.
  - apply eqb_eq in E as ->. rewrite !elem_of_cons, IH by done. naive_solver.
  - split; [by intros ?%elem_of_nil|]. rewrite elem_of_cons. intros [[= -> ->]|Hin].
    { by rewrite eqb_refl in E. }
    rewrite Forall_forall in Hall. specialize (Hall _ Hin). simpl in Hall.
    apply eqb_neq in E. destruct E. by apply ole_antisym.
Qed.

Lemma lower_bound_ge {A K} `{Ordered K} (key : A → K) l k :
  StronglySorted (λ x y, ole (key x) (key y)) l → Forall (λ x, ole k (key x)) (lower_bound key l k).
Proof.
  induction 1 as [|x l Hs IH Hall]; simpl; [constructor|].
  destruct (ltb (key x) k) eqn:E; [done|].
  constructor; [done|]. eapply Forall_impl; [exact Hall|]. intros y Hy. simpl in *.
  by transitivity (key x).
Qed.

Lemma elem_of_lower_bound {A K} `{Ordered K} (key : A → K) l k x :
  key x = k → x ∈ lower_bound key l k ↔ x ∈ l.
Proof.
  intros <-. induction l as [|y l IH]; simpl; [done|].
  destruct (ltb (key y) (key x)) eqn:E; [|done].
  rewrite IH, elem_of_cons. split; [auto|]. intros [->|]; [|done].
  by rewrite ltb_irrefl in E.
Qed.

Lemma lower_bound_sublist {A K} `{Ordered K} (key : A → K) l k :
  ∃ l', l = l' ++ lower_bound key l k.
Proof.
  induction l as [|x l [l' IH]]; simpl; [by exists []|].
  destruct (ltb (key x) k); [|by exists []].
  exists (x :: l'). simpl. by rewrite <- IH.
Qed.

Lemma StronglySorted_suffix {A} (R : A → A → Prop) l1 l2 :
  StronglySorted R (l1 ++ l2) → StronglySorted R l2.
Proof. induction l1; simpl; [done|]. intros [? _]%StronglySorted_inv. auto. Qed.

Lemma StronglySorted_weaken {A} (R S : A → A → Prop) l :
  (∀ x y, R x y → S x y) → StronglySorted R l → StronglySorted S l.
Proof.
  intros HRS. induction 1 as [|x l _ IH Hall]; [constructor|].
  constructor; [done|]. eapply Forall_impl; eauto.
Qed.

Section membership.
Context (v : FailureDomainView) (Hs : strictly_sorted id (fdv_membership v)).

Lemma elem_of_MembershipOf s d :
  d ∈ mb_domains (MembershipOf v s) ↔ (s, d) ∈ fdv_membership v.
Proof.
  assert (Hw : StronglySorted (λ p q, ole p.1 q.1) (fdv_membership v)).
  { eapply StronglySorted_weaken; [|exact Hs]. intros p q. unfold id. apply ltb_pair_fst. }
  unfold MembershipOf. simpl. rewrite elem_of_take_subject_head.
  - by apply elem_of_lower_bound.
  - destruct (lower_bound_sublist fst (fdv_membership v) s) as [l' Heq].
    rewrite Heq in Hw. by apply StronglySorted_suffix in Hw.
  - by apply lower_bound_ge.
Qed.

Lemma take_subject_sorted s l :
  strictly_sorted id l → strictly_sorted id (take_subject s l).
Proof.
  unfold strictly_sorted. induction 1 as [|[s' d] l _ IH Hall]; simpl; [constructor|].
  destruct (eqb s' s) eqn:E; [|constructor]. apply eqb_eq in E as ->.
  constructor; [done|]. rewrite Forall_forall. rewrite Forall_forall in Hall. intros d' Hd'.
  assert (Hin : (s, d') ∈ l).
  { clear -Hd'. induction l as [|[s' e] l IH]; simpl in *; [by apply elem_of_nil in Hd'|].
    destruct (eqb s' s) eqn:E; [|by apply elem_of_nil in Hd'].
    apply eqb_eq in E as ->. apply elem_of_cons in Hd' as [->|Hd'].
    - by left.
    - right. auto. }
  specialize (Hall _ Hin). by apply ltb_pair_snd in Hall.
Qed.

Lemma MembershipOf_sorted s : strictly_sorted id (mb_domains (MembershipOf v s)).
Proof.
  unfold MembershipOf. simpl. apply take_subject_sorted.
  destruct (lower_bound_sublist fst (fdv_membership v) s) as [l' Heq].
  unfold strictly_sorted in Hs. rewrite Heq in Hs. by apply StronglySorted_suffix in Hs.
Qed.

Lemma MembershipOf_known s :
  mb_known (MembershipOf v s) = true ↔
  fdv_complete v = true ∨ ∃ d, (s, d) ∈ fdv_membership v.
Proof.
  setoid_rewrite <- elem_of_MembershipOf. unfold MembershipOf. simpl.
  destruct (take_subject s _) as [|d l]; simpl.
  - split; [auto|]. intros [?|[d Hd]]; [done|]. by apply elem_of_nil in Hd.
  - split; [|done]. intros _. right. exists d. by left.
Qed.
End membership.

Lemma new_FailureDomainView_membership domains complete s d :
  (s, d) ∈ fdv_membership (new_FailureDomainView domains complete) ↔
  ∃ r, r ∈ domains ∧ fd_domain r = d ∧ s ∈ fd_members r.
Proof.
  simpl. rewrite elem_of_unique_ids. unfold sort_ids. rewrite elem_of_sort_by.
  rewrite list_elem_of_In, in_flat_map. setoid_rewrite <- list_elem_of_In.
  setoid_rewrite elem_of_sort_by. unfold domain_memberships.
  setoid_rewrite list_elem_of_fmap. naive_solver.
Qed.

Lemma new_FailureDomainView_sorted domains complete :
  strictly_sorted id (fdv_membership (new_FailureDomainView domains complete)).
Proof. simpl. apply unique_ids_sorted, sort_by_sorted. Qed.

(** Failure-domain membership is exactly what the registry published: the
    domains returned for a subject are the published domains that list it, each
    once and in order, and the answer is "known" only when the registry claims
    completeness or publishes at least one membership of the subject; nothing
    is inferred. *)
Theorem membership_exact domains complete s :
  let m := MembershipOf (new_FailureDomainView domains complete) s in
  (∀ d, d ∈ mb_domains m ↔ ∃ r, r ∈ domains ∧ fd_domain r = d ∧ s ∈ fd_members r) ∧
  NoDup (mb_domains m) ∧
  (mb_known m = true ↔ complete = true ∨ ∃ r, r ∈ domains ∧ s ∈ fd_members r).
Proof.
  pose proof (new_FailureDomainView_sorted domains complete) as Hs. split_and!.
  - intros d. rewrite elem_of_MembershipOf by done. apply new_FailureDomainView_membership.
  - rewrite <- (map_id (mb_domains _)). apply (strictly_sorted_NoDup id).
    by apply MembershipOf_sorted.
  - rewrite MembershipOf_known by done. setoid_rewrite new_FailureDomainView_membership.
    simpl. naive_solver.
Qed.

(** ** Evidence classification *)

(** A generation of [prior] that no longer holds, with the verdict it carries. *)
Inductive StaleBy (p c : SnapshotGenerations) : Currentness.t → Prop :=
  | stale_topology : g_topology p ≠ g_topology c → StaleBy p c Currentness.kStaleTopology
  | stale_link_state : g_link_state p ≠ g_link_state c → StaleBy p c Currentness.kStaleLinkState
  | stale_ports : g_ports p ≠ g_ports c → StaleBy p c Currentness.kStalePortState
  | stale_capability :
      g_capabilities p ≠ g_capabilities c → StaleBy p c Currentness.kStaleCapability
  | stale_domains :
      g_failure_domains p ≠ g_failure_domains c → StaleBy p c Currentness.kStaleFailureDomain
  | stale_policy : g_policy p ≠ g_policy c → StaleBy p c Currentness.kStalePolicy
  | stale_epoch : g_epoch p ≠ g_epoch c → StaleBy p c Currentness.kStaleEpoch.

Lemma MoreSevere_cases a b :
  (MoreSevere a b = a ∨ MoreSevere a b = b) ∧
  CurrentnessSeverity (MoreSevere a b) <= CurrentnessSeverity a ∧
  CurrentnessSeverity (MoreSevere a b) <= CurrentnessSeverity b.
Proof. destruct a, b; vm_compute; intuition congruence. Qed.

Lemma fold_bump (checks : list (bool * Currentness.t)) init :
  let r := fold_left (λ w cv, bump cv.1 cv.2 w) checks init in
  (r = init ∨ (true, r) ∈ checks) ∧
  CurrentnessSeverity r <= CurrentnessSeverity init ∧
  ∀ v, (true, v) ∈ checks → CurrentnessSeverity r <= CurrentnessSeverity v.
Proof.
  revert init. induction checks as [|[c v] checks IH]; intros init; simpl.
  { split_and!; [by left|lia|]. by intros v ?%elem_of_nil. }
  specialize (IH (bump c v init)). simpl in IH. destruct IH as (Hr & Hinit & Hall).
  set (r := fold_left _ _ _) in *. unfold bump in *.
  destruct (MoreSevere_cases init v) as (Hcases & Hle1 & Hle2).
  destruct c; setoid_rewrite elem_of_cons.
  - split_and!; [|lia|].
    + destruct Hr as [Hr|Hr]; [|by auto]. rewrite Hr. destruct Hcases as [->| ->]; auto.
    + intros w [[= ->]|Hw]; [lia|auto].
  - split_and!; [|lia|].
    + naive_solver.
    + intros w [[=]|Hw]. auto.
Qed.

Lemma ClassifyEvidence_spec prior current :
  let stale := StaleBy (ev_generations prior) (ev_generations current) in
  let r := ClassifyEvidence prior current in
  (r = Currentness.kCurrent ∧ ∀ v, ¬ stale v) ∨
  (stale r ∧ ∀ v, stale v → CurrentnessSeverity r <= CurrentnessSeverity v).
Proof.
  cbv zeta. unfold ClassifyEvidence.
  set (p := ev_generations prior). set (c := ev_generations current).
  set (checks :=
    [(negb (g_topology p =? g_topology c), Currentness.kStaleTopology);
     (negb (g_link_state p =? g_link_state c), Currentness.kStaleLinkState);
     (negb (g_ports p =? g_ports c), Currentness.kStalePortState);
     (negb (g_capabilities p =? g_capabilities c), Currentness.kStaleCapability);
     (negb (g_failure_domains p =? g_failure_domains c), Currentness.kStaleFailureDomain);
     (negb (g_policy p =? g_policy c), Currentness.kStalePolicy);
     (negb (g_epoch p =? g_epoch c), Currentness.kStaleEpoch)]).
  assert (Hspec : ∀ v, StaleBy p c v ↔ (true, v) ∈ checks).
  { intros v. unfold checks. rewrite !elem_of_cons, elem_of_nil. split.
    - intros [Hne|Hne|Hne|Hne|Hne|Hne|Hne]; rewrite (proj2 (Z.eqb_neq _ _) Hne); simpl; tauto.
    - intros Hv. repeat destruct Hv as [[= Hc ->]|Hv]; try done;
        constructor; symmetry in Hc; bool_to_prop; done. }
  setoid_rewrite Hspec.
  pose proof (fold_bump checks Currentness.kCurrent) as (Hr & _ & Hall).
  change (fold_left _ checks _) with
    (ClassifyEvidence prior current) in Hr, Hall |- *.
  change (_ |> bump _ Currentness.kStaleEpoch) with (ClassifyEvidence prior current).
  destruct Hr as [Hr|Hr]; [left|by right].
  split; [done|]. intros v Hv. specialize (Hall v Hv). rewrite Hr in Hall.
  unfold checks in Hv. rewrite !elem_of_cons, elem_of_nil in Hv.
  repeat destruct Hv as [[= Hc ->]|Hv]; try done; vm_compute in Hall; congruence.
Qed.

(** Classification of prior evidence is exact and conservative: it is
    CURRENT when no consumed generation moved, otherwise it is the verdict of a
    generation that did move, and no other moved generation has a more severe
    one (severity 0 is the worst). *)
Theorem evidence_classification prior current :
  let stale := StaleBy (ev_generations prior) (ev_generations current) in
  let r := ClassifyEvidence prior current in
  (r = Currentness.kCurrent ∧ ∀ v, ¬ stale v) ∨
  (stale r ∧ ∀ v, stale v → CurrentnessSeverity r <= CurrentnessSeverity v).
Proof. apply ClassifyEvidence_spec. Qed.

(** ** The canonical encoding identifies the snapshot *)

Definition generations_bytes (g : SnapshotGenerations) : bytes :=
  le_bytes 8 (g_topology g) ++ le_bytes 8 (g_link_state g) ++ le_bytes 8 (g_ports g) ++
  le_bytes 8 (g_capabilities g) ++ le_bytes 8 (g_failure_domains g) ++
  le_bytes 8 (g_epoch g) ++ le_bytes 8 (g_policy g) ++ le_bytes 8 (g_constraints g).
Definition evidence_bytes (e : EvidenceVector) : bytes :=
  id_bytes (ev_snapshot e) ++ generations_bytes (ev_generations e) ++
  enum_bytes (ev_source e) ++ le_bytes 8 (ev_publish_sequence e).
Definition node_bytes (n : NodeRecord) : bytes :=
  id_bytes (n_id n) ++ id_bytes (n_attachment n) ++ le_bytes 8 (n_entity_generation n) ++
  le_bytes 8 (n_structural_generation n) ++ list_bytes id_bytes (n_ports n).
Definition edge_bytes (e : EdgeRecord) : bytes :=
  id_bytes (e_id e) ++ id_bytes (e_from e) ++ id_bytes (e_to e) ++ id_bytes (e_from_port e) ++
  id_bytes (e_to_port e) ++ enum_bytes (e_layer e) ++ enum_bytes (e_relationship e) ++
  le_bytes 4 (e_static_cost e) ++ le_bytes 8 (e_entity_generation e) ++
  le_bytes 8 (e_structural_generation e).
Definition endpoint_bytes (e : EndpointRecord) : bytes :=
  id_bytes (ep_id e) ++ enum_bytes (ep_class e) ++ id_bytes (ep_node e) ++
  id_bytes (ep_port e) ++ le_bytes 8 (ep_entity_generation e).
Definition link_state_bytes (r : LinkStateRecord) : bytes :=
  id_bytes (ls_link r) ++ enum_bytes (ls_state r).
Definition port_state_bytes (r : PortStateRecord) : bytes :=
  id_bytes (ps_port r) ++ enum_bytes (ps_state r).
Definition subject_bytes (k : SubjectKey) : bytes := enum_bytes (sk_kind k) ++ sk_bytes k.
Definition binding_bytes (b : CapabilityBinding) : bytes :=
  subject_bytes (cb_subject b) ++ id_bytes (cb_capability b) ++ le_bytes 8 (cb_value b).
Definition domain_bytes (r : FailureDomainRecord) : bytes :=
  id_bytes (fd_domain r) ++ id_bytes (fd_risk_class r) ++ list_bytes subject_bytes (fd_members r).
Definition domains_bytes (d : list FailureDomainRecord * bool) : bytes :=
  varint_bytes (Z.of_nat (length d.1)) ++ bool_bytes d.2 ++ flat_map domain_bytes d.1.
Definition snapshot_bytes (s : FabricSnapshot) : bytes :=
  le_bytes 4 kPathEncodingVersion ++ generations_bytes (s_generations s) ++
  enum_bytes (s_source s) ++ list_bytes node_bytes (s_nodes s) ++
  list_bytes edge_bytes (s_edges s) ++ list_bytes endpoint_bytes (s_endpoints s) ++
  list_bytes link_state_bytes (ls_records (s_link_states s)) ++
  list_bytes port_state_bytes (ps_records (s_port_states s)) ++
  list_bytes binding_bytes (cv_bindings (s_capabilities s)) ++
  domains_bytes (fdv_domains (s_failure_domains s), fdv_complete (s_failure_domains s)).

Lemma Writes_write_list {A} (op : A → ByteWriter → ByteWriter) (enc : A → bytes) l :
  (∀ x, Writes (op x) (enc x)) → Writes (write_list op l) (list_bytes enc l).
Proof. intros Hop. by apply Writes_list. Qed.

(** Splits a pipeline [w |> f1 |> ... |> fn] into its stages, last one first. *)
Ltac writes_pipeline :=
  rewrite ?app_assoc;
  repeat lazymatch goal with
    | |- Writes (λ w, ?f (@?g w)) (?a ++ ?b) => apply (Writes_comp g f a b)
    end;
  lazymatch goal with
  | |- Writes (write_list _ _) _ => apply Writes_write_list; intros ?; eauto with writes
  | |- Writes (fold_left _ _) _ => apply Writes_fold; intros ? _; eauto with writes
  | |- _ => solve [eauto with writes]
  end.

Lemma Writes_generations g : Writes (EncodeGenerations g) (generations_bytes g).
Proof. unfold EncodeGenerations, generations_bytes. writes_pipeline. Qed.
#[export] Hint Resolve Writes_generations : writes.

Lemma Writes_evidence e : Writes (EncodeEvidence e) (evidence_bytes e).
Proof. unfold EncodeEvidence, evidence_bytes. writes_pipeline. Qed.
#[export] Hint Resolve Writes_evidence : writes.

Lemma Writes_node n : Writes (EncodeNode n) (node_bytes n).
Proof. unfold EncodeNode, node_bytes. writes_pipeline. Qed.
Lemma Writes_edge e : Writes (EncodeEdge e) (edge_bytes e).
Proof. unfold EncodeEdge, edge_bytes. writes_pipeline. Qed.
Lemma Writes_endpoint e : Writes (EncodeEndpoint e) (endpoint_bytes e).
Proof. unfold EncodeEndpoint, endpoint_bytes. writes_pipeline. Qed.
Lemma Writes_link_state r : Writes (EncodeLinkState r) (link_state_bytes r).
Proof. unfold EncodeLinkState, link_state_bytes. writes_pipeline. Qed.
Lemma Writes_port_state r : Writes (EncodePortState r) (port_state_bytes r).
Proof. unfold EncodePortState, port_state_bytes. writes_pipeline. Qed.
Lemma Writes_subject k : Writes (EncodeSubject k) (subject_bytes k).
Proof. unfold EncodeSubject, subject_bytes. writes_pipeline. Qed.
#[export] Hint Resolve Writes_node Writes_edge Writes_endpoint Writes_link_state
  Writes_port_state Writes_subject : writes.
Lemma Writes_binding b : Writes (EncodeBinding b) (binding_bytes b).
Proof. unfold EncodeBinding, binding_bytes. writes_pipeline. Qed.
Lemma Writes_domain r : Writes (EncodeDomain r) (domain_bytes r).
Proof. unfold EncodeDomain, domain_bytes. writes_pipeline. Qed.
#[export] Hint Resolve Writes_binding Writes_domain : writes.

Lemma Writes_snapshot s : Writes (EncodeSnapshot s) (snapshot_bytes s).
Proof.
  unfold EncodeSnapshot, snapshot_bytes, domains_bytes. cbn [fst snd].
  writes_pipeline.
Qed.

(** The values the C++ types can hold. *)
Definition generations_typed (g : SnapshotGenerations) : Prop :=
  u64_fits (g_topology g) ∧ u64_fits (g_link_state g) ∧ u64_fits (g_ports g) ∧
  u64_fits (g_capabilities g) ∧ u64_fits (g_failure_domains g) ∧ u64_fits (g_epoch g) ∧
  u64_fits (g_policy g) ∧ u64_fits (g_constraints g).
Definition evidence_typed (e : EvidenceVector) : Prop :=
  id_wf (ev_snapshot e) ∧ generations_typed (ev_generations e) ∧ u64_fits (ev_publish_sequence e).
Definition node_typed (n : NodeRecord) : Prop :=
  id_wf (n_id n) ∧ id_wf (n_attachment n) ∧ u64_fits (n_entity_generation n) ∧
  u64_fits (n_structural_generation n) ∧ list_fits id_wf (n_ports n).
Definition edge_typed (e : EdgeRecord) : Prop :=
  id_wf (e_id e) ∧ id_wf (e_from e) ∧ id_wf (e_to e) ∧ id_wf (e_from_port e) ∧
  id_wf (e_to_port e) ∧ u32_fits (e_static_cost e) ∧ u64_fits (e_entity_generation e) ∧
  u64_fits (e_structural_generation e).
Definition endpoint_typed (e : EndpointRecord) : Prop :=
  id_wf (ep_id e) ∧ id_wf (ep_node e) ∧ id_wf (ep_port e) ∧ u64_fits (ep_entity_generation e).
Definition subject_typed (k : SubjectKey) : Prop := length (sk_bytes k) = 16%nat.
Definition binding_typed (b : CapabilityBinding) : Prop :=
  subject_typed (cb_subject b) ∧ id_wf (cb_capability b) ∧ u64_fits (cb_value b).
Definition domain_typed (r : FailureDomainRecord) : Prop :=
  id_wf (fd_domain r) ∧ id_wf (fd_risk_class r) ∧ list_fits subject_typed (fd_members r).

Record snapshot_typed (s : FabricSnapshot) : Prop := {
  st_generations : generations_typed (s_generations s);
  st_nodes : list_fits node_typed (s_nodes s);
  st_edges : list_fits edge_typed (s_edges s);
  st_endpoints : list_fits endpoint_typed (s_endpoints s);
  st_links : list_fits (λ r, id_wf (ls_link r)) (ls_records (s_link_states s));
  st_ports : list_fits (λ r, id_wf (ps_port r)) (ps_records (s_port_states s));
  st_bindings : list_fits binding_typed (cv_bindings (s_capabilities s));
  st_domains : list_fits domain_typed (fdv_domains (s_failure_domains s))
}.

Lemma enum_fits_all {E} `{CppEnum E} (x : E) :
  forallb (λ x, (0 <=? enum_value x) && (enum_value x <=? u32_max)) enum_all = true → enum_fits x.
Proof.
  rewrite forallb_forall. intros Hall. pose proof (enum_complete x) as Hx.
  apply list_elem_of_In in Hx. specialize (Hall x Hx). unfold enum_fits, u32_fits. bool_to_prop. lia.
Qed.
#[export] Hint Extern 2 (enum_fits _) => (apply enum_fits_all; vm_compute; reflexivity) : core.

Lemma PrefixFree_generations : PrefixFree generations_typed generations_bytes.
Proof. prefix_free_record unfold generations_typed, generations_bytes in *. Qed.
#[export] Hint Resolve PrefixFree_generations : prefix_free.
Lemma PrefixFree_evidence : PrefixFree evidence_typed evidence_bytes.
Proof. prefix_free_record unfold evidence_typed, evidence_bytes in *. Qed.
Lemma PrefixFree_node : PrefixFree node_typed node_bytes.
Proof. prefix_free_record unfold node_typed, node_bytes in *. Qed.
Lemma PrefixFree_edge : PrefixFree edge_typed edge_bytes.
Proof. prefix_free_record unfold edge_typed, edge_bytes in *. Qed.
Lemma PrefixFree_endpoint : PrefixFree endpoint_typed endpoint_bytes.
Proof. prefix_free_record unfold endpoint_typed, endpoint_bytes in *. Qed.
Lemma PrefixFree_link_state : PrefixFree (λ r, id_wf (ls_link r)) link_state_bytes.
Proof. prefix_free_record unfold link_state_bytes in *. Qed.
Lemma PrefixFree_port_state : PrefixFree (λ r, id_wf (ps_port r)) port_state_bytes.
Proof. prefix_free_record unfold port_state_bytes in *. Qed.
Lemma PrefixFree_subject : PrefixFree subject_typed subject_bytes.
Proof.
  intros x y r1 r2 Hx Hy Heq. unfold subject_bytes in *. peel Heq.
  apply (PrefixFree_fixed 16) in Heq as [Eb ->]; [|done..]. destruct x, y; simpl in *; by subst.
Qed.
#[export] Hint Resolve PrefixFree_evidence PrefixFree_node PrefixFree_edge PrefixFree_endpoint
  PrefixFree_link_state PrefixFree_port_state PrefixFree_subject : prefix_free.
Lemma PrefixFree_binding : PrefixFree binding_typed binding_bytes.
Proof. prefix_free_record unfold binding_typed, binding_bytes in *. Qed.
Lemma PrefixFree_domain : PrefixFree domain_typed domain_bytes.
Proof. prefix_free_record unfold domain_typed, domain_bytes in *. Qed.
#[export] Hint Resolve PrefixFree_binding PrefixFree_domain : prefix_free.

Lemma PrefixFree_domains :
  PrefixFree (λ d, list_fits domain_typed d.1) domains_bytes.
Proof.
  intros [d1 c1] [d2 c2] r1 r2 [Hl1 H1] [Hl2 H2] Heq. unfold domains_bytes in Heq. cbn [fst snd] in *.
  peel Heq. peel Heq. subst.
  destruct (PrefixFree_list domain_typed domain_bytes PrefixFree_domain d1 d2 r1 r2)
    as [-> ->]; [done..| |done].
  unfold list_bytes. by rewrite E, <- !app_assoc, Heq.
Qed.
#[export] Hint Resolve PrefixFree_domains : prefix_free.

(** Everything the snapshot publishes, apart from the limits it was built under. *)
Definition same_content (s1 s2 : FabricSnapshot) : Prop :=
  s_generations s1 = s_generations s2 ∧ s_source s1 = s_source s2 ∧
  s_nodes s1 = s_nodes s2 ∧ s_edges s1 = s_edges s2 ∧ s_endpoints s1 = s_endpoints s2 ∧
  ls_records (s_link_states s1) = ls_records (s_link_states s2) ∧
  ps_records (s_port_states s1) = ps_records (s_port_states s2) ∧
  cv_bindings (s_capabilities s1) = cv_bindings (s_capabilities s2) ∧
  fdv_domains (s_failure_domains s1) = fdv_domains (s_failure_domains s2) ∧
  fdv_complete (s_failure_domains s1) = fdv_complete (s_failure_domains s2).

Lemma snapshot_bytes_inj s1 s2 :
  snapshot_typed s1 → snapshot_typed s2 →
  snapshot_bytes s1 = snapshot_bytes s2 → same_content s1 s2.
Proof.
  intros [] [] Heq. unfold snapshot_bytes in Heq. apply app_inv_head in Heq.
  rewrite <- (app_nil_r (domains_bytes (fdv_domains (s_failure_domains s1), _))) in Heq.
  rewrite <- (app_nil_r (domains_bytes (fdv_domains (s_failure_domains s2), _))) in Heq.
  do 9 peel Heq. unfold same_content. injection E7 as E7 E8. split_and!; assumption.
Qed.
