(* ===== verification/Builder.v ===== *)
(** graph.cpp, [FabricSnapshotBuilder]: the records collected by the [Add*] and
    [Set*] calls, the rejection diagnostics, and [Build].  A build returns the
    snapshot or the diagnostic code of the first failed check, and the builder
    with the effect the call had on it: the vectors it sorted, or the empty
    vectors left after they were moved into the snapshot. *)

From S2P Require Import Prelude Canonical Sha256 Status Ids Codec Limits Graph.
Import DiagnosticCode.

Record FabricSnapshotBuilder := MkBuilder {
  b_limits : ResourceLimits; b_generations : SnapshotGenerations; b_source : EvidenceSource.t;
  b_nodes : list NodeRecord; b_edges : list EdgeRecord; b_endpoints : list EndpointRecord;
  b_link_states : list LinkStateRecord; b_port_states : list PortStateRecord;
  b_capabilities : list CapabilityBinding; b_failure_domains : list FailureDomainRecord;
  b_membership_complete : bool; b_diagnostics : list DiagnosticCode.t
}.

Definition new_builder (limits : ResourceLimits) : FabricSnapshotBuilder :=
  MkBuilder limits zero_generations EvidenceSource.kSynthetic [] [] [] [] [] [] [] false [].

(** Field updates. *)
Definition with_nodes (l : list NodeRecord) (b : FabricSnapshotBuilder) :=
  MkBuilder (b_limits b) (b_generations b) (b_source b) l (b_edges b) (b_endpoints b)
    (b_link_states b) (b_port_states b) (b_capabilities b) (b_failure_domains b)
    (b_membership_complete b) (b_diagnostics b).
Definition with_edges (l : list EdgeRecord) (b : FabricSnapshotBuilder) :=
  MkBuilder (b_limits b) (b_generations b) (b_source b) (b_nodes b) l (b_endpoints b)
    (b_link_states b) (b_port_states b) (b_capabilities b) (b_failure_domains b)
    (b_membership_complete b) (b_diagnostics b).
Definition with_endpoints (l : list EndpointRecord) (b : FabricSnapshotBuilder) :=
  MkBuilder (b_limits b) (b_generations b) (b_source b) (b_nodes b) (b_edges b) l
    (b_link_states b) (b_port_states b) (b_capabilities b) (b_failure_domains b)
    (b_membership_complete b) (b_diagnostics b).

Definition SetGenerations (g : SnapshotGenerations) (b : FabricSnapshotBuilder) :=
  MkBuilder (b_limits b) g (b_source b) (b_nodes b) (b_edges b) (b_endpoints b)
    (b_link_states b) (b_port_states b) (b_capabilities b) (b_failure_domains b)
    (b_membership_complete b) (b_diagnostics b).
Definition SetSource (src : EvidenceSource.t) (b : FabricSnapshotBuilder) :=
  MkBuilder (b_limits b) (b_generations b) src (b_nodes b) (b_edges b) (b_endpoints b)
    (b_link_states b) (b_port_states b) (b_capabilities b) (b_failure_domains b)
    (b_membership_complete b) (b_diagnostics b).
Definition SetLinkStates (l : list LinkStateRecord) (b : FabricSnapshotBuilder) :=
  MkBuilder (b_limits b) (b_generations b) (b_source b) (b_nodes b) (b_edges b) (b_endpoints b)
    l (b_port_states b) (b_capabilities b) (b_failure_domains b)
    (b_membership_complete b) (b_diagnostics b).
Definition SetPortStates (l : list PortStateRecord) (b : FabricSnapshotBuilder) :=
  MkBuilder (b_limits b) (b_generations b) (b_source b) (b_nodes b) (b_edges b) (b_endpoints b)
    (b_link_states b) l (b_capabilities b) (b_failure_domains b)
    (b_membership_complete b) (b_diagnostics b).
Definition SetCapabilities (l : list CapabilityBinding) (b : FabricSnapshotBuilder) :=
  MkBuilder (b_limits b) (b_generations b) (b_source b) (b_nodes b) (b_edges b) (b_endpoints b)
    (b_link_states b) (b_port_states b) l (b_failure_domains b)
    (b_membership_complete b) (b_diagnostics b).
Definition SetFailureDomains (l : list FailureDomainRecord) (complete : bool)
    (b : FabricSnapshotBuilder) :=
  MkBuilder (b_limits b) (b_generations b) (b_source b) (b_nodes b) (b_edges b) (b_endpoints b)
    (b_link_states b) (b_port_states b) (b_capabilities b) l complete (b_diagnostics b).
Definition with_diagnostics (l : list DiagnosticCode.t) (b : FabricSnapshotBuilder) :=
  MkBuilder (b_limits b) (b_generations b) (b_source b) (b_nodes b) (b_edges b) (b_endpoints b)
    (b_link_states b) (b_port_states b) (b_capabilities b) (b_failure_domains b)
    (b_membership_complete b) l.

Definition Reject (code : DiagnosticCode.t) (b : FabricSnapshotBuilder) :
  FabricSnapshotBuilder := with_diagnostics (b_diagnostics b ++ [code]) b.
Definition ClearDiagnostics (b : FabricSnapshotBuilder) : FabricSnapshotBuilder :=
  with_diagnostics [] b.

(** [Reject(code); return false;] *)
Definition refused (code : DiagnosticCode.t) (b : FabricSnapshotBuilder) :
  bool * FabricSnapshotBuilder := (false, Reject code b).

Definition with_ports (ports : list PortId) (n : NodeRecord) : NodeRecord :=
  MkNode (n_id n) (n_attachment n) (n_entity_generation n) (n_structural_generation n) ports.

Definition AddNode (node : NodeRecord) (b : FabricSnapshotBuilder) :
  bool * FabricSnapshotBuilder :=
  early refused kGraphTooLarge b
    when Exceeds (length (b_nodes b) + 1) (max_nodes (b_limits b)) ;;
  early refused kMalformedIdentifier b when negb (IsValid (n_id node)) ;;
  early refused kMalformedIdentifier b
    when existsb (λ p, negb (IsValid p)) (n_ports node) ;;
  early refused kGraphTooLarge b
    when Exceeds (length (n_ports node)) (max_ports_per_node (b_limits b)) ;;
  let ports := sort_ids (n_ports node) in
  early refused kDuplicateIdentifier b when has_adjacent id ports ;;
  let node := with_ports ports node in
  early refused kTopologyGenerationMismatch b
    when (n_structural_generation node >? g_topology (b_generations b)) ;;
  (true, with_nodes (b_nodes b ++ [node]) b).

Definition AddEdge (edge : EdgeRecord) (b : FabricSnapshotBuilder) :
  bool * FabricSnapshotBuilder :=
  early refused kTooManyEdges b
    when Exceeds (length (b_edges b) + 1) (max_edges (b_limits b)) ;;
  early refused kMalformedIdentifier b
    when (negb (IsValid (e_id edge)) || negb (IsValid (e_from edge)) ||
          negb (IsValid (e_to edge)) || negb (IsValid (e_from_port edge)) ||
          negb (IsValid (e_to_port edge))) ;;
  early refused kSelfLoopRejected b when eqb (e_from edge) (e_to edge) ;;
  early refused kLayerMismatch b
    when negb (RelationshipMatchesLayer (e_relationship edge) (e_layer edge)) ;;
  early refused kTopologyGenerationMismatch b
    when (e_structural_generation edge >? g_topology (b_generations b)) ;;
  (true, with_edges (b_edges b ++ [edge]) b).

Definition AddEndpoint (ep : EndpointRecord) (b : FabricSnapshotBuilder) :
  bool * FabricSnapshotBuilder :=
  early refused kGraphTooLarge b
    when Exceeds (length (b_endpoints b) + 1) (max_endpoints (b_limits b)) ;;
  early refused kMalformedIdentifier b
    when (negb (IsValid (ep_id ep)) || negb (IsValid (ep_node ep)) ||
          negb (IsValid (ep_port ep))) ;;
  (true, with_endpoints (b_endpoints b ++ [ep]) b).

(** ** Build *)

(** One iteration of the dangling-reference loop over the edges. *)
Definition check_edge (nodes : list NodeRecord) (edge : EdgeRecord) : option DiagnosticCode.t :=
  match find_sorted n_id nodes (e_from edge) with
  | None => Some kNoStructuralPath
  | Some from =>
      early Some kNoStructuralPath when negb (binary_search (n_ports from) (e_from_port edge)) ;;
      match find_sorted n_id nodes (e_to edge) with
      | None => Some kNoStructuralPath
      | Some to =>
          early Some kNoStructuralPath when negb (binary_search (n_ports to) (e_to_port edge)) ;;
          None
      end
  end.

Definition check_endpoint (nodes : list NodeRecord) (ep : EndpointRecord) :
  option DiagnosticCode.t :=
  match find_sorted n_id nodes (ep_node ep) with
  | None => Some kUnknownEndpoint
  | Some n =>
      early Some kUnknownEndpoint when negb (binary_search (n_ports n) (ep_port ep)) ;;
      None
  end.

(** The loop that validates the failure domains and sorts their members in
    place; on an error the records already visited stay sorted. *)
Fixpoint seal_domains (limits : ResourceLimits) (l : list FailureDomainRecord) :
  option DiagnosticCode.t * list FailureDomainRecord :=
  match l with
  | [] => (None, [])
  | r :: rest =>
      early (Some kMalformedIdentifier, l) when negb (IsValid (fd_domain r)) ;;
      early (Some kGraphTooLarge, l)
        when Exceeds (length (fd_members r)) (lim_max_members_per_failure_domain limits) ;;
      let members := unique_ids (sort_ids (fd_members r)) in
      let '(err, rest) := seal_domains limits rest in
      (err, MkDomain (fd_domain r) (fd_risk_class r) members :: rest)
  end.

Definition record_count (b : FabricSnapshotBuilder) : Z :=
  Z.of_nat (length (b_nodes b) + length (b_edges b) + length (b_endpoints b) +
            length (b_link_states b) + length (b_port_states b) +
            length (b_capabilities b) + length (b_failure_domains b)).

Definition encoding_ceiling (b : FabricSnapshotBuilder) : Z := 1024 + record_count b * 128.

(** The snapshot the vectors are moved into, before its digest is known. *)
Definition snapshot_with (b : FabricSnapshotBuilder) (digest : bytes) : FabricSnapshot :=
  MkSnapshot (b_generations b) (b_source b) (b_limits b) (b_nodes b) (b_edges b) (b_endpoints b)
    (new_LinkStateView (b_link_states b)) (new_PortStateView (b_port_states b))
    (new_CapabilityView (b_capabilities b))
    (new_FailureDomainView (b_failure_domains b) (b_membership_complete b)) digest.

Definition moved_from (b : FabricSnapshotBuilder) : FabricSnapshotBuilder :=
  MkBuilder (b_limits b) (b_generations b) (b_source b) [] [] [] [] [] [] []
    (b_membership_complete b) (b_diagnostics b).

Abbreviation BuildResult := (DiagnosticCode.t + FabricSnapshot)%type (only parsing).

(** Encoding, digest and hand-over, after every check passed. *)
Definition finish_build (b : FabricSnapshotBuilder) : BuildResult * FabricSnapshotBuilder :=
  let snapshot := snapshot_with b (replicate 32 0) in
  let writer := EncodeSnapshot snapshot (new_writer (encoding_ceiling b)) in
  early (inl kGraphTooLarge, moved_from b) when overflowed_ writer ;;
  let digest := Hash (data_ writer) in
  early (inl kPersistenceCorrupt, moved_from b) when IsZero digest ;;
  (inr (snapshot_with b digest), moved_from b).

Definition Build (b : FabricSnapshotBuilder) : BuildResult * FabricSnapshotBuilder :=
  onerror e := ValidateLimits (b_limits b) give (inl e, b) ;;
  let b := with_nodes (sort_by n_id (b_nodes b)) b in
  early (inl kDuplicateIdentifier, b) when negb (is_sorted_unique n_id (b_nodes b)) ;;
  let b := with_edges (sort_by e_id (b_edges b)) b in
  early (inl kDuplicateIdentifier, b) when negb (is_sorted_unique e_id (b_edges b)) ;;
  onerror e := first_error (check_edge (b_nodes b)) (b_edges b) give (inl e, b) ;;
  let b := with_endpoints (sort_by ep_id (b_endpoints b)) b in
  early (inl kAmbiguousEndpoint, b) when negb (is_sorted_unique ep_id (b_endpoints b)) ;;
  onerror e := first_error (check_endpoint (b_nodes b)) (b_endpoints b) give (inl e, b) ;;
  early (inl kGraphTooLarge, b)
    when Exceeds (length (b_link_states b)) (max_link_state_records (b_limits b)) ;;
  early (inl kGraphTooLarge, b)
    when Exceeds (length (b_port_states b)) (max_port_state_records (b_limits b)) ;;
  early (inl kGraphTooLarge, b)
    when Exceeds (length (b_capabilities b)) (max_capability_bindings (b_limits b)) ;;
  early (inl kGraphTooLarge, b)
    when Exceeds (length (b_failure_domains b)) (max_failure_domains (b_limits b)) ;;
  early (inl kDuplicateIdentifier, b) when has_adjacent ls_link (b_link_states b) ;;
  early (inl kDuplicateIdentifier, b) when has_adjacent ps_port (b_port_states b) ;;
  early (inl kDuplicateIdentifier, b) when has_adjacent binding_key (b_capabilities b) ;;
  early (inl kDuplicateIdentifier, b) when has_adjacent fd_domain (b_failure_domains b) ;;
  let '(err, domains) := seal_domains (b_limits b) (b_failure_domains b) in
  let b := SetFailureDomains domains (b_membership_complete b) b in
  onerror e := err give (inl e, b) ;;
  finish_build b.

(** Every public mutation of a builder. *)
Inductive BuilderOp :=
  | OpSetGenerations (g : SnapshotGenerations)
  | OpSetSource (s : EvidenceSource.t)
  | OpAddNode (n : NodeRecord)
  | OpAddEdge (e : EdgeRecord)
  | OpAddEndpoint (e : EndpointRecord)
  | OpSetLinkStates (l : list LinkStateRecord)
  | OpSetPortStates (l : list PortStateRecord)
  | OpSetCapabilities (l : list CapabilityBinding)
  | OpSetFailureDomains (l : list FailureDomainRecord) (complete : bool)
  | OpClearDiagnostics
  | OpBuild.

Definition run_op (op : BuilderOp) (b : FabricSnapshotBuilder) : FabricSnapshotBuilder :=
  match op with
  | OpSetGenerations g => SetGenerations g b
  | OpSetSource s => SetSource s b
  | OpAddNode n => (AddNode n b).2
  | OpAddEdge e => (AddEdge e b).2
  | OpAddEndpoint e => (AddEndpoint e b).2
  | OpSetLinkStates l => SetLinkStates l b
  | OpSetPortStates l => SetPortStates l b
  | OpSetCapabilities l => SetCapabilities l b
  | OpSetFailureDomains l c => SetFailureDomains l c b
  | OpClearDiagnostics => ClearDiagnostics b
  | OpBuild => (Build b).2
  end.

Definition run_ops (ops : list BuilderOp) (b : FabricSnapshotBuilder) : FabricSnapshotBuilder :=
  fold_left (λ b op, run_op op b) ops b.

(** ** What the builder accepts *)

Record node_ok (limits : ResourceLimits) (n : NodeRecord) : Prop := {
  no_id : IsValid (n_id n) = true;
  no_ports : Forall (λ p, IsValid p = true) (n_ports n);
  no_sorted : strictly_sorted id (n_ports n);
  no_bound : Z.of_nat (length (n_ports n)) <= max_ports_per_node limits
}.

Record edge_ok (e : EdgeRecord) : Prop := {
  eo_id : IsValid (e_id e) = true;
  eo_from : IsValid (e_from e) = true; eo_to : IsValid (e_to e) = true;
  eo_from_port : IsValid (e_from_port e) = true; eo_to_port : IsValid (e_to_port e) = true;
  eo_loop : e_from e ≠ e_to e;
  eo_layer : RelationshipMatchesLayer (e_relationship e) (e_layer e) = true
}.

Record endpoint_ok (e : EndpointRecord) : Prop := {
  po_id : IsValid (ep_id e) = true;
  po_node : IsValid (ep_node e) = true; po_port : IsValid (ep_port e) = true
}.

(** The invariant of a builder, whatever calls were made on it. *)
Record builder_wf (b : FabricSnapshotBuilder) : Prop := {
  bw_nodes : Forall (node_ok (b_limits b)) (b_nodes b);
  bw_edges : Forall edge_ok (b_edges b);
  bw_endpoints : Forall endpoint_ok (b_endpoints b);
  bw_max_nodes : (length (b_nodes b) <= Z.to_nat (max_nodes (b_limits b)))%nat;
  bw_max_edges : (length (b_edges b) <= Z.to_nat (max_edges (b_limits b)))%nat;
  bw_max_endpoints : (length (b_endpoints b) <= Z.to_nat (max_endpoints (b_limits b)))%nat
}.

Lemma new_builder_wf limits : builder_wf (new_builder limits).
Proof. split; simpl; try constructor; lia. Qed.

Lemma Exceeds_false n l : Exceeds n l = false ↔ Z.of_nat n <= l.
Proof. unfold Exceeds. rewrite Z.gtb_ltb, Z.ltb_ge. done. Qed.

Lemma AddNode_wf n b : builder_wf b → builder_wf (AddNode n b).2.
Proof.
  intros [Hn He Hp Hmn Hme Hmp]. unfold AddNode.
  repeat (case_match; [by constructor|]). simpl.
  rename select (Exceeds (length (b_nodes b) + 1) _ = false) into Hmax.
  rename select (Exceeds (length (n_ports n)) _ = false) into Hports.
  rename select (has_adjacent _ _ = false) into Hadj.
  apply Exceeds_false in Hmax, Hports. apply has_adjacent_sort_ids in Hadj.
  bool_to_prop. constructor; simpl; try done.
  - apply Forall_app. split; [done|]. apply Forall_singleton. split; simpl.
    + done.
    + unfold sort_ids. rewrite sort_by_perm. rewrite Forall_forall. intros p Hp'.
      rename select (existsb _ _ = false) into Hex. destruct (IsValid p) eqn:Hv; [done|].
      assert (existsb (λ p, negb (IsValid p)) (n_ports n) = true); [|congruence].
      apply existsb_exists. exists p. rewrite <- list_elem_of_In. by rewrite Hv.
    + apply strictly_sorted_of_key_le; [apply sort_by_sorted|]. rewrite map_id.
      unfold sort_ids. by rewrite sort_by_perm.
    + unfold sort_ids. by rewrite length_sort_by.
  - rewrite length_app. simpl. lia.
Qed.

Lemma AddEdge_wf e b : builder_wf b → builder_wf (AddEdge e b).2.
Proof.
  intros [Hn He Hp Hmn Hme Hmp]. unfold AddEdge.
  repeat (case_match; [by constructor|]). simpl.
  rename select (Exceeds _ _ = false) into Hmax. apply Exceeds_false in Hmax.
  bool_to_prop. rename select (eqb _ _ = false) into Hloop. apply eqb_neq in Hloop.
  constructor; simpl; try done.
  - apply Forall_app. split; [done|]. by apply Forall_singleton.
  - rewrite length_app. simpl. lia.
Qed.

Lemma AddEndpoint_wf e b : builder_wf b → builder_wf (AddEndpoint e b).2.
Proof.
  intros [Hn He Hp Hmn Hme Hmp]. unfold AddEndpoint.
  repeat (case_match; [by constructor|]). simpl.
  rename select (Exceeds _ _ = false) into Hmax. apply Exceeds_false in Hmax.
  bool_to_prop. constructor; simpl; try done.
  - apply Forall_app. split; [done|]. by apply Forall_singleton.
  - rewrite length_app. simpl. lia.
Qed.

(** Sorting the vectors in place and moving them out keep the invariant. *)
Lemma sorted_wf b :
  builder_wf b →
  builder_wf (with_nodes (sort_by n_id (b_nodes b)) b) ∧
  builder_wf (with_edges (sort_by e_id (b_edges b)) b) ∧
  builder_wf (with_endpoints (sort_by ep_id (b_endpoints b)) b).
Proof.
  intros [].
  split_and!; constructor; simpl; rewrite ?length_sort_by; try done; by rewrite sort_by_perm.
Qed.

Lemma moved_from_wf b : builder_wf (moved_from b).
Proof. constructor; simpl; try constructor; lia. Qed.

Lemma SetFailureDomains_wf l c b : builder_wf b → builder_wf (SetFailureDomains l c b).
Proof. by intros []. Qed.

Lemma finish_build_wf b : builder_wf (finish_build b).2.
Proof. unfold finish_build. repeat case_match; apply moved_from_wf. Qed.

Lemma Build_wf b : builder_wf b → builder_wf (Build b).2.
Proof.
  intros Hb. unfold Build.
  apply sorted_wf in Hb as Hb1. destruct Hb1 as [Hb1 _].
  set (b1 := with_nodes _ b) in *.
  apply sorted_wf in Hb1 as Hb2. destruct Hb2 as [_ [Hb2 _]].
  set (b2 := with_edges _ b1) in *.
  apply sorted_wf in Hb2 as Hb3. destruct Hb3 as [_ [_ Hb3]].
  set (b3 := with_endpoints _ b2) in *.
  clearbody b3 b2 b1. cbv zeta.
  repeat (case_match; [done|]).
  destruct (seal_domains _ _) as [err domains].
  destruct err; [by apply SetFailureDomains_wf|apply finish_build_wf].
Qed.

Lemma run_op_wf op b : builder_wf b → builder_wf (run_op op b).
Proof.
  intros Hb. destruct op; simpl; auto using AddNode_wf, AddEdge_wf, AddEndpoint_wf, Build_wf;
    by destruct Hb.
Qed.

Lemma run_ops_wf ops limits : builder_wf (run_ops ops (new_builder limits)).
Proof.
  unfold run_ops. generalize (new_builder_wf limits). generalize (new_builder limits).
  induction ops as [|op ops IH]; simpl; auto using run_op_wf.
Qed.

(** ** When a build succeeds *)

(** A published reference resolves: the node exists and publishes the port. *)
Definition publishes (nodes : list NodeRecord) (node : NodeId) (port : PortId) : Prop :=
  ∃ n, n ∈ nodes ∧ n_id n = node ∧ port ∈ n_ports n.

Definition domain_ok (limits : ResourceLimits) (r : FailureDomainRecord) : Prop :=
  IsValid (fd_domain r) = true ∧
  Z.of_nat (length (fd_members r)) <= lim_max_members_per_failure_domain limits.

Definition seal_domain (r : FailureDomainRecord) : FailureDomainRecord :=
  MkDomain (fd_domain r) (fd_risk_class r) (unique_ids (sort_ids (fd_members r))).

(** The builder as the checks of [Build] leave it. *)
Definition sealed (b : FabricSnapshotBuilder) : FabricSnapshotBuilder :=
  MkBuilder (b_limits b) (b_generations b) (b_source b)
    (sort_by n_id (b_nodes b)) (sort_by e_id (b_edges b)) (sort_by ep_id (b_endpoints b))
    (b_link_states b) (b_port_states b) (b_capabilities b)
    (map seal_domain (b_failure_domains b)) (b_membership_complete b) (b_diagnostics b).

(** The snapshot a successful build publishes. *)
Definition built_snapshot (b : FabricSnapshotBuilder) : FabricSnapshot :=
  snapshot_with (sealed b) (Hash (snapshot_bytes (snapshot_with (sealed b) []))).

Record Buildable (b : FabricSnapshotBuilder) : Prop := {
  bb_limits : ValidateLimits (b_limits b) = None;
  bb_nodes : NoDup (map n_id (b_nodes b));
  bb_edges : NoDup (map e_id (b_edges b));
  bb_edge_refs : ∀ e, e ∈ b_edges b →
    publishes (b_nodes b) (e_from e) (e_from_port e) ∧
    publishes (b_nodes b) (e_to e) (e_to_port e);
  bb_endpoints : NoDup (map ep_id (b_endpoints b));
  bb_endpoint_refs : ∀ e, e ∈ b_endpoints b → publishes (b_nodes b) (ep_node e) (ep_port e);
  bb_link_bound : Z.of_nat (length (b_link_states b)) <= max_link_state_records (b_limits b);
  bb_port_bound : Z.of_nat (length (b_port_states b)) <= max_port_state_records (b_limits b);
  bb_cap_bound : Z.of_nat (length (b_capabilities b)) <= max_capability_bindings (b_limits b);
  bb_domain_bound : Z.of_nat (length (b_failure_domains b)) <= max_failure_domains (b_limits b);
  bb_link_dup : has_adjacent ls_link (b_link_states b) = false;
  bb_port_dup : has_adjacent ps_port (b_port_states b) = false;
  bb_cap_dup : has_adjacent binding_key (b_capabilities b) = false;
  bb_domain_dup : has_adjacent fd_domain (b_failure_domains b) = false;
  bb_domains : Forall (domain_ok (b_limits b)) (b_failure_domains b);
  bb_ceiling :
    Z.of_nat (length (snapshot_bytes (snapshot_with (sealed b) []))) <= encoding_ceiling b;
  bb_digest : IsZero (s_digest (built_snapshot b)) = false
}.

Lemma find_publishes nodes node port :
  strictly_sorted n_id nodes → Forall (λ n, strictly_sorted id (n_ports n)) nodes →
  publishes nodes node port ↔
  ∃ n, find_sorted n_id nodes node = Some n ∧ binary_search (n_ports n) port = true.
Proof.
  intros Hs Hports. rewrite Forall_forall in Hports. unfold publishes.
  assert (Hbs : ∀ n, n ∈ nodes → binary_search (n_ports n) port = true ↔ port ∈ n_ports n).
  { intros n Hn. apply binary_search_sorted. specialize (Hports n Hn).
    eapply StronglySorted_weaken; [|exact Hports]. intros x y Hlt.
    unfold key_le. apply ole_lt_or_eq. auto. }
  split.
  - intros (n & Hn & <- & Hp). exists n. rewrite find_sorted_complete by done.
    split; [done|]. by apply Hbs.
  - intros (n & Hf & Hb). apply find_sorted_Some in Hf as [Hn <-].
    exists n. by rewrite <- Hbs.
Qed.

Lemma check_edge_None nodes e :
  strictly_sorted n_id nodes → Forall (λ n, strictly_sorted id (n_ports n)) nodes →
  check_edge nodes e = None ↔
  publishes nodes (e_from e) (e_from_port e) ∧ publishes nodes (e_to e) (e_to_port e).
Proof.
  intros Hs Hp. rewrite !find_publishes by done. unfold check_edge.
  destruct (find_sorted _ _ (e_from e)) as [n1|]; [|naive_solver].
  destruct (binary_search (n_ports n1) _) eqn:E1; simpl; [|naive_solver congruence].
  destruct (find_sorted _ _ (e_to e)) as [n2|]; [|naive_solver].
  destruct (binary_search (n_ports n2) _) eqn:E2; simpl; naive_solver congruence.
Qed.

Lemma check_endpoint_None nodes e :
  strictly_sorted n_id nodes → Forall (λ n, strictly_sorted id (n_ports n)) nodes →
  check_endpoint nodes e = None ↔ publishes nodes (ep_node e) (ep_port e).
Proof.
  intros Hs Hp. rewrite find_publishes by done. unfold check_endpoint.
  destruct (find_sorted _ _ _) as [n|]; [|naive_solver].
  destruct (binary_search (n_ports n) _) eqn:E; simpl; naive_solver congruence.
Qed.

Lemma seal_domains_ok limits l l' :
  seal_domains limits l = (None, l') ↔
  Forall (domain_ok limits) l ∧ l' = map seal_domain l.
Proof.
  revert l'. induction l as [|r l IH]; intros l'; simpl.
  { split; [by intros [= <-]|by intros [_ ->]]. }
  rewrite Forall_cons. unfold domain_ok at 1. destruct (IsValid (fd_domain r)); simpl.
  2: { split; [done|]. naive_solver. }
  destruct (Exceeds _ _) eqn:Ex.
  { split; [done|]. intros [[[_ Hle] _] _]. apply Exceeds_false in Hle. congruence. }
  apply Exceeds_false in Ex. destruct (seal_domains limits l) as [err rest] eqn:Es.
  split.
  - intros [= -> <-]. destruct (IH rest) as [IH1 _]. destruct IH1 as [Hall ->]; done.
  - intros [[_ Hall] ->]. destruct (IH (map seal_domain l)) as [_ IH2].
    by injection (IH2 (conj Hall eq_refl)) as -> ->.
Qed.

Lemma early_inr {E A S} (c : bool) (e : E) (st : S) (k : (E + A) * S) (a : A) :
  (early (inl e, st) when c ;; k).1 = inr a ↔ c = false ∧ k.1 = inr a.
Proof. destruct c; naive_solver. Qed.

Lemma onerror_inr {E A S} (o : option E) (st : S) (k : (E + A) * S) (a : A) :
  (onerror e := o give (inl e, st) ;; k).1 = inr a ↔ o = None ∧ k.1 = inr a.
Proof. destruct o; naive_solver. Qed.

(** Proofs treat the digest as a black box. *)
Local Opaque Hash IsZero snapshot_bytes.

Lemma snapshot_bytes_digest b d : snapshot_bytes (snapshot_with b d) = snapshot_bytes (snapshot_with b []).
Proof. reflexivity. Qed.

Lemma finish_build_inr b s :
  (finish_build b).1 = inr s ↔
  Z.of_nat (length (snapshot_bytes (snapshot_with b []))) <= encoding_ceiling b ∧
  IsZero (Hash (snapshot_bytes (snapshot_with b []))) = false ∧
  s = snapshot_with b (Hash (snapshot_bytes (snapshot_with b []))).
Proof.
  unfold finish_build. cbv zeta.
  destruct (Writes_new_writer _ _ (encoding_ceiling b)
    (Writes_snapshot (snapshot_with b (replicate 32 0)))) as [Hov Hdata].
  { unfold encoding_ceiling, record_count. lia. }
  rewrite snapshot_bytes_digest in Hov, Hdata. rewrite !early_inr, Hov. split.
  - intros (Hc & Hz & Hs). rewrite Hdata in Hz, Hs by (by apply Hov). by injection Hs as <-.
  - intros (Hc & Hz & ->). rewrite Hdata by (by apply Hov). done.
Qed.

Lemma publishes_perm l l' node port :
  Permutation l l' → publishes l node port ↔ publishes l' node port.
Proof. intros Hp. unfold publishes. by setoid_rewrite Hp. Qed.

Lemma check_edge_sorted nodes e :
  strictly_sorted n_id (sort_by n_id nodes) →
  Forall (λ n, strictly_sorted id (n_ports n)) (sort_by n_id nodes) →
  check_edge (sort_by n_id nodes) e = None ↔
  publishes nodes (e_from e) (e_from_port e) ∧ publishes nodes (e_to e) (e_to_port e).
Proof.
  intros Hs Hp. rewrite (check_edge_None _ _ Hs Hp).
  rewrite (publishes_perm _ nodes (e_from e)) by apply sort_by_perm.
  by rewrite (publishes_perm _ nodes (e_to e)) by apply sort_by_perm.
Qed.

Lemma check_endpoint_sorted nodes e :
  strictly_sorted n_id (sort_by n_id nodes) →
  Forall (λ n, strictly_sorted id (n_ports n)) (sort_by n_id nodes) →
  check_endpoint (sort_by n_id nodes) e = None ↔ publishes nodes (ep_node e) (ep_port e).
Proof.
  intros Hs Hp. rewrite (check_endpoint_None _ _ Hs Hp).
  by rewrite (publishes_perm _ nodes (ep_node e)) by apply sort_by_perm.
Qed.

Lemma encoding_ceiling_sealed b : encoding_ceiling (sealed b) = encoding_ceiling b.
Proof.
  unfold encoding_ceiling, record_count. simpl. by rewrite !length_sort_by, length_map.
Qed.

(** [Build] checks exactly [Buildable], and publishes exactly [built_snapshot]. *)
Lemma Build_inr b s :
  builder_wf b → (Build b).1 = inr s ↔ Buildable b ∧ s = built_snapshot b.
Proof.
  intros Hb. pose proof (bw_nodes b Hb) as Hports.
  assert (Hps : Forall (λ n, strictly_sorted id (n_ports n)) (sort_by n_id (b_nodes b))).
  { rewrite sort_by_perm. eapply Forall_impl; [exact Hports|]. by intros n []. }
  unfold Build. cbv zeta.
  cbn [b_nodes b_edges b_endpoints with_nodes with_edges with_endpoints b_limits b_link_states
    b_port_states b_capabilities b_failure_domains b_membership_complete].
  destruct (seal_domains _ _) as [err domains] eqn:Hseal.
  do 6 rewrite ?onerror_inr, ?early_inr.
  rewrite !negb_false_iff, !is_sorted_unique_sort, !Exceeds_false, !first_error_None.
  assert (Hsorted : NoDup (map n_id (b_nodes b)) →
    strictly_sorted n_id (sort_by n_id (b_nodes b))).
  { intros. by apply is_sorted_unique_spec, is_sorted_unique_sort. }
  assert (Hfin : domains = map seal_domain (b_failure_domains b) →
    (finish_build (SetFailureDomains domains (b_membership_complete b)
      (with_endpoints (sort_by ep_id (b_endpoints b))
        (with_edges (sort_by e_id (b_edges b))
          (with_nodes (sort_by n_id (b_nodes b)) b))))) = finish_build (sealed b))
    by (by intros ->).
  split.
  - intros (HL & Hn & He & Hce & Hp & Hcp & Hl1 & Hl2 & Hl3 & Hl4 & Hd1 & Hd2 & Hd3 & Hd4
      & -> & Hf).
    specialize (Hsorted Hn). apply seal_domains_ok in Hseal as [Hdom Hdeq].
    rewrite Hfin in Hf by done. apply finish_build_inr in Hf as (Hc & Hz & ->).
    split; [|done]. constructor; try done.
    + intros e Hin. apply check_edge_sorted; [done..|]. apply Hce. by apply elem_of_sort_by.
    + intros e Hin. apply check_endpoint_sorted; [done..|]. apply Hcp. by apply elem_of_sort_by.
    + by rewrite <- encoding_ceiling_sealed.
  - intros [[HL Hn He Hce Hp Hcp Hl1 Hl2 Hl3 Hl4 Hd1 Hd2 Hd3 Hd4 Hdom Hc Hz] ->].
    specialize (Hsorted Hn).
    assert (Hok : seal_domains (b_limits b) (b_failure_domains b) =
      (None, map seal_domain (b_failure_domains b))) by (by apply seal_domains_ok).
    rewrite Hseal in Hok. injection Hok as -> ->. rewrite Hfin by done.
    rewrite finish_build_inr, encoding_ceiling_sealed. split_and!; try done.
    + intros e Hin%elem_of_sort_by. apply check_edge_sorted; auto.
    + intros e Hin%elem_of_sort_by. apply check_endpoint_sorted; auto.
Qed.

(** ** A concrete fabric

    Four nodes s, a, b, t; two parallel links s-a, links a-t, s-b and b-t. *)
Module Demo.
Definition tail_id (tag : IdTag) (k : Z) : FixedId tag :=
  FromBytes (replicate (kByteCount tag - 1) 0 ++ [k]).
Definition node k : NodeId := tail_id NodeIdTag k.
Definition link k : LinkId := tail_id LinkIdTag k.
Definition port k : PortId := tail_id PortIdTag k.
Definition node_record k : NodeRecord := MkNode (node k) (nil_id SwitchIdTag) 1 1
  [port (10 * k + 2); port (10 * k + 1); port (10 * k + 3)].
Definition edge k from to cost : EdgeRecord :=
  MkEdge (link k) (node from) (node to) (port (10 * from + 1)) (port (10 * to + 2))
    PathLayer.kPhysical RelationshipType.kDirectLink cost 1 1.
Definition endpoint k n : EndpointRecord :=
  MkEndpoint (tail_id EndpointIdTag k) EndpointClass.kEndpoint (node n) (port (10 * n + 3)) 1.
Definition up k : LinkStateRecord := MkLinkState (link k) LinkState.kUp.
Definition port_up k : PortStateRecord := MkPortState (port k) PortState.kUp.
Definition generations : SnapshotGenerations := MkGenerations 1 1 1 1 1 1 1 1.
Definition edges : list EdgeRecord :=
  [edge 1 1 2 1; edge 2 1 2 1; edge 3 2 4 1; edge 4 1 3 2; edge 5 3 4 2].
Definition ports : list PortStateRecord :=
  map port_up [11; 12; 13; 21; 22; 23; 31; 32; 33; 41; 42; 43].
Definition domain k members : FailureDomainRecord :=
  MkDomain (tail_id FailureDomainIdTag k) (tail_id FailureDomainClassTag 1) members.
Definition ops (nodes : list Z) (links : list LinkStateRecord) : list BuilderOp :=
  [OpSetGenerations generations] ++ map (λ k, OpAddNode (node_record k)) nodes ++
  map OpAddEdge edges ++ [OpAddEndpoint (endpoint 1 1); OpAddEndpoint (endpoint 2 4)] ++
  [OpSetLinkStates links; OpSetPortStates ports;
   OpSetCapabilities [MkBinding (ForNode (node 2)) (tail_id CapabilityIdTag 7) 5];
   OpSetFailureDomains [domain 1 [ForLink (link 1); ForLink (link 2)];
     domain 2 [ForLink (link 4)]] true].
Definition links : list LinkStateRecord := map up [1; 2; 3; 4; 5].
Definition builder : FabricSnapshotBuilder :=
  run_ops (ops [1; 2; 3; 4] links) (new_builder default_limits).
Definition reordered : FabricSnapshotBuilder :=
  run_ops (ops [4; 2; 1; 3] (rev links)) (new_builder default_limits).
Definition snapshot :=
  Eval vm_compute in
    match (Build builder).1 with inr s => s | inl _ => built_snapshot builder end.

Lemma snapshot_built : (Build builder).1 = inr snapshot.
Proof. vm_compute. reflexivity. Qed.
End Demo.

(** ** What a published snapshot guarantees *)

Record snapshot_wf (s : FabricSnapshot) : Prop := {
  sw_limits : ValidateLimits (s_limits s) = None;
  sw_nodes : strictly_sorted n_id (s_nodes s);
  sw_node_ok : Forall (node_ok (s_limits s)) (s_nodes s);
  sw_max_nodes : (length (s_nodes s) <= Z.to_nat (max_nodes (s_limits s)))%nat;
  sw_edges : strictly_sorted e_id (s_edges s);
  sw_edge_ok : Forall edge_ok (s_edges s);
  sw_max_edges : (length (s_edges s) <= Z.to_nat (max_edges (s_limits s)))%nat;
  sw_edge_refs : ∀ e, e ∈ s_edges s →
    publishes (s_nodes s) (e_from e) (e_from_port e) ∧
    publishes (s_nodes s) (e_to e) (e_to_port e);
  sw_endpoints : strictly_sorted ep_id (s_endpoints s);
  sw_endpoint_ok : Forall endpoint_ok (s_endpoints s);
  sw_endpoint_refs : ∀ e, e ∈ s_endpoints s → publishes (s_nodes s) (ep_node e) (ep_port e);
  sw_link_states : StronglySorted (key_le ls_link) (ls_records (s_link_states s));
  sw_port_states : StronglySorted (key_le ps_port) (ps_records (s_port_states s));
  sw_capabilities : StronglySorted (key_le binding_key) (cv_bindings (s_capabilities s));
  sw_domains : StronglySorted (key_le fd_domain) (fdv_domains (s_failure_domains s));
  sw_membership : strictly_sorted id (fdv_membership (s_failure_domains s));
  sw_digest : s_digest s = Hash (snapshot_bytes s);
  sw_nonzero : IsZero (s_digest s) = false
}.

Lemma strictly_sorted_sort_by {A K} `{Ordered K} (key : A → K) l :
  NoDup (map key l) → strictly_sorted key (sort_by key l).
Proof. intros. by apply is_sorted_unique_spec, is_sorted_unique_sort. Qed.

Lemma built_snapshot_wf b : builder_wf b → Buildable b → snapshot_wf (built_snapshot b).
Proof.
  intros [Hn He Hp Hmn Hme Hmp] [].
  constructor; try done; try apply sort_by_sorted; cbn [s_nodes s_edges s_endpoints s_limits
    built_snapshot snapshot_with sealed b_nodes b_edges b_endpoints b_limits];
    rewrite ?length_sort_by; try done;
    try (by apply strictly_sorted_sort_by); try (by rewrite sort_by_perm).
  - intros e Hin%elem_of_sort_by.
    rewrite !(publishes_perm (sort_by n_id (b_nodes b)) (b_nodes b))
      by apply sort_by_perm. auto.
  - intros e Hin%elem_of_sort_by.
    rewrite (publishes_perm (sort_by n_id (b_nodes b)) (b_nodes b)) by apply sort_by_perm.
    auto.
  - apply new_FailureDomainView_sorted.
Qed.

Lemma published_wf b s : builder_wf b → (Build b).1 = inr s → snapshot_wf s.
Proof. intros Hb [Hok ->]%Build_inr; [|done]. by apply built_snapshot_wf. Qed.

(** C20: whatever calls were made on a builder, a build that succeeds publishes a
    coherent snapshot: identities are unique, valid and sorted, sizes are within
    the validated limits, no edge is a self loop or crosses layers, every edge
    and endpoint resolves to a published node and port, the views are sorted for
    their binary searches, and the digest is the SHA-256 of the canonical
    encoding and not degenerate. *)
Theorem build_publishes_coherent ops limits s :
  (Build (run_ops ops (new_builder limits))).1 = inr s → snapshot_wf s.
Proof.
  apply published_wf, run_ops_wf.
Qed.

Lemma build_publishes_coherent_witness :
  (Build Demo.builder).1 = inr Demo.snapshot ∧ snapshot_wf Demo.snapshot.
Proof.
  split; [exact Demo.snapshot_built|].
  apply (build_publishes_coherent (Demo.ops [1; 2; 3; 4] Demo.links) default_limits).
  exact Demo.snapshot_built.
Defined.

(** No two records of a view are about the same subject. *)
Definition unique_views (b : FabricSnapshotBuilder) : Prop :=
  NoDup (map ls_link (b_link_states b)) ∧ NoDup (map ps_port (b_port_states b)) ∧
  NoDup (map binding_key (b_capabilities b)) ∧ NoDup (map fd_domain (b_failure_domains b)).

(** What the documentation asks of the collected records apart from the views holding one
    record per subject: coherent limits, unique identities, references that resolve,
    counts within the limits, valid domains. (Nil identities, self loops, wrong layers
    and zero generations are refused when a record is added.) *)
Record Coherent (b : FabricSnapshotBuilder) : Prop := {
  ch_limits : ValidateLimits (b_limits b) = None;
  ch_nodes : NoDup (map n_id (b_nodes b));
  ch_edges : NoDup (map e_id (b_edges b));
  ch_endpoints : NoDup (map ep_id (b_endpoints b));
  ch_edge_refs : ∀ e, e ∈ b_edges b →
    publishes (b_nodes b) (e_from e) (e_from_port e) ∧
    publishes (b_nodes b) (e_to e) (e_to_port e);
  ch_endpoint_refs : ∀ e, e ∈ b_endpoints b → publishes (b_nodes b) (ep_node e) (ep_port e);
  ch_counts :
    Z.of_nat (length (b_link_states b)) <= max_link_state_records (b_limits b) ∧
    Z.of_nat (length (b_port_states b)) <= max_port_state_records (b_limits b) ∧
    Z.of_nat (length (b_capabilities b)) <= max_capability_bindings (b_limits b) ∧
    Z.of_nat (length (b_failure_domains b)) <= max_failure_domains (b_limits b);
  ch_domains : ∀ d, d ∈ b_failure_domains b →
    IsValid (fd_domain d) = true ∧
    Z.of_nat (length (fd_members d)) <= lim_max_members_per_failure_domain (b_limits b)
}.

(** Elements next to each other have different keys. *)
Definition neighbours_differ {A K} (key : A → K) (l : list A) : Prop :=
  ∀ k x y, l !! k = Some x → l !! S k = Some y → key x ≠ key y.

(** The duplicates the code looks for: records of one subject next to each other. *)
Definition separated_views (b : FabricSnapshotBuilder) : Prop :=
  neighbours_differ ls_link (b_link_states b) ∧ neighbours_differ ps_port (b_port_states b) ∧
  neighbours_differ binding_key (b_capabilities b) ∧
  neighbours_differ fd_domain (b_failure_domains b).

(** The ceiling the documentation does not mention: 1024 bytes and 128 for each record,
    whatever ports and members the records hold; and a digest that is not all zero. *)
Definition encoding_fits (b : FabricSnapshotBuilder) : Prop :=
  Z.of_nat (length (snapshot_bytes (built_snapshot b))) <=
    1024 + 128 * Z.of_nat (length (b_nodes b) + length (b_edges b) + length (b_endpoints b) +
      length (b_link_states b) + length (b_port_states b) + length (b_capabilities b) +
      length (b_failure_domains b)) ∧
  Exists (λ x, x ≠ 0) (s_digest (built_snapshot b)).

Lemma has_adjacent_iff {A K} `{Ordered K} (key : A → K) l :
  has_adjacent key l = false ↔ neighbours_differ key l.
Proof.
  induction l as [|x l IH]; [by split|]. destruct l as [|y l].
  { split; [|done]. by intros _ [|k]. }
  change (has_adjacent key (x :: y :: l)) with (eqb (key x) (key y) || has_adjacent key (y :: l))%bool.
  rewrite orb_false_iff, IH. split.
  - intros [Hne Hl] [|k] x' y'; [|by apply Hl].
    cbn. intros [= <-] [= <-]. intros Heq%eqb_eq. congruence.
  - intros Hl. split; [|intros k; apply (Hl (S k))].
    apply not_true_iff_false. rewrite eqb_eq. by apply (Hl 0%nat).
Qed.

Lemma NoDup_neighbours {A K} (key : A → K) l : NoDup (map key l) → neighbours_differ key l.
Proof.
  intros Hnd k x y Hx Hy Heq. assert (k = S k); [|lia].
  apply (NoDup_lookup (map key l) _ _ (key x)); [done| |]; rewrite list_lookup_fmap.
  - by rewrite Hx.
  - rewrite Hy. cbn. by rewrite Heq.
Qed.

Lemma unique_separated b : unique_views b → separated_views b.
Proof. intros (? & ? & ? & ?). by split_and!; apply NoDup_neighbours. Qed.

Lemma IsZero_iff digest : IsZero digest = false ↔ Exists (λ x, x ≠ 0) digest.
Proof.
  Local Transparent IsZero. unfold IsZero. Local Opaque IsZero.
  rewrite <-not_true_iff_false, forallb_forall, Exists_exists. setoid_rewrite <-list_elem_of_In.
  setoid_rewrite Z.eqb_eq. split.
  - intros Hn. destruct (decide (Exists (λ x, x ≠ 0) digest)) as [He%Exists_exists|He]; [done|].
    destruct Hn. intros x Hx. destruct (decide (x = 0)) as [|Hne]; [done|].
    destruct He. apply Exists_exists. by exists x.
  - intros (x & Hx & Hne) Hall. by apply Hne, Hall.
Qed.

Lemma Buildable_iff b : Buildable b ↔ Coherent b ∧ separated_views b ∧ encoding_fits b.
Proof.
  assert (snapshot_bytes (snapshot_with (sealed b) []) = snapshot_bytes (built_snapshot b)) as Hbytes by done.
  assert (encoding_ceiling b = 1024 + 128 * Z.of_nat (length (b_nodes b) + length (b_edges b) +
    length (b_endpoints b) + length (b_link_states b) + length (b_port_states b) +
    length (b_capabilities b) + length (b_failure_domains b))) as Hceil
    by (unfold encoding_ceiling, record_count; lia).
  unfold separated_views, encoding_fits. rewrite <-!has_adjacent_iff, <-IsZero_iff, <-Hceil, <-Hbytes. split.
  - intros []. split_and!; try done. constructor; try done. by apply Forall_forall.
  - intros ([? ? ? ? ? ? (? & ? & ? & ?) ?] & (? & ? & ? & ?) & ? & ?). constructor; try done.
    by apply Forall_forall.
Qed.



(** Two builders holding the same records, possibly added in another order. *)
Record same_records (b1 b2 : FabricSnapshotBuilder) : Prop := {
  sr_limits : b_limits b1 = b_limits b2;
  sr_generations : b_generations b1 = b_generations b2;
  sr_source : b_source b1 = b_source b2;
  sr_nodes : Permutation (b_nodes b1) (b_nodes b2);
  sr_edges : Permutation (b_edges b1) (b_edges b2);
  sr_endpoints : Permutation (b_endpoints b1) (b_endpoints b2);
  sr_links : Permutation (b_link_states b1) (b_link_states b2);
  sr_ports : Permutation (b_port_states b1) (b_port_states b2);
  sr_caps : Permutation (b_capabilities b1) (b_capabilities b2);
  sr_domains : Permutation (b_failure_domains b1) (b_failure_domains b2);
  sr_complete : b_membership_complete b1 = b_membership_complete b2
}.

Lemma same_records_snapshot b1 b2 d :
  same_records b1 b2 → unique_views b1 →
  NoDup (map n_id (b_nodes b1)) → NoDup (map e_id (b_edges b1)) →
  NoDup (map ep_id (b_endpoints b1)) →
  snapshot_with (sealed b1) d = snapshot_with (sealed b2) d.
Proof.
  intros [] (Hl & Hp & Hc & Hd) Hn He Hpt. unfold snapshot_with, sealed.
  unfold new_LinkStateView, new_PortStateView, new_CapabilityView, new_FailureDomainView.
  cbn [b_limits b_generations b_source b_nodes b_edges b_endpoints b_link_states b_port_states
    b_capabilities b_failure_domains b_membership_complete].
  rewrite (sort_by_perm_eq n_id (b_nodes b1) (b_nodes b2)) by done.
  rewrite (sort_by_perm_eq e_id (b_edges b1) (b_edges b2)) by done.
  rewrite (sort_by_perm_eq ep_id (b_endpoints b1) (b_endpoints b2)) by done.
  rewrite (sort_by_perm_eq ls_link (b_link_states b1) (b_link_states b2)) by done.
  rewrite (sort_by_perm_eq ps_port (b_port_states b1) (b_port_states b2)) by done.
  rewrite (sort_by_perm_eq binding_key (b_capabilities b1) (b_capabilities b2)) by done.
  rewrite (sort_by_perm_eq fd_domain (map seal_domain (b_failure_domains b1))
    (map seal_domain (b_failure_domains b2))); [congruence| |by apply Permutation_map].
  by rewrite map_map.
Qed.

Lemma same_records_wf b1 b2 : builder_wf b1 → same_records b1 b2 → builder_wf b2.
Proof.
  intros [Fn Fe Fp Ln Le Lp] [Hlim _ _ Pn Pe Pp _ _ _ _ _]. constructor; rewrite <- Hlim || idtac.
  - by eapply Permutation_Forall.
  - by eapply Permutation_Forall.
  - by eapply Permutation_Forall.
  - by rewrite <- (Permutation_length Pn).
  - by rewrite <- (Permutation_length Pe).
  - by rewrite <- (Permutation_length Pp).
Qed.

Lemma same_records_buildable b1 b2 :
  same_records b1 b2 → unique_views b1 → Buildable b1 → Buildable b2.
Proof.
  intros Hsame Huniq [HL Hn He Hce Hp Hcp Hl1 Hl2 Hl3 Hl4 Hd1 Hd2 Hd3 Hd4 Hdom Hc Hz].
  pose proof (λ d, same_records_snapshot b1 b2 d Hsame Huniq Hn He Hp) as Hsnap.
  assert (Hbuilt : built_snapshot b1 = built_snapshot b2).
  { unfold built_snapshot. by rewrite !Hsnap. }
  assert (Hceil : encoding_ceiling b1 = encoding_ceiling b2).
  { destruct Hsame. unfold encoding_ceiling, record_count.
    by repeat match goal with H : Permutation _ _ |- _ => apply Permutation_length in H as -> end. }
  rewrite Hsnap in Hc. rewrite Hceil in Hc. rewrite Hbuilt in Hz.
  destruct Hsame as [Elim _ _ Pn Pe Pp Pl Ppo Pc Pd _]. rewrite Elim in *.
  destruct Huniq as (Ul & Up & Uc & Ud).
  constructor; try done.
  - by rewrite <- Pn.
  - by rewrite <- Pe.
  - intros e Hin. rewrite <- Pe in Hin. rewrite <- !(publishes_perm _ _ _ _ Pn). auto.
  - by rewrite <- Pp.
  - intros e Hin. rewrite <- Pp in Hin. rewrite <- (publishes_perm _ _ _ _ Pn). auto.
  - by rewrite <- (Permutation_length Pl).
  - by rewrite <- (Permutation_length Ppo).
  - by rewrite <- (Permutation_length Pc).
  - by rewrite <- (Permutation_length Pd).
  - apply has_adjacent_NoDup. by rewrite <- Pl.
  - apply has_adjacent_NoDup. by rewrite <- Ppo.
  - apply has_adjacent_NoDup. by rewrite <- Pc.
  - apply has_adjacent_NoDup. by rewrite <- Pd.
  - by eapply Permutation_Forall.
Qed.


(** The published snapshot does not depend on the order in which records were
    added: when no view holds two records of one subject, every reordering of
    the collected records builds the same snapshot, digest included. *)
Theorem build_order_independent b1 b2 s :
  builder_wf b1 → same_records b1 b2 → unique_views b1 →
  (Build b1).1 = inr s → (Build b2).1 = inr s.
Proof.
  intros Hb1 Hsame Huniq [Hok ->]%Build_inr; [|done].
  apply Build_inr; [by eapply same_records_wf|].
  split; [by eapply same_records_buildable|].
  unfold built_snapshot. destruct Hok.
  by rewrite <- !(same_records_snapshot b1 b2) by done.
Qed.

Lemma build_order_independent_witness :
  (Build Demo.reordered).1 = inr Demo.snapshot.
Proof.
  apply (build_order_independent Demo.builder).
  - apply run_ops_wf.
  - constructor; try reflexivity.
    + unfold Demo.builder, Demo.reordered. vm_compute. solve_Permutation.
    + vm_compute. solve_Permutation.
  - repeat split; apply (bool_decide_unpack _); vm_compute; exact I.
  - exact Demo.snapshot_built.
Defined.

(** C22: the snapshot digest identifies the snapshot: two published snapshots have
    one digest exactly when they publish the same content, unless their two
    encodings are a SHA-256 collision. *)
Theorem snapshot_digest_identity s1 s2 :
  snapshot_wf s1 → snapshot_wf s2 → snapshot_typed s1 → snapshot_typed s2 →
  (Hash (snapshot_bytes s1) = Hash (snapshot_bytes s2) →
   snapshot_bytes s1 = snapshot_bytes s2) →
  s_digest s1 = s_digest s2 ↔ same_content s1 s2.
Proof.
  intros Hw1 Hw2 Ht1 Ht2 Hcoll.
  rewrite (sw_digest s1 Hw1), (sw_digest s2 Hw2). split.
  - intros Heq. apply snapshot_bytes_inj; auto.
  - intros (E1 & E2 & E3 & E4 & E5 & E6 & E7 & E8 & E9 & E10). f_equal.
    Local Transparent snapshot_bytes.
    unfold snapshot_bytes. congruence.
Qed.

(** Two fabrics of one node each, and their values are in range. *)
Definition small_builder (k : Z) : FabricSnapshotBuilder :=
  run_ops [OpSetGenerations Demo.generations; OpAddNode (Demo.node_record k)]
    (new_builder default_limits).
Definition small_1 := Eval vm_compute in built_snapshot (small_builder 1).
Definition small_2 := Eval vm_compute in built_snapshot (small_builder 2).

Ltac concrete_typed :=
  constructor;
  repeat first
    [ progress unfold list_fits, id_wf, u64_fits, u32_fits, is_byte, subject_typed | split
    | apply Forall_cons | apply Forall_nil | exact I ];
  try (vm_compute; first [reflexivity|congruence]).

Lemma demo_typed : snapshot_typed Demo.snapshot.
Proof. concrete_typed. Qed.
Lemma small_built :
  (Build (small_builder 1)).1 = inr small_1 ∧ (Build (small_builder 2)).1 = inr small_2.
Proof. vm_compute. split; reflexivity. Qed.
Lemma small_digests :
  bool_decide (Hash (snapshot_bytes small_1) = Hash (snapshot_bytes small_2)) = false.
Proof. vm_compute. reflexivity. Qed.
Lemma small_1_typed : snapshot_typed small_1.
Proof. concrete_typed. Qed.
Lemma small_2_typed : snapshot_typed small_2.
Proof. concrete_typed. Qed.

Lemma snapshot_digest_identity_witness :
  s_digest small_1 = s_digest small_2 ↔ same_content small_1 small_2.
Proof.
  refine (snapshot_digest_identity small_1 small_2 _ _ small_1_typed small_2_typed _).
  - exact (published_wf (small_builder 1) _ (run_ops_wf _ _) (proj1 small_built)).
  - exact (published_wf (small_builder 2) _ (run_ops_wf _ _) (proj2 small_built)).
  - intros Heq. destruct (proj1 (bool_decide_eq_false _) small_digests Heq).
Defined.

(** The duplicate checks compare neighbours of unsorted vectors: two records of
    one link with different states pass when another record stands between. *)
Lemma separated_duplicates_accepted :
  let records := [Demo.up 1; Demo.up 2; MkLinkState (Demo.link 1) LinkState.kDown] in
  let b := run_ops (Demo.ops [1; 2; 3; 4] records) (new_builder default_limits) in
  match (Build b).1 with
  | inr s => ls_records (s_link_states s) = sort_by ls_link records
  | inl _ => False
  end.
Proof. vm_compute. reflexivity. Qed.

(** The encoding ceiling counts records, not ports: one node well within
    [max_ports_per_node] is refused as too large. *)
Lemma many_ports_refused :
  let n := MkNode (Demo.node 1) (nil_id SwitchIdTag) 1 1
    (map (λ k, Demo.port (Z.of_nat k)) (seq 1 80)) in
  let b := run_ops [OpSetGenerations Demo.generations; OpAddNode n]
    (new_builder default_limits) in
  length (b_nodes b) = 1%nat ∧ 80 <= max_ports_per_node default_limits ∧
  (Build b).1 = inl kGraphTooLarge.
Proof. split_and!; [vm_compute; reflexivity|vm_compute; congruence|vm_compute; reflexivity]. Qed.
