(* ===== verification/Path.v ===== *)
(** path.hpp / path.cpp: candidate paths with their well-formedness test,
    canonical encoding and identity, the checked cost model, and the canonical
    ranking of candidates. *)

From S2P Require Import Prelude Canonical Sha256 Status Ids Codec Limits Graph.

(** ** Paths *)

Record PathHop := MkHop {
  h_link : LinkId; h_from : NodeId; h_to : NodeId; h_from_port : PortId; h_to_port : PortId;
  h_layer : PathLayer.t; h_relationship : RelationshipType.t;
  h_structural_generation : Z; h_static_cost : Z;
  h_link_state : LinkState.t; h_degraded : bool
}.

Record CandidatePath := MkPath {
  p_source : NodeId; p_destination : NodeId; p_layer : PathLayer.t;
  p_nodes : list NodeId; p_hops : list PathHop
}.

#[export] Instance PathHop_eq_dec : EqDecision PathHop.
Proof. solve_decision. Defined.
#[export] Instance CandidatePath_eq_dec : EqDecision CandidatePath.
Proof. solve_decision. Defined.

(** One iteration of the continuity loop at index [i]. *)
Definition hop_follows (p : CandidatePath) (i : nat) : bool :=
  match p_hops p !! i with
  | None => true
  | Some h =>
      early false
        when (negb (eqb (h_from h) (nth i (p_nodes p) inhabitant)) ||
              negb (eqb (h_to h) (nth (i + 1) (p_nodes p) inhabitant))) ;;
      early false when negb (enum_eqb (h_layer h) (p_layer p)) ;;
      early false
        when (negb (IsValid (h_link h)) || negb (IsValid (h_from_port h)) ||
              negb (IsValid (h_to_port h))) ;;
      true
  end.

Definition IsWellFormed (p : CandidatePath) : bool :=
  early false when (negb (IsValid (p_source p)) || negb (IsValid (p_destination p))) ;;
  early false when negb (length (p_nodes p) =? length (p_hops p) + 1)%nat ;;
  early false when (length (p_nodes p) =? 0)%nat ;;
  early false
    when (negb (eqb (hd inhabitant (p_nodes p)) (p_source p)) ||
          negb (eqb (List.last (p_nodes p) inhabitant) (p_destination p))) ;;
  forallb (hop_follows p) (seq 0 (length (p_hops p))).

Definition IsSimple (p : CandidatePath) : bool :=
  early true when (length (p_nodes p) <? 2)%nat ;;
  negb (has_adjacent id (sort_ids (p_nodes p))).

Definition EncodeHop (h : PathHop) (w : ByteWriter) : ByteWriter :=
  w |> FixedBytes (id_bytes (h_link h)) |> FixedBytes (id_bytes (h_from h))
    |> FixedBytes (id_bytes (h_to h)) |> FixedBytes (id_bytes (h_from_port h))
    |> FixedBytes (id_bytes (h_to_port h)) |> U32 (enum_value (h_layer h))
    |> U32 (enum_value (h_relationship h)) |> U64 (h_structural_generation h)
    |> U32 (h_static_cost h).

Definition EncodePath (p : CandidatePath) (w : ByteWriter) : ByteWriter :=
  w |> U32 kPathEncodingVersion
    |> FixedBytes (id_bytes (p_source p)) |> FixedBytes (id_bytes (p_destination p))
    |> U32 (enum_value (p_layer p))
    |> write_list EncodeHop (p_hops p).

Definition PathDigest (p : CandidatePath) : bytes :=
  let ceiling := 256 + Z.of_nat (length (p_hops p)) * 128 in
  let writer := EncodePath p (new_writer ceiling) in
  early replicate kSha256Bytes 0 when overflowed_ writer ;;
  Hash (data_ writer).

Definition PathId (p : CandidatePath) : CandidatePathId :=
  let digest := PathDigest p in
  early nil_id CandidatePathIdTag when IsZero digest ;;
  FromDigest CandidatePathIdTag digest.

Fixpoint render_nodes (first : bool) (l : list NodeId) : string :=
  match l with
  | [] => ""
  | n :: l =>
      (if first then "" else " -> ") +:+ IdToString n +:+ render_nodes false l
  end.
Definition Render (p : CandidatePath) : string := render_nodes true (p_nodes p).

(** The trailing space of a non-empty rendering is dropped. *)
Definition pop_back (s : string) : string := String.substring 0 (String.length s - 1) s.
Definition RenderHops (p : CandidatePath) : string :=
  let out := fold_left (λ out h,
    out +:+ IdToString (h_link h) +:+ ":" +:+ IdToString (h_from h) +:+ "->" +:+
    IdToString (h_to h) +:+ " ") (p_hops p) "" in
  if (String.length out =? 0)%nat then out else pop_back out.

(** ** Cost *)

Record CostModel := MkCostModel {
  cm_hop_cost : Z; cm_degraded_penalty : Z; cm_locality_penalty : Z
}.
Definition default_cost_model : CostModel := MkCostModel 1 0 0.

Record PathCost := MkCost {
  c_hops_cost : Z; c_static_cost : Z; c_degraded_penalty : Z; c_locality_penalty : Z;
  c_total : Z; c_hops : Z; c_degraded_hops : Z; c_locality_breaches : Z
}.
Definition zero_cost : PathCost := MkCost 0 0 0 0 0 0 0 0.

#[export] Instance PathCost_eq_dec : EqDecision PathCost.
Proof. solve_decision. Defined.

Record HopCostInput := MkHopCost {
  hc_static_cost : Z; hc_degraded : bool; hc_outside_locality : bool
}.

(** The accumulation loop over the hops: the checked static sum and the two
    64-bit counters. *)
Fixpoint accumulate (hops : list HopCostInput) (static degraded breaches : Z) :
  option (Z * Z * Z) :=
  match hops with
  | [] => Some (static, degraded, breaches)
  | hop :: hops =>
      static ← CheckedAdd static (hc_static_cost hop);
      accumulate hops static
        (if hc_degraded hop then wrap64 (degraded + 1) else degraded)
        (if hc_outside_locality hop then wrap64 (breaches + 1) else breaches)
  end.

Definition AccumulatePathCost (hops : list HopCostInput) (model : CostModel) : option PathCost :=
  early None when (Z.of_nat (length hops) >? kMaxHopCount) ;;
  let n := Z.of_nat (length hops) in
  hops_cost ← CheckedMul (cm_hop_cost model) n;
  '(static, degraded_hops, breaches) ← accumulate hops 0 0 0;
  degraded ← CheckedMul (cm_degraded_penalty model) degraded_hops;
  locality ← CheckedMul (cm_locality_penalty model) breaches;
  total ← CheckedAdd 0 hops_cost;
  total ← CheckedAdd total static;
  total ← CheckedAdd total degraded;
  total ← CheckedAdd total locality;
  Some (MkCost hops_cost static degraded locality total n (wrap32 degraded_hops) (wrap32 breaches)).

(** ** Candidates and their order *)

Record CandidateProvenance := MkProvenance {
  pv_planning_generation : Z; pv_constraint_set : ConstraintSetId;
  pv_constraint_generation : Z; pv_policy_generation : Z; pv_source : EvidenceSource.t;
  pv_planning_rule_version : Z; pv_path_encoding_version : Z
}.

Definition default_provenance : CandidateProvenance :=
  MkProvenance 0 (nil_id _) 0 0 EvidenceSource.kSynthetic 0 0.

Record Candidate := MkCandidate {
  cd_id : CandidatePathId; cd_path : CandidatePath; cd_cost : PathCost; cd_rank : Z;
  cd_evidence : EvidenceVector; cd_provenance : CandidateProvenance;
  cd_authority : AuthorityValidation.t; cd_currentness : Currentness.t;
  cd_notes : list DiagnosticCode.t
}.

(** [for (index < min(l.size(), r.size()))]: the first difference decides. *)
Fixpoint compare_shared {A} `{Ordered A} (l r : list A) : comparison :=
  match l, r with
  | x :: l, y :: r =>
      if negb (eqb x y) then (if ltb x y then Lt else Gt) else compare_shared l r
  | _, _ => Eq
  end.

Definition compare_sizes (n m : nat) : comparison :=
  if negb (n =? m)%nat then (if (n <? m)%nat then Lt else Gt) else Eq.

(** The first verdict that is not [Eq]. *)
Definition or_else (c k : comparison) : comparison := match c with Eq => k | _ => c end.

Definition CompareCanonicalPaths (l r : CandidatePath) : comparison :=
  let links p := map h_link (p_hops p) in
  or_else (compare_shared (p_nodes l) (p_nodes r))
    (or_else (compare_sizes (length (p_nodes l)) (length (p_nodes r)))
      (or_else (compare_shared (links l) (links r))
        (compare_sizes (length (p_hops l)) (length (p_hops r))))).

Definition RanksBefore (l r : Candidate) : bool :=
  if negb (c_total (cd_cost l) =? c_total (cd_cost r))
  then c_total (cd_cost l) <? c_total (cd_cost r)
  else if negb (c_hops (cd_cost l) =? c_hops (cd_cost r))
  then c_hops (cd_cost l) <? c_hops (cd_cost r)
  else match CompareCanonicalPaths (cd_path l) (cd_path r) with Lt => true | _ => false end.

(** ** The cost model is exact *)

Definition ind (b : bool) : Z := if b then 1 else 0.
(** How many elements satisfy [f]. *)
Definition count {A} (f : A → bool) (l : list A) : Z := zsum (λ x, ind (f x)) l.

Lemma count_cons {A} (f : A → bool) x l : count f (x :: l) = ind (f x) + count f l.
Proof. done. Qed.

(** What one hop adds to the total. *)
Definition hop_increment (m : CostModel) (h : HopCostInput) : Z :=
  cm_hop_cost m + hc_static_cost h + cm_degraded_penalty m * ind (hc_degraded h) +
  cm_locality_penalty m * ind (hc_outside_locality h).

Definition exact_cost (hops : list HopCostInput) (m : CostModel) : PathCost :=
  let degraded := count hc_degraded hops in
  let breaches := count hc_outside_locality hops in
  MkCost (cm_hop_cost m * Z.of_nat (length hops)) (zsum hc_static_cost hops)
    (cm_degraded_penalty m * degraded) (cm_locality_penalty m * breaches)
    (zsum (hop_increment m) hops) (Z.of_nat (length hops)) degraded breaches.

Definition model_typed (m : CostModel) : Prop :=
  u64_fits (cm_hop_cost m) ∧ u64_fits (cm_degraded_penalty m) ∧ u64_fits (cm_locality_penalty m).
Definition hop_cost_typed (h : HopCostInput) : Prop := u32_fits (hc_static_cost h).

Lemma ind_bounds b : 0 <= ind b <= 1.
Proof. destruct b; simpl; lia. Qed.

Lemma count_bounds {A} (f : A → bool) l : 0 <= count f l <= Z.of_nat (length l).
Proof.
  induction l as [|x l IH]; [done|]. rewrite count_cons. cbn [length].
  pose proof (ind_bounds (f x)). lia.
Qed.

Lemma accumulate_spec hops s d b :
  Forall hop_cost_typed hops → u64_fits s → 0 <= d → 0 <= b →
  d + Z.of_nat (length hops) <= u64_max → b + Z.of_nat (length hops) <= u64_max →
  accumulate hops s d b =
    if s + zsum hc_static_cost hops <=? u64_max
    then Some (s + zsum hc_static_cost hops, d + count hc_degraded hops,
               b + count hc_outside_locality hops)
    else None.
Proof.
  intros Hall. revert s d b. induction Hall as [|h hops Hh Hall IH]; intros s d b Hs Hd Hb Hld Hlb.
  { unfold u64_fits in *. simpl. rewrite !Z.add_0_r.
    by rewrite (proj2 (Z.leb_le s u64_max)) by lia. }
  cbn [accumulate length] in *. unfold hop_cost_typed, u32_fits, u64_fits, u32_max in *.
  rewrite CheckedAdd_spec by (unfold u64_max in *; lia).
  assert (Hsum : 0 <= zsum hc_static_cost hops).
  { apply zsum_nonneg. eapply Forall_impl; [exact Hall|]. by intros x []. }
  rewrite zsum_cons, !count_cons.
  destruct (s + hc_static_cost h <=? u64_max) eqn:E; bool_to_prop; simpl.
  - rewrite !wrap64_small by (unfold u64_max in *; lia).
    rewrite IH by (destruct (hc_degraded h), (hc_outside_locality h); lia).
    rewrite Z.add_assoc. destruct (_ <=? _); [|done].
    destruct (hc_degraded h), (hc_outside_locality h); cbn [ind];
      apply (f_equal Some); repeat apply (f_equal2 pair); lia.
  - destruct (_ <=? _) eqn:E'; [|done]. bool_to_prop. lia.
Qed.

Lemma exact_total hops m :
  zsum (hop_increment m) hops =
    cm_hop_cost m * Z.of_nat (length hops) + zsum hc_static_cost hops +
    cm_degraded_penalty m * count hc_degraded hops +
    cm_locality_penalty m * count hc_outside_locality hops.
Proof.
  unfold hop_increment. rewrite !zsum_add, !zsum_mul, zsum_const. done.
Qed.

(** One checked operation of the accumulation: it fits, or the total does not. *)
Ltac checked_step :=
  lazymatch goal with
  | |- (CheckedMul ?a ?b ≫= _) = _ => rewrite (CheckedMul_spec a b) by (unfold u64_max in *; lia)
  | |- (CheckedAdd ?a ?b ≫= _) = _ => rewrite (CheckedAdd_spec a b) by (unfold u64_max in *; lia)
  | |- _ => idtac
  end;
  let E := fresh "E" in
  lazymatch goal with
  | |- ((if ?c then _ else _) ≫= _) = _ => destruct c eqn:E; bool_to_prop
  end;
  cbn [mbind option_bind]; [|destruct (_ <=? _) eqn:?; [bool_to_prop; lia|done]].

Lemma AccumulatePathCost_spec hops m :
  model_typed m → Forall hop_cost_typed hops →
  AccumulatePathCost hops m =
    if (Z.of_nat (length hops) <=? kMaxHopCount) && (zsum (hop_increment m) hops <=? u64_max)
    then Some (exact_cost hops m) else None.
Proof.
  intros (Hc & Hd & Hl) Hall. rewrite exact_total.
  unfold AccumulatePathCost, kMaxHopCount, u64_fits in *.
  destruct (_ >? _) eqn:Elen; bool_to_prop.
  { destruct (Z.leb_spec (Z.of_nat (length hops)) 65535); [lia|done]. }
  rewrite (proj2 (Z.leb_le _ 65535)) by lia. cbn [andb].
  pose proof (count_bounds hc_degraded hops) as Bd.
  pose proof (count_bounds hc_outside_locality hops) as Bl.
  assert (Bs : 0 <= zsum hc_static_cost hops).
  { apply zsum_nonneg. eapply Forall_impl; [exact Hall|]. by intros x []. }
  set (n := Z.of_nat (length hops)) in *.
  rewrite accumulate_spec by (unfold u64_fits, u64_max; try done; lia). rewrite !Z.add_0_l.
  set (S := zsum hc_static_cost hops) in *. set (D := count hc_degraded hops) in *.
  set (L := count hc_outside_locality hops) in *.
  assert (H1 : 0 <= cm_hop_cost m * n) by nia. assert (H2 : 0 <= cm_degraded_penalty m * D) by nia.
  assert (H3 : 0 <= cm_locality_penalty m * L) by nia.
  assert (Hfinal : exact_cost hops m = MkCost (cm_hop_cost m * n) S (cm_degraded_penalty m * D)
    (cm_locality_penalty m * L)
    (cm_hop_cost m * n + S + cm_degraded_penalty m * D + cm_locality_penalty m * L) n D L).
  { unfold exact_cost. by rewrite exact_total. }
  rewrite Hfinal. clear Hfinal.
  do 8 checked_step.
  rewrite !wrap32_small by (unfold u32_max; lia). by destruct (_ <=? _) eqn:?; bool_to_prop; [|lia].
Qed.

(** C28: the cost of a path is exact: it is returned precisely when the path has at
    most [kMaxHopCount] hops and the sum of what its hops contribute fits 64
    bits, every component and counter is then the exact sum, and no
    intermediate operation wraps or refuses a representable total. *)
Theorem path_cost_exact hops m :
  model_typed m → Forall hop_cost_typed hops →
  AccumulatePathCost hops m =
    if (Z.of_nat (length hops) <=? kMaxHopCount) && (zsum (hop_increment m) hops <=? u64_max)
    then Some (exact_cost hops m) else None.
Proof. apply AccumulatePathCost_spec. Qed.

Lemma path_cost_exact_witness :
  AccumulatePathCost [MkHopCost 5 true false; MkHopCost 7 false true] (MkCostModel 1 10 100)
    = Some (MkCost 2 12 10 100 124 2 1 1) ∧
  AccumulatePathCost [MkHopCost 1 false false] (MkCostModel u64_max 0 0) = None.
Proof.
  split; rewrite path_cost_exact;
    repeat first [reflexivity | split | constructor | (vm_compute; congruence)].
Defined.

(** ** Canonical ranking *)

Lemma compare_list {A} `{Ordered A} (l r : list A) :
  or_else (compare_shared l r) (compare_sizes (length l) (length r)) = cmp l r.
Proof.
  simpl. revert r. induction l as [|x l IH]; intros [|y r]; try done.
  simpl. unfold eqb, ltb. destruct (cmp x y) eqn:E; simpl; [|done..].
  rewrite <- IH. unfold compare_sizes. simpl.
  destruct (compare_shared l r); done.
Qed.

Lemma cmp_pair {A B} `{Ordered A, Ordered B} (a c : A) (b d : B) :
  cmp (a, b) (c, d) = or_else (cmp a c) (cmp b d).
Proof. simpl. by destruct (cmp a c). Qed.

(** The node sequence, then the link sequence. *)
Definition path_key (p : CandidatePath) : list NodeId * list LinkId :=
  (p_nodes p, map h_link (p_hops p)).
(** What the ranking compares. *)
Definition rank_key (c : Candidate) : Z * (Z * (list NodeId * list LinkId)) :=
  (c_total (cd_cost c), (c_hops (cd_cost c), path_key (cd_path c))).

Lemma CompareCanonicalPaths_cmp l r : CompareCanonicalPaths l r = cmp (path_key l) (path_key r).
Proof.
  unfold CompareCanonicalPaths, path_key.
  rewrite <- (length_map h_link (p_hops l)), <- (length_map h_link (p_hops r)).
  rewrite compare_list, cmp_pair.
  rewrite <- (compare_list (p_nodes l)).
  by destruct (compare_shared (p_nodes l) _).
Qed.

Lemma RanksBefore_ltb l r : RanksBefore l r = ltb (rank_key l) (rank_key r).
Proof.
  unfold RanksBefore. rewrite CompareCanonicalPaths_cmp. unfold ltb, rank_key.
  rewrite !cmp_pair. change (@cmp Z _) with Z.compare.
  destruct (Z.compare_spec (c_total (cd_cost l)) (c_total (cd_cost r))) as [->|H|H]; simpl.
  - rewrite Z.eqb_refl. simpl.
    destruct (Z.compare_spec (c_hops (cd_cost l)) (c_hops (cd_cost r))) as [->|H|H]; simpl.
    + by rewrite Z.eqb_refl.
    + rewrite (proj2 (Z.eqb_neq _ _)) by lia. simpl. by apply Z.ltb_lt.
    + rewrite (proj2 (Z.eqb_neq _ _)) by lia. simpl. apply Z.ltb_ge. lia.
  - rewrite (proj2 (Z.eqb_neq _ _)) by lia. simpl. by apply Z.ltb_lt.
  - rewrite (proj2 (Z.eqb_neq _ _)) by lia. simpl. apply Z.ltb_ge. lia.
Qed.

(** The canonical ranking is a strict total order on candidates: irreflexive,
    transitive, and two candidates that are not ranked either way have the same
    total cost, hop count, node sequence and link sequence; so the returned
    order is independent of how the candidates were found. *)
Theorem ranking_strict_total a b c :
  RanksBefore a a = false ∧
  (RanksBefore a b = true → RanksBefore b c = true → RanksBefore a c = true) ∧
  (RanksBefore a b = true ∨ RanksBefore b a = true ∨
   (c_total (cd_cost a) = c_total (cd_cost b) ∧ c_hops (cd_cost a) = c_hops (cd_cost b) ∧
    p_nodes (cd_path a) = p_nodes (cd_path b) ∧
    map h_link (p_hops (cd_path a)) = map h_link (p_hops (cd_path b)))).
Proof.
  rewrite !RanksBefore_ltb. split_and!.
  - apply ltb_irrefl.
  - apply ltb_trans.
  - destruct (ltb_trichotomy (rank_key a) (rank_key b)) as [|[Heq|]]; auto.
    right; right. unfold rank_key, path_key in Heq. by injection Heq as -> -> -> ->.
Qed.

(** ** Well-formed and simple paths *)

(** The hops lead from [x] to [y]. *)
Fixpoint chain (x : NodeId) (hops : list PathHop) (y : NodeId) : Prop :=
  match hops with
  | [] => x = y
  | h :: hops => h_from h = x ∧ chain (h_to h) hops y
  end.

Definition hop_ok (layer : PathLayer.t) (h : PathHop) : Prop :=
  h_layer h = layer ∧ IsValid (h_link h) = true ∧
  IsValid (h_from_port h) = true ∧ IsValid (h_to_port h) = true.

Record path_wf (p : CandidatePath) : Prop := {
  pw_source : IsValid (p_source p) = true;
  pw_destination : IsValid (p_destination p) = true;
  pw_nodes : p_nodes p = p_source p :: map h_to (p_hops p);
  pw_chain : chain (p_source p) (p_hops p) (p_destination p);
  pw_hops : Forall (hop_ok (p_layer p)) (p_hops p)
}.

Lemma hop_follows_spec p i h :
  p_hops p !! i = Some h →
  hop_follows p i = true ↔
  h_from h = nth i (p_nodes p) inhabitant ∧ h_to h = nth (i + 1) (p_nodes p) inhabitant ∧
  hop_ok (p_layer p) h.
Proof.
  intros Hh. unfold hop_follows, hop_ok. rewrite Hh.
  rewrite <- (eqb_eq (h_from h)), <- (eqb_eq (h_to h)), <- enum_eqb_eq.
  destruct (eqb _ _), (eqb _ _), (enum_eqb _ _), (IsValid _), (IsValid _), (IsValid _);
    simpl; intuition congruence.
Qed.

(** The index loop is the recursion along the two vectors. *)
Lemma hops_follow_chain layer src dst hops nodes :
  length nodes = (length hops + 1)%nat →
  hd inhabitant nodes = src → List.last nodes inhabitant = dst →
  (∀ i h, hops !! i = Some h →
    h_from h = nth i nodes inhabitant ∧ h_to h = nth (i + 1) nodes inhabitant ∧ hop_ok layer h) ↔
  nodes = src :: map h_to hops ∧ chain src hops dst ∧ Forall (hop_ok layer) hops.
Proof.
  revert src nodes. induction hops as [|h hops IH]; intros src nodes Hlen Hhd Hlast.
  { destruct nodes as [|x [|y nodes]]; simpl in *; try lia. subst.
    split; [done|]. intros _ i h. by rewrite lookup_nil. }
  destruct nodes as [|x [|y nodes]]; simpl in Hlen; try lia.
  change (List.last (x :: y :: nodes) inhabitant) with (List.last (y :: nodes) inhabitant) in Hlast.
  simpl in Hhd. subst x. specialize (IH y (y :: nodes) ltac:(simpl; lia) eq_refl Hlast).
  rewrite Forall_cons. simpl chain. simpl map. split.
  - intros Hall. destruct (Hall 0%nat h eq_refl) as (Hf & Ht & Hok). simpl in Hf, Ht.
    destruct IH as [IH _]. destruct IH as (Hn & Hc & Hoks).
    { intros i h' Hi. destruct (Hall (S i) h' Hi) as (? & ? & ?). done. }
    rewrite Ht. injection Hn as Hn. by rewrite Hn at 1.
  - intros ([= Hy Hn] & [Hf Hc] & Hok & Hoks) [|i] h' Hi.
    + injection Hi as <-. simpl. done.
    + simpl in Hi. destruct IH as [_ IH]. apply (IH); [|done]. subst y. by rewrite <- Hn.
Qed.

Lemma IsWellFormed_spec p : IsWellFormed p = true ↔ path_wf p.
Proof.
  unfold IsWellFormed. split.
  - destruct (IsValid (p_source p)) eqn:Hs; [|done].
    destruct (IsValid (p_destination p)) eqn:Hd; [|done]. simpl.
    destruct (length (p_nodes p) =? length (p_hops p) + 1)%nat eqn:El; [|done]. simpl.
    destruct (length (p_nodes p) =? 0)%nat eqn:E0; [done|].
    destruct (eqb _ _) eqn:Eh; [|done]. destruct (eqb (List.last _ _) _) eqn:Ed; [|done].
    simpl. bool_to_prop. apply eqb_eq in Eh, Ed. rewrite forallb_forall. intros Hall.
    destruct (hops_follow_chain (p_layer p) (p_source p) (p_destination p) (p_hops p)
      (p_nodes p)) as [H _]; [done..|].
    destruct H as (Hn & Hc & Hok); [|by split].
    intros i h Hi. apply hop_follows_spec; [done|]. apply Hall, in_seq.
    apply lookup_lt_Some in Hi. lia.
  - intros [Hs Hd Hn Hc Hok]. rewrite Hs, Hd. cbn [negb orb].
    assert (Hlen : length (p_nodes p) = (length (p_hops p) + 1)%nat).
    { rewrite Hn. simpl. rewrite length_map. lia. }
    assert (Hlast : List.last (p_nodes p) inhabitant = p_destination p).
    { rewrite Hn. clear -Hc. revert Hc. generalize (p_source p).
      induction (p_hops p) as [|h l IH]; intros x; simpl; [done|]. intros [_ Hc].
      specialize (IH _ Hc). destruct l; [done|]. exact IH. }
    rewrite Hlast. rewrite Hlen, Nat.eqb_refl. rewrite (proj2 (Nat.eqb_neq _ 0)) by lia.
    assert (Hhd : hd inhabitant (p_nodes p) = p_source p) by by rewrite Hn.
    rewrite Hhd, !eqb_refl. cbn [negb orb]. apply forallb_forall.
    intros i [_ Hi]%in_seq. destruct (lookup_lt_is_Some_2 (p_hops p) i) as [h Hh]; [lia|].
    apply (hop_follows_spec _ _ h); [done|].
    apply (hops_follow_chain (p_layer p) (p_source p) (p_destination p) (p_hops p)); done.
Qed.

Lemma IsSimple_spec p : IsSimple p = true ↔ NoDup (p_nodes p).
Proof.
  unfold IsSimple. destruct (p_nodes p) as [|x [|y l]] eqn:E; simpl.
  - split; [constructor|done].
  - split; [intros; apply NoDup_singleton|done].
  - rewrite negb_true_iff. apply has_adjacent_sort_ids.
Qed.

(** The structural tests are exact: [IsWellFormed] holds precisely when the
    endpoints are valid, the node sequence is the source followed by the heads
    of the hops, the hops form one continuous walk from source to destination
    on the path's layer and carry valid link and port identities; [IsSimple]
    holds precisely when no node repeats. *)
Theorem path_tests_exact p :
  (IsWellFormed p = true ↔ path_wf p) ∧ (IsSimple p = true ↔ NoDup (p_nodes p)).
Proof. split; [apply IsWellFormed_spec|apply IsSimple_spec]. Qed.

(** ** The identity of a path *)

Definition hop_bytes (h : PathHop) : bytes :=
  id_bytes (h_link h) ++ id_bytes (h_from h) ++ id_bytes (h_to h) ++ id_bytes (h_from_port h) ++
  id_bytes (h_to_port h) ++ enum_bytes (h_layer h) ++ enum_bytes (h_relationship h) ++
  le_bytes 8 (h_structural_generation h) ++ le_bytes 4 (h_static_cost h).
Definition path_bytes (p : CandidatePath) : bytes :=
  le_bytes 4 kPathEncodingVersion ++ id_bytes (p_source p) ++ id_bytes (p_destination p) ++
  enum_bytes (p_layer p) ++ list_bytes hop_bytes (p_hops p).

Lemma Writes_hop h : Writes (EncodeHop h) (hop_bytes h).
Proof. unfold EncodeHop, hop_bytes. writes_pipeline. Qed.
#[export] Hint Resolve Writes_hop : writes.
Lemma Writes_path p : Writes (EncodePath p) (path_bytes p).
Proof. unfold EncodePath, path_bytes. writes_pipeline. Qed.
#[export] Hint Resolve Writes_path : writes.

Definition hop_typed (h : PathHop) : Prop :=
  id_wf (h_link h) ∧ id_wf (h_from h) ∧ id_wf (h_to h) ∧ id_wf (h_from_port h) ∧
  id_wf (h_to_port h) ∧ u64_fits (h_structural_generation h) ∧ u32_fits (h_static_cost h).
Definition path_typed (p : CandidatePath) : Prop :=
  id_wf (p_source p) ∧ id_wf (p_destination p) ∧ list_fits hop_typed (p_hops p).

(** The part of a hop the encoding covers: not the operational evidence. *)
Definition hop_identity (h : PathHop) : PathHop :=
  MkHop (h_link h) (h_from h) (h_to h) (h_from_port h) (h_to_port h) (h_layer h)
    (h_relationship h) (h_structural_generation h) (h_static_cost h) LinkState.kUnknown false.

Lemma hop_bytes_identity h : hop_bytes (hop_identity h) = hop_bytes h.
Proof. done. Qed.

Definition plain_hop (h : PathHop) : Prop :=
  hop_typed h ∧ h_link_state h = LinkState.kUnknown ∧ h_degraded h = false.

Lemma PrefixFree_hop : PrefixFree plain_hop hop_bytes.
Proof. prefix_free_record unfold plain_hop, hop_typed, hop_bytes in *. Qed.
#[export] Hint Resolve PrefixFree_hop : prefix_free.

(** Two paths through the same fabric elements, whatever their state. *)
Definition same_route (p q : CandidatePath) : Prop :=
  p_source p = p_source q ∧ p_destination p = p_destination q ∧ p_layer p = p_layer q ∧
  p_nodes p = p_nodes q ∧ map hop_identity (p_hops p) = map hop_identity (p_hops q).

Lemma list_bytes_map {A B} (f : A → B) (enc : B → bytes) l :
  list_bytes enc (map f l) = list_bytes (λ x, enc (f x)) l.
Proof.
  unfold list_bytes. rewrite length_map. f_equal. induction l; simpl; congruence.
Qed.

Lemma path_bytes_inj p q :
  path_typed p → path_typed q → path_wf p → path_wf q →
  path_bytes p = path_bytes q ↔ same_route p q.
Proof.
  intros (Hs1 & Hd1 & Hl1 & Hh1) (Hs2 & Hd2 & Hl2 & Hh2) Hp Hq. split.
  - intros Heq. unfold path_bytes in Heq. apply app_inv_head in Heq.
    peel Heq. peel Heq. peel Heq.
    assert (Hplain : ∀ l, list_fits hop_typed l → list_fits plain_hop (map hop_identity l)).
    { intros l [Hlen Hall]. split; [by rewrite length_map|]. apply Forall_map.
      eapply Forall_impl; [exact Hall|]. by intros h. }
    assert (Hhops : map hop_identity (p_hops p) = map hop_identity (p_hops q)).
    { apply (PrefixFree_inj _ _ _ _ (PrefixFree_list _ _ PrefixFree_hop)); try by apply Hplain.
      by rewrite !list_bytes_map. }
    split_and!; try done. rewrite (pw_nodes p Hp), (pw_nodes q Hq). f_equal; [done|].
    apply (f_equal (map h_to)) in Hhops. by rewrite !map_map in Hhops.
  - intros (E1 & E2 & E3 & _ & E5). unfold path_bytes. rewrite E1, E2, E3.
    do 4 f_equal. apply (f_equal (list_bytes hop_bytes)) in E5. by rewrite !list_bytes_map in E5.
Qed.

Lemma length_hop_bytes h : hop_typed h → length (hop_bytes h) = 100%nat.
Proof.
  intros ([L1 _] & [L2 _] & [L3 _] & [L4 _] & [L5 _] & _). unfold hop_bytes, enum_bytes.
  rewrite !length_app, !length_le_bytes, L1, L2, L3, L4, L5. done.
Qed.

Lemma length_path_bytes p :
  path_typed p → (length (path_bytes p) <= 50 + 100 * length (p_hops p))%nat.
Proof.
  intros ([L1 _] & [L2 _] & [_ Hh]). unfold path_bytes, enum_bytes, list_bytes.
  rewrite !length_app, !length_le_bytes, L1, L2. cbn [kByteCount].
  assert (length (flat_map hop_bytes (p_hops p)) = 100 * length (p_hops p))%nat as ->.
  { induction Hh as [|h l Hh _ IH]; [done|]. cbn [flat_map length].
    rewrite length_app, IH, length_hop_bytes by done. lia. }
  pose proof (length_varint 9 (Z.of_nat (length (p_hops p)))) as Hv. unfold varint_bytes. lia.
Qed.

(** The ceiling of [Digest] is never reached. *)
Lemma PathDigest_spec p : path_typed p → PathDigest p = Hash (path_bytes p).
Proof.
  intros Ht. unfold PathDigest.
  destruct (Writes_new_writer _ _ (256 + Z.of_nat (length (p_hops p)) * 128) (Writes_path p))
    as [Hov Hdata]; [lia|].
  apply length_path_bytes in Ht. cbv zeta in *.
  destruct (overflowed_ _).
  - destruct Hov as [_ Hov]. by discriminate Hov; lia.
  - by rewrite Hdata.
Qed.

(** A path's digest is its identity: the encoding never overflows its ceiling,
    so the digest is the SHA-256 of the canonical encoding, and two well-formed
    paths have one digest exactly when they take the same route (same endpoints,
    layer, nodes, links, ports, relationships and structural generations),
    unless their encodings are a SHA-256 collision. *)
Theorem path_digest_identity p q :
  path_typed p → path_typed q → path_wf p → path_wf q →
  (Hash (path_bytes p) = Hash (path_bytes q) → path_bytes p = path_bytes q) →
  PathDigest p = Hash (path_bytes p) ∧ (PathDigest p = PathDigest q ↔ same_route p q).
Proof.
  intros Hp Hq Wp Wq Hcoll. rewrite !PathDigest_spec by done. split; [done|].
  rewrite <- path_bytes_inj by done. split; [done|]. by intros ->.
Qed.

(** Two parallel one-hop paths of the demo fabric. *)
Definition demo_hop (k : Z) : PathHop :=
  let id tag k := FromBytes (replicate (kByteCount tag - 1) 0 ++ [k]) in
  MkHop (id LinkIdTag k) (id NodeIdTag 1) (id NodeIdTag 2) (id PortIdTag 11) (id PortIdTag 22)
    PathLayer.kPhysical RelationshipType.kDirectLink 1 1 LinkState.kUp false.
Definition demo_path (k : Z) : CandidatePath :=
  MkPath (h_from (demo_hop k)) (h_to (demo_hop k)) PathLayer.kPhysical
    [h_from (demo_hop k); h_to (demo_hop k)] [demo_hop k].

Ltac decide_typed :=
  repeat first
    [ progress unfold path_typed, hop_typed, list_fits, id_wf, u64_fits, u32_fits, is_byte
    | split | apply Forall_cons | apply Forall_nil | exact I ];
  try (vm_compute; first [reflexivity|congruence]).

Lemma path_digest_identity_witness :
  PathDigest (demo_path 1) = Hash (path_bytes (demo_path 1)) ∧
  (PathDigest (demo_path 1) = PathDigest (demo_path 2) ↔ same_route (demo_path 1) (demo_path 2)).
Proof.
  apply path_digest_identity.
  - decide_typed.
  - decide_typed.
  - apply IsWellFormed_spec. vm_compute. reflexivity.
  - apply IsWellFormed_spec. vm_compute. reflexivity.
  - intros Heq. vm_compute in Heq. discriminate.
Defined.
