(* ===== verification/Request.v ===== *)
(** request.hpp / request.cpp: endpoint references, capability requirements,
    ordered transit, the constraint set, the planning policy, the caller's
    authority and the planning request, with their validation: the first
    structural problem found, as a diagnostic code. *)

From S2P Require Import Prelude Status Ids Limits Graph Path.

Module CapabilityScope.
Inductive t : Set :=
  | kEveryNode | kEveryLink | kEveryPort | kSourceNode | kDestinationNode.

Definition all : list t :=
  [kEveryNode; kEveryLink; kEveryPort; kSourceNode; kDestinationNode].

Definition value (x : t) : Z :=
  match x with
  | kEveryNode => 1 | kEveryLink => 2 | kEveryPort => 3 | kSourceNode => 4
  | kDestinationNode => 5
  end.

Definition names : list EnumEntry := entries
  [("EVERY_NODE"%string, 1); ("EVERY_LINK"%string, 2); ("EVERY_PORT"%string, 3);
  ("SOURCE_NODE"%string, 4); ("DESTINATION_NODE"%string, 5)].

#[export] Instance enum : CppEnum t.
Proof. enum_instance value all names. Defined.
End CapabilityScope.

Module CapabilityComparator.
Inductive t : Set :=
  | kAtLeast | kAtMost | kEqual.

Definition all : list t :=
  [kAtLeast; kAtMost; kEqual].

Definition value (x : t) : Z :=
  match x with
  | kAtLeast => 1 | kAtMost => 2 | kEqual => 3
  end.

Definition names : list EnumEntry := entries
  [("AT_LEAST"%string, 1); ("AT_MOST"%string, 2); ("EQUAL"%string, 3)].

#[export] Instance enum : CppEnum t.
Proof. enum_instance value all names. Defined.
End CapabilityComparator.

Module TransitKind.
Inductive t : Set :=
  | kExact | kAnyOf.

Definition all : list t :=
  [kExact; kAnyOf].

Definition value (x : t) : Z :=
  match x with
  | kExact => 1 | kAnyOf => 2
  end.

Definition names : list EnumEntry := entries
  [("EXACT"%string, 1); ("ANY_OF"%string, 2)].

#[export] Instance enum : CppEnum t.
Proof. enum_instance value all names. Defined.
End TransitKind.

Module AuthorityValidationMode.
Inductive t : Set :=
  | kNone | kBestEffort | kRequired.

Definition all : list t :=
  [kNone; kBestEffort; kRequired].

Definition value (x : t) : Z :=
  match x with
  | kNone => 1 | kBestEffort => 2 | kRequired => 3
  end.

Definition names : list EnumEntry := entries
  [("NONE"%string, 1); ("BEST_EFFORT"%string, 2); ("REQUIRED"%string, 3)].

#[export] Instance enum : CppEnum t.
Proof. enum_instance value all names. Defined.
End AuthorityValidationMode.

#[export] Existing Instances
  CapabilityScope.enum
  CapabilityComparator.enum
  TransitKind.enum
  AuthorityValidationMode.enum.

(** ** Requests *)

Record EndpointRef := MkEndpointRef {
  er_id : EndpointId; er_class : EndpointClass.t; er_generation : Z
}.

Record CapabilityRequirement := MkRequirement {
  cr_capability : CapabilityId; cr_scope : CapabilityScope.t;
  cr_comparator : CapabilityComparator.t; cr_value : Z
}.

Definition SatisfiedBy (r : CapabilityRequirement) (observed : Z) : bool :=
  match cr_comparator r with
  | CapabilityComparator.kAtLeast => observed >=? cr_value r
  | CapabilityComparator.kAtMost => observed <=? cr_value r
  | CapabilityComparator.kEqual => observed =? cr_value r
  end.

Record TransitStage := MkStage { ts_kind : TransitKind.t; ts_alternatives : list NodeId }.

Record ConstraintSet := MkConstraints {
  cs_id : ConstraintSetId; cs_generation : Z; cs_layer : PathLayer.t;
  cs_forbidden_nodes : list NodeId; cs_forbidden_links : list LinkId;
  cs_forbidden_ports : list PortId; cs_forbidden_failure_domains : list FailureDomainId;
  cs_forbidden_failure_domain_classes : list FailureDomainClass;
  cs_required_transit : list TransitStage;
  cs_required_capabilities : list CapabilityRequirement;
  cs_max_hops : option Z; cs_max_members_per_failure_domain : option Z;
  cs_fail_closed_on_unknown_domains : bool
}.

Definition EntryCount (c : ConstraintSet) : nat :=
  length (cs_forbidden_nodes c) + length (cs_forbidden_links c) +
  length (cs_forbidden_ports c) + length (cs_forbidden_failure_domains c) +
  length (cs_forbidden_failure_domain_classes c) + length (cs_required_transit c) +
  length (cs_required_capabilities c).

Definition TransitAlternativeCount (c : ConstraintSet) : nat :=
  fold_left (λ total stage, (total + length (ts_alternatives stage))%nat)
    (cs_required_transit c) 0%nat.

Record PlanningPolicy := MkPolicy {
  pp_generation : Z; pp_cost_model : CostModel;
  pp_allow_degraded_links : bool; pp_allow_draining_ports : bool;
  pp_allow_maintenance_ports : bool; pp_require_operational_proof : bool;
  pp_allow_zero_hop_self_path : bool; pp_locality_scope : list NodeId;
  pp_authority_validation : AuthorityValidationMode.t
}.

Record CallerAuthority := MkAuthority {
  ca_scope_mask : Z; ca_publisher : PublisherId; ca_worker_boot : WorkerBootId;
  ca_coordinator_epoch : Z; ca_attempt : MutationAttemptId;
  ca_epoch_bound : bool; ca_enforce_scope : bool
}.

Record PlanningRequest := MkRequest {
  rq_id : PlanningRequestId; rq_source : EndpointRef; rq_destination : EndpointRef;
  rq_constraints : ConstraintSet; rq_policy : PlanningPolicy; rq_max_candidates : Z;
  rq_mode : PlanningMode.t; rq_authority : CallerAuthority;
  rq_expect_epoch : bool; rq_expected_epoch : Z;
  rq_expect_topology : bool; rq_expected_topology : Z;
  rq_expect_snapshot : bool; rq_expected_snapshot : SnapshotId
}.

(** ** Validation *)

Import DiagnosticCode.

Definition HasDuplicate {A} `{Ordered A} (values : list A) : bool :=
  has_adjacent id (sort_ids values).

(** A failed [RequestValidation]; a passed one is [None]. *)
Definition Fail (code : DiagnosticCode.t) (detail : string) : option (DiagnosticCode.t * string) :=
  Some (code, detail).

(** [for (id : values) if (!id.IsValid()) return Fail(kMalformedIdentifier)]. *)
Definition nil_entry {tag} (detail : string) (values : list (FixedId tag)) :
  option (DiagnosticCode.t * string) :=
  first_error (λ x, if negb (IsValid x) then Fail kMalformedIdentifier detail else None) values.

(** One iteration of the loop over the transit stages. *)
Definition check_stage (limits : ResourceLimits) (stage : TransitStage) :
  option (DiagnosticCode.t * string) :=
  early Fail kMalformedIdentifier "transit stage has no alternatives"
    when (length (ts_alternatives stage) =? 0)%nat ;;
  early Fail kConstraintCountExceeded "EXACT transit stage must name exactly one node"
    when (enum_eqb (ts_kind stage) TransitKind.kExact &&
          negb (length (ts_alternatives stage) =? 1)%nat) ;;
  early Fail kConstraintCountExceeded "transit stage alternative count exceeds the limit"
    when Exceeds (length (ts_alternatives stage)) (max_members_in_any_set limits) ;;
  onerror e := nil_entry "transit node identity is nil" (ts_alternatives stage) give Some e ;;
  early Fail kDuplicateConstraintEntry "duplicate alternative in a transit stage"
    when HasDuplicate (ts_alternatives stage) ;;
  None.

Definition ValidateConstraintSet (c : ConstraintSet) (limits : ResourceLimits) :
  option (DiagnosticCode.t * string) :=
  early Fail kMalformedIdentifier "constraint set identity is nil" when negb (IsValid (cs_id c)) ;;
  early Fail kConstraintCountExceeded "constraint entry count exceeds the configured limit"
    when Exceeds (EntryCount c) (max_constraints_total limits) ;;
  early Fail kConstraintCountExceeded "forbidden identifier count exceeds the configured limit"
    when (Exceeds (length (cs_forbidden_nodes c)) (max_forbidden_ids limits) ||
          Exceeds (length (cs_forbidden_links c)) (max_forbidden_ids limits) ||
          Exceeds (length (cs_forbidden_ports c)) (max_forbidden_ids limits) ||
          Exceeds (length (cs_forbidden_failure_domains c)) (max_forbidden_ids limits) ||
          Exceeds (length (cs_forbidden_failure_domain_classes c))
            (max_forbidden_domain_classes limits)) ;;
  early Fail kConstraintCountExceeded "transit stage count exceeds the configured limit"
    when Exceeds (length (cs_required_transit c)) (max_required_ids limits) ;;
  early Fail kConstraintCountExceeded "capability requirement count exceeds the configured limit"
    when Exceeds (length (cs_required_capabilities c)) (max_capability_requirements limits) ;;
  onerror e := nil_entry "forbidden node identity is nil" (cs_forbidden_nodes c) give Some e ;;
  onerror e := nil_entry "forbidden link identity is nil" (cs_forbidden_links c) give Some e ;;
  onerror e := nil_entry "forbidden port identity is nil" (cs_forbidden_ports c) give Some e ;;
  onerror e := nil_entry "forbidden failure domain identity is nil"
                 (cs_forbidden_failure_domains c) give Some e ;;
  onerror e := nil_entry "forbidden failure domain class identity is nil"
                 (cs_forbidden_failure_domain_classes c) give Some e ;;
  early Fail kDuplicateConstraintEntry "duplicate forbidden constraint entry"
    when (HasDuplicate (cs_forbidden_nodes c) || HasDuplicate (cs_forbidden_links c) ||
          HasDuplicate (cs_forbidden_ports c) || HasDuplicate (cs_forbidden_failure_domains c) ||
          HasDuplicate (cs_forbidden_failure_domain_classes c)) ;;
  onerror e := first_error (check_stage limits) (cs_required_transit c) give Some e ;;
  onerror e := nil_entry "capability identity is nil"
                 (map cr_capability (cs_required_capabilities c)) give Some e ;;
  early Fail kMaxHopsExceeded "max_hops exceeds the configured ceiling"
    when match cs_max_hops c with Some h => h >? lim_max_hops limits | None => false end ;;
  early Fail kConstraintCountExceeded "max_members_per_failure_domain must be positive"
    when match cs_max_members_per_failure_domain c with Some m => m =? 0 | None => false end ;;
  None.

Definition ValidatePolicy (p : PlanningPolicy) (limits : ResourceLimits) :
  option (DiagnosticCode.t * string) :=
  early Fail kConstraintCountExceeded "locality scope exceeds the configured limit"
    when Exceeds (length (pp_locality_scope p)) (max_forbidden_ids limits) ;;
  onerror e := nil_entry "locality scope node identity is nil" (pp_locality_scope p) give Some e ;;
  early Fail kDuplicateConstraintEntry "duplicate node in locality scope"
    when HasDuplicate (pp_locality_scope p) ;;
  early Fail kUnsupportedRequest "locality_penalty requires a non-empty locality_scope"
    when (negb (cm_locality_penalty (pp_cost_model p) =? 0) &&
          (length (pp_locality_scope p) =? 0)%nat) ;;
  None.

(** The enumerations of a request hold known values by their type; the tests the
    source makes on them are kept. *)
Definition check_requirement_encoding (r : CapabilityRequirement) :
  option (DiagnosticCode.t * string) :=
  early Fail kUnsupportedRequest "unknown capability requirement encoding"
    when (negb (IsKnownEnumValue CapabilityScope.names (enum_value (cr_scope r))) ||
          negb (IsKnownEnumValue CapabilityComparator.names (enum_value (cr_comparator r)))) ;;
  None.

Definition ValidateRequest (r : PlanningRequest) (limits : ResourceLimits) :
  option (DiagnosticCode.t * string) :=
  early Fail kMalformedIdentifier "planning request identity is nil"
    when negb (IsValid (rq_id r)) ;;
  early Fail kMalformedIdentifier "source endpoint identity is nil"
    when negb (IsValid (er_id (rq_source r))) ;;
  early Fail kMalformedIdentifier "destination endpoint identity is nil"
    when negb (IsValid (er_id (rq_destination r))) ;;
  early Fail kCandidateLimitExceeded "max_candidates must be at least 1"
    when (rq_max_candidates r =? 0) ;;
  early Fail kRequestedCandidatesAboveCeiling "max_candidates exceeds the configured ceiling"
    when (rq_max_candidates r >? max_candidates_per_request limits) ;;
  early Fail kUnsupportedLayer "unknown planning layer"
    when negb (IsKnownEnumValue PathLayer.names (enum_value (cs_layer (rq_constraints r)))) ;;
  early Fail kUnsupportedRequest "unknown planning mode"
    when negb (IsKnownEnumValue PlanningMode.names (enum_value (rq_mode r))) ;;
  early Fail kUnsupportedRequest "unknown authority validation mode"
    when negb (IsKnownEnumValue AuthorityValidationMode.names
                 (enum_value (pp_authority_validation (rq_policy r)))) ;;
  onerror e := first_error check_requirement_encoding
                 (cs_required_capabilities (rq_constraints r)) give Some e ;;
  onerror e := ValidateConstraintSet (rq_constraints r) limits give Some e ;;
  onerror e := ValidatePolicy (rq_policy r) limits give Some e ;;
  early Fail kMalformedIdentifier "expected topology generation must be positive"
    when (rq_expect_topology r && (rq_expected_topology r =? 0)) ;;
  early Fail kMalformedIdentifier "expected snapshot identity is nil"
    when (rq_expect_snapshot r && negb (IsValid (rq_expected_snapshot r))) ;;
  None.

Definition StatusForValidationCode (code : DiagnosticCode.t) : PlanStatus.t :=
  match code with
  | kMalformedIdentifier | kDuplicateConstraintEntry | kDuplicateIdentifier
  | kSelfLoopRejected => PlanStatus.kMalformedRequest
  | kRequestedCandidatesAboveCeiling | kConstraintCountExceeded | kGraphTooLarge
  | kTooManyEdges | kWorkBudgetExhausted => PlanStatus.kResourceLimit
  | kCandidateLimitExceeded => PlanStatus.kMalformedRequest
  | kMaxHopsExceeded => PlanStatus.kConstraintUnsatisfied
  | kUnsupportedLayer | kUnsupportedRequest | kUnsupportedEndpointClass =>
      PlanStatus.kUnsupported
  | _ => PlanStatus.kMalformedRequest
  end.

(** ** What validation accepts *)

(** The identifiers of a constraint vector: within the limit, none nil, none twice. *)
Definition ids_ok {tag} (limit : Z) (l : list (FixedId tag)) : Prop :=
  Z.of_nat (length l) <= limit ∧ Forall (λ x, IsValid x = true) l ∧ NoDup l.

Definition stage_ok (limits : ResourceLimits) (s : TransitStage) : Prop :=
  ts_alternatives s ≠ [] ∧
  (ts_kind s = TransitKind.kExact → length (ts_alternatives s) = 1%nat) ∧
  ids_ok (max_members_in_any_set limits) (ts_alternatives s).

Record constraints_ok (c : ConstraintSet) (limits : ResourceLimits) : Prop := {
  co_id : IsValid (cs_id c) = true;
  co_total : Z.of_nat (EntryCount c) <= max_constraints_total limits;
  co_nodes : ids_ok (max_forbidden_ids limits) (cs_forbidden_nodes c);
  co_links : ids_ok (max_forbidden_ids limits) (cs_forbidden_links c);
  co_ports : ids_ok (max_forbidden_ids limits) (cs_forbidden_ports c);
  co_domains : ids_ok (max_forbidden_ids limits) (cs_forbidden_failure_domains c);
  co_classes : ids_ok (max_forbidden_domain_classes limits)
                 (cs_forbidden_failure_domain_classes c);
  co_transit : Z.of_nat (length (cs_required_transit c)) <= max_required_ids limits;
  co_stages : Forall (stage_ok limits) (cs_required_transit c);
  co_caps : Z.of_nat (length (cs_required_capabilities c)) <= max_capability_requirements limits;
  co_cap_ids : Forall (λ r, IsValid (cr_capability r) = true) (cs_required_capabilities c);
  co_hops : ∀ h, cs_max_hops c = Some h → h <= lim_max_hops limits;
  co_members : cs_max_members_per_failure_domain c ≠ Some 0
}.

Definition policy_ok (p : PlanningPolicy) (limits : ResourceLimits) : Prop :=
  ids_ok (max_forbidden_ids limits) (pp_locality_scope p) ∧
  (cm_locality_penalty (pp_cost_model p) ≠ 0 → pp_locality_scope p ≠ []).

Record request_ok (r : PlanningRequest) (limits : ResourceLimits) : Prop := {
  ro_id : IsValid (rq_id r) = true;
  ro_source : IsValid (er_id (rq_source r)) = true;
  ro_destination : IsValid (er_id (rq_destination r)) = true;
  ro_candidates : rq_max_candidates r ≠ 0;
  ro_ceiling : rq_max_candidates r <= max_candidates_per_request limits;
  ro_constraints : constraints_ok (rq_constraints r) limits;
  ro_policy : policy_ok (rq_policy r) limits;
  ro_topology : rq_expect_topology r = true → rq_expected_topology r ≠ 0;
  ro_snapshot : rq_expect_snapshot r = true → IsValid (rq_expected_snapshot r) = true
}.

Lemma early_Fail (c : bool) code detail (k : option (DiagnosticCode.t * string)) :
  (early Fail code detail when c ;; k) = None ↔ c = false ∧ k = None.
Proof. destruct c; naive_solver. Qed.

Lemma early_None {E} (c : bool) (e : E) (k : option E) :
  (early Some e when c ;; k) = None ↔ c = false ∧ k = None.
Proof. destruct c; naive_solver. Qed.

Lemma onerror_None {E} (o k : option E) :
  (onerror e := o give Some e ;; k) = None ↔ o = None ∧ k = None.
Proof. destruct o; naive_solver. Qed.

Lemma Exceeds_le n l : Exceeds n l = false ↔ Z.of_nat n <= l.
Proof. unfold Exceeds. rewrite Z.gtb_ltb, Z.ltb_ge. done. Qed.

Lemma nil_entry_None {tag} detail (l : list (FixedId tag)) :
  nil_entry detail l = None ↔ Forall (λ x, IsValid x = true) l.
Proof.
  unfold nil_entry. rewrite first_error_None, Forall_forall.
  split; intros Hall x Hx; specialize (Hall x Hx); by destruct (IsValid x).
Qed.

Lemma HasDuplicate_false {A} `{Ordered A} (l : list A) : HasDuplicate l = false ↔ NoDup l.
Proof. apply has_adjacent_sort_ids. Qed.

Lemma length_zero {A} (l : list A) : (length l =? 0)%nat = false ↔ l ≠ [].
Proof. destruct l; simpl; naive_solver. Qed.

Lemma check_stage_None limits s : check_stage limits s = None ↔ stage_ok limits s.
Proof.
  unfold check_stage, stage_ok, ids_ok.
  rewrite !early_Fail, onerror_None, early_Fail, length_zero, Exceeds_le, nil_entry_None,
    HasDuplicate_false, andb_false_iff, negb_false_iff, Nat.eqb_eq.
  destruct (enum_eqb (ts_kind s) TransitKind.kExact) eqn:E.
  - apply enum_eqb_eq in E. naive_solver.
  - assert (ts_kind s ≠ TransitKind.kExact).
    { intros Hk. apply enum_eqb_eq in Hk. congruence. }
    naive_solver.
Qed.

Lemma first_stage_None limits l :
  first_error (check_stage limits) l = None ↔ Forall (stage_ok limits) l.
Proof.
  rewrite first_error_None, Forall_forall. by setoid_rewrite check_stage_None.
Qed.

Lemma ValidateConstraintSet_None c limits :
  ValidateConstraintSet c limits = None ↔ constraints_ok c limits.
Proof.
  unfold ValidateConstraintSet.
  do 3 rewrite ?early_Fail, ?onerror_None.
  rewrite !orb_false_iff, !Exceeds_le, !nil_entry_None, !HasDuplicate_false, negb_false_iff,
    first_stage_None, Forall_map.
  split.
  - intros (Hid & Htot & [[[[Hn Hl] Hp] Hd] Hc] & Ht & Hcap & Vn & Vl & Vp & Vd & Vc &
      [[[[Un Ul] Up] Ud] Uc] & Hs & Vcap & Hh & Hm & _).
    constructor; unfold ids_ok; try done.
    + intros h Heq. rewrite Heq in Hh. bool_to_prop. lia.
    + intros Heq. rewrite Heq in Hm. done.
  - intros [Hid Htot [Hn [Vn Un]] [Hl [Vl Ul]] [Hp [Vp Up]] [Hd [Vd Ud]] [Hc [Vc Uc]] Ht Hs Hcap
      Vcap Hh Hm].
    split_and!; try done.
    + destruct (cs_max_hops c) as [h|]; [|done]. specialize (Hh h eq_refl).
      rewrite Z.gtb_ltb. by apply Z.ltb_ge.
    + destruct (cs_max_members_per_failure_domain c) as [m|]; [|done].
      apply Z.eqb_neq. congruence.
Qed.

Lemma ValidatePolicy_None p limits : ValidatePolicy p limits = None ↔ policy_ok p limits.
Proof.
  unfold ValidatePolicy, policy_ok, ids_ok.
  rewrite early_Fail, onerror_None, !early_Fail, Exceeds_le, nil_entry_None, HasDuplicate_false,
    andb_false_iff, negb_false_iff, Z.eqb_eq, length_zero.
  destruct (decide (cm_locality_penalty (pp_cost_model p) = 0)); naive_solver.
Qed.

Lemma IsKnown_enum {E} `{CppEnum E} (x : E) : IsKnownEnumValue enum_names (enum_value x) = true.
Proof.
  unfold IsKnownEnumValue. apply negb_true_iff, String.eqb_neq.
  destruct enum_ok as (_ & Hval & _ & Hne).
  assert (Hin : enum_value x ∈ map entry_value enum_names).
  { rewrite <- Hval. apply list_elem_of_fmap_2, enum_complete. }
  apply list_elem_of_fmap in Hin as (e & Heq & He). rewrite Heq.
  rewrite Forall_forall in Hne. clear Heq Hval.
  induction enum_names as [|e' l IH]; [by apply elem_of_nil in He|].
  simpl. destruct (entry_value e' =? entry_value e) eqn:Ev; [apply Hne; by left|].
  apply elem_of_cons in He as [->|He]; [by rewrite Z.eqb_refl in Ev|].
  apply IH; [|done]. intros y Hy. apply Hne. by right.
Qed.

Lemma ValidateRequest_None r limits : ValidateRequest r limits = None ↔ request_ok r limits.
Proof.
  unfold ValidateRequest. do 3 rewrite ?early_Fail, ?onerror_None.
  rewrite !negb_false_iff, ValidateConstraintSet_None, ValidatePolicy_None, !andb_false_iff,
    !negb_false_iff, !Z.eqb_neq.
  assert (Henc : first_error check_requirement_encoding
    (cs_required_capabilities (rq_constraints r)) = None).
  { apply first_error_None. intros q _. unfold check_requirement_encoding.
    change CapabilityScope.names with (@enum_names CapabilityScope.t _).
    change CapabilityComparator.names with (@enum_names CapabilityComparator.t _).
    by rewrite !IsKnown_enum. }
  pose proof (IsKnown_enum (cs_layer (rq_constraints r))) as K1.
  pose proof (IsKnown_enum (rq_mode r)) as K2.
  pose proof (IsKnown_enum (pp_authority_validation (rq_policy r))) as K3.
  rewrite Henc, Z.gtb_ltb, Z.ltb_ge. split.
  - intros (? & ? & ? & ? & ? & _ & _ & _ & _ & ? & ? & Ht & Hs & _).
    constructor; try done.
    + intros E. rewrite E in Ht. naive_solver.
    + intros E. rewrite E in Hs. naive_solver.
  - intros []. split_and!; try done.
    + destruct (rq_expect_topology r); naive_solver.
    + destruct (rq_expect_snapshot r); naive_solver.
Qed.

(** The ceilings of request validation. *)
Definition request_ceilings (limits : ResourceLimits) : list Z :=
  [max_candidates_per_request limits; lim_max_hops limits; max_constraints_total limits;
   max_forbidden_ids limits; max_forbidden_domain_classes limits; max_required_ids limits;
   max_members_in_any_set limits; max_capability_requirements limits].

Lemma ValidateRequest_ceilings r limits limits' :
  request_ceilings limits = request_ceilings limits' → ValidateRequest r limits = ValidateRequest r limits'.
Proof.
  intros [= Hc Hh Ht Hf Hd Hr Hm Hq].
  assert (∀ l, first_error (check_stage limits) l = first_error (check_stage limits') l) as Hstages.
  { intros l. unfold check_stage. by rewrite Hm. }
  assert (∀ c, ValidateConstraintSet c limits = ValidateConstraintSet c limits') as Hcons.
  { intros c. unfold ValidateConstraintSet. by rewrite Hh, Ht, Hf, Hd, Hr, Hq, Hstages. }
  assert (∀ p, ValidatePolicy p limits = ValidatePolicy p limits') as Hpol.
  { intros p. unfold ValidatePolicy. by rewrite Hf. }
  unfold ValidateRequest. by rewrite Hc, Hcons, Hpol.
Qed.


(** A request with [k] stages, each any one of two nodes. *)
Definition demo_any_sets (k : nat) : PlanningRequest :=
  let tagged tag b := FromBytes (tag := tag) (replicate (kByteCount tag - 1) 0 ++ [b]) in
  let any := MkStage TransitKind.kAnyOf [tagged NodeIdTag 1; tagged NodeIdTag 2] in
  MkRequest (tagged PlanningRequestIdTag 1)
    (MkEndpointRef (tagged EndpointIdTag 1) EndpointClass.kEndpoint 1)
    (MkEndpointRef (tagged EndpointIdTag 2) EndpointClass.kEndpoint 1)
    (MkConstraints (tagged ConstraintSetIdTag 1) 1 PathLayer.kPhysical [] [] [] [] []
       (replicate k any) [] None None false)
    (MkPolicy 1 default_cost_model false false false false false [] AuthorityValidationMode.kNone)
    1 PlanningMode.kStandard
    (MkAuthority 0 (nil_id PublisherIdTag) (nil_id WorkerBootIdTag) 0 (nil_id MutationAttemptIdTag) false false)
    false 0 false 0 false (nil_id SnapshotIdTag).

