(* ===== verification/View.v ===== *)
(** planning_view.hpp / planning_view.cpp: the rejection log and the planning
    view, the eligible cost-resolved graph of one request as a CSR adjacency.

    Indices are naturals: a view index is below [max_nodes] and an edge index
    below [max_edges], both 32-bit, so the 32-bit casts of the source are exact
    and the sentinel [kInvalidIndex] is no index; it is [None] here. *)

From S2P Require Import Prelude Canonical Status Ids Codec Limits Graph Path Request.
Import DiagnosticCode.

(** ** RejectionLog *)

Record RejectionExplanation := MkRejection {
  rx_code : DiagnosticCode.t; rx_subject : SubjectKey; rx_detail : string; rx_occurrences : Z
}.
Record ExplanationEntry := MkExplanation { xe_code : DiagnosticCode.t; xe_detail : string }.

Definition kRejectionExampleLimit : nat := 4.
Definition kDiagnosticCodeSlots : nat := 96.

Record AggregateEntry := MkAggregate {
  ae_present : bool; ae_count : Z; ae_examples : list SubjectKey; ae_detail : string
}.
Definition empty_aggregate : AggregateEntry := MkAggregate false 0 [] "".

Record RejectionLog := MkLog {
  rl_aggregates : list AggregateEntry; rl_explicit : list RejectionExplanation;
  rl_max_entries : Z
}.

Definition new_RejectionLog (max_entries : Z) : RejectionLog :=
  MkLog (replicate kDiagnosticCodeSlots empty_aggregate) []
    (if max_entries =? 0 then 1 else max_entries).

Definition slot_of (code : DiagnosticCode.t) : nat := Z.to_nat (enum_value code).

Definition Aggregate (code : DiagnosticCode.t) (subject : SubjectKey) (detail : string)
    (log : RejectionLog) : RejectionLog :=
  let slot := slot_of code in
  early log when (length (rl_aggregates log) <=? slot)%nat ;;
  let a := nth slot (rl_aggregates log) empty_aggregate in
  let detail := if ae_present a then ae_detail a else detail in
  let examples :=
    if (length (ae_examples a) <? kRejectionExampleLimit)%nat
    then ae_examples a ++ [subject] else ae_examples a in
  MkLog (<[slot := MkAggregate true (wrap64 (ae_count a + 1)) examples detail]> (rl_aggregates log))
    (rl_explicit log) (rl_max_entries log).

Definition Explicit (code : DiagnosticCode.t) (subject : SubjectKey) (detail : string)
    (log : RejectionLog) : RejectionLog :=
  early log when (Z.of_nat (length (rl_explicit log)) >=? rl_max_entries log) ;;
  MkLog (rl_aggregates log) (rl_explicit log ++ [MkRejection code subject detail 1])
    (rl_max_entries log).

Definition Contains (log : RejectionLog) (code : DiagnosticCode.t) : bool :=
  let slot := slot_of code in
  early true
    when ((slot <? length (rl_aggregates log))%nat &&
          ae_present (nth slot (rl_aggregates log) empty_aggregate)) ;;
  existsb (λ e, enum_eqb (rx_code e) code) (rl_explicit log).

Definition CountOf (log : RejectionLog) (code : DiagnosticCode.t) : Z :=
  let slot := slot_of code in
  let total :=
    if (slot <? length (rl_aggregates log))%nat
    then ae_count (nth slot (rl_aggregates log) empty_aggregate) else 0 in
  fold_left (λ total e, if enum_eqb (rx_code e) code then wrap64 (total + rx_occurrences e) else total)
    (rl_explicit log) total.

Definition EmptyLog (log : RejectionLog) : bool :=
  early false when negb (length (rl_explicit log) =? 0)%nat ;;
  forallb (λ a, negb (ae_present a)) (rl_aggregates log).

Definition SubjectToString (k : SubjectKey) : string :=
  EnumName (sk_kind k) +:+ ":" +:+ HexEncode (sk_bytes k).

(** The rendering of one present aggregate; a slot without an enumerator has no
    entries, and [static_cast] of the others is their code. *)
Definition render_aggregate (slot : nat) (a : AggregateEntry) : list RejectionExplanation :=
  early [] when negb (ae_present a) ;;
  match enum_of_value (Z.of_nat slot) with
  | None => []
  | Some code =>
      match ae_examples a with
      | [] => [MkRejection code (MkSubject SubjectKind.kNode (replicate 16 0)) (ae_detail a)
                 (ae_count a)]
      | example :: _ =>
          let detail := fold_left (λ d e, d +:+ " " +:+ SubjectToString e) (ae_examples a)
                          (ae_detail a +:+ " (examples:") +:+ ")" in
          [MkRejection code example detail (ae_count a)]
      end
  end.

Definition RenderLog (log : RejectionLog) : list RejectionExplanation :=
  flat_map (λ slot, render_aggregate slot (nth slot (rl_aggregates log) empty_aggregate))
    (seq 1 (length (rl_aggregates log) - 1)) ++ rl_explicit log.

(** ** PlanningView *)

Record Adjacency := MkAdjacency {
  a_to : nat; a_edge : nat; a_traversal_cost : Z; a_degraded : bool; a_outside_locality : bool
}.

(** The fields a request and a snapshot fix before any element is looked at. *)
Record ViewConfig := MkConfig {
  v_snapshot : FabricSnapshot; v_limits : ResourceLimits; v_layer : PathLayer.t;
  v_cost_model : CostModel; v_diagnostic_mode : bool; v_require_operational_proof : bool;
  v_allow_degraded_links : bool; v_allow_draining_ports : bool;
  v_allow_maintenance_ports : bool; v_locality_scope : list NodeId;
  v_forbidden_failure_domains : list FailureDomainId;
  v_forbidden_failure_domain_classes : list FailureDomainClass;
  v_fail_closed_on_unknown_domains : bool; v_provisional : bool
}.

Record PlanningView := MkView {
  v_config :> ViewConfig;
  v_offsets : list nat; v_adjacency : list Adjacency;
  v_view_to_snapshot_node : list nat; v_snapshot_to_view_node : list (option nat);
  v_rejections : RejectionLog; v_eligible_edges : Z
}.

Definition NodeCount (v : PlanningView) : nat := length (v_view_to_snapshot_node v).

Definition null_node : NodeRecord := MkNode (nil_id _) (nil_id _) 0 0 [].
Definition null_edge : EdgeRecord :=
  MkEdge (nil_id _) (nil_id _) (nil_id _) (nil_id _) (nil_id _)
    PathLayer.kPhysical RelationshipType.kDirectLink 0 0 0.
Definition null_adjacency : Adjacency := MkAdjacency 0 0 0 false false.

(** Indexing is unchecked in the source: the theorems show the indices of a
    built view are in range, so the default is never read. *)
Definition NodeAt (v : PlanningView) (view_index : nat) : NodeRecord :=
  nth (nth view_index (v_view_to_snapshot_node v) 0%nat) (s_nodes (v_snapshot v)) null_node.
Definition EdgeAt (v : ViewConfig) (snapshot_edge_index : nat) : EdgeRecord :=
  nth snapshot_edge_index (s_edges (v_snapshot v)) null_edge.
Definition AdjacencyAt (v : PlanningView) (i : nat) : Adjacency :=
  nth i (v_adjacency v) null_adjacency.

Definition offset (v : PlanningView) (u : nat) : nat := nth u (v_offsets v) 0%nat.
(** The adjacency indices of a row, in the order the source visits them. *)
Definition row (v : PlanningView) (u : nat) : list nat :=
  seq (offset v u) (offset v (u + 1) - offset v u).

Definition ViewIndex (v : PlanningView) (x : NodeId) : option nat :=
  index ← find_index n_id (s_nodes (v_snapshot v)) x;
  mjoin (v_snapshot_to_view_node v !! index).

(** [None] when satisfied, otherwise the [failure] out-parameter. *)
Definition CapabilitySatisfied (v : ViewConfig) (subject : SubjectKey)
    (r : CapabilityRequirement) : option DiagnosticCode.t :=
  match LookupCapability (s_capabilities (v_snapshot v)) subject (cr_capability r) with
  | None => Some kCapabilityUnknown
  | Some observed => early Some kCapabilityInsufficient when negb (SatisfiedBy r observed) ;; None
  end.

Definition check_domain (v : ViewConfig) (domain : FailureDomainId) : option DiagnosticCode.t :=
  early Some kFailureDomainForbidden
    when binary_search (v_forbidden_failure_domains v) domain ;;
  early None when (length (v_forbidden_failure_domain_classes v) =? 0)%nat ;;
  match FindDomain (s_failure_domains (v_snapshot v)) domain with
  | None => None
  | Some record =>
      early Some kFailureDomainClassForbidden
        when binary_search (v_forbidden_failure_domain_classes v) (fd_risk_class record) ;;
      None
  end.

Definition FailureDomainCompliant (v : ViewConfig) (subject : SubjectKey) (fail_closed : bool) :
  option DiagnosticCode.t :=
  let has_domain_constraints :=
    negb (length (v_forbidden_failure_domains v) =? 0)%nat ||
    negb (length (v_forbidden_failure_domain_classes v) =? 0)%nat in
  let membership := MembershipOf (s_failure_domains (v_snapshot v)) subject in
  if negb (mb_known membership)
  then early Some kFailureDomainUnknown when (fail_closed && has_domain_constraints) ;; None
  else first_error (check_domain v) (mb_domains membership).

Record NodeVerdict := MkVerdict {
  nv_excluded : bool; nv_code : DiagnosticCode.t; nv_detail : string
}.

(** [None] when the requirement does not concern every node or is satisfied. *)
Definition check_node_capability (v : ViewConfig) (subject : SubjectKey)
    (r : CapabilityRequirement) : option (DiagnosticCode.t * string) :=
  early None when negb (enum_eqb (cr_scope r) CapabilityScope.kEveryNode) ;;
  code ← CapabilitySatisfied v subject r;
  Some (code, "node capability requirement not satisfied for "%string +:+
              IdToString (cr_capability r)).

Definition EvaluateNode (v : ViewConfig) (request : PlanningRequest)
    (forbidden_nodes : list NodeId) (node : NodeRecord) : NodeVerdict :=
  let subject := ForNode (n_id node) in
  let constraints := rq_constraints request in
  early MkVerdict true kForbiddenNode "node is forbidden by the constraint set"
    when binary_search forbidden_nodes (n_id node) ;;
  match first_error (check_node_capability v subject) (cs_required_capabilities constraints) with
  | Some (code, detail) => MkVerdict true code detail
  | None =>
      match FailureDomainCompliant v subject (cs_fail_closed_on_unknown_domains constraints) with
      | Some code => MkVerdict true code "node failure-domain constraint violated"
      | None => MkVerdict false kForbiddenNode ""
      end
  end.

(** ** View construction *)

(** What one iteration of the edge loop does: nothing, one log entry, or a
    pending adjacency with its source index. *)
Inductive EdgeOutcome :=
  | Skip
  | RejectAggregate (code : DiagnosticCode.t) (subject : SubjectKey) (detail : string)
  | RejectExplicit (code : DiagnosticCode.t) (subject : SubjectKey) (detail : string)
  | Accept (from : nat) (entry : Adjacency).

Definition LinkVerdict : Type := (DiagnosticCode.t * string) + bool.

(** The switch on the link state: a rejection, or whether the hop is degraded. *)
Definition check_link_state (v : ViewConfig) (state : LinkState.t) : LinkVerdict :=
  match state with
  | LinkState.kUp => inr false
  | LinkState.kDegraded =>
      if v_allow_degraded_links v then inr true
      else inl (kLinkStateDegradedDisallowed, "DEGRADED link excluded by planning policy"%string)
  | LinkState.kDown => inl (kLinkStateDown, "link is DOWN"%string)
  | LinkState.kFaulted => inl (kLinkStateFaulted, "link is FAULTED"%string)
  | LinkState.kRetired => inl (kLinkStateRetired, "link is RETIRED"%string)
  | LinkState.kRevalidationRequired =>
      if negb (v_diagnostic_mode v)
      then inl (kLinkStateRevalidationRequired, "link requires revalidation"%string)
      else inr false
  | LinkState.kUnknown =>
      if v_require_operational_proof v
      then inl (kLinkStateUnknown, "link operational state is UNKNOWN and proof is required"%string)
      else inr false
  end.

(** The switch on a port state. *)
Definition check_port_state (v : ViewConfig) (state : PortState.t) :
  option (DiagnosticCode.t * string) :=
  match state with
  | PortState.kUp => None
  | PortState.kAdminDisabled => Some (kPortAdminDisabled, "port is ADMIN_DISABLED"%string)
  | PortState.kRetired => Some (kPortRetired, "port is RETIRED"%string)
  | PortState.kSuperseded => Some (kPortSuperseded, "port is SUPERSEDED"%string)
  | PortState.kDraining =>
      if negb (v_allow_draining_ports v) && negb (v_diagnostic_mode v)
      then Some (kPortDraining, "port is DRAINING"%string) else None
  | PortState.kMaintenance =>
      if negb (v_allow_maintenance_ports v) && negb (v_diagnostic_mode v)
      then Some (kPortMaintenance, "port is in MAINTENANCE"%string) else None
  | PortState.kRevalidationRequired =>
      if negb (v_diagnostic_mode v)
      then Some (kPortRevalidationRequired, "port requires revalidation"%string) else None
  | PortState.kUnknown =>
      if v_require_operational_proof v
      then Some (kPortUnknown, "port state is UNKNOWN and proof is required"%string) else None
  end.

Definition check_port (v : ViewConfig) (port : PortId) :
  option (DiagnosticCode.t * SubjectKey * string) :=
  '(code, detail) ← check_port_state v (PortStateOf (s_port_states (v_snapshot v)) port);
  Some (code, ForPort port, detail).

(** One requirement against the edge; other scopes do not concern edges. *)
Definition check_edge_capability (v : ViewConfig) (edge : EdgeRecord)
    (r : CapabilityRequirement) : option (DiagnosticCode.t * string) :=
  match cr_scope r with
  | CapabilityScope.kEveryLink =>
      code ← CapabilitySatisfied v (ForLink (e_id edge)) r;
      Some (code, "link capability requirement not satisfied"%string)
  | CapabilityScope.kEveryPort =>
      let failure :=
        match CapabilitySatisfied v (ForPort (e_from_port edge)) r with
        | Some code => Some code
        | None => CapabilitySatisfied v (ForPort (e_to_port edge)) r
        end in
      code ← failure; Some (code, "port capability requirement not satisfied"%string)
  | _ => None
  end.

(** The traversal cost and the locality flag; [None] on overflow. *)
Definition edge_cost (v : ViewConfig) (edge : EdgeRecord) (degraded : bool) :
  option (Z * bool) :=
  traversal ← (if degraded
               then CheckedAdd (e_static_cost edge) (cm_degraded_penalty (v_cost_model v))
               else Some (e_static_cost edge));
  early Some (traversal, false) when (length (v_locality_scope v) =? 0)%nat ;;
  let outside := negb (binary_search (v_locality_scope v) (e_to edge)) in
  early Some (traversal, false) when negb outside ;;
  traversal ← CheckedAdd traversal (cm_locality_penalty (v_cost_model v));
  Some (traversal, true).

Definition evaluate_edge (v : ViewConfig) (snapshot_to_view : list (option nat))
    (request : PlanningRequest) (forbidden_links : list LinkId) (forbidden_ports : list PortId)
    (edge_index : nat) (edge : EdgeRecord) : EdgeOutcome :=
  let s := v_snapshot v in
  let constraints := rq_constraints request in
  match find_index n_id (s_nodes s) (e_from edge), find_index n_id (s_nodes s) (e_to edge) with
  | Some from_snapshot, Some to_snapshot =>
      let from_index := mjoin (snapshot_to_view !! from_snapshot) in
      let to_index := mjoin (snapshot_to_view !! to_snapshot) in
      let link_subject := ForLink (e_id edge) in
      early RejectAggregate kLayerMismatch link_subject
              "link layer does not match the requested planning layer"
        when negb (enum_eqb (e_layer edge) (cs_layer constraints)) ;;
      early RejectExplicit kForbiddenLink link_subject "link is forbidden by the constraint set"
        when binary_search forbidden_links (e_id edge) ;;
      early RejectExplicit kForbiddenPort link_subject
              "link port is forbidden by the constraint set"
        when (binary_search forbidden_ports (e_from_port edge) ||
              binary_search forbidden_ports (e_to_port edge)) ;;
      match from_index, to_index with
      | Some from_index, Some to_index =>
          match check_link_state v (LinkStateOf (s_link_states s) (e_id edge)) with
          | inl (code, detail) => RejectAggregate code link_subject detail
          | inr degraded =>
              match first_error (check_port v) [e_from_port edge; e_to_port edge] with
              | Some (code, subject, detail) => RejectAggregate code subject detail
              | None =>
                  match first_error (check_edge_capability v edge)
                          (cs_required_capabilities constraints) with
                  | Some (code, detail) => RejectAggregate code link_subject detail
                  | None =>
                      match first_error
                              (λ subject, FailureDomainCompliant v subject
                                            (cs_fail_closed_on_unknown_domains constraints))
                              [link_subject; ForPort (e_from_port edge);
                               ForPort (e_to_port edge)] with
                      | Some code =>
                          RejectAggregate code link_subject "failure-domain constraint violated"
                      | None =>
                          match edge_cost v edge degraded with
                          | None =>
                              RejectAggregate kCostOverflow link_subject
                                "edge cost accumulation overflow"
                          | Some (traversal, outside) =>
                              Accept from_index
                                (MkAdjacency to_index edge_index traversal degraded outside)
                          end
                      end
                  end
              end
          end
      | _, _ => Skip
      end
  | _, _ => Skip
  end.

(** The state of the edge loop: the log, the pending entries and the counter. *)
Definition edge_step (evaluate : nat → EdgeRecord → EdgeOutcome)
    (st : RejectionLog * list (nat * Adjacency) * Z) (ie : nat * EdgeRecord) :
  RejectionLog * list (nat * Adjacency) * Z :=
  let '(log, pending, eligible) := st in
  match evaluate ie.1 ie.2 with
  | Skip => st
  | RejectAggregate code subject detail => (Aggregate code subject detail log, pending, eligible)
  | RejectExplicit code subject detail => (Explicit code subject detail log, pending, eligible)
  | Accept from entry => (log, pending ++ [(from, entry)], wrap64 (eligible + 1))
  end.

(** [for (index = 0; index < v.size(); ++index)]. *)
Definition indexed {A} (l : list A) : list (nat * A) := imap pair l.

(** One iteration of the node loop. *)
Definition node_step (evaluate : NodeRecord → NodeVerdict)
    (st : list nat * list (option nat) * RejectionLog) (i_node : nat * NodeRecord) :
  list nat * list (option nat) * RejectionLog :=
  let '(view_to_snapshot, snapshot_to_view, log) := st in
  let '(index, node) := i_node in
  let verdict := evaluate node in
  if nv_excluded verdict
  then (view_to_snapshot, snapshot_to_view,
        Explicit (nv_code verdict) (ForNode (n_id node)) (nv_detail verdict) log)
  else (view_to_snapshot ++ [index], <[index := Some (length view_to_snapshot)]> snapshot_to_view,
        log).

(** The sort key of a pending adjacency. *)
Definition pending_key (v : PlanningView) (p : nat * Adjacency) : Z * (NodeId * LinkId) :=
  (Z.of_nat p.1, (n_id (NodeAt v (a_to p.2)), e_id (EdgeAt v (a_edge p.2)))).

(** The counting pass and the prefix sums over [offsets]. *)
Definition count_offsets (n : nat) (pending : list (nat * Adjacency)) : list nat :=
  fold_left (λ offsets p, alter S (p.1 + 1)%nat offsets) pending (replicate (n + 1) 0%nat).
Definition prefix_step (offsets : list nat) (i : nat) : list nat :=
  <[(i + 1)%nat := (nth (i + 1) offsets 0 + nth i offsets 0)%nat]> offsets.
Definition build_offsets (n : nat) (pending : list (nat * Adjacency)) : list nat :=
  fold_left prefix_step (seq 0 n) (count_offsets n pending).

Definition view_config (s : FabricSnapshot) (request : PlanningRequest) (limits : ResourceLimits) :
  ViewConfig :=
  let policy := rq_policy request in
  let constraints := rq_constraints request in
  let diagnostic := enum_eqb (rq_mode request) PlanningMode.kDiagnosticNonCurrent in
  MkConfig s limits (cs_layer constraints) (pp_cost_model policy) diagnostic
    (pp_require_operational_proof policy && negb diagnostic)
    (pp_allow_degraded_links policy) (pp_allow_draining_ports policy)
    (pp_allow_maintenance_ports policy) (sort_ids (pp_locality_scope policy))
    (sort_ids (cs_forbidden_failure_domains constraints))
    (sort_ids (cs_forbidden_failure_domain_classes constraints))
    (cs_fail_closed_on_unknown_domains constraints)
    (diagnostic || negb (pp_require_operational_proof policy)).

Record PlanningViewBuild := MkViewBuild {
  vb_view : PlanningView; vb_fatal : option DiagnosticCode.t; vb_detail : string;
  vb_explanations : list ExplanationEntry;
  (* the out parameters *)
  vb_source : option nat; vb_destination : option nat
}.

(** The requirements on the source or the destination node itself. *)
Definition check_endpoint_capability (v : ViewConfig) (source destination : NodeId)
    (r : CapabilityRequirement) : option (DiagnosticCode.t * string) :=
  let scope := cr_scope r in
  early None when (negb (enum_eqb scope CapabilityScope.kSourceNode) &&
                   negb (enum_eqb scope CapabilityScope.kDestinationNode)) ;;
  let is_source := enum_eqb scope CapabilityScope.kSourceNode in
  let target := if is_source then source else destination in
  code ← CapabilitySatisfied v (ForNode target) r;
  Some (code, (if is_source then "source" else "destination")%string +:+
              " node capability requirement not satisfied for " +:+ IdToString (cr_capability r)).

Definition view_nodes (v : ViewConfig) (request : PlanningRequest) :
  list nat * list (option nat) * RejectionLog :=
  let nodes := s_nodes (v_snapshot v) in
  let forbidden_nodes := sort_ids (cs_forbidden_nodes (rq_constraints request)) in
  fold_left (node_step (EvaluateNode v request forbidden_nodes)) (indexed nodes)
    ([], replicate (length nodes) None,
     new_RejectionLog (max_explanation_entries (v_limits v))).

Definition view_edges (v : ViewConfig) (request : PlanningRequest)
    (snapshot_to_view : list (option nat)) (log : RejectionLog) :
  RejectionLog * list (nat * Adjacency) * Z :=
  let forbidden_links := sort_ids (cs_forbidden_links (rq_constraints request)) in
  let forbidden_ports := sort_ids (cs_forbidden_ports (rq_constraints request)) in
  fold_left
    (edge_step (evaluate_edge v snapshot_to_view request forbidden_links forbidden_ports))
    (indexed (s_edges (v_snapshot v))) (log, [], 0).

Definition BuildPlanningView (s : FabricSnapshot) (request : PlanningRequest)
    (limits : ResourceLimits) (source_node destination_node : NodeId) : PlanningViewBuild :=
  let config := view_config s request limits in
  let forbidden_nodes := sort_ids (cs_forbidden_nodes (rq_constraints request)) in
  let '(view_to_snapshot, snapshot_to_view, log) := view_nodes config request in
  let view := MkView config [] [] view_to_snapshot snapshot_to_view log 0 in
  early MkViewBuild view (Some kGraphTooLarge)
          "eligible node count exceeds the configured limit" [] None None
    when Exceeds (length view_to_snapshot) (max_nodes limits) ;;
  let source_view := ViewIndex view source_node in
  let destination_view := ViewIndex view destination_node in
  match source_view, destination_view with
  | Some _, Some _ =>
      match first_error (check_endpoint_capability config source_node destination_node)
              (cs_required_capabilities (rq_constraints request)) with
      | Some (code, detail) =>
          MkViewBuild view (Some code) detail [] source_view destination_view
      | None =>
          let '(log, pending, eligible) := view_edges config request snapshot_to_view log in
          let pending := sort_by (pending_key view) pending in
          let offsets := build_offsets (length view_to_snapshot) pending in
          MkViewBuild
            (MkView config offsets (map snd pending) view_to_snapshot snapshot_to_view log eligible)
            None "" [] source_view destination_view
      end
  | _, _ =>
      let source_excluded := match source_view with None => true | Some _ => false end in
      let target := if source_excluded then source_node else destination_node in
      let code :=
        match FindNode s target with
        | Some node => nv_code (EvaluateNode config request forbidden_nodes node)
        | None => kForbiddenNode
        end in
      let who := if source_excluded then "source"%string else "destination"%string in
      MkViewBuild view (Some code) (who +:+ " node is excluded by a hard constraint")
        [MkExplanation code (who +:+ " node " +:+ SubjectToString (ForNode target) +:+
                             " is not eligible")]
        source_view destination_view
  end.
