(* ===== verification/ViewFacts.v ===== *)
(** What [BuildPlanningView] guarantees: the [ViewWf] interface the searches are
    proved against (index maps, CSR shape, canonical order inside each row, exact
    traversal costs), and the eligibility of every adjacency. *)

From S2P Require Import Prelude Canonical Status Ids Codec Limits Graph Builder Path Request View.
Import DiagnosticCode.

(** ** The interface *)

(** The canonical key of an adjacency: its head, then its link. *)
Definition adjacency_key (v : PlanningView) (i : nat) : NodeId * LinkId :=
  (n_id (NodeAt v (a_to (AdjacencyAt v i))), e_id (EdgeAt v (a_edge (AdjacencyAt v i)))).

Record ViewWf (v : PlanningView) : Prop := {
  vw_node : ∀ u, (u < NodeCount v)%nat → NodeAt v u ∈ s_nodes (v_snapshot v);
  vw_order : ∀ u w, (u < w < NodeCount v)%nat →
    ltb (n_id (NodeAt v u)) (n_id (NodeAt v w)) = true;
  vw_index : ∀ x u, ViewIndex v x = Some u → (u < NodeCount v)%nat ∧ n_id (NodeAt v u) = x;
  vw_offset_mono : ∀ u, (u < NodeCount v)%nat → (offset v u <= offset v (u + 1))%nat;
  vw_offset_end : ∀ u, (u <= NodeCount v)%nat → (offset v u <= length (v_adjacency v))%nat;
  vw_rows : ∀ i, (i < length (v_adjacency v))%nat → ∃ u, (u < NodeCount v)%nat ∧ i ∈ row v u;
  vw_to : ∀ i, (i < length (v_adjacency v))%nat → (a_to (AdjacencyAt v i) < NodeCount v)%nat;
  vw_edge : ∀ u i, (u < NodeCount v)%nat → i ∈ row v u →
    EdgeAt v (a_edge (AdjacencyAt v i)) ∈ s_edges (v_snapshot v) ∧
    e_from (EdgeAt v (a_edge (AdjacencyAt v i))) = n_id (NodeAt v u) ∧
    e_to (EdgeAt v (a_edge (AdjacencyAt v i))) = n_id (NodeAt v (a_to (AdjacencyAt v i)));
  vw_layer : ∀ i, (i < length (v_adjacency v))%nat →
    e_layer (EdgeAt v (a_edge (AdjacencyAt v i))) = v_layer v;
  vw_sorted : ∀ u, (u < NodeCount v)%nat → strictly_sorted (adjacency_key v) (row v u);
  vw_cost : ∀ i, (i < length (v_adjacency v))%nat →
    0 <= a_traversal_cost (AdjacencyAt v i) <= u64_max ∧
    a_traversal_cost (AdjacencyAt v i) =
      e_static_cost (EdgeAt v (a_edge (AdjacencyAt v i))) +
      cm_degraded_penalty (v_cost_model v) * ind (a_degraded (AdjacencyAt v i)) +
      cm_locality_penalty (v_cost_model v) * ind (a_outside_locality (AdjacencyAt v i))
}.

(** ** The node loop *)

Lemma indexed_app {A} (l : list A) x : indexed (l ++ [x]) = indexed l ++ [(length l, x)].
Proof. unfold indexed. rewrite imap_app. simpl. by rewrite Nat.add_0_r. Qed.

Lemma elem_of_indexed {A} (l : list A) i x : (i, x) ∈ indexed l ↔ l !! i = Some x.
Proof.
  unfold indexed. rewrite elem_of_lookup_imap. split.
  - intros (j & y & [= -> ->] & Hj). done.
  - intros Hi. by exists i, x.
Qed.

(** After the nodes [l]: both maps are inverse and list the accepted nodes in
    increasing order. *)
Record NodesInv (accept : NodeRecord → bool) (N : nat) (l : list NodeRecord)
    (vts : list nat) (stv : list (option nat)) : Prop := {
  ni_length : length stv = N;
  ni_sorted : StronglySorted lt vts;
  ni_accept : ∀ i, i ∈ vts ↔ ∃ n, l !! i = Some n ∧ accept n = true;
  ni_inverse : ∀ i u, mjoin (stv !! i) = Some u ↔ vts !! u = Some i
}.

Lemma StronglySorted_snoc {A} (R : A → A → Prop) l x :
  StronglySorted R l → Forall (λ y, R y x) l → StronglySorted R (l ++ [x]).
Proof.
  induction 1 as [|y l Hs IH Hall]; simpl; intros Hx; [repeat constructor|].
  apply Forall_cons in Hx as [Hyx Hx]. constructor; [by apply IH|].
  apply Forall_app. split; [done|]. by apply Forall_singleton.
Qed.

Lemma node_loop evaluate N log0 l :
  (length l <= N)%nat →
  let st := fold_left (node_step evaluate) (indexed l) ([], replicate N None, log0) in
  NodesInv (λ n, negb (nv_excluded (evaluate n))) N l st.1.1 st.1.2.
Proof.
  induction l as [|x l IH] using rev_ind; intros Hlen.
  - simpl. constructor.
    + apply length_replicate.
    + constructor.
    + intros i. rewrite elem_of_nil. setoid_rewrite lookup_nil. naive_solver.
    + intros i u. rewrite lookup_nil. destruct (replicate N None !! i) as [o|] eqn:E; [|done].
      apply lookup_replicate in E as [-> _]. done.
  - rewrite length_app in Hlen. simpl in Hlen. specialize (IH ltac:(lia)).
    rewrite indexed_app, fold_left_app. simpl.
    destruct (fold_left _ (indexed l) _) as [[vts stv] log]. destruct IH as [Hl Hs Hacc Hinv].
    simpl in *. assert (Hlt : ∀ i, i ∈ vts → (i < length l)%nat).
    { intros i (n & Hi & _)%Hacc. by eapply lookup_lt_Some. }
    destruct (nv_excluded (evaluate x)) eqn:Ex; simpl; constructor; try done.
    + intros i. rewrite Hacc. split.
      * intros (n & Hi & Hn). exists n. split; [|done]. by apply lookup_app_l_Some.
      * intros (n & [Hi|[Hge Hi]]%lookup_app_Some & Hn); [eauto|].
        apply list_lookup_singleton_Some in Hi as [_ ->]. by rewrite Ex in Hn.
    + by rewrite length_insert.
    + apply StronglySorted_snoc; [done|]. rewrite Forall_forall. apply Hlt.
    + intros i. rewrite elem_of_app, list_elem_of_singleton, Hacc. split.
      * intros [(n & Hi & Hn)| ->].
        -- exists n. split; [by apply lookup_app_l_Some|done].
        -- exists x. rewrite Ex. split; [|done]. by apply list_lookup_middle.
      * intros (n & [Hi|[Hge Hi]]%lookup_app_Some & Hn); [eauto|].
        apply list_lookup_singleton_Some in Hi as [Hi _]. right. lia.
    + intros i u. destruct (decide (i = length l)) as [->|Hne].
      * rewrite list_lookup_insert_eq by lia. simpl. split.
        -- intros [= <-]. by apply list_lookup_middle.
        -- intros [Hu|[Hge Hu]]%lookup_app_Some.
           ++ apply list_elem_of_lookup_2, Hlt in Hu. lia.
           ++ apply list_lookup_singleton_Some in Hu as [Hu _]. f_equal. lia.
      * rewrite list_lookup_insert_ne by done. rewrite Hinv. split.
        -- intros Hu. by apply lookup_app_l_Some.
        -- intros [Hu|[Hge Hu]]%lookup_app_Some; [done|].
           apply list_lookup_singleton_Some in Hu as [_ Hu]. congruence.
Qed.

(** ** The edge loop *)

Definition accepted (o : EdgeOutcome) : option (nat * Adjacency) :=
  match o with Accept from entry => Some (from, entry) | _ => None end.

Lemma edge_loop evaluate l log pending eligible :
  (fold_left (edge_step evaluate) l (log, pending, eligible)).1.2 =
    pending ++ omap (λ ie, accepted (evaluate ie.1 ie.2)) l.
Proof.
  revert log pending eligible. induction l as [|[i e] l IH]; intros log pending eligible.
  { simpl. by rewrite app_nil_r. }
  simpl. destruct (evaluate i e); simpl; rewrite IH; try done. by rewrite <- app_assoc.
Qed.

(** The declarative reading of the hard constraints of a request. *)
Definition link_admissible (v : ViewConfig) (e : EdgeRecord) (degraded : bool) : Prop :=
  let state := LinkStateOf (s_link_states (v_snapshot v)) (e_id e) in
  (state = LinkState.kUp ∧ degraded = false) ∨
  (state = LinkState.kDegraded ∧ v_allow_degraded_links v = true ∧ degraded = true) ∨
  (state = LinkState.kRevalidationRequired ∧ v_diagnostic_mode v = true ∧ degraded = false) ∨
  (state = LinkState.kUnknown ∧ v_require_operational_proof v = false ∧ degraded = false).

Definition port_admissible (v : ViewConfig) (p : PortId) : Prop :=
  let state := PortStateOf (s_port_states (v_snapshot v)) p in
  state = PortState.kUp ∨
  (state = PortState.kDraining ∧ (v_allow_draining_ports v = true ∨ v_diagnostic_mode v = true)) ∨
  (state = PortState.kMaintenance ∧
   (v_allow_maintenance_ports v = true ∨ v_diagnostic_mode v = true)) ∨
  (state = PortState.kRevalidationRequired ∧ v_diagnostic_mode v = true) ∨
  (state = PortState.kUnknown ∧ v_require_operational_proof v = false).

(** A requirement holds of a subject: the registry publishes a value for it and
    the value satisfies the comparison; UNKNOWN satisfies nothing. *)
Definition proves (v : ViewConfig) (subject : SubjectKey) (r : CapabilityRequirement) : Prop :=
  ∃ value, LookupCapability (s_capabilities (v_snapshot v)) subject (cr_capability r) = Some value ∧
    SatisfiedBy r value = true.

Definition domain_compliant (v : ViewConfig) (fail_closed : bool) (subject : SubjectKey) : Prop :=
  FailureDomainCompliant v subject fail_closed = None.

Lemma CapabilitySatisfied_None v subject r :
  CapabilitySatisfied v subject r = None ↔ proves v subject r.
Proof.
  unfold CapabilitySatisfied, proves. destruct (LookupCapability _ _ _) as [x|].
  - destruct (SatisfiedBy r x) eqn:E; simpl; [split; [by eauto|done]|].
    split; [done|]. intros (y & [= <-] & Hy). congruence.
  - split; [done|]. by intros (y & [=] & _).
Qed.

Lemma check_link_state_inr v e degraded :
  check_link_state v (LinkStateOf (s_link_states (v_snapshot v)) (e_id e)) = inr degraded ↔
  link_admissible v e degraded.
Proof.
  unfold link_admissible, check_link_state. cbv zeta.
  destruct (LinkStateOf _ _), (v_allow_degraded_links v), (v_diagnostic_mode v),
    (v_require_operational_proof v), degraded; simpl; intuition congruence.
Qed.

Lemma check_port_None v p : check_port v p = None ↔ port_admissible v p.
Proof.
  unfold check_port, port_admissible, check_port_state. cbv zeta.
  destruct (PortStateOf _ p); destruct (v_allow_draining_ports v), (v_diagnostic_mode v),
    (v_allow_maintenance_ports v), (v_require_operational_proof v); simpl; naive_solver.
Qed.

(** Every requirement that concerns the edge is proven for it. *)
Definition edge_capable (v : ViewConfig) (e : EdgeRecord) (r : CapabilityRequirement) : Prop :=
  match cr_scope r with
  | CapabilityScope.kEveryLink => proves v (ForLink (e_id e)) r
  | CapabilityScope.kEveryPort =>
      proves v (ForPort (e_from_port e)) r ∧ proves v (ForPort (e_to_port e)) r
  | _ => True
  end.

Lemma check_edge_capability_None v e r : check_edge_capability v e r = None ↔ edge_capable v e r.
Proof.
  unfold check_edge_capability, edge_capable. destruct (cr_scope r); try naive_solver.
  - rewrite <- CapabilitySatisfied_None. destruct (CapabilitySatisfied _ _ _); simpl; naive_solver.
  - rewrite <- !CapabilitySatisfied_None.
    destruct (CapabilitySatisfied v (ForPort (e_from_port e)) r); simpl; [naive_solver|].
    destruct (CapabilitySatisfied _ _ _); simpl; naive_solver.
Qed.

(** The cost charged for entering the edge. *)
Definition charge (v : ViewConfig) (e : EdgeRecord) (degraded outside : bool) : Z :=
  e_static_cost e + cm_degraded_penalty (v_cost_model v) * ind degraded +
  cm_locality_penalty (v_cost_model v) * ind outside.
Definition outside_scope (v : ViewConfig) (e : EdgeRecord) : bool :=
  negb (length (v_locality_scope v) =? 0)%nat && negb (binary_search (v_locality_scope v) (e_to e)).

(** The two readings of one branch of [edge_cost]. *)
Ltac cost_case :=
  split;
  [ intros H; first [discriminate H | injection H as <- <-;
    cbn [ind]; split_and!; [done|lia|unfold u64_max in *; lia]]
  | intros (-> & -> & ?); cbn [ind] in *;
    first [exfalso; lia | apply (f_equal Some), (f_equal2 pair); [lia|done]] ].

Lemma edge_cost_Some v e degraded x outside :
  model_typed (v_cost_model v) → u32_fits (e_static_cost e) →
  edge_cost v e degraded = Some (x, outside) ↔
  outside = outside_scope v e ∧ x = charge v e degraded outside ∧ x <= u64_max.
Proof.
  unfold edge_cost, outside_scope, charge, model_typed, u64_fits, u32_fits, u32_max.
  intros (_ & Hd & Hl) Hs.
  assert (Hadd : ∀ p, 0 <= p <= u64_max → CheckedAdd (e_static_cost e) p =
    if e_static_cost e + p <=? u64_max then Some (e_static_cost e + p) else None).
  { intros p Hp. apply CheckedAdd_spec; unfold u64_max in *; lia. }
  set (none := (length (v_locality_scope v) =? 0)%nat).
  set (in_scope := binary_search (v_locality_scope v) (e_to e)).
  destruct none, in_scope, degraded; cbn [negb andb mbind option_bind];
    rewrite ?Hadd by done; try cost_case;
    destruct (_ <=? u64_max) eqn:E1; bool_to_prop; cbn [mbind option_bind]; try cost_case;
    rewrite CheckedAdd_spec by (unfold u64_max in *; lia);
    destruct (_ <=? u64_max) eqn:E2; bool_to_prop; cbn [mbind option_bind]; cost_case.
Qed.

Record edge_eligible (v : ViewConfig) (request : PlanningRequest) (e : EdgeRecord)
    (degraded : bool) : Prop := {
  ee_layer : e_layer e = cs_layer (rq_constraints request);
  ee_link : e_id e ∉ cs_forbidden_links (rq_constraints request);
  ee_from_port : e_from_port e ∉ cs_forbidden_ports (rq_constraints request);
  ee_to_port : e_to_port e ∉ cs_forbidden_ports (rq_constraints request);
  ee_state : link_admissible v e degraded;
  ee_from_up : port_admissible v (e_from_port e);
  ee_to_up : port_admissible v (e_to_port e);
  ee_caps : ∀ r, r ∈ cs_required_capabilities (rq_constraints request) → edge_capable v e r;
  ee_domains : ∀ subject, subject ∈ [ForLink (e_id e); ForPort (e_from_port e); ForPort (e_to_port e)] →
    domain_compliant v (cs_fail_closed_on_unknown_domains (rq_constraints request)) subject
}.

Lemma binary_search_sort_false `{Ordered A} (l : list A) x :
  binary_search (sort_ids l) x = false ↔ x ∉ l.
Proof.
  rewrite <- binary_search_sort_ids. destruct (binary_search _ _); intuition congruence.
Qed.

Definition evaluate_in (v : ViewConfig) (stv : list (option nat)) (request : PlanningRequest) :
  nat → EdgeRecord → EdgeOutcome :=
  evaluate_edge v stv request (sort_ids (cs_forbidden_links (rq_constraints request)))
    (sort_ids (cs_forbidden_ports (rq_constraints request))).

Lemma check_ports_None v e :
  first_error (check_port v) [e_from_port e; e_to_port e] = None ↔
  port_admissible v (e_from_port e) ∧ port_admissible v (e_to_port e).
Proof.
  rewrite <- !check_port_None. simpl.
  destruct (check_port v (e_from_port e)); [naive_solver|].
  destruct (check_port v (e_to_port e)); naive_solver.
Qed.

(** The iteration accepts exactly the eligible edges between eligible nodes. *)
Lemma evaluate_edge_Accept v stv request i e from a :
  evaluate_in v stv request i e = Accept from a ↔
  ∃ fi ti to degraded x outside,
    find_index n_id (s_nodes (v_snapshot v)) (e_from e) = Some fi ∧
    find_index n_id (s_nodes (v_snapshot v)) (e_to e) = Some ti ∧
    mjoin (stv !! fi) = Some from ∧ mjoin (stv !! ti) = Some to ∧
    edge_eligible v request e degraded ∧ edge_cost v e degraded = Some (x, outside) ∧
    a = MkAdjacency to i x degraded outside.
Proof.
  unfold evaluate_in, evaluate_edge. split.
  - destruct (find_index _ _ (e_from e)) as [fi|]; [|done].
    destruct (find_index _ _ (e_to e)) as [ti|]; [|done].
    destruct (enum_eqb _ _) eqn:El; [|done]. cbn [negb].
    destruct (binary_search _ (e_id e)) eqn:Efl; [done|].
    destruct (_ || _) eqn:Efp; [done|]. apply orb_false_iff in Efp as [Ep1 Ep2].
    destruct (mjoin (stv !! fi)) as [f|] eqn:Ef; [|done].
    destruct (mjoin (stv !! ti)) as [t|] eqn:Et; [|done].
    destruct (check_link_state _ _) as [[]|degraded] eqn:Els; [done|].
    destruct (first_error (check_port v) _) as [[[]]|] eqn:Eports; [done|].
    destruct (first_error (check_edge_capability v e) _) as [[]|] eqn:Ecaps; [done|].
    destruct (first_error (λ s, FailureDomainCompliant v s _) _) eqn:Edom; [done|].
    destruct (edge_cost v e degraded) as [[x outside]|] eqn:Ecost; [|done].
    intros [= -> <-]. exists fi, ti, t, degraded, x, outside. split_and!; try done.
    apply check_ports_None in Eports as [Hp1 Hp2].
    pose proof (proj1 (first_error_None _ _) Ecaps) as Hcaps.
    pose proof (proj1 (first_error_None _ _) Edom) as Hdom.
    constructor; try done; try by eapply binary_search_sort_false.
    + by apply enum_eqb_eq.
    + by apply check_link_state_inr.
    + intros r Hr. by apply check_edge_capability_None, Hcaps.
  - intros (fi & ti & t & degraded & x & outside & -> & -> & Ef & Et & [] & Ecost & ->).
    rewrite (proj2 (enum_eqb_eq _ _)) by done.
    rewrite !(proj2 (binary_search_sort_false _ _)) by done. cbn [negb orb].
    rewrite Ef, Et, (proj2 (check_link_state_inr _ _ _)) by done.
    rewrite (proj2 (check_ports_None _ _)) by done.
    rewrite (proj2 (first_error_None _ _)) by (intros; by apply check_edge_capability_None; auto).
    rewrite (proj2 (first_error_None _ _)) by done. by rewrite Ecost.
Qed.

(** ** The CSR offsets *)

Definition count_at (u : nat) (l : list (nat * Adjacency)) : nat :=
  length (List.filter (λ p, (p.1 =? u)%nat) l).

Lemma count_below_succ u l :
  count_below fst (S u) l = (count_below fst u l + count_at u l)%nat.
Proof.
  unfold count_below, count_at. induction l as [|[f a] l IH]; [done|]. simpl.
  destruct (f <? S u)%nat eqn:E1, (f <? u)%nat eqn:E2, (f =? u)%nat eqn:E3; bool_to_prop;
    simpl; lia.
Qed.

Lemma count_below_zero {A} (f : A → nat) l : count_below f 0 l = 0%nat.
Proof. unfold count_below. induction l; [done|]. simpl. done. Qed.

Lemma count_below_all {A} (f : A → nat) n l :
  Forall (λ x, (f x < n)%nat) l → count_below f n l = length l.
Proof.
  unfold count_below. induction 1 as [|x l Hx _ IH]; [done|]. simpl.
  rewrite (proj2 (Nat.ltb_lt _ _)) by done. simpl. by rewrite IH.
Qed.

Lemma nth_alter (l : list nat) i j :
  (j < length l)%nat → nth i (alter S j l) 0%nat = (nth i l 0 + if (i =? j)%nat then 1 else 0)%nat.
Proof.
  intros Hj. rewrite !nth_lookup. destruct (i =? j)%nat eqn:E; bool_to_prop.
  - subst. rewrite list_lookup_alter_eq. destruct (lookup_lt_is_Some_2 l j Hj) as [x ->]. simpl. lia.
  - rewrite list_lookup_alter_ne by done. lia.
Qed.

Lemma count_offsets_spec n pending :
  Forall (λ p, (p.1 < n)%nat) pending →
  length (count_offsets n pending) = (n + 1)%nat ∧
  ∀ i, nth i (count_offsets n pending) 0%nat = match i with O => 0%nat | S j => count_at j pending end.
Proof.
  unfold count_offsets. induction pending as [|p pending IH] using rev_ind; intros Hall.
  - simpl. rewrite length_replicate. split; [done|]. intros i. rewrite nth_lookup.
    destruct (replicate (n + 1) 0%nat !! i) as [x|] eqn:E.
    + apply lookup_replicate in E as [-> _]. by destruct i.
    + by destruct i.
  - apply Forall_app in Hall as [Hall Hp]. rewrite Forall_singleton in Hp.
    destruct (IH Hall) as [Hlen Hnth]. rewrite fold_left_app. cbn [fold_left].
    rewrite length_alter. split; [done|]. intros i.
    rewrite nth_alter by (rewrite Hlen; simpl in Hp; lia). rewrite Hnth.
    destruct i as [|j]; [by destruct (p.1 + 1)%nat eqn:E; [lia|]|].
    unfold count_at. rewrite List.filter_app, length_app. cbn [List.filter].
    destruct (S j =? p.1 + 1)%nat eqn:E1, (p.1 =? j)%nat eqn:E2; bool_to_prop; simpl; lia.
Qed.

Lemma prefix_steps (offsets : list nat) (c : nat → nat) n :
  length offsets = (n + 1)%nat → (∀ i, nth i offsets 0%nat = c i) → c 0%nat = 0%nat →
  ∀ k, (k <= n)%nat →
  let r := fold_left prefix_step (seq 0 k) offsets in
  length r = (n + 1)%nat ∧
  (∀ i, (i <= k)%nat → nth i r 0%nat = list_sum (map c (seq 0 (i + 1)))) ∧
  (∀ i, (k < i)%nat → nth i r 0%nat = c i).
Proof.
  intros Hlen Hnth H0. induction k as [|k IH]; intros Hk.
  - simpl. split_and!; [done| |done]. intros i Hi. replace i with 0%nat by lia. simpl.
    rewrite Hnth. lia.
  - rewrite seq_S, fold_left_app. simpl. destruct (IH ltac:(lia)) as (Hl & Hle & Hgt).
    set (r := fold_left _ _ _) in *. unfold prefix_step.
    rewrite length_insert. split; [done|].
    assert (Hins : ∀ i x, nth i (<[(k + 1)%nat := x]> r) 0%nat =
      if (i =? k + 1)%nat then x else nth i r 0%nat).
    { intros i x. rewrite !nth_lookup. destruct (i =? k + 1)%nat eqn:E; bool_to_prop.
      - subst. by rewrite list_lookup_insert_eq by lia.
      - by rewrite list_lookup_insert_ne by done. }
    split; intros i Hi; rewrite Hins; destruct (i =? k + 1)%nat eqn:E; bool_to_prop; try lia.
    + subst. rewrite (Hgt (k + 1)%nat), (Hle k) by lia.
      rewrite (seq_app (k + 1) 1 0). rewrite map_app, list_sum_app. simpl. lia.
    + apply Hle. lia.
    + apply Hgt. lia.
Qed.

(** [offsets[u]] is the number of pending entries of smaller sources. *)
Lemma build_offsets_spec n pending :
  Forall (λ p, (p.1 < n)%nat) pending →
  length (build_offsets n pending) = (n + 1)%nat ∧
  ∀ u, (u <= n)%nat → nth u (build_offsets n pending) 0%nat = count_below fst u pending.
Proof.
  intros Hall. destruct (count_offsets_spec n pending Hall) as [Hlen Hnth].
  set (c := λ i, match i with O => 0%nat | S j => count_at j pending end).
  destruct (prefix_steps (count_offsets n pending) c n Hlen Hnth eq_refl n) as (Hl & Hle & _); [lia|].
  split; [done|]. intros u Hu. unfold build_offsets. rewrite Hle by done. clear.
  induction u as [|u IH]; [by rewrite count_below_zero|].
  replace (S u + 1)%nat with (u + 1 + 1)%nat by lia.
  rewrite (seq_app (u + 1) 1 0), map_app, list_sum_app, IH, count_below_succ.
  replace (0 + (u + 1))%nat with (S u) by lia. simpl. lia.
Qed.

(** Entry [i] of the sorted vector belongs to the row of its source. *)
Lemma sorted_row pending i p u :
  StronglySorted (λ p q : nat * Adjacency, (p.1 <= q.1)%nat) pending → pending !! i = Some p →
  p.1 = u ↔ (count_below fst u pending <= i < count_below fst (S u) pending)%nat.
Proof.
  intros Hs Hi. pose proof (sorted_count_below fst pending i p u Hs Hi) as H1.
  pose proof (sorted_count_below fst pending i p (S u) Hs Hi) as H2. lia.
Qed.

(** ** The built view *)

Definition node_accepted (v : ViewConfig) (request : PlanningRequest) (n : NodeRecord) : bool :=
  negb (nv_excluded (EvaluateNode v request
    (sort_ids (cs_forbidden_nodes (rq_constraints request))) n)).

Definition pending_edges (v : ViewConfig) (request : PlanningRequest) (stv : list (option nat)) :
  list (nat * Adjacency) :=
  omap (λ ie, accepted (evaluate_in v stv request ie.1 ie.2)) (indexed (s_edges (v_snapshot v))).

(** The pieces of a successful construction. *)
Record Built (s : FabricSnapshot) (request : PlanningRequest) (limits : ResourceLimits)
    (src dst : NodeId) (b : PlanningViewBuild) (vts : list nat) (stv : list (option nat)) : Prop := {
  bt_nodes : NodesInv (node_accepted (view_config s request limits) request)
               (length (s_nodes s)) (s_nodes s) vts stv;
  bt_config : v_config (vb_view b) = view_config s request limits;
  bt_vts : v_view_to_snapshot_node (vb_view b) = vts;
  bt_stv : v_snapshot_to_view_node (vb_view b) = stv;
  bt_source : vb_source b = ViewIndex (vb_view b) src ∧ vb_source b ≠ None;
  bt_destination : vb_destination b = ViewIndex (vb_view b) dst ∧ vb_destination b ≠ None;
  bt_caps : ∀ r, r ∈ cs_required_capabilities (rq_constraints request) →
    check_endpoint_capability (view_config s request limits) src dst r = None;
  bt_pending :
    let pending := sort_by (pending_key (vb_view b))
                     (pending_edges (view_config s request limits) request stv) in
    v_adjacency (vb_view b) = map snd pending ∧
    v_offsets (vb_view b) = build_offsets (length vts) pending
}.

Lemma BuildPlanningView_built s request limits src dst :
  let b := BuildPlanningView s request limits src dst in
  vb_fatal b = None → ∃ vts stv, Built s request limits src dst b vts stv.
Proof.
  cbv zeta. unfold BuildPlanningView. set (config := view_config s request limits).
  pose proof (node_loop (EvaluateNode config request
    (sort_ids (cs_forbidden_nodes (rq_constraints request)))) (length (s_nodes s))
    (new_RejectionLog (max_explanation_entries (v_limits config))) (s_nodes s) (le_n _)) as Hinv.
  unfold view_nodes. change (v_snapshot config) with s. cbv zeta in *.
  destruct (fold_left _ (indexed (s_nodes s)) _) as [[vts stv] log]. simpl in Hinv.
  destruct (Exceeds _ _); [done|].
  set (view0 := MkView config [] [] vts stv log 0).
  destruct (ViewIndex view0 src) as [si|] eqn:Esrc; [|done].
  destruct (ViewIndex view0 dst) as [di|] eqn:Edst; [|done].
  destruct (first_error _ _) as [[]|] eqn:Ecaps; [done|].
  pose proof (edge_loop (evaluate_in config stv request) (indexed (s_edges s)) log [] 0) as Hedges.
  unfold view_edges. change (v_snapshot config) with s. fold (evaluate_in config stv request).
  destruct (fold_left _ (indexed (s_edges s)) _) as [[log' pending] eligible]. simpl in Hedges.
  intros _. exists vts, stv. constructor; try reflexivity.
  - exact Hinv.
  - split; [symmetry; exact Esrc|done].
  - split; [symmetry; exact Edst|done].
  - apply first_error_None. exact Ecaps.
  - simpl. subst pending. done.
Qed.

Section built_view.
Context (s : FabricSnapshot) (request : PlanningRequest) (limits : ResourceLimits).
Context (src dst : NodeId) (b : PlanningViewBuild) (vts : list nat) (stv : list (option nat)).
Context (Hs : snapshot_wf s) (Hedges : Forall edge_typed (s_edges s)).
Context (Hmodel : model_typed (pp_cost_model (rq_policy request))).
Context (HB : Built s request limits src dst b vts stv).

Let v : PlanningView := vb_view b.
Let config : ViewConfig := view_config s request limits.
Let pending : list (nat * Adjacency) :=
  sort_by (pending_key v) (pending_edges config request stv).

Lemma built_snapshot_eq : v_snapshot v = s.
Proof. unfold v. by rewrite (bt_config _ _ _ _ _ _ _ _ HB). Qed.

Lemma built_config : v_config v = config.
Proof. unfold v. by rewrite (bt_config _ _ _ _ _ _ _ _ HB). Qed.

Lemma built_NodeCount : NodeCount v = length vts.
Proof. unfold NodeCount, v. by rewrite (bt_vts _ _ _ _ _ _ _ _ HB). Qed.

(** View index [u] stands for the snapshot node [vts[u]]. *)
Lemma built_NodeAt u :
  (u < length vts)%nat → ∃ i n, vts !! u = Some i ∧ s_nodes s !! i = Some n ∧ NodeAt v u = n ∧
    node_accepted config request n = true ∧ mjoin (stv !! i) = Some u.
Proof.
  intros Hu. destruct (lookup_lt_is_Some_2 vts u Hu) as [i Hi].
  destruct (bt_nodes _ _ _ _ _ _ _ _ HB) as [_ _ Hacc Hinv].
  destruct (Hacc i) as [Hin _]. destruct Hin as (n & Hn & Hok); [by eapply list_elem_of_lookup_2|].
  exists i, n. split_and!; try done.
  - unfold NodeAt. rewrite built_snapshot_eq. unfold v.
    rewrite (bt_vts _ _ _ _ _ _ _ _ HB).
    by rewrite (nth_lookup_Some vts u _ i Hi), (nth_lookup_Some _ i _ n Hn).
  - by apply Hinv.
Qed.

Lemma built_order u w :
  (u < w < length vts)%nat → ltb (n_id (NodeAt v u)) (n_id (NodeAt v w)) = true.
Proof.
  intros [Huw Hw]. destruct (built_NodeAt u) as (i & n & Hi & Hn & -> & _); [lia|].
  destruct (built_NodeAt w) as (j & m & Hj & Hm & -> & _); [lia|].
  assert (Hij : (i < j)%nat).
  { destruct (bt_nodes _ _ _ _ _ _ _ _ HB) as [_ Hsort _ _].
    by eapply (StronglySorted_lookup_lt lt vts u w). }
  exact (StronglySorted_lookup_lt _ _ _ _ _ _ (sw_nodes s Hs) Hn Hm Hij).
Qed.

Lemma elem_of_pending_edges p :
  p ∈ pending_edges config request stv ↔
  ∃ i e, s_edges s !! i = Some e ∧ evaluate_in config stv request i e = Accept p.1 p.2.
Proof.
  unfold pending_edges. change (v_snapshot config) with s. rewrite list_elem_of_omap. split.
  - intros ([i e] & Hie%elem_of_indexed & Hacc). exists i, e. split; [done|].
    simpl in Hacc. destruct (evaluate_in _ _ _ _ _); try done. by injection Hacc as <-.
  - intros (i & e & Hie & Hacc). exists (i, e). split; [by apply elem_of_indexed|].
    simpl. rewrite Hacc. by destruct p.
Qed.

(** An index found for a node identity is the node the view shows for it. *)
Lemma built_endpoint x fi u :
  find_index n_id (s_nodes s) x = Some fi → mjoin (stv !! fi) = Some u →
  (u < length vts)%nat ∧ n_id (NodeAt v u) = x.
Proof.
  intros Hf Hu. destruct (bt_nodes _ _ _ _ _ _ _ _ HB) as [_ _ _ Hinv].
  apply Hinv in Hu. split; [by eapply lookup_lt_Some|].
  destruct (built_NodeAt u) as (i & n & Hi & Hn & -> & _); [by eapply lookup_lt_Some|].
  apply find_index_Some in Hf as (m & Hm & <- & _). simplify_eq. congruence.
Qed.

Lemma accepted_facts i e from a :
  s_edges s !! i = Some e → evaluate_in config stv request i e = Accept from a →
  (from < length vts)%nat ∧ (a_to a < length vts)%nat ∧ a_edge a = i ∧
  n_id (NodeAt v from) = e_from e ∧ n_id (NodeAt v (a_to a)) = e_to e ∧
  edge_eligible config request e (a_degraded a) ∧
  a_outside_locality a = outside_scope config e ∧
  a_traversal_cost a = charge config e (a_degraded a) (a_outside_locality a) ∧
  a_traversal_cost a <= u64_max.
Proof.
  intros Hi Hacc.
  apply evaluate_edge_Accept in Hacc as (fi & ti & to & degraded & x & outside & Hfi & Hti & Hf &
    Ht & Hel & Hcost & ->). simpl.
  change (v_snapshot config) with s in Hfi, Hti.
  destruct (built_endpoint _ _ _ Hfi Hf) as [? ?]. destruct (built_endpoint _ _ _ Hti Ht) as [? ?].
  apply edge_cost_Some in Hcost as (Hout & Hx & Hmax); [|done|].
  - split_and!; done.
  - rewrite Forall_forall in Hedges. apply list_elem_of_lookup_2 in Hi.
    by destruct (Hedges e Hi) as (_ & _ & _ & _ & _ & ? & _).
Qed.

(** The edge index of a pending entry is the position it was made at. *)
Lemma pending_edge_indices (f : nat → EdgeRecord → EdgeOutcome) l :
  (∀ i e from a, l !! i = Some e → f i e = Accept from a → a_edge a = i) →
  NoDup (map (λ p, a_edge p.2) (omap (λ ie, accepted (f ie.1 ie.2)) (indexed l))) ∧
  ∀ p, p ∈ omap (λ ie, accepted (f ie.1 ie.2)) (indexed l) → (a_edge p.2 < length l)%nat.
Proof.
  induction l as [|e l IH] using rev_ind; intros Hidx.
  { simpl. split; [constructor|]. by intros p ?%elem_of_nil. }
  destruct IH as [Hnd Hlt].
  { intros i x from a Hi. apply Hidx. by apply lookup_app_l_Some. }
  rewrite indexed_app, omap_app, length_app. simpl.
  destruct (f (length l) e) as [| | |from a] eqn:Ef; simpl; rewrite ?app_nil_r;
    try (split; [done|]; intros p Hp; specialize (Hlt p Hp); lia).
  assert (Ha : a_edge a = length l).
  { apply (Hidx _ e from); [|done]. by apply list_lookup_middle. }
  rewrite map_app. split.
  - apply NoDup_app. split_and!; [done| |apply NoDup_singleton].
    intros k (p & -> & Hp)%list_elem_of_fmap. simpl. rewrite list_elem_of_singleton.
    specialize (Hlt p Hp). lia.
  - intros p [Hp| ->%list_elem_of_singleton]%elem_of_app.
    + specialize (Hlt p Hp). lia.
    + simpl. lia.
Qed.

Lemma NoDup_map_finer {A B C} (g : A → B) (h : A → C) l :
  NoDup (map h l) → (∀ x y, x ∈ l → y ∈ l → g x = g y → h x = h y) → NoDup (map g l).
Proof.
  induction l as [|x l IH]; simpl; intros Hnd Hgh; [constructor|].
  apply NoDup_cons in Hnd as [Hx Hnd]. apply NoDup_cons. split.
  - intros (y & Heq & Hy)%list_elem_of_fmap. apply Hx.
    rewrite (Hgh x y) by (done || (by left) || by right). by apply list_elem_of_fmap_2.
  - apply IH; [done|]. intros y z Hy Hz. apply Hgh; by right.
Qed.

Lemma pending_sorted : strictly_sorted (pending_key v) pending.
Proof.
  unfold pending. apply strictly_sorted_of_key_le; [apply sort_by_sorted|].
  rewrite sort_by_perm.
  destruct (pending_edge_indices (evaluate_in config stv request) (s_edges s)) as [Hnd Hlt].
  { intros i e from a Hi Ha. by apply (accepted_facts i e from a) in Ha as (_ & _ & ? & _). }
  apply (NoDup_map_finer _ _ _ Hnd).
  intros p q (i & e & Hi & Hp)%elem_of_pending_edges (j & e' & Hj & Hq)%elem_of_pending_edges.
  destruct (accepted_facts _ _ _ _ Hi Hp) as (_ & _ & Hpi & _).
  destruct (accepted_facts _ _ _ _ Hj Hq) as (_ & _ & Hqj & _).
  intros Hkey. unfold pending_key in Hkey. injection Hkey as _ _ Hid.
  unfold EdgeAt in Hid. rewrite built_snapshot_eq, Hpi, Hqj in Hid.
  rewrite (nth_lookup_Some _ i _ e Hi), (nth_lookup_Some _ j _ e' Hj) in Hid.
  rewrite Hpi, Hqj. by eapply (strictly_sorted_lookup_inj e_id _ _ _ _ _ (sw_edges s Hs)).
Qed.

Lemma pending_by_source : StronglySorted (λ p q : nat * Adjacency, (p.1 <= q.1)%nat) pending.
Proof.
  eapply StronglySorted_weaken; [|exact pending_sorted]. intros p q Hlt.
  apply ltb_pair_fst in Hlt. unfold ole, ltb in Hlt. simpl in Hlt.
  destruct (Z.compare_spec (Z.of_nat q.1) (Z.of_nat p.1)); [lia|done|lia].
Qed.

Lemma elem_of_pending p :
  p ∈ pending ↔ ∃ i e, s_edges s !! i = Some e ∧ evaluate_in config stv request i e = Accept p.1 p.2.
Proof. unfold pending. by rewrite elem_of_sort_by, elem_of_pending_edges. Qed.

Lemma pending_sources : Forall (λ p : nat * Adjacency, (p.1 < length vts)%nat) pending.
Proof.
  rewrite Forall_forall. intros p (i & e & Hi & Hp)%elem_of_pending.
  by destruct (accepted_facts _ _ _ _ Hi Hp) as (? & _).
Qed.

Lemma built_adjacency : v_adjacency v = map snd pending.
Proof. by destruct (bt_pending _ _ _ _ _ _ _ _ HB) as [? _]. Qed.

Lemma built_offset u : (u <= length vts)%nat → offset v u = count_below fst u pending.
Proof.
  intros Hu. unfold offset, v. destruct (bt_pending _ _ _ _ _ _ _ _ HB) as [_ ->].
  by apply build_offsets_spec; [apply pending_sources|].
Qed.

(** Adjacency [i] is pending entry [i], and it stands in the row of its source. *)
Lemma built_lookup i :
  (i < length (v_adjacency v))%nat →
  ∃ p, pending !! i = Some p ∧ AdjacencyAt v i = p.2 ∧
    ∀ u, (u < length vts)%nat → i ∈ row v u ↔ p.1 = u.
Proof.
  rewrite built_adjacency, length_map. intros Hi.
  destruct (lookup_lt_is_Some_2 pending i Hi) as [p Hp]. exists p. split_and!; [done| |].
  - unfold AdjacencyAt. rewrite built_adjacency.
    apply nth_lookup_Some. by rewrite list_lookup_fmap, Hp.
  - intros u Hu. unfold row. rewrite elem_of_seq, !built_offset by lia.
    rewrite (sorted_row pending i p u pending_by_source Hp).
    replace (u + 1)%nat with (S u) by lia. rewrite count_below_succ. lia.
Qed.

Lemma row_bound u i : (u < length vts)%nat → i ∈ row v u → (i < length (v_adjacency v))%nat.
Proof.
  intros Hu. unfold row. rewrite elem_of_seq, !built_offset by lia.
  rewrite built_adjacency, length_map. unfold count_below.
  pose proof (List.filter_length_le (λ p : nat * Adjacency, (p.1 <? u + 1)%nat) pending). lia.
Qed.

Lemma row_strictly_sorted u : (u < length vts)%nat → strictly_sorted (adjacency_key v) (row v u).
Proof.
  intros Hu. apply StronglySorted_of_lookup. intros a c i j Hi Hj Hac.
  assert (Hij : (i < j)%nat).
  { unfold row in Hi, Hj. apply lookup_seq in Hi as [-> _], Hj as [-> _]. lia. }
  apply list_elem_of_lookup_2 in Hi, Hj.
  destruct (built_lookup i) as (p & Hp & Hai & Hrp); [by eapply row_bound|].
  destruct (built_lookup j) as (q & Hq & Haj & Hrq); [by eapply row_bound|].
  apply Hrp in Hi; [|done]. apply Hrq in Hj; [|done].
  pose proof (StronglySorted_lookup_lt _ _ _ _ _ _ pending_sorted Hp Hq Hij) as Hlt.
  apply ltb_pair_snd in Hlt; [|simpl; congruence].
  unfold adjacency_key. by rewrite Hai, Haj.
Qed.

Lemma built_ViewIndex x u :
  ViewIndex v x = Some u → (u < NodeCount v)%nat ∧ n_id (NodeAt v u) = x.
Proof.
  unfold ViewIndex. rewrite built_snapshot_eq. unfold v.
  rewrite (bt_stv _ _ _ _ _ _ _ _ HB). fold v. rewrite built_NodeCount.
  destruct (find_index _ _ x) as [fi|] eqn:Hf; simpl; [|done]. by apply built_endpoint.
Qed.

Lemma built_view_wf : ViewWf v.
Proof.
  constructor.
  - intros u Hu. rewrite built_NodeCount in Hu. rewrite built_snapshot_eq.
    destruct (built_NodeAt u Hu) as (i & n & _ & Hn & -> & _). by eapply list_elem_of_lookup_2.
  - intros u w. rewrite built_NodeCount. apply built_order.
  - exact built_ViewIndex.
  - intros u. rewrite built_NodeCount. intros Hu. rewrite !built_offset by lia.
    replace (u + 1)%nat with (S u) by lia. rewrite count_below_succ. lia.
  - intros u. rewrite built_NodeCount. intros Hu. rewrite built_offset by done.
    rewrite built_adjacency, length_map. apply List.filter_length_le.
  - intros i Hi. destruct (built_lookup i Hi) as (p & Hp & _ & Hrow). exists p.1.
    rewrite built_NodeCount. pose proof pending_sources as Hsrc. rewrite Forall_forall in Hsrc.
    assert (Hp1 : (p.1 < length vts)%nat) by (apply Hsrc; by eapply list_elem_of_lookup_2).
    split; [done|]. by apply Hrow.
  - intros i Hi. destruct (built_lookup i Hi) as (p & Hp & -> & _). rewrite built_NodeCount.
    apply list_elem_of_lookup_2, elem_of_pending in Hp as (k & e & Hk & Hacc).
    by destruct (accepted_facts _ _ _ _ Hk Hacc) as (_ & ? & _).
  - intros u i. rewrite built_NodeCount. intros Hu Hrow.
    destruct (built_lookup i) as (p & Hp & -> & Hr); [by eapply row_bound|].
    apply Hr in Hrow; [|done]. subst u.
    apply list_elem_of_lookup_2, elem_of_pending in Hp as (k & e & Hk & Hacc).
    destruct (accepted_facts _ _ _ _ Hk Hacc) as (_ & _ & Hidx & Hf & Ht & _).
    assert (HE : EdgeAt v (a_edge p.2) = e).
    { unfold EdgeAt. rewrite built_snapshot_eq, Hidx. by apply nth_lookup_Some. }
    rewrite HE, built_snapshot_eq. split_and!; [by eapply list_elem_of_lookup_2|done..].
  - intros i Hi. destruct (built_lookup i Hi) as (p & Hp & -> & _).
    apply list_elem_of_lookup_2, elem_of_pending in Hp as (k & e & Hk & Hacc).
    destruct (accepted_facts _ _ _ _ Hk Hacc) as (_ & _ & Hidx & _ & _ & Hel & _).
    assert (HE : EdgeAt v (a_edge p.2) = e).
    { unfold EdgeAt. rewrite built_snapshot_eq, Hidx. by apply nth_lookup_Some. }
    rewrite HE, built_config. exact (ee_layer _ _ _ _ Hel).
  - intros u. rewrite built_NodeCount. apply row_strictly_sorted.
  - intros i Hi. destruct (built_lookup i Hi) as (p & Hp & -> & _).
    apply list_elem_of_lookup_2, elem_of_pending in Hp as (k & e & Hk & Hacc).
    destruct (accepted_facts _ _ _ _ Hk Hacc) as (_ & _ & Hidx & _ & _ & _ & _ & Hx & Hmax).
    assert (HE : EdgeAt v (a_edge p.2) = e).
    { unfold EdgeAt. rewrite built_snapshot_eq, Hidx. by apply nth_lookup_Some. }
    rewrite HE, built_config. split; [|done]. split; [|done]. rewrite Hx. unfold charge.
    rewrite Forall_forall in Hedges. apply list_elem_of_lookup_2 in Hk.
    destruct (Hedges e Hk) as (_ & _ & _ & _ & _ & [? _] & _).
    destruct Hmodel as (_ & [? _] & [? _]). fold config in Hx |- *.
    change (v_cost_model config) with (pp_cost_model (rq_policy request)).
    destruct (a_degraded p.2), (a_outside_locality p.2); cbn [ind]; lia.
Qed.

(** A node of the snapshot is shown by the view exactly when it is accepted. *)
Lemma built_has_node i n :
  s_nodes s !! i = Some n →
  node_accepted config request n = true ↔ ∃ u, (u < NodeCount v)%nat ∧ mjoin (stv !! i) = Some u.
Proof.
  intros Hn. rewrite built_NodeCount. destruct (bt_nodes _ _ _ _ _ _ _ _ HB) as [_ _ Hacc Hinv].
  split.
  - intros Hok. assert (Hi : i ∈ vts) by (apply Hacc; eauto).
    apply list_elem_of_lookup_1 in Hi as [u Hu]. exists u. split; [by eapply lookup_lt_Some|].
    by apply Hinv.
  - intros (u & _ & Hu). apply Hinv, list_elem_of_lookup_2, Hacc in Hu as (m & Hm & Hok).
    rewrite Hn in Hm. by injection Hm as <-.
Qed.

(** The row of [u] holds exactly the eligible edges that leave its node. *)
Lemma built_row u e degraded :
  (u < NodeCount v)%nat → e ∈ s_edges s →
  (∃ i, i ∈ row v u ∧ EdgeAt v (a_edge (AdjacencyAt v i)) = e ∧
        a_degraded (AdjacencyAt v i) = degraded) ↔
  e_from e = n_id (NodeAt v u) ∧ (∃ w, (w < NodeCount v)%nat ∧ e_to e = n_id (NodeAt v w)) ∧
  edge_eligible config request e degraded ∧
  charge config e degraded (outside_scope config e) <= u64_max.
Proof.
  rewrite built_NodeCount. intros Hu He. split.
  - intros (i & Hrow & HE & <-).
    destruct (built_lookup i) as (p & Hp & Hap & Hr); [by eapply row_bound|].
    rewrite Hap in *. apply Hr in Hrow; [|done]. subst u.
    apply list_elem_of_lookup_2, elem_of_pending in Hp as (k & e' & Hk & Hacc).
    destruct (accepted_facts _ _ _ _ Hk Hacc) as (_ & Hto & Hidx & Hf & Ht & Hel & Ho & Hx & Hmax).
    assert (e' = e) as ->.
    { rewrite <- HE. unfold EdgeAt. rewrite built_snapshot_eq, Hidx. symmetry.
      by apply nth_lookup_Some. }
    rewrite Hx, Ho in Hmax. split_and!; [done|by exists (a_to p.2)|done..].
  - intros (Hf & (w & Hw & Ht) & Hel & Hmax).
    destruct (built_NodeAt u Hu) as (fi & fn & _ & Hfn & Hfu & _ & Hfs).
    destruct (built_NodeAt w Hw) as (ti & tn & _ & Htn & Htw & _ & Hts).
    apply list_elem_of_lookup_1 in He as [k Hk].
    assert (Hacc : evaluate_in config stv request k e = Accept u
      (MkAdjacency w k (charge config e degraded (outside_scope config e)) degraded
         (outside_scope config e))).
    { apply evaluate_edge_Accept. exists fi, ti, w, degraded,
        (charge config e degraded (outside_scope config e)), (outside_scope config e).
      split_and!; try done.
      - rewrite Hf, Hfu. by apply (find_index_lookup n_id _ fi fn (sw_nodes s Hs)).
      - rewrite Ht, Htw. by apply (find_index_lookup n_id _ ti tn (sw_nodes s Hs)).
      - apply edge_cost_Some; [exact Hmodel| |done].
        rewrite Forall_forall in Hedges. apply list_elem_of_lookup_2 in Hk.
        by destruct (Hedges e Hk) as (_ & _ & _ & _ & _ & ? & _). }
    set (a := MkAdjacency _ _ _ _ _) in Hacc.
    assert (Hin : (u, a) ∈ pending) by (apply elem_of_pending; by exists k, e).
    apply list_elem_of_lookup_1 in Hin as [i Hi].
    destruct (built_lookup i) as (p & Hp & Hap & Hr).
    { rewrite built_adjacency, length_map. by eapply lookup_lt_Some. }
    rewrite Hp in Hi. injection Hi as ->. exists i. rewrite Hap. split_and!.
    + by apply Hr.
    + unfold EdgeAt. rewrite built_snapshot_eq. by apply nth_lookup_Some.
    + done.
Qed.
End built_view.

(** ** Properties *)

(** A node passes the hard constraints: not forbidden, every requirement on
    every node proven, its failure domains compliant. *)
Record node_eligible (v : ViewConfig) (request : PlanningRequest) (n : NodeRecord) : Prop := {
  ne_allowed : n_id n ∉ cs_forbidden_nodes (rq_constraints request);
  ne_caps : ∀ r, r ∈ cs_required_capabilities (rq_constraints request) →
    cr_scope r = CapabilityScope.kEveryNode → proves v (ForNode (n_id n)) r;
  ne_domains :
    domain_compliant v (cs_fail_closed_on_unknown_domains (rq_constraints request)) (ForNode (n_id n))
}.

Lemma check_node_capability_None v subject r :
  check_node_capability v subject r = None ↔
  (cr_scope r = CapabilityScope.kEveryNode → proves v subject r).
Proof.
  unfold check_node_capability. rewrite <- CapabilitySatisfied_None.
  destruct (cr_scope r); simpl; try (split; [congruence|done]).
  destruct (CapabilitySatisfied _ _ _); simpl; [|done]. split; [done|]. naive_solver.
Qed.

Lemma node_accepted_spec v request n :
  node_accepted v request n = true ↔ node_eligible v request n.
Proof.
  unfold node_accepted, EvaluateNode.
  destruct (binary_search _ _) eqn:Ef.
  { split; [done|]. intros [Hn _ _]. apply binary_search_sort_false in Hn. congruence. }
  apply binary_search_sort_false in Ef.
  destruct (first_error _ _) as [[code detail]|] eqn:Ec.
  { split; [done|]. intros [_ Hc _].
    rewrite (proj2 (first_error_None _ _)) in Ec; [done|].
    intros r Hr. apply check_node_capability_None. auto. }
  pose proof (proj1 (first_error_None _ _) Ec) as Hcaps.
  destruct (FailureDomainCompliant _ _ _) eqn:Ed.
  { split; [done|]. intros [_ _ Hd]. unfold domain_compliant in Hd. congruence. }
  split; [|done]. intros _. constructor; [done| |done].
  intros r Hr. apply check_node_capability_None. auto.
Qed.

(** The request of the demo fabric: endpoint 1 to endpoint 2. *)
Definition demo_request : PlanningRequest :=
  MkRequest (Demo.tail_id PlanningRequestIdTag 1)
    (MkEndpointRef (Demo.tail_id EndpointIdTag 1) EndpointClass.kEndpoint 1)
    (MkEndpointRef (Demo.tail_id EndpointIdTag 2) EndpointClass.kEndpoint 1)
    (MkConstraints (Demo.tail_id ConstraintSetIdTag 1) 1 PathLayer.kPhysical
       [] [Demo.link 1] [] [] [] [] [] None None false)
    (MkPolicy 1 (MkCostModel 10 5 7) false false false true false [Demo.node 2; Demo.node 4]
       AuthorityValidationMode.kNone)
    3 PlanningMode.kStandard
    (MkAuthority 0 (nil_id _) (nil_id _) 0 (nil_id _) false false)
    false 0 false 0 false (nil_id _).

(** The construction never reads past the snapshot's nodes. *)
Lemma NodesInv_bound accept N l vts stv :
  NodesInv accept N l vts stv → (length vts <= length l)%nat.
Proof.
  intros [_ Hsort Hacc _]. rewrite <- (length_seq (length l) 0).
  apply NoDup_incl_length.
  - clear Hacc. induction Hsort as [|i vts _ IH Hall]; constructor; [|exact IH].
    rewrite Forall_forall in Hall. intros Hin%list_elem_of_In%Hall. lia.
  - intros i Hi%list_elem_of_In%Hacc. destruct Hi as (n & Hn & _). apply in_seq.
    apply lookup_lt_Some in Hn. lia.
Qed.

(** Whether the construction succeeds, before the capabilities of the endpoints. *)
Lemma view_index_exists s config request log x :
  snapshot_wf s → v_snapshot config = s →
  NodesInv (node_accepted config request) (length (s_nodes s)) (s_nodes s) log.1 log.2 →
  ViewIndex (MkView config [] [] log.1 log.2 (new_RejectionLog 1) 0) x ≠ None ↔
  ∃ n, n ∈ s_nodes s ∧ n_id n = x ∧ node_eligible config request n.
Proof.
  intros Hs Hsnap [_ _ Hacc Hinv]. unfold ViewIndex. simpl. rewrite Hsnap. split.
  - destruct (find_index _ _ _) as [fi|] eqn:Hf; [|done]. simpl. intros Hne.
    destruct (mjoin (log.2 !! fi)) as [u|] eqn:Hu; [|done].
    apply Hinv, list_elem_of_lookup_2, Hacc in Hu as (n & Hn & Hok).
    apply find_index_Some in Hf as (m & Hm & Hid & _). rewrite Hn in Hm. injection Hm as <-.
    exists n. split_and!; [by eapply list_elem_of_lookup_2|done|by apply node_accepted_spec].
  - intros (n & Hin & <- & Hok%node_accepted_spec). apply list_elem_of_lookup_1 in Hin as [i Hi].
    rewrite (find_index_lookup n_id _ i n (sw_nodes s Hs) Hi). simpl.
    assert (Hin : i ∈ log.1) by (apply Hacc; eauto).
    apply list_elem_of_lookup_1 in Hin as [u Hu]. apply Hinv in Hu. by rewrite Hu.
Qed.

(** The requirements on the two endpoint nodes. *)
Definition endpoint_capable (v : ViewConfig) (src dst : NodeId) (r : CapabilityRequirement) : Prop :=
  match cr_scope r with
  | CapabilityScope.kSourceNode => proves v (ForNode src) r
  | CapabilityScope.kDestinationNode => proves v (ForNode dst) r
  | _ => True
  end.

Lemma check_endpoint_capability_None v src dst r :
  check_endpoint_capability v src dst r = None ↔ endpoint_capable v src dst r.
Proof.
  unfold check_endpoint_capability, endpoint_capable.
  destruct (cr_scope r); try done; rewrite <- CapabilitySatisfied_None; simpl;
    by destruct (CapabilitySatisfied _ _ _).
Qed.

Lemma built_indices s request limits src dst :
  let b := BuildPlanningView s request limits src dst in
  vb_fatal b = None →
  ∃ si di, vb_source b = Some si ∧ vb_destination b = Some di ∧
    (si < NodeCount (vb_view b))%nat ∧ (di < NodeCount (vb_view b))%nat ∧
    n_id (NodeAt (vb_view b) si) = src ∧ n_id (NodeAt (vb_view b) di) = dst.
Proof.
  intros b (vts & stv & HB)%BuildPlanningView_built. fold b in HB.
  destruct (bt_source _ _ _ _ _ _ _ _ HB) as [Hsrc Hsn].
  destruct (bt_destination _ _ _ _ _ _ _ _ HB) as [Hdst Hdn].
  destruct (vb_source b) as [si|]; [|done]. destruct (vb_destination b) as [di|]; [|done].
  symmetry in Hsrc, Hdst.
  destruct (built_ViewIndex s request limits src dst _ vts stv HB _ _ Hsrc).
  destruct (built_ViewIndex s request limits src dst _ vts stv HB _ _ Hdst).
  by exists si, di.
Qed.

(** C26: a view that is built is coherent: its node map is in identity order, the
    CSR offsets cut the adjacency into rows in canonical (head, link) order, every
    entry names a published edge between the two nodes it joins, its traversal
    cost is the exact, non-wrapping sum of static cost and penalties, and the
    returned indices are those of the source and the destination. *)
Theorem build_view_wf s request limits src dst :
  snapshot_wf s → Forall edge_typed (s_edges s) → model_typed (pp_cost_model (rq_policy request)) →
  let b := BuildPlanningView s request limits src dst in
  let v := vb_view b in
  vb_fatal b = None →
  ViewWf v ∧ ∃ si di, vb_source b = Some si ∧ vb_destination b = Some di ∧
    (si < NodeCount v)%nat ∧ (di < NodeCount v)%nat ∧
    n_id (NodeAt v si) = src ∧ n_id (NodeAt v di) = dst.
Proof.
  intros Hs Hedges Hmodel b v Hb. split; [|by apply built_indices].
  apply BuildPlanningView_built in Hb as (vts & stv & HB).
  exact (built_view_wf s request limits src dst _ vts stv Hs Hedges Hmodel HB).
Qed.

(** C25: the view is exactly the eligible graph of the request: a published node is
    shown when and only when it passes the node constraints, and the row of a node
    holds an entry for a published edge when and only when the edge leaves that
    node towards a shown node, passes every link, port, capability and
    failure-domain constraint, and its cost does not overflow. *)
Theorem view_exact s request limits src dst :
  snapshot_wf s → Forall edge_typed (s_edges s) → model_typed (pp_cost_model (rq_policy request)) →
  let b := BuildPlanningView s request limits src dst in
  let v := vb_view b in
  let config := view_config s request limits in
  vb_fatal b = None →
  (∀ n, n ∈ s_nodes s →
    (∃ u, (u < NodeCount v)%nat ∧ NodeAt v u = n) ↔ node_eligible config request n) ∧
  (∀ u e degraded, (u < NodeCount v)%nat → e ∈ s_edges s →
    (∃ i, i ∈ row v u ∧ EdgeAt v (a_edge (AdjacencyAt v i)) = e ∧
          a_degraded (AdjacencyAt v i) = degraded) ↔
    e_from e = n_id (NodeAt v u) ∧ (∃ w, (w < NodeCount v)%nat ∧ e_to e = n_id (NodeAt v w)) ∧
    edge_eligible config request e degraded ∧
    charge config e degraded (outside_scope config e) <= u64_max).
Proof.
  intros Hs Hedges Hmodel b v config (vts & stv & HB)%BuildPlanningView_built. fold b in HB.
  split; [|intros; by apply (built_row s request limits src dst _ vts stv)].
  intros n Hin. rewrite <- node_accepted_spec. subst v. split.
  - intros (u & Hu & <-).
    rewrite (built_NodeCount s request limits src dst b vts stv HB) in Hu.
    destruct (built_NodeAt s request limits src dst b vts stv HB u Hu) as (i & m & _ & _ & -> & H & _).
    exact H.
  - intros Hok. apply list_elem_of_lookup_1 in Hin as [i Hi].
    destruct (proj1 (built_has_node s request limits src dst b vts stv HB i n Hi) Hok) as (u & Hu & Hiu).
    exists u. split; [done|].
    rewrite (built_NodeCount s request limits src dst b vts stv HB) in Hu.
    destruct (built_NodeAt s request limits src dst b vts stv HB u Hu) as (j & m & Hj & Hm & -> & _).
    destruct (bt_nodes _ _ _ _ _ _ _ _ HB) as [_ _ _ Hinv]. apply Hinv in Hiu. congruence.
Qed.

(** A view is refused only for a documented reason: with the snapshot within
    the node limit, construction succeeds when and only when the source and the
    destination are published, eligible nodes and every requirement on them is
    proven. *)
Theorem view_accepts_exactly s request limits src dst :
  snapshot_wf s → Z.of_nat (length (s_nodes s)) <= max_nodes limits →
  let config := view_config s request limits in
  vb_fatal (BuildPlanningView s request limits src dst) = None ↔
  (∀ x, x ∈ [src; dst] → ∃ n, n ∈ s_nodes s ∧ n_id n = x ∧ node_eligible config request n) ∧
  (∀ r, r ∈ cs_required_capabilities (rq_constraints request) → endpoint_capable config src dst r).
Proof.
  intros Hs Hmax config. unfold BuildPlanningView. fold config.
  pose proof (node_loop (EvaluateNode config request
    (sort_ids (cs_forbidden_nodes (rq_constraints request)))) (length (s_nodes s))
    (new_RejectionLog (max_explanation_entries (v_limits config))) (s_nodes s) (le_n _)) as Hinv.
  unfold view_nodes. change (v_snapshot config) with s. cbv zeta in *.
  destruct (fold_left _ (indexed (s_nodes s)) _) as [[vts stv] log]. simpl in Hinv.
  pose proof (NodesInv_bound _ _ _ _ _ Hinv) as Hb.
  assert (Hex : Exceeds (length vts) (max_nodes limits) = false) by (apply Exceeds_le; lia).
  rewrite Hex. set (view0 := MkView config [] [] vts stv log 0).
  assert (Hfound : ∀ x, ViewIndex view0 x ≠ None ↔
    ∃ n, n ∈ s_nodes s ∧ n_id n = x ∧ node_eligible config request n).
  { intros x. exact (view_index_exists s config request (vts, stv) x Hs eq_refl Hinv). }
  setoid_rewrite elem_of_cons. setoid_rewrite list_elem_of_singleton. setoid_rewrite <- Hfound.
  setoid_rewrite <- check_endpoint_capability_None. rewrite <- first_error_None.
  destruct (ViewIndex view0 src) as [si|] eqn:Es;
    [|split; [done|]; intros [Hall _]; by destruct (Hall src (or_introl eq_refl))].
  destruct (ViewIndex view0 dst) as [di|] eqn:Ed;
    [|split; [done|]; intros [Hall _]; by destruct (Hall dst (or_intror eq_refl))].
  destruct (first_error _ _) as [[code detail]|]; [split; [done|]; by intros [_ [=]]|].
  destruct (view_edges _ _ _ _) as [[? ?] ?]. simpl. split; [|done]. intros _. split; [|done].
  intros x [-> | ->]; congruence.
Qed.

(** In standard mode with operational proof required, every entry of a view
    rests on a proven state: its link is UP, or DEGRADED when the policy allows
    it and then charged as degraded; both its ports are UP, or DRAINING or in
    MAINTENANCE when the policy allows that. UNKNOWN is never treated as UP. *)
Theorem standard_view_proven s request limits src dst :
  snapshot_wf s → Forall edge_typed (s_edges s) → model_typed (pp_cost_model (rq_policy request)) →
  rq_mode request = PlanningMode.kStandard → pp_require_operational_proof (rq_policy request) = true →
  let b := BuildPlanningView s request limits src dst in
  let v := vb_view b in
  let policy := rq_policy request in
  vb_fatal b = None →
  v_provisional v = false ∧
  ∀ u i, (u < NodeCount v)%nat → i ∈ row v u →
    let e := EdgeAt v (a_edge (AdjacencyAt v i)) in
    let link := LinkStateOf (s_link_states s) (e_id e) in
    ((link = LinkState.kUp ∧ a_degraded (AdjacencyAt v i) = false) ∨
     (link = LinkState.kDegraded ∧ pp_allow_degraded_links policy = true ∧
      a_degraded (AdjacencyAt v i) = true)) ∧
    ∀ p, p ∈ [e_from_port e; e_to_port e] →
      let port := PortStateOf (s_port_states s) p in
      port = PortState.kUp ∨
      (port = PortState.kDraining ∧ pp_allow_draining_ports policy = true) ∨
      (port = PortState.kMaintenance ∧ pp_allow_maintenance_ports policy = true).
Proof.
  intros Hs Hedges Hmodel Hmode Hproof b v policy (vts & stv & HB)%BuildPlanningView_built.
  fold b in HB. subst v.
  assert (Hdiag : enum_eqb (rq_mode request) PlanningMode.kDiagnosticNonCurrent = false)
    by by rewrite Hmode.
  split.
  { rewrite (bt_config _ _ _ _ _ _ _ _ HB). simpl. by rewrite Hdiag, Hproof. }
  intros u i Hu Hrow e link.
  pose proof (built_view_wf s request limits src dst b vts stv Hs Hedges Hmodel HB) as Hwf.
  destruct (vw_edge _ Hwf u i Hu Hrow) as (He & _).
  rewrite (built_snapshot_eq s request limits src dst b vts stv HB) in He. fold e in He.
  destruct (proj1 (built_row s request limits src dst b vts stv Hs Hedges Hmodel HB u e
    (a_degraded (AdjacencyAt (vb_view b) i)) Hu He)) as (_ & _ & Hel & _); [by exists i|].
  pose proof (ee_state _ _ _ _ Hel) as Hstate. unfold link_admissible in Hstate. simpl in Hstate.
  rewrite Hdiag, Hproof in Hstate. simpl in Hstate. fold link in Hstate. split; [naive_solver|].
  intros p Hp.
  assert (Hport : port_admissible (view_config s request limits) p).
  { apply elem_of_cons in Hp as [->|Hp%list_elem_of_singleton]; [by apply Hel|subst; by apply Hel]. }
  unfold port_admissible in Hport. simpl in Hport. rewrite Hdiag, Hproof in Hport.
  simpl in Hport. cbv zeta. naive_solver.
Qed.

(** The demo view meets the hypotheses of the theorems above. *)
Definition demo_view : PlanningViewBuild :=
  BuildPlanningView Demo.snapshot demo_request default_limits (Demo.node 1) (Demo.node 4).

Lemma demo_snapshot_wf : snapshot_wf Demo.snapshot.
Proof. apply (published_wf Demo.builder); [apply run_ops_wf|exact Demo.snapshot_built]. Qed.
Lemma demo_edges_typed : Forall edge_typed (s_edges Demo.snapshot).
Proof. exact (proj2 (st_edges _ demo_typed)). Qed.

Lemma build_view_wf_witness :
  ViewWf (vb_view demo_view) ∧ NodeCount (vb_view demo_view) = 4%nat.
Proof.
  split; [|vm_compute; reflexivity].
  apply (build_view_wf Demo.snapshot demo_request default_limits (Demo.node 1) (Demo.node 4)).
  - apply demo_snapshot_wf.
  - apply demo_edges_typed.
  - repeat split; vm_compute; congruence.
  - vm_compute. reflexivity.
Defined.

Lemma view_exact_witness :
  let n := nth 0 (s_nodes Demo.snapshot) null_node in
  (∃ u, (u < NodeCount (vb_view demo_view))%nat ∧ NodeAt (vb_view demo_view) u = n) ↔
  node_eligible (view_config Demo.snapshot demo_request default_limits) demo_request n.
Proof.
  refine (proj1 (view_exact Demo.snapshot demo_request default_limits
    (Demo.node 1) (Demo.node 4) _ _ _ _) _ _); [..|by apply (list_elem_of_lookup_2 _ 0)].
  - apply demo_snapshot_wf.
  - apply demo_edges_typed.
  - repeat split; vm_compute; congruence.
  - vm_compute. reflexivity.
Defined.

Lemma view_accepts_exactly_witness :
  vb_fatal demo_view = None ↔
  (∀ x, x ∈ [Demo.node 1; Demo.node 4] → ∃ n, n ∈ s_nodes Demo.snapshot ∧ n_id n = x ∧
     node_eligible (view_config Demo.snapshot demo_request default_limits) demo_request n) ∧
  (∀ r, r ∈ cs_required_capabilities (rq_constraints demo_request) →
     endpoint_capable (view_config Demo.snapshot demo_request default_limits)
       (Demo.node 1) (Demo.node 4) r).
Proof.
  apply view_accepts_exactly; [apply demo_snapshot_wf|]. vm_compute. congruence.
Defined.

Lemma standard_view_proven_witness : v_provisional (vb_view demo_view) = false.
Proof.
  apply (standard_view_proven Demo.snapshot demo_request default_limits (Demo.node 1) (Demo.node 4)).
  - apply demo_snapshot_wf.
  - apply demo_edges_typed.
  - repeat split; vm_compute; congruence.
  - reflexivity.
  - reflexivity.
  - vm_compute. reflexivity.
Defined.
