(* ===== verification/Result.v ===== *)
(** result.hpp / result.cpp: planning results and path plans, the semantic encoding
    that identifies a plan, its dependencies, and the currentness and replanning
    reports. *)

From S2P Require Import Prelude Canonical Sha256 Status Ids Codec Limits Graph Path Request View.

Record PlanningResult := MkResult {
  rs_status : PlanStatus.t; rs_primary_failure : option DiagnosticCode.t;
  rs_source_endpoint : EndpointId; rs_destination_endpoint : EndpointId;
  rs_source_node : NodeId; rs_destination_node : NodeId;
  rs_candidates : list Candidate; rs_rejections : list RejectionExplanation;
  rs_explanations : list ExplanationEntry; rs_evidence : EvidenceVector;
  rs_plan_id : PathPlanId; rs_planning_generation : Z; rs_semantic_digest : bytes;
  rs_requested_candidates : Z; rs_truncated : bool; rs_diagnostic_mode : bool
}.

Definition zero_evidence : EvidenceVector :=
  MkEvidence (nil_id _) zero_generations EvidenceSource.kSynthetic 0.
Definition zero_digest : bytes := replicate kSha256Bytes 0.
Definition empty_result : PlanningResult :=
  MkResult PlanStatus.kNoPath None (nil_id _) (nil_id _) (nil_id _) (nil_id _) [] [] []
    zero_evidence (nil_id _) 0 zero_digest 0 false false.

Definition HasCandidates (r : PlanningResult) : bool := CarriesCandidates (rs_status r).

(** Assignments to fields of the result being built. *)
Definition explain (code : DiagnosticCode.t) (detail : string) (r : PlanningResult) :
  PlanningResult :=
  MkResult (rs_status r) (rs_primary_failure r) (rs_source_endpoint r) (rs_destination_endpoint r)
    (rs_source_node r) (rs_destination_node r) (rs_candidates r) (rs_rejections r)
    (rs_explanations r ++ [MkExplanation code detail]) (rs_evidence r) (rs_plan_id r)
    (rs_planning_generation r) (rs_semantic_digest r) (rs_requested_candidates r)
    (rs_truncated r) (rs_diagnostic_mode r).
Definition explain_all (l : list ExplanationEntry) (r : PlanningResult) : PlanningResult :=
  fold_left (λ r e, explain (xe_code e) (xe_detail e) r) l r.
Definition set_status (status : PlanStatus.t) (r : PlanningResult) : PlanningResult :=
  MkResult status (rs_primary_failure r) (rs_source_endpoint r) (rs_destination_endpoint r)
    (rs_source_node r) (rs_destination_node r) (rs_candidates r) (rs_rejections r)
    (rs_explanations r) (rs_evidence r) (rs_plan_id r) (rs_planning_generation r)
    (rs_semantic_digest r) (rs_requested_candidates r) (rs_truncated r) (rs_diagnostic_mode r).
Definition set_failure (failure : option DiagnosticCode.t) (r : PlanningResult) : PlanningResult :=
  MkResult (rs_status r) failure (rs_source_endpoint r) (rs_destination_endpoint r)
    (rs_source_node r) (rs_destination_node r) (rs_candidates r) (rs_rejections r)
    (rs_explanations r) (rs_evidence r) (rs_plan_id r) (rs_planning_generation r)
    (rs_semantic_digest r) (rs_requested_candidates r) (rs_truncated r) (rs_diagnostic_mode r).
Definition set_rejections (rejections : list RejectionExplanation) (r : PlanningResult) :
  PlanningResult :=
  MkResult (rs_status r) (rs_primary_failure r) (rs_source_endpoint r) (rs_destination_endpoint r)
    (rs_source_node r) (rs_destination_node r) (rs_candidates r) rejections
    (rs_explanations r) (rs_evidence r) (rs_plan_id r) (rs_planning_generation r)
    (rs_semantic_digest r) (rs_requested_candidates r) (rs_truncated r) (rs_diagnostic_mode r).
Definition set_truncated (truncated : bool) (r : PlanningResult) : PlanningResult :=
  MkResult (rs_status r) (rs_primary_failure r) (rs_source_endpoint r) (rs_destination_endpoint r)
    (rs_source_node r) (rs_destination_node r) (rs_candidates r) (rs_rejections r)
    (rs_explanations r) (rs_evidence r) (rs_plan_id r) (rs_planning_generation r)
    (rs_semantic_digest r) (rs_requested_candidates r) truncated (rs_diagnostic_mode r).
Definition set_candidates (candidates : list Candidate) (r : PlanningResult) : PlanningResult :=
  MkResult (rs_status r) (rs_primary_failure r) (rs_source_endpoint r) (rs_destination_endpoint r)
    (rs_source_node r) (rs_destination_node r) candidates (rs_rejections r)
    (rs_explanations r) (rs_evidence r) (rs_plan_id r) (rs_planning_generation r)
    (rs_semantic_digest r) (rs_requested_candidates r) (rs_truncated r) (rs_diagnostic_mode r).
Definition set_identity (plan_id : PathPlanId) (digest : bytes) (generation : Z)
    (r : PlanningResult) : PlanningResult :=
  MkResult (rs_status r) (rs_primary_failure r) (rs_source_endpoint r) (rs_destination_endpoint r)
    (rs_source_node r) (rs_destination_node r) (rs_candidates r) (rs_rejections r)
    (rs_explanations r) (rs_evidence r) plan_id generation digest (rs_requested_candidates r)
    (rs_truncated r) (rs_diagnostic_mode r).

Record PathPlan := MkPlan {
  pl_id : PathPlanId; pl_request : PlanningRequestId; pl_generation : Z;
  pl_publish_sequence : Z; pl_status : PlanStatus.t; pl_source : NodeId; pl_destination : NodeId;
  pl_layer : PathLayer.t; pl_evidence : EvidenceVector; pl_policy_generation : Z;
  pl_constraint_set : ConstraintSetId; pl_constraint_generation : Z; pl_diagnostic_mode : bool;
  pl_currentness_proven : bool; pl_candidates : list Candidate; pl_semantic_digest : bytes
}.

(** ** Identity *)

Definition EncodeCandidate (c : Candidate) (w : ByteWriter) : ByteWriter :=
  w |> FixedBytes (id_bytes (cd_id c)) |> U64 (c_total (cd_cost c)) |> U32 (c_hops (cd_cost c))
    |> U64 (c_static_cost (cd_cost c)) |> U64 (c_degraded_penalty (cd_cost c))
    |> U64 (c_locality_penalty (cd_cost c)) |> U32 (cd_rank c).

Definition EncodeSemantic (p : PathPlan) (w : ByteWriter) : ByteWriter :=
  w |> U32 kPlanningRuleVersion |> U32 kPlanDigestSchemeVersion
    |> FixedBytes (id_bytes (pl_request p)) |> FixedBytes (id_bytes (pl_source p))
    |> FixedBytes (id_bytes (pl_destination p)) |> U32 (enum_value (pl_layer p))
    |> U32 (enum_value (pl_status p)) |> Bool (pl_diagnostic_mode p)
    |> EncodeEvidence (pl_evidence p) |> U64 (pl_policy_generation p)
    |> FixedBytes (id_bytes (pl_constraint_set p)) |> U64 (pl_constraint_generation p)
    |> write_list EncodeCandidate (pl_candidates p).

Definition ComputeSemanticDigest (p : PathPlan) : bytes :=
  let ceiling := 4096 + Z.of_nat (length (pl_candidates p)) * 256 in
  let writer := EncodeSemantic p (new_writer ceiling) in
  early zero_digest when overflowed_ writer ;;
  Hash (data_ writer).

Definition ComputePlanId (p : PathPlan) : PathPlanId :=
  let digest := ComputeSemanticDigest p in
  early nil_id PathPlanIdTag when IsZero digest ;;
  FromDigest PathPlanIdTag digest.

Definition HasCandidate (p : PathPlan) (candidate : CandidatePathId) : bool :=
  existsb (λ existing, eqb (cd_id existing) candidate) (pl_candidates p).

Definition with_identity (id : PathPlanId) (digest : bytes) (p : PathPlan) : PathPlan :=
  MkPlan id (pl_request p) (pl_generation p) (pl_publish_sequence p) (pl_status p) (pl_source p)
    (pl_destination p) (pl_layer p) (pl_evidence p) (pl_policy_generation p) (pl_constraint_set p)
    (pl_constraint_generation p) (pl_diagnostic_mode p) (pl_currentness_proven p)
    (pl_candidates p) digest.

Definition MakePathPlan (request : PlanningRequest) (result : PlanningResult) (sequence : Z) :
  PathPlan :=
  let constraints := rq_constraints request in
  let diagnostic := enum_eqb (rq_mode request) PlanningMode.kDiagnosticNonCurrent in
  let plan :=
    MkPlan (nil_id _) (rq_id request) (rs_planning_generation result) sequence (rs_status result)
      (rs_source_node result) (rs_destination_node result) (cs_layer constraints)
      (rs_evidence result) (pp_generation (rq_policy request)) (cs_id constraints)
      (cs_generation constraints) diagnostic (negb diagnostic) (rs_candidates result) zero_digest in
  let plan := with_identity (nil_id _) (ComputeSemanticDigest plan) plan in
  with_identity (ComputePlanId plan) (pl_semantic_digest plan) plan.

(** ** Dependencies *)

Record PlanDependencies := MkDependencies {
  dp_subjects : list SubjectKey; dp_capabilities : list CapabilityId;
  dp_failure_domains : list FailureDomainId
}.

Definition hop_subjects (h : PathHop) : list SubjectKey :=
  [ForLink (h_link h); ForPort (h_from_port h); ForPort (h_to_port h)].
Definition candidate_subjects (c : Candidate) : list SubjectKey :=
  map ForNode (p_nodes (cd_path c)) ++ flat_map hop_subjects (p_hops (cd_path c)).

Definition CollectPlanDependencies (p : PathPlan) : PlanDependencies :=
  MkDependencies (unique_ids (sort_ids (flat_map candidate_subjects (pl_candidates p)))) [] [].

(** ** Reports *)

Record PlanCurrentnessReport := MkCurrentness {
  cr_currentness : Currentness.t; cr_changes : list ExplanationEntry;
  cr_prior_evidence : EvidenceVector; cr_current_evidence : EvidenceVector
}.

Record ReplanReport := MkReplan {
  rr_outcome : ReplanOutcome.t; rr_changes : list ExplanationEntry;
  rr_prior_digest : bytes; rr_current_digest : bytes; rr_same_semantic_plan : bool
}.

(** [size_t] is 64 bits wide. *)
Definition HashCombinePlan (p : PathPlan) : Z :=
  fold_left (λ hash b, wrap64 (Z.lxor hash b * 1099511628211)) (pl_semantic_digest p)
    1469598103934665603.
