(* ===== verification/Reach.v ===== *)
(** planner.cpp, [StructuralHopDistance]: the breadth-first search that tells
    "there is no path at all" from "every path was filtered out" and from "the
    path is longer than the hop bound", and the proof that it computes the
    minimum hop count of the structural graph. *)

From S2P Require Import Prelude Canonical Status Ids Codec Limits Graph Builder Path Request View ViewFacts.

(** [0xFFFFFFFFu], the distance of a node not reached yet. *)
Definition kUnreached : Z := 4294967295.

(** [index_of.emplace(nodes[index].id.ToString(), index)]: an existing entry stays. *)
Definition emplace_node (m : gmap string nat) (entry : nat * NodeRecord) : gmap string nat :=
  let key := IdToString (n_id entry.2) in
  match m !! key with Some _ => m | None => <[key := entry.1]> m end.
Definition index_nodes (nodes : list NodeRecord) : gmap string nat :=
  fold_left emplace_node (indexed nodes) ∅.

(** One iteration of the loop over the edges. *)
Definition add_adjacency (index : gmap string nat) (layer : PathLayer.t)
    (forbidden_nodes : list NodeId) (forbidden_links : list LinkId)
    (adjacency : list (list nat)) (edge : EdgeRecord) : list (list nat) :=
  early adjacency when negb (enum_eqb (e_layer edge) layer) ;;
  early adjacency when binary_search forbidden_links (e_id edge) ;;
  match index !! IdToString (e_from edge), index !! IdToString (e_to edge) with
  | Some from, Some to =>
      early adjacency
        when (binary_search forbidden_nodes (e_from edge) ||
              binary_search forbidden_nodes (e_to edge)) ;;
      alter (λ row, row ++ [to]) from adjacency
  | _, _ => adjacency
  end.

(** One iteration of the loop over the neighbours of [node]; the state is the
    distances and the part of the queue behind the head. *)
Definition visit (node : nat) (st : list Z * list nat) (next : nat) : list Z * list nat :=
  let '(distance, queue) := st in
  if nth next distance 0 =? kUnreached
  then (<[next := wrap32 (nth node distance 0 + 1)]> distance, queue ++ [next])
  else st.

(** [None] when the fuel runs out; [Some None] when the queue does. *)
Fixpoint bfs (fuel : nat) (adjacency : list (list nat)) (destination : nat)
    (queue : list nat) (distance : list Z) : option (option Z) :=
  match queue with
  | [] => Some None
  | node :: queue =>
      match fuel with
      | O => None
      | S fuel =>
          early Some (Some (nth node distance 0)) when (node =? destination)%nat ;;
          let '(distance, queue) :=
            fold_left (visit node) (nth node adjacency []) (distance, queue) in
          bfs fuel adjacency destination queue distance
      end
  end.

Definition structural_adjacency (s : FabricSnapshot) (request : PlanningRequest) : list (list nat) :=
  let constraints := rq_constraints request in
  fold_left
    (add_adjacency (index_nodes (s_nodes s)) (cs_layer constraints)
       (sort_ids (cs_forbidden_nodes constraints)) (sort_ids (cs_forbidden_links constraints)))
    (s_edges s) (replicate (length (s_nodes s)) []).

(** Every node enters the queue at most once, so the number of nodes is fuel enough. *)
Definition StructuralHopDistance (s : FabricSnapshot) (source destination : NodeId)
    (request : PlanningRequest) : option Z :=
  early Some 0 when eqb source destination ;;
  let nodes := s_nodes s in
  let index_of := index_nodes nodes in
  match index_of !! IdToString source, index_of !! IdToString destination with
  | Some source_index, Some destination_index =>
      default None
        (bfs (length nodes) (structural_adjacency s request) destination_index [source_index]
           (<[source_index := 0]> (replicate (length nodes) kUnreached)))
  | _, _ => None
  end.

(** ** Breadth-first search on indices *)

Inductive reach (adjacency : list (list nat)) : nat → nat → nat → Prop :=
  | reach_nil u : reach adjacency 0 u u
  | reach_snoc n u w x : reach adjacency n u w → x ∈ nth w adjacency [] →
      reach adjacency (S n) u x.

Section bfs.
Context (adjacency : list (list nat)) (source destination N : nat).
Context (Hsize : Z.of_nat N <= u32_max).
Context (Hrange : ∀ u x, x ∈ nth u adjacency [] → (x < N)%nat).

Definition unvisited (distance : list Z) : nat :=
  length (filter (λ d, d = kUnreached) distance).
Definition visited (distance : list Z) (u : nat) : Prop :=
  (u < N)%nat ∧ nth u distance 0 ≠ kUnreached.

Notation dist D u := (nth u D 0) (only parsing).

(** What holds while the row of a node of level [k] is being read; [extra] are
    the neighbours still to be read. *)
Record BfsInv (k : Z) (queue : list nat) (D : list Z) : Prop := {
  bi_length : length D = N;
  bi_level : 0 <= k;
  bi_sound : ∀ u, visited D u → 0 <= dist D u ∧ reach adjacency (Z.to_nat (dist D u)) source u;
  bi_budget : ∀ u, visited D u → dist D u + Z.of_nat (unvisited D) < Z.of_nat N;
  bi_near : ∀ n u, Z.of_nat n <= k → reach adjacency n source u →
    visited D u ∧ dist D u <= Z.of_nat n;
  bi_queue : ∀ u, u ∈ queue → visited D u ∧ k <= dist D u <= k + 1;
  bi_sorted : StronglySorted (λ u w, dist D u <= dist D w) queue;
  bi_top : ∀ u, visited D u → dist D u <= k + 1
}.

(** Visited nodes other than [skip] that left the queue have been expanded. *)
Definition expanded (skip : nat → Prop) (queue : list nat) (D : list Z) : Prop :=
  ∀ u x, visited D u → u ∉ queue → ¬ skip u → x ∈ nth u adjacency [] →
    visited D x ∧ dist D x <= dist D u + 1.

Lemma unvisited_insert D u d :
  nth u D 0 = kUnreached → (u < length D)%nat → d ≠ kUnreached →
  S (unvisited (<[u := d]> D)) = unvisited D.
Proof.
  revert u. induction D as [|x D IH]; intros u Hu Hl Hd; simpl in *; [lia|].
  unfold unvisited in *. destruct u as [|u]; simpl in *.
  - rewrite (filter_cons_False _ d), (filter_cons_True _ x); done || simpl; congruence.
  - rewrite !filter_cons. specialize (IH u Hu ltac:(lia) Hd).
    destruct (decide (x = kUnreached)); simpl; lia.
Qed.

Lemma unvisited_pos D u :
  nth u D 0 = kUnreached → (u < length D)%nat → (0 < unvisited D)%nat.
Proof.
  intros Hu Hl. destruct (unvisited D) eqn:E; [|lia]. apply length_zero_iff_nil in E.
  assert (Hin : kUnreached ∈ filter (λ d, d = kUnreached) D); [|rewrite E in Hin; set_solver].
  apply list_elem_of_filter. split; [done|]. rewrite <- Hu. apply list_elem_of_In. by apply nth_In.
Qed.

Lemma visited_insert D x d u :
  length D = N → (x < N)%nat → d ≠ kUnreached → visited (<[x := d]> D) u ↔ u = x ∨ visited D u.
Proof.
  intros HD Hx Hd. unfold visited. rewrite nth_insert by lia.
  destruct (decide (u = x)) as [->|Hne]; naive_solver.
Qed.

Lemma visited_lt D u : visited D u → (u < N)%nat.
Proof. by intros []. Qed.

(** Reading one neighbour of [node] at level [k]. *)
Lemma visit_step k queue D node x :
  BfsInv k queue D → visited D node → dist D node = k → x ∈ nth node adjacency [] →
  let '(D', queue') := visit node (D, queue) x in
  BfsInv k queue' D' ∧ visited D' x ∧
  (unvisited D' + length queue' = unvisited D + length queue)%nat ∧
  (∀ u, visited D u → visited D' u ∧ dist D' u = dist D u) ∧
  (∀ u, visited D' u → visited D u ∨ u ∈ queue') ∧
  (∀ u, u ∈ queue → u ∈ queue').
Proof.
  intros Hinv Hnode Hk Hx. pose proof (Hrange _ _ Hx) as Hlt.
  destruct Hinv as [Hlen Hlevel Hsound Hbudget Hnear Hqueue Hsorted Htop].
  unfold visit. destruct (Z.eqb_spec (dist D x) kUnreached) as [E|E].
  2: { split_and!; auto; [constructor; auto|split; done]. }
  pose proof (Hbudget _ Hnode) as Hb.
  assert (Hd : wrap32 (dist D node + 1) = k + 1) by (rewrite Hk; apply wrap32_small; unfold kUnreached, u32_max in *; lia).
  rewrite Hd. pose proof (unvisited_pos D x E ltac:(lia)) as Hpos.
  assert (Hne : k + 1 ≠ kUnreached) by (unfold kUnreached, u32_max in *; lia).
  set (D' := <[x := k + 1]> D).
  assert (Hat : ∀ u, dist D' u = if decide (u = x) then k + 1 else dist D u)
    by (intros u; apply nth_insert; lia).
  assert (Hvis : ∀ u, visited D' u ↔ u = x ∨ visited D u) by (intros u; by apply visited_insert).
  assert (Hfresh : ¬ visited D x) by (intros [_ ?]; done).
  assert (Hold : ∀ u, visited D u → visited D' u ∧ dist D' u = dist D u).
  { intros u Hu. split; [apply Hvis; by right|]. rewrite Hat, decide_False; [done|by intros ->]. }
  pose proof (unvisited_insert D x (k + 1) E ltac:(lia) Hne) as Hcount. fold D' in Hcount.
  split_and!; [|apply Hvis; by left|rewrite length_app; simpl; lia|done| |set_solver].
  2: { intros u [->|Hu]%Hvis; [right; set_solver|by left]. }
  constructor.
  - unfold D'. by rewrite length_insert.
  - done.
  - intros u [->|Hu]%Hvis; [|destruct (Hold u Hu) as [_ ->]; auto].
    rewrite Hat, decide_True by done. split; [lia|].
    replace (Z.to_nat (k + 1)) with (S (Z.to_nat k)) by lia.
    apply reach_snoc with node; [|done]. rewrite <- Hk. by apply Hsound.
  - intros u [->|Hu]%Hvis.
    + rewrite Hat, decide_True by done. lia.
    + destruct (Hold u Hu) as [_ ->]. specialize (Hbudget u Hu). lia.
  - intros n u Hn Hu. destruct (Hnear n u Hn Hu) as [Hv Hle]. destruct (Hold u Hv) as [? ->]. done.
  - intros u [Hu| ->%list_elem_of_singleton]%elem_of_app.
    + destruct (Hqueue u Hu) as [Hv Hle]. destruct (Hold u Hv) as [? ->]. done.
    + rewrite Hat, decide_True by done. split; [apply Hvis; by left|lia].
  - apply StronglySorted_snoc; [|apply Forall_forall].
    + apply StronglySorted_of_lookup. intros i j u w Hij Hi Hj.
      destruct (Hold u) as [_ ->]; [by apply Hqueue, (list_elem_of_lookup_2 _ i)|].
      destruct (Hold w) as [_ ->]; [by apply Hqueue, (list_elem_of_lookup_2 _ j)|].
      exact (StronglySorted_lookup_lt _ _ i j u w Hsorted Hij Hi Hj).
    + intros u Hu. destruct (Hqueue u Hu) as [Hv Hle]. destruct (Hold u Hv) as [_ ->].
      rewrite Hat, decide_True by done. lia.
  - intros u [->|Hu]%Hvis; [rewrite Hat, decide_True by done; lia|].
    destruct (Hold u Hu) as [_ ->]. auto.
Qed.

(** The loop over the neighbours of [node]. *)
Record RowInv (k : Z) (node : nat) (read : list nat) (st : list Z * list nat) : Prop := {
  ri_inv : BfsInv k st.2 st.1;
  ri_node : visited st.1 node;
  ri_level : dist st.1 node = k;
  ri_read : ∀ x, x ∈ read → visited st.1 x;
  ri_expanded : expanded (eq node) st.2 st.1;
  ri_source : visited st.1 source;
  ri_destination : visited st.1 destination → destination ∈ st.2
}.

Lemma RowInv_step k node read st x :
  RowInv k node read st → x ∈ nth node adjacency [] →
  RowInv k node (read ++ [x]) (visit node st x) ∧
  (unvisited (visit node st x).1 + length (visit node st x).2 = unvisited st.1 + length st.2)%nat.
Proof.
  intros [Hinv Hnode Hk Hread Hexp Hsrc Hdest] Hx. destruct st as [D queue]. cbn [fst snd] in *.
  pose proof (visit_step k queue D node x Hinv Hnode Hk Hx) as Hstep.
  destruct (visit node (D, queue) x) as [D' queue'].
  destruct Hstep as (Hinv' & Hvx & Hcount & Hold & Hnew & Hkeep). cbn [fst snd]. split; [|done].
  constructor; cbn [fst snd]; [done|by apply Hold| |..].
  - destruct (Hold _ Hnode) as [_ ->]. done.
  - intros y [Hy| ->%list_elem_of_singleton]%elem_of_app; [by apply Hold, Hread|done].
  - intros u y Hu Hq Hne Hy. destruct (Hnew u Hu) as [Hv|?]; [|done].
    destruct (Hexp u y Hv (λ H, Hq (Hkeep u H)) Hne Hy) as [Hvy Hle].
    destruct (Hold u Hv) as [_ ->]. destruct (Hold y Hvy) as [? ->]. done.
  - by apply Hold.
  - intros Hd. destruct (Hnew _ Hd) as [Hv|?]; auto.
Qed.

Lemma RowInv_row k node l read st :
  (∀ x, x ∈ l → x ∈ nth node adjacency []) → RowInv k node read st →
  let st' := fold_left (visit node) l st in
  RowInv k node (read ++ l) st' ∧
  (unvisited st'.1 + length st'.2 = unvisited st.1 + length st.2)%nat.
Proof.
  revert read st. induction l as [|x l IH]; intros read st Hl Hst; simpl.
  { by rewrite app_nil_r. }
  destruct (RowInv_step k node read st x Hst (Hl x (list_elem_of_here _ _))) as [Hst' Hc].
  destruct (IH (read ++ [x]) _ (λ y Hy, Hl y (list_elem_of_further _ _ _ Hy)) Hst') as [H1 H2].
  rewrite <- app_assoc in H1. split; [done|]. by rewrite H2.
Qed.

(** The level moves on when the last node of the current one has been expanded. *)
Lemma next_level k node queue D :
  BfsInv k (node :: queue) D → expanded (λ _, False) (node :: queue) D → dist D node ≠ k →
  BfsInv (k + 1) (node :: queue) D.
Proof.
  intros [Hlen Hlevel Hsound Hbudget Hnear Hqueue Hsorted Htop] Hexp Hne.
  assert (Hq : ∀ u, u ∈ node :: queue → dist D u = k + 1).
  { intros u Hu. destruct (Hqueue node) as [_ Hn]; [left|]. destruct (Hqueue u Hu) as [_ Hr].
    apply StronglySorted_inv in Hsorted as [_ Hall]. rewrite Forall_forall in Hall.
    apply elem_of_cons in Hu as [->|Hu]; [lia|]. specialize (Hall u Hu). lia. }
  constructor; auto; [lia| |..].
  - intros n u Hn Hu. destruct (decide (Z.of_nat n <= k)) as [|Hgt]; [by apply Hnear|].
    inversion Hu as [|m ? w ? Hw Hin]; subst; [lia|].
    destruct (Hnear m w ltac:(lia) Hw) as [Hv Hle].
    destruct (Hexp w u Hv) as [Hvu Hd]; [|naive_solver..|].
    { intros Hwq%Hq. lia. }
    split; [done|lia].
  - intros u Hu. split; [by apply Hqueue|]. rewrite (Hq u Hu). lia.
  - intros u Hu. specialize (Htop u Hu). lia.
Qed.

Lemma reach_visited n u D :
  expanded (λ _, False) [] D → visited D source → reach adjacency n source u → visited D u.
Proof.
  intros Hexp Hs Hr. remember source as s eqn:E. induction Hr as [|n s w x _ IH Hx]; [done|].
  apply (Hexp w x); [by apply IH|set_solver|by intros []|done].
Qed.

Lemma bfs_spec fuel queue D k :
  BfsInv k queue D → expanded (λ _, False) queue D → visited D source →
  (visited D destination → destination ∈ queue) → (unvisited D + length queue <= fuel)%nat →
  match bfs fuel adjacency destination queue D with
  | Some (Some d) => 0 <= d ∧ reach adjacency (Z.to_nat d) source destination ∧
      ∀ n, reach adjacency n source destination → d <= Z.of_nat n
  | Some None => ∀ n, ¬ reach adjacency n source destination
  | None => False
  end.
Proof.
  revert queue D k. induction fuel as [|fuel IH]; intros queue D k Hinv Hexp Hsrc Hdest Hfuel.
  all: destruct queue as [|node queue]; simpl in *.
  1,3: intros n Hn%(reach_visited _ _ D Hexp Hsrc)%Hdest; set_solver.
  { lia. }
  assert (∃ k', BfsInv k' (node :: queue) D ∧ dist D node = k') as (k' & Hinv' & Hk).
  { destruct (decide (dist D node = k)) as [|Hne]; [by exists k|]. exists (k + 1).
    split; [by apply next_level|]. destruct (bi_queue _ _ _ Hinv node); [left|lia]. }
  clear k Hinv. rename k' into k. pose proof Hinv' as [Hlen Hlevel Hsound Hbudget Hnear Hqueue Hsorted Htop].
  destruct (Hqueue node) as [Hnode _]; [left|].
  destruct (Nat.eqb_spec node destination) as [->|Hnd].
  { destruct (Hsound _ Hnode) as [H0 Hr]. split_and!; [done|done|]. intros n Hn.
    destruct (decide (Z.of_nat n <= dist D destination)) as [Hle|]; [|lia].
    by apply (Hnear n destination); [lia|]. }
  assert (Hrow : RowInv k node [] (D, queue)).
  { constructor; simpl; auto; [|by intros ? ?%not_elem_of_nil| |].
    - constructor; auto; [intros u Hu; apply Hqueue; by right|]. by apply StronglySorted_inv in Hsorted as [? _].
    - intros u x Hu Hq Hne. apply Hexp; [done| |auto]. intros [->|?]%elem_of_cons; done.
    - intros Hd%Hdest. apply elem_of_cons in Hd as [?|?]; [congruence|done]. }
  destruct (RowInv_row k node _ [] _ (λ x H, H) Hrow) as [[Hi Hn Hk' Hread He Hs Hd] Hcount].
  destruct (fold_left (visit node) (nth node adjacency []) (D, queue)) as [D' queue'].
  cbn [fst snd app] in *.
  apply (IH queue' D' k); auto; [|lia].
  intros u x Hu Hq _ Hx. destruct (decide (u = node)) as [->|Hne]; [|by apply He].
  split; [by apply Hread|]. rewrite Hk'. apply (bi_top _ _ _ Hi). by apply Hread.
Qed.

Lemma unvisited_replicate n : unvisited (replicate n kUnreached) = n.
Proof.
  unfold unvisited. induction n as [|n IH]; [done|]. cbn [replicate].
  rewrite filter_cons_True by done. simpl. by rewrite IH.
Qed.

Lemma bfs_correct :
  (source < N)%nat →
  match bfs N adjacency destination [source] (<[source := 0]> (replicate N kUnreached)) with
  | Some (Some d) => 0 <= d ∧ reach adjacency (Z.to_nat d) source destination ∧
      ∀ n, reach adjacency n source destination → d <= Z.of_nat n
  | Some None => ∀ n, ¬ reach adjacency n source destination
  | None => False
  end.
Proof.
  intros Hs. set (D := <[source := 0]> (replicate N kUnreached)).
  assert (Hat : ∀ u, dist D u = if decide (u = source) then 0 else dist (replicate N kUnreached) u)
    by (intros u; apply nth_insert; by rewrite length_replicate).
  assert (Hun : ∀ u, (u < N)%nat → nth u (replicate N kUnreached) 0 = kUnreached).
  { intros u Hu. rewrite nth_lookup. by rewrite lookup_replicate_2. }
  assert (Hvis : ∀ u, visited D u ↔ u = source).
  { intros u. unfold visited. rewrite Hat. destruct (decide (u = source)) as [->|Hne]; [done|].
    split; [|done]. intros [Hu Hd]. by rewrite Hun in Hd. }
  pose proof (unvisited_insert (replicate N kUnreached) source 0 (Hun _ Hs)
    ltac:(by rewrite length_replicate) ltac:(done)) as Hcount.
  fold D in Hcount. rewrite unvisited_replicate in Hcount.
  assert (H0 : dist D source = 0) by (rewrite Hat; by rewrite decide_True).
  apply (bfs_spec N [source] D 0).
  - constructor.
    + unfold D. by rewrite length_insert, length_replicate.
    + done.
    + intros u ->%Hvis. rewrite H0. split; [done|constructor].
    + intros u ->%Hvis. rewrite H0. lia.
    + intros n u Hn Hr. inversion Hr; subst; [|lia]. rewrite H0. by rewrite Hvis.
    + intros u ->%list_elem_of_singleton. rewrite H0, Hvis. lia.
    + repeat constructor.
    + intros u ->%Hvis. lia.
  - intros u x Hu%Hvis Hq. set_solver.
  - by apply Hvis.
  - intros ->%Hvis. set_solver.
  - simpl. lia.
Qed.
End bfs.

(** ** The structural graph *)

Section structure.
Context (s : FabricSnapshot) (request : PlanningRequest).
Context (Hwf : snapshot_wf s) (Htyped : snapshot_typed s).
Notation constraints := (rq_constraints request).

(** An edge of the requested layer that no constraint forbids by name. *)
Record structural_edge (e : EdgeRecord) : Prop := {
  se_edge : e ∈ s_edges s;
  se_layer : e_layer e = cs_layer constraints;
  se_link : e_id e ∉ cs_forbidden_links constraints;
  se_from : e_from e ∉ cs_forbidden_nodes constraints;
  se_to : e_to e ∉ cs_forbidden_nodes constraints
}.

Inductive structural_walk : nat → NodeId → NodeId → Prop :=
  | sw_nil x : structural_walk 0 x x
  | sw_snoc n x e : structural_walk n x (e_from e) → structural_edge e →
      structural_walk (S n) x (e_to e).

Lemma node_typed_id n : n ∈ s_nodes s → id_wf (n_id n).
Proof.
  intros Hn. pose proof (proj2 (st_nodes _ Htyped)) as H. rewrite Forall_forall in H.
  by apply (H n).
Qed.

Lemma index_nodes_text l key i :
  NoDup (map (λ n, IdToString (n_id n)) l) →
  index_nodes l !! key = Some i ↔ ∃ n, l !! i = Some n ∧ IdToString (n_id n) = key.
Proof.
  unfold index_nodes. revert key i. induction l as [|y l IH] using rev_ind; intros key i Hnd.
  { simpl. rewrite lookup_empty. naive_solver. }
  rewrite map_app in Hnd. apply NoDup_app in Hnd as (Hnd & Hfresh & _).
  pose proof (λ key i, IH key i Hnd) as Hm. clear IH.
  rewrite indexed_app, fold_left_app. cbn [fold_left]. set (m := fold_left emplace_node _ _) in *.
  unfold emplace_node. cbn [fst snd].
  assert (Hnone : m !! IdToString (n_id y) = None).
  { apply eq_None_not_Some. intros [j (n & Hj & Hn)%Hm].
    apply (Hfresh (IdToString (n_id y))); [|set_solver]. apply list_elem_of_fmap.
    exists n. split; [done|]. by apply list_elem_of_lookup_2 in Hj. }
  rewrite Hnone, lookup_insert_Some, Hm. setoid_rewrite lookup_app_Some.
  setoid_rewrite list_lookup_singleton_Some. split.
  - intros [[<- <-]|[Hne (n & Hi & Hn)]]; [exists y|exists n; by auto].
    split; [right; split; [lia|]; split; [lia|done]|done].
  - intros (n & [Hi|(Hi & H0 & <-)] & <-); [right|left; split; [done|lia]].
    split; [|by exists n]. intros Heq. apply (Hfresh (IdToString (n_id y))); [|set_solver].
    rewrite Heq. apply list_elem_of_fmap. exists n. split; [done|]. by apply list_elem_of_lookup_2 in Hi.
Qed.

Lemma NoDup_texts : NoDup (map (λ n, IdToString (n_id n)) (s_nodes s)).
Proof.
  pose proof (strictly_sorted_NoDup n_id _ (sw_nodes _ Hwf)) as Hnd.
  pose proof node_typed_id as Hty. revert Hnd Hty. generalize (s_nodes s). intros l.
  induction l as [|y l IH]; simpl; intros Hnd Hty; [constructor|].
  apply NoDup_cons in Hnd as [Hy Hnd]. constructor; [|apply IH; [done|intros n Hn; apply Hty; by right]].
  intros (n & Heq & Hn)%list_elem_of_fmap. apply Hy. apply list_elem_of_fmap. exists n. split; [|done].
  apply (IdToString_inj _ _); [apply Hty; left|apply Hty; by right|done].
Qed.

Definition index_of (x : NodeId) : option nat := index_nodes (s_nodes s) !! IdToString x.

Lemma index_of_Some x i :
  id_wf x → index_of x = Some i ↔ ∃ n, s_nodes s !! i = Some n ∧ n_id n = x.
Proof.
  intros Hx. unfold index_of. rewrite (index_nodes_text _ _ _ NoDup_texts).
  split; intros (n & Hi & Hn); exists n; (split; [done|]); [|by f_equal].
  apply (IdToString_inj _ _); [|done|done]. apply node_typed_id. by apply list_elem_of_lookup_2 in Hi.
Qed.

Lemma index_of_inj x y i : id_wf x → id_wf y → index_of x = Some i → index_of y = Some i → x = y.
Proof.
  intros Hx Hy (n & Hi & Hn)%index_of_Some (n' & Hi' & Hn')%index_of_Some; [|done..]. congruence.
Qed.

Lemma edge_id_wf e : e ∈ s_edges s → id_wf (e_from e) ∧ id_wf (e_to e).
Proof.
  intros He. pose proof (proj2 (st_edges _ Htyped)) as H. rewrite Forall_forall in H.
  destruct (H e He) as (_ & ? & ? & _). done.
Qed.

Lemma index_of_edge e : e ∈ s_edges s →
  ∃ i j, index_of (e_from e) = Some i ∧ index_of (e_to e) = Some j.
Proof.
  intros He. destruct (edge_id_wf e He) as [Hf Ht].
  destruct (sw_edge_refs _ Hwf e He) as [(n & Hn & Hnf & _) (n' & Hn' & Hnt & _)].
  apply list_elem_of_lookup in Hn as [i Hi]. apply list_elem_of_lookup in Hn' as [j Hj].
  exists i, j. split; apply index_of_Some; eauto.
Qed.

Notation step := (add_adjacency (index_nodes (s_nodes s)) (cs_layer constraints)
  (sort_ids (cs_forbidden_nodes constraints)) (sort_ids (cs_forbidden_links constraints))).

Definition structural_test (e : EdgeRecord) : bool :=
  enum_eqb (e_layer e) (cs_layer constraints) &&
  negb (binary_search (sort_ids (cs_forbidden_links constraints)) (e_id e)) &&
  negb (binary_search (sort_ids (cs_forbidden_nodes constraints)) (e_from e) ||
        binary_search (sort_ids (cs_forbidden_nodes constraints)) (e_to e)).

Lemma structural_test_spec e : structural_edge e ↔ e ∈ s_edges s ∧ structural_test e = true.
Proof.
  unfold structural_test. rewrite !andb_true_iff, !negb_true_iff, orb_false_iff.
  rewrite !binary_search_sort_false, enum_eqb_eq.
  split; [intros []; by split_and!|]. intros (? & (? & ?) & ? & ?). by constructor.
Qed.

Lemma add_adjacency_step adjacency e i j :
  index_of (e_from e) = Some i → index_of (e_to e) = Some j →
  step adjacency e = if structural_test e then alter (λ row, row ++ [j]) i adjacency else adjacency.
Proof.
  unfold index_of, add_adjacency, structural_test. intros -> ->.
  destruct (enum_eqb _ _), (binary_search _ (e_id e)), (binary_search _ (e_from e)),
    (binary_search _ (e_to e)); done.
Qed.

Lemma nth_alter_snoc (adjacency : list (list nat)) i j u x :
  (i < length adjacency)%nat →
  x ∈ nth u (alter (λ row, row ++ [j]) i adjacency) [] ↔ x ∈ nth u adjacency [] ∨ u = i ∧ x = j.
Proof.
  intros Hi. rewrite !nth_lookup. destruct (decide (i = u)) as [<-|Hne].
  - rewrite list_lookup_alter_eq. destruct (lookup_lt_is_Some_2 adjacency i Hi) as [row ->]. simpl.
    rewrite elem_of_app, list_elem_of_singleton. naive_solver.
  - rewrite list_lookup_alter_ne by done. naive_solver.
Qed.

Lemma adjacency_fold l adjacency u x :
  (∀ e, e ∈ l → e ∈ s_edges s) → length adjacency = length (s_nodes s) →
  x ∈ nth u (fold_left step l adjacency) [] ↔ x ∈ nth u adjacency [] ∨
    ∃ e, e ∈ l ∧ structural_edge e ∧ index_of (e_from e) = Some u ∧ index_of (e_to e) = Some x.
Proof.
  revert adjacency. induction l as [|e l IH]; intros adjacency Hl Hlen.
  { simpl. split; [by left|intros [?|(e & ?%not_elem_of_nil & _)]; done]. }
  assert (He : e ∈ s_edges s) by (apply Hl; left).
  destruct (index_of_edge e He) as (i & j & Hi & Hj). cbn [fold_left].
  assert (Hin : (i < length adjacency)%nat).
  { apply index_of_Some in Hi as (n & Hn & _); [|by apply edge_id_wf].
    rewrite Hlen. by apply lookup_lt_Some in Hn. }
  rewrite (add_adjacency_step _ _ _ _ Hi Hj), IH.
  2: { intros e' He'. apply Hl. by right. }
  2: { destruct (structural_test e); [|done]. by rewrite length_alter. }
  setoid_rewrite elem_of_cons. pose proof (structural_test_spec e) as Htest.
  destruct (structural_test e).
  - rewrite nth_alter_snoc by done. naive_solver.
  - naive_solver.
Qed.

Lemma adjacency_spec u x :
  x ∈ nth u (structural_adjacency s request) [] ↔
  ∃ e, structural_edge e ∧ index_of (e_from e) = Some u ∧ index_of (e_to e) = Some x.
Proof.
  unfold structural_adjacency. cbv zeta. rewrite adjacency_fold.
  - rewrite nth_replicate. split; [|intros (e & He & ?); right; exists e; split; [apply He|done]].
    intros [?%not_elem_of_nil|(e & _ & ?)]; [done|by exists e].
  - done.
  - by rewrite length_replicate.
Qed.

Lemma adjacency_range u x :
  x ∈ nth u (structural_adjacency s request) [] → (x < length (s_nodes s))%nat.
Proof.
  intros (e & He & _ & Hx)%adjacency_spec.
  apply index_of_Some in Hx as (? & ?%lookup_lt_Some & _); [done|by apply edge_id_wf, (se_edge _ He)].
Qed.

Lemma reach_walk n x y i j :
  id_wf x → id_wf y → index_of x = Some i → index_of y = Some j →
  reach (structural_adjacency s request) n i j ↔ structural_walk n x y.
Proof.
  intros Hx Hy Hi Hj. split.
  - intros Hr. revert y Hy Hj. induction Hr as [i|n i w j Hr IH Hin]; intros y Hy Hj.
    + rewrite (index_of_inj x y i) by done. constructor.
    + apply adjacency_spec in Hin as (e & He & Hw & Hto). pose proof (edge_id_wf e (se_edge _ He)) as [Hf Ht].
      rewrite (index_of_inj y (e_to e) j) by done. apply sw_snoc; [|done]. by apply (IH Hi).
  - intros Hr. revert j Hj Hy. induction Hr as [x|n x e Hr IH He]; intros j Hj Hy.
    + rewrite Hi in Hj. injection Hj as ->. constructor.
    + destruct (index_of_edge e (se_edge _ He)) as (w & ? & Hw & _).
      apply reach_snoc with w; [|apply adjacency_spec; by exists e].
      apply IH; [done|done|done|by apply edge_id_wf, (se_edge _ He)].
Qed.

(** A walk of at least one hop runs between published nodes. *)
Lemma walk_published n x y :
  structural_walk n x y → x = y ∨ ∃ i j, index_of x = Some i ∧ index_of y = Some j.
Proof.
  induction 1 as [x|n x e _ IH He]; [by left|right].
  destruct (index_of_edge e (se_edge _ He)) as (i & j & Hi & Hj).
  destruct IH as [->|(a & b & Ha & _)]; eauto.
Qed.

Lemma StructuralHopDistance_spec source destination :
  id_wf source → id_wf destination → Z.of_nat (length (s_nodes s)) <= u32_max →
  match StructuralHopDistance s source destination request with
  | Some d => 0 <= d ∧ structural_walk (Z.to_nat d) source destination ∧
      ∀ n, structural_walk n source destination → d <= Z.of_nat n
  | None => ∀ n, ¬ structural_walk n source destination
  end.
Proof.
  intros Hs Hd Hsize. unfold StructuralHopDistance. destruct (eqb source destination) eqn:E.
  { apply eqb_eq in E as ->. split_and!; [done|constructor|lia]. }
  apply eqb_neq in E. cbv zeta. fold (index_of source) (index_of destination).
  assert (Hno : ¬ (∃ i j, index_of source = Some i ∧ index_of destination = Some j) →
    ∀ n, ¬ structural_walk n source destination).
  { intros Hnot n [?|?]%walk_published; done. }
  destruct (index_of source) as [i|] eqn:Hi; [|apply Hno; naive_solver].
  destruct (index_of destination) as [j|] eqn:Hj; [|apply Hno; naive_solver]. clear Hno.
  assert (Hlt : (i < length (s_nodes s))%nat).
  { apply index_of_Some in Hi as (? & ?%lookup_lt_Some & _); done. }
  pose proof (bfs_correct (structural_adjacency s request) i j (length (s_nodes s)) Hsize
    adjacency_range Hlt) as Hbfs.
  pose proof (λ n, reach_walk n _ _ _ _ Hs Hd Hi Hj) as Hrw.
  destruct (bfs _ _ _ _ _) as [[d|]|]; cbn [default]; [|by setoid_rewrite Hrw in Hbfs|done].
  by setoid_rewrite Hrw in Hbfs.
Qed.
End structure.

(** C19: [StructuralHopDistance] is exact: it returns the length of a shortest
    sequence of published links of the requested layer, none of them forbidden and
    none touching a forbidden node, from the source to the destination, and nothing
    precisely when there is no such sequence; the loop never runs out of nodes. *)
Theorem structural_distance_exact s request source destination :
  snapshot_wf s → snapshot_typed s → id_wf source → id_wf destination →
  Z.of_nat (length (s_nodes s)) <= u32_max →
  match StructuralHopDistance s source destination request with
  | Some d => 0 <= d ∧ structural_walk s request (Z.to_nat d) source destination ∧
      ∀ n, structural_walk s request n source destination → d <= Z.of_nat n
  | None => ∀ n, ¬ structural_walk s request n source destination
  end.
Proof. intros Hwf Hty Hs Hd Hsize. by apply StructuralHopDistance_spec. Qed.

(** In the demo fabric the destination is two hops away although link 1 is
    forbidden, and node 9 is not published. *)
Lemma structural_distance_exact_witness :
  StructuralHopDistance Demo.snapshot (Demo.node 1) (Demo.node 4) demo_request = Some 2 ∧
  ¬ structural_walk Demo.snapshot demo_request 1 (Demo.node 1) (Demo.node 4) ∧
  ¬ structural_walk Demo.snapshot demo_request 3 (Demo.node 1) (Demo.node 9).
Proof.
  assert (Hid : ∀ k, k ∈ [1; 4; 9] → id_wf (Demo.node k)).
  { intros k Hk. split; [done|]. assert (k = 1 ∨ k = 4 ∨ k = 9) as [->|[->| ->]] by set_solver.
    all: repeat constructor; vm_compute; congruence. }
  assert (Hsize : Z.of_nat (length (s_nodes Demo.snapshot)) <= u32_max) by (vm_compute; congruence).
  pose proof (structural_distance_exact Demo.snapshot demo_request (Demo.node 1) (Demo.node 4)
    demo_snapshot_wf demo_typed (Hid 1 ltac:(set_solver)) (Hid 4 ltac:(set_solver)) Hsize) as H4.
  pose proof (structural_distance_exact Demo.snapshot demo_request (Demo.node 1) (Demo.node 9)
    demo_snapshot_wf demo_typed (Hid 1 ltac:(set_solver)) (Hid 9 ltac:(set_solver)) Hsize) as H9.
  assert (E4 : StructuralHopDistance Demo.snapshot (Demo.node 1) (Demo.node 4) demo_request = Some 2)
    by (vm_compute; reflexivity).
  assert (E9 : StructuralHopDistance Demo.snapshot (Demo.node 1) (Demo.node 9) demo_request = None)
    by (vm_compute; reflexivity).
  rewrite E4 in H4. rewrite E9 in H9. split_and!; [done| |apply H9].
  intros H. apply H4 in H. lia.
Defined.
