(* ===== verification/PathSearch.v ===== *)
(** search.hpp / search.cpp: the work budget, the ban sets, raw paths and their
    ranking, the two shortest-path searches and the candidate enumeration
    (staged transit legs and Yen's spur searches).

    View and adjacency indices are naturals, hop counts and costs are integers
    with their wrap-around written out. Every loop without a structural bound
    takes a fuel argument; SearchFacts.v shows the fuel is never exhausted. *)

From S2P Require Import Prelude Canonical Status Ids Codec Limits Graph Path Request View.
Import DiagnosticCode.

Definition kNoHopBound : Z := 4294967295.
Definition kInfiniteHops : Z := 4294967295.
Definition kMaxCost : Z := u64_max.

(** ** Budget *)

Record WorkBudget := MkBudget {
  wb_states_remaining : Z; wb_pushes_remaining : Z; wb_spur_remaining : Z;
  wb_exhausted : bool; wb_state_space_exceeded : bool
}.

(** What a [Searcher] holds by reference: the budget and the statistics. *)
Record Work := MkWork { w_budget : WorkBudget; w_stats : PlannerStatistics }.

Definition set_exhausted (w : Work) : Work :=
  let b := w_budget w in
  MkWork (MkBudget (wb_states_remaining b) (wb_pushes_remaining b) (wb_spur_remaining b) true
            (wb_state_space_exceeded b)) (w_stats w).

Definition SpendState (w : Work) : Work * bool :=
  let b := w_budget w in
  let s := w_stats w in
  early (set_exhausted w, false) when (wb_states_remaining b =? 0) ;;
  (MkWork (MkBudget (wb_states_remaining b - 1) (wb_pushes_remaining b) (wb_spur_remaining b)
             (wb_exhausted b) (wb_state_space_exceeded b))
     (MkStats (plans_computed s) (plans_published s) (plans_publish_rejected_stale s)
        (candidates_returned s) (wrap64 (states_expanded s + 1)) (queue_pushes s)
        (spur_searches s) (snapshots_published s) (epochs_advanced s)
        (invalidations_applied s) (plans_retired s)), true).

Definition SpendPush (w : Work) : Work * bool :=
  let b := w_budget w in
  let s := w_stats w in
  early (set_exhausted w, false) when (wb_pushes_remaining b =? 0) ;;
  (MkWork (MkBudget (wb_states_remaining b) (wb_pushes_remaining b - 1) (wb_spur_remaining b)
             (wb_exhausted b) (wb_state_space_exceeded b))
     (MkStats (plans_computed s) (plans_published s) (plans_publish_rejected_stale s)
        (candidates_returned s) (states_expanded s) (wrap64 (queue_pushes s + 1))
        (spur_searches s) (snapshots_published s) (epochs_advanced s)
        (invalidations_applied s) (plans_retired s)), true).

(** The spur counter of the enumeration, with the same discipline. *)
Definition SpendSpur (w : Work) : Work * bool :=
  let b := w_budget w in
  let s := w_stats w in
  early (set_exhausted w, false) when (wb_spur_remaining b =? 0) ;;
  (MkWork (MkBudget (wb_states_remaining b) (wb_pushes_remaining b) (wb_spur_remaining b - 1)
             (wb_exhausted b) (wb_state_space_exceeded b))
     (MkStats (plans_computed s) (plans_published s) (plans_publish_rejected_stale s)
        (candidates_returned s) (states_expanded s) (queue_pushes s)
        (wrap64 (spur_searches s + 1)) (snapshots_published s) (epochs_advanced s)
        (invalidations_applied s) (plans_retired s)), true).

(** ** Ban sets *)

Record BanSet := MkBans {
  bn_nodes : list nat; bn_adjacency : list nat; bn_normalized : bool
}.
Definition no_bans : BanSet := MkBans [] [] true.

Definition BanNode (view_index : nat) (b : BanSet) : BanSet :=
  MkBans (bn_nodes b ++ [view_index]) (bn_adjacency b) false.
Definition BanAdjacency (adjacency_index : nat) (b : BanSet) : BanSet :=
  MkBans (bn_nodes b) (bn_adjacency b ++ [adjacency_index]) false.

(** The members are [mutable]: the tests normalize the set they are called on,
    which no caller can observe. *)
Definition Normalize (b : BanSet) : BanSet :=
  early b when bn_normalized b ;;
  MkBans (unique_ids (sort_ids (bn_nodes b))) (unique_ids (sort_ids (bn_adjacency b))) true.
Definition NodeBanned (b : BanSet) (view_index : nat) : bool :=
  binary_search (bn_nodes (Normalize b)) view_index.
Definition AdjacencyBanned (b : BanSet) (adjacency_index : nat) : bool :=
  binary_search (bn_adjacency (Normalize b)) adjacency_index.

(** ** Raw paths *)

Record RawPath := MkRaw { rp_nodes : list nat; rp_adjacency : list nat }.
Definition empty_raw : RawPath := MkRaw [] [].
#[export] Instance RawPath_eq_dec : EqDecision RawPath.
Proof. solve_decision. Defined.

Definition SameRawPath (l r : RawPath) : bool :=
  eqb (rp_nodes l) (rp_nodes r) && eqb (rp_adjacency l) (rp_adjacency r).

Record RankedRawPath := MkRanked { rr_path : RawPath; rr_cost : PathCost }.

Definition node_id (v : PlanningView) (u : nat) : NodeId := n_id (NodeAt v u).
Definition edge_of (v : PlanningView) (i : nat) : EdgeRecord := EdgeAt v (a_edge (AdjacencyAt v i)).
Definition link_id (v : PlanningView) (i : nat) : LinkId := e_id (edge_of v i).

(** The comparison of two id sequences over their shared prefix: [None] where
    the loop falls through. *)
Fixpoint before_shared `{Ordered A} (l r : list A) : option bool :=
  match l, r with
  | x :: l, y :: r => if negb (eqb x y) then Some (ltb x y) else before_shared l r
  | _, _ => None
  end.

Definition RankedBefore (v : PlanningView) (l r : RankedRawPath) : bool :=
  early c_total (rr_cost l) <? c_total (rr_cost r)
    when negb (c_total (rr_cost l) =? c_total (rr_cost r)) ;;
  early c_hops (rr_cost l) <? c_hops (rr_cost r)
    when negb (c_hops (rr_cost l) =? c_hops (rr_cost r)) ;;
  let ln := rp_nodes (rr_path l) in
  let rn := rp_nodes (rr_path r) in
  match before_shared (map (node_id v) ln) (map (node_id v) rn) with
  | Some b => b
  | None =>
      early (length ln <? length rn)%nat when negb (length ln =? length rn)%nat ;;
      match before_shared (map (link_id v) (rp_adjacency (rr_path l)))
              (map (link_id v) (rp_adjacency (rr_path r))) with
      | Some b => b
      | None => false
      end
  end.

Definition hop_input (v : PlanningView) (i : nat) : HopCostInput :=
  MkHopCost (e_static_cost (edge_of v i)) (a_degraded (AdjacencyAt v i))
    (a_outside_locality (AdjacencyAt v i)).

Definition ComputeRawPathCost (v : PlanningView) (raw : RawPath) : option PathCost :=
  AccumulatePathCost (map (hop_input v) (rp_adjacency raw)) (v_cost_model v).

Definition RawPathRanksBefore (v : PlanningView) (l r : RawPath) : bool :=
  match ComputeRawPathCost v l, ComputeRawPathCost v r with
  | Some lc, Some rc => RankedBefore v (MkRanked l lc) (MkRanked r rc)
  | Some _, None => true
  | None, _ => false
  end.

(** The sorted association vector of the member counts. *)
Fixpoint bump_count (domain : FailureDomainId) (counts : list (FailureDomainId * Z)) :
  list (FailureDomainId * Z) * Z :=
  match counts with
  | [] => ([(domain, 1)], 1)
  | (d, n) :: rest =>
      if ltb d domain
      then let '(rest, m) := bump_count domain rest in ((d, n) :: rest, m)
      else if eqb d domain
      then ((d, wrap32 (n + 1)) :: rest, wrap32 (n + 1))
      else ((domain, 1) :: counts, 1)
  end.

Definition count_domain (limit : Z) (domain : FailureDomainId)
    (counts : list (FailureDomainId * Z)) : list (FailureDomainId * Z) * bool :=
  let '(counts, n) := bump_count domain counts in (counts, n >? limit).

Definition count_link (v : PlanningView) (limit : Z) (fail_closed : bool) (i : nat)
    (counts : list (FailureDomainId * Z)) : list (FailureDomainId * Z) * bool :=
  let membership := MembershipOf (s_failure_domains (v_snapshot v)) (ForLink (link_id v i)) in
  early (counts, fail_closed) when negb (mb_known membership) ;;
  for_each (count_domain limit) (mb_domains membership) counts.

Definition DomainMemberLimitCompliant (v : PlanningView) (raw : RawPath) (limit : Z)
    (fail_closed : bool) : bool :=
  early true when (length (rp_adjacency raw) =? 0)%nat ;;
  negb (for_each (count_link v limit fail_closed) (rp_adjacency raw) []).2.

Definition raw_hop (v : PlanningView) (i : nat) : PathHop :=
  let edge := edge_of v i in
  MkHop (e_id edge) (e_from edge) (e_to edge) (e_from_port edge) (e_to_port edge) (e_layer edge)
    (e_relationship edge) (e_structural_generation edge) (e_static_cost edge)
    (LinkStateOf (s_link_states (v_snapshot v)) (e_id edge)) (a_degraded (AdjacencyAt v i)).

Definition default_path : CandidatePath :=
  MkPath (nil_id _) (nil_id _) PathLayer.kPhysical [] [].

Definition BuildCandidatePath (v : PlanningView) (raw : RawPath) : CandidatePath :=
  match rp_nodes raw with
  | [] => default_path
  | first :: _ =>
      MkPath (node_id v first) (node_id v (List.last (rp_nodes raw) first)) (v_layer v)
        (map (node_id v) (rp_nodes raw)) (map (raw_hop v) (rp_adjacency raw))
  end.

Definition HopIncrement (v : PlanningView) (entry : Adjacency) : option Z :=
  CheckedAdd (cm_hop_cost (v_cost_model v)) (a_traversal_cost entry).

(** ** The priority queue *)

Record QueueEntry := MkEntry { q_cost : Z; q_hops : Z; q_state : nat }.

Definition QueueGreater (l r : QueueEntry) : bool :=
  early q_cost l >? q_cost r when negb (q_cost l =? q_cost r) ;;
  early q_hops l >? q_hops r when negb (q_hops l =? q_hops r) ;;
  (q_state r <? q_state l)%nat.

(** [top] and [pop] of the queue; entries that compare equal are equal. *)
Fixpoint pop_min (q : list QueueEntry) : option (QueueEntry * list QueueEntry) :=
  match q with
  | [] => None
  | e :: q =>
      match pop_min q with
      | None => Some (e, [])
      | Some (m, rest) => if QueueGreater e m then Some (m, e :: rest) else Some (e, q)
      end
  end.

Definition BetterLabel (cost hops other_cost other_hops : Z) : bool :=
  early cost <? other_cost when negb (cost =? other_cost) ;;
  hops <? other_hops.

(** ** Search over nodes *)

Record SearchOutcome := MkOutcome {
  so_found : bool; so_resource_limit : bool; so_cost_overflow : bool; so_path : RawPath
}.
Definition no_outcome (resource_limit overflow : bool) : SearchOutcome :=
  MkOutcome false resource_limit overflow empty_raw.

Record PlainState := MkPlain {
  ps_dist : list Z; ps_hops : list Z; ps_settled : list bool; ps_queue : list QueueEntry;
  ps_overflow : bool; ps_work : Work
}.
Definition dist_at (st : PlainState) (u : nat) : Z := nth u (ps_dist st) kMaxCost.
Definition hops_at (st : PlainState) (u : nat) : Z := nth u (ps_hops st) kInfiniteHops.
Definition settled_at (st : PlainState) (u : nat) : bool := nth u (ps_settled st) false.

Definition with_overflow (st : PlainState) : PlainState :=
  MkPlain (ps_dist st) (ps_hops st) (ps_settled st) (ps_queue st) true (ps_work st).
Definition with_work (w : Work) (st : PlainState) : PlainState :=
  MkPlain (ps_dist st) (ps_hops st) (ps_settled st) (ps_queue st) (ps_overflow st) w.
Definition with_queue (q : list QueueEntry) (st : PlainState) : PlainState :=
  MkPlain (ps_dist st) (ps_hops st) (ps_settled st) q (ps_overflow st) (ps_work st).
Definition with_settled (u : nat) (st : PlainState) : PlainState :=
  MkPlain (ps_dist st) (ps_hops st) (<[u := true]> (ps_settled st)) (ps_queue st) (ps_overflow st)
    (ps_work st).
Definition with_label (u : nat) (cost hops : Z) (st : PlainState) : PlainState :=
  MkPlain (<[u := cost]> (ps_dist st)) (<[u := hops]> (ps_hops st)) (ps_settled st)
    (MkEntry cost hops u :: ps_queue st) (ps_overflow st) (ps_work st).

Section plain.
Context (v : PlanningView) (bans : BanSet) (hop_budget : Z).

(** One iteration of the adjacency loop of the settled [node], whose queue entry
    has cost [cost]; [true] when the work budget ran out. *)
Definition relax_edge (node : nat) (cost : Z) (i : nat) (st : PlainState) : PlainState * bool :=
  early (st, false) when AdjacencyBanned bans i ;;
  let candidate := AdjacencyAt v i in
  early (st, false) when NodeBanned bans (a_to candidate) ;;
  let next_hops := wrap32 (hops_at st node + 1) in
  early (st, false) when (negb (hop_budget =? kNoHopBound) && (next_hops >? hop_budget)) ;;
  match HopIncrement v candidate with
  | None => (with_overflow st, false)
  | Some increment =>
      match CheckedAdd cost increment with
      | None => (with_overflow st, false)
      | Some next_cost =>
          let '(work, ok) := SpendState (ps_work st) in
          let st := with_work work st in
          early (st, true) when negb ok ;;
          early (st, false)
            when negb (BetterLabel next_cost next_hops (dist_at st (a_to candidate))
                         (hops_at st (a_to candidate))) ;;
          let st := with_label (a_to candidate) next_cost next_hops st in
          let '(work, ok) := SpendPush (ps_work st) in
          (with_work work st, negb ok)
      end
  end.

(** One iteration of the main loop on the popped entry. *)
Definition settle (entry : QueueEntry) (st : PlainState) : PlainState * bool :=
  let node := q_state entry in
  early (st, false) when settled_at st node ;;
  early (st, false)
    when BetterLabel (dist_at st node) (hops_at st node) (q_cost entry) (q_hops entry) ;;
  for_each (relax_edge node (q_cost entry)) (row v node) (with_settled node st).

(** [None]: out of fuel. *)
Fixpoint plain_loop (fuel : nat) (st : PlainState) : option (PlainState * bool) :=
  match fuel with
  | O => None
  | S fuel =>
      match pop_min (ps_queue st) with
      | None => Some (st, false)
      | Some (entry, queue) =>
          let '(st, limit) := settle entry (with_queue queue st) in
          early Some (st, true) when limit ;;
          plain_loop fuel st
      end
  end.

(** The test both reconstruction loops make on an adjacency of [node]. *)
Definition tight (dist hops : list Z) (can_reach : list bool) (node : nat) (next_hops : Z) (i : nat) :
  bool :=
  early false when AdjacencyBanned bans i ;;
  let candidate := AdjacencyAt v i in
  early false when NodeBanned bans (a_to candidate) ;;
  early false
    when (negb (nth (a_to candidate) hops kInfiniteHops =? next_hops) ||
          negb (nth (a_to candidate) can_reach false)) ;;
  match HopIncrement v candidate with
  | None => false
  | Some increment =>
      match CheckedAdd (nth node dist kMaxCost) increment with
      | None => false
      | Some next_cost => next_cost =? nth (a_to candidate) dist kMaxCost
      end
  end.

(** [buckets[hops[node]].push_back(node)] over the labelled nodes. *)
Definition fill_buckets (dist hops : list Z) (target_hops : Z) : list (list nat) :=
  fold_left
    (λ buckets node,
      if negb (nth node dist kMaxCost =? kMaxCost) && (nth node hops kInfiniteHops <=? target_hops)
      then alter (λ b, b ++ [node]) (Z.to_nat (nth node hops kInfiniteHops)) buckets else buckets)
    (seq 0 (NodeCount v)) (replicate (Z.to_nat target_hops + 1) []).

(** [can_reach[node] = reachable] for the nodes of one level. *)
Definition reach_level (dist hops : list Z) (buckets : list (list nat)) (can_reach : list bool)
    (current : nat) : list bool :=
  fold_left
    (λ can_reach node,
      <[node := existsb (tight dist hops can_reach node (Z.of_nat current + 1)) (row v node)]>
        can_reach)
    (nth current buckets []) can_reach.

Definition reach_levels (dist hops : list Z) (dest : nat) : list bool :=
  let target_hops := nth dest hops kInfiniteHops in
  fold_left (reach_level dist hops (fill_buckets dist hops target_hops))
    (rev (seq 0 (Z.to_nat target_hops)))
    (<[dest := true]> (replicate (NodeCount v) false)).

(** The greedy walk. [None]: the walk could not advance (or ran out of fuel). *)
Fixpoint greedy (dist hops : list Z) (can_reach : list bool) (dest : nat) (fuel : nat)
    (current : nat) (path : RawPath) : option RawPath :=
  early Some path when (current =? dest)%nat ;;
  match fuel with
  | O => None
  | S fuel =>
      i ← List.find (tight dist hops can_reach current
                       (wrap32 (nth current hops kInfiniteHops + 1))) (row v current);
      let next := a_to (AdjacencyAt v i) in
      greedy dist hops can_reach dest fuel next
        (MkRaw (rp_nodes path ++ [next]) (rp_adjacency path ++ [i]))
  end.

Definition plain_result (source dest : nat) (st : PlainState) : SearchOutcome :=
  let none := no_outcome false (ps_overflow st) in
  early none when (dist_at st dest =? kMaxCost) ;;
  let can_reach := reach_levels (ps_dist st) (ps_hops st) dest in
  early none when negb (nth source can_reach false) ;;
  match greedy (ps_dist st) (ps_hops st) can_reach dest (Z.to_nat (hops_at st dest)) source
          (MkRaw [source] []) with
  | None => none
  | Some path => MkOutcome true false (ps_overflow st) path
  end.

Definition plain_init (source : nat) (w : Work) : PlainState :=
  let n := NodeCount v in
  MkPlain (<[source := 0]> (replicate n kMaxCost)) (<[source := 0]> (replicate n kInfiniteHops))
    (replicate n false) [MkEntry 0 0 source] false w.

(** Every adjacency is relaxed at most once, so at most [1 + |adjacency|] entries
    are ever pushed; one more unit observes the empty queue. *)
Definition plain_fuel : nat := S (S (length (v_adjacency v))).

Definition PlainSearch (source dest : nat) (w : Work) : SearchOutcome * Work :=
  let '(work, ok) := SpendPush w in
  early (no_outcome true false, work) when negb ok ;;
  match plain_loop plain_fuel (plain_init source work) with
  | None => (no_outcome false false, work)
  | Some (st, limit) =>
      early (no_outcome true (ps_overflow st), ps_work st) when limit ;;
      (plain_result source dest st, ps_work st)
  end.
End plain.

(** ** Search over (hops, node) states *)

Record ExpandedState := MkExpanded {
  es_dist : list Z; es_settled : list bool; es_queue : list QueueEntry; es_overflow : bool;
  es_work : Work
}.

Section expanded.
Context (v : PlanningView) (bans : BanSet) (hop_budget : Z).

Definition index_of (hops : Z) (node : nat) : nat := (Z.to_nat hops * NodeCount v + node)%nat.

(** One iteration of the adjacency loop of the settled state [(hops, node)]. *)
Definition expand_edge (hops : Z) (cost : Z) (i : nat) (st : ExpandedState) :
  ExpandedState * bool :=
  early (st, false) when AdjacencyBanned bans i ;;
  let candidate := AdjacencyAt v i in
  early (st, false) when NodeBanned bans (a_to candidate) ;;
  let overflowed :=
    MkExpanded (es_dist st) (es_settled st) (es_queue st) true (es_work st) in
  match HopIncrement v candidate with
  | None => (overflowed, false)
  | Some increment =>
      match CheckedAdd cost increment with
      | None => (overflowed, false)
      | Some next_cost =>
          let '(work, ok) := SpendState (es_work st) in
          let st := MkExpanded (es_dist st) (es_settled st) (es_queue st) (es_overflow st) work in
          early (st, true) when negb ok ;;
          let next_state := index_of (hops + 1) (a_to candidate) in
          early (st, false) when (nth next_state (es_dist st) kMaxCost <=? next_cost) ;;
          let '(work, ok) := SpendPush work in
          (MkExpanded (<[next_state := next_cost]> (es_dist st)) (es_settled st)
             (MkEntry next_cost (hops + 1) (a_to candidate) :: es_queue st) (es_overflow st) work,
           negb ok)
      end
  end.

Definition expand (entry : QueueEntry) (st : ExpandedState) : ExpandedState * bool :=
  let state := index_of (q_hops entry) (q_state entry) in
  early (st, false) when nth state (es_settled st) false ;;
  early (st, false) when negb (nth state (es_dist st) kMaxCost =? q_cost entry) ;;
  let st := MkExpanded (es_dist st) (<[state := true]> (es_settled st)) (es_queue st)
              (es_overflow st) (es_work st) in
  early (st, false) when (q_hops entry =? hop_budget) ;;
  for_each (expand_edge (q_hops entry) (q_cost entry)) (row v (q_state entry)) st.

Fixpoint expanded_loop (fuel : nat) (st : ExpandedState) : option (ExpandedState * bool) :=
  match fuel with
  | O => None
  | S fuel =>
      match pop_min (es_queue st) with
      | None => Some (st, false)
      | Some (entry, queue) =>
          let '(st, limit) :=
            expand entry (MkExpanded (es_dist st) (es_settled st) queue (es_overflow st) (es_work st))
          in
          early Some (st, true) when limit ;;
          expanded_loop fuel st
      end
  end.

(** The scan of the labels of the destination. *)
Definition best_label (dist : list Z) (dest : nat) : Z * Z :=
  fold_left
    (λ best hops,
      let '(best_cost, best_hops) := best in
      let value := nth (index_of hops dest) dist kMaxCost in
      early best when (value =? kMaxCost) ;;
      if (value <? best_cost) || ((value =? best_cost) && (hops <? best_hops))
      then (value, hops) else best)
    (map Z.of_nat (seq 0 (Z.to_nat hop_budget + 1))) (kMaxCost, kInfiniteHops).

Definition expanded_tight (dist : list Z) (can_reach : list bool) (hops : Z) (node : nat) (i : nat) :
  bool :=
  early false when AdjacencyBanned bans i ;;
  let candidate := AdjacencyAt v i in
  early false when NodeBanned bans (a_to candidate) ;;
  let next_state := index_of (hops + 1) (a_to candidate) in
  early false when negb (nth next_state can_reach false) ;;
  match HopIncrement v candidate with
  | None => false
  | Some increment =>
      match CheckedAdd (nth (index_of hops node) dist kMaxCost) increment with
      | None => false
      | Some next_cost => next_cost =? nth next_state dist kMaxCost
      end
  end.

(** One level of the backward pass, over every node. *)
Definition expanded_level (dist : list Z) (can_reach : list bool) (hops : nat) : list bool :=
  fold_left
    (λ can_reach node,
      let state := index_of (Z.of_nat hops) node in
      early can_reach when (nth state dist kMaxCost =? kMaxCost) ;;
      <[state := existsb (expanded_tight dist can_reach (Z.of_nat hops) node) (row v node)]> can_reach)
    (seq 0 (NodeCount v)) can_reach.

Definition expanded_levels (dist : list Z) (best_hops : Z) (dest : nat) : list bool :=
  fold_left (expanded_level dist) (rev (seq 0 (Z.to_nat best_hops)))
    (<[index_of best_hops dest := true]>
      (replicate (Z.to_nat (hop_budget + 1) * NodeCount v) false)).

Fixpoint expanded_greedy (dist : list Z) (can_reach : list bool) (dest : nat) (best_hops : Z)
    (fuel : nat) (current : nat) (hops : Z) (path : RawPath) : option RawPath :=
  early Some path when ((current =? dest)%nat && (hops =? best_hops)) ;;
  match fuel with
  | O => None
  | S fuel =>
      i ← List.find (expanded_tight dist can_reach hops current) (row v current);
      let next := a_to (AdjacencyAt v i) in
      expanded_greedy dist can_reach dest best_hops fuel next (hops + 1)
        (MkRaw (rp_nodes path ++ [next]) (rp_adjacency path ++ [i]))
  end.

Definition expanded_result (source dest : nat) (st : ExpandedState) : SearchOutcome :=
  let none := no_outcome false (es_overflow st) in
  let '(_, best_hops) := best_label (es_dist st) dest in
  early none when (best_hops =? kInfiniteHops) ;;
  let can_reach := expanded_levels (es_dist st) best_hops dest in
  match expanded_greedy (es_dist st) can_reach dest best_hops (Z.to_nat best_hops) source 0
          (MkRaw [source] []) with
  | None => none
  | Some path => MkOutcome true false (es_overflow st) path
  end.

(** Every state is expanded once, along each adjacency of its node. *)
Definition expanded_fuel : nat :=
  S (S (Z.to_nat (hop_budget + 1) * length (v_adjacency v))).

Definition ExpandedSearch (source dest : nat) (w : Work) : SearchOutcome * Work :=
  let state_count := wrap64 ((hop_budget + 1) * Z.of_nat (NodeCount v)) in
  let b := w_budget w in
  early (no_outcome true false,
         MkWork (MkBudget (wb_states_remaining b) (wb_pushes_remaining b) (wb_spur_remaining b)
                   (wb_exhausted b) true) (w_stats w))
    when (state_count >? max_search_states (v_limits v)) ;;
  let states := Z.to_nat state_count in
  let '(work, ok) := SpendPush w in
  early (no_outcome true false, work) when negb ok ;;
  match expanded_loop expanded_fuel
          (MkExpanded (<[index_of 0 source := 0]> (replicate states kMaxCost))
             (replicate states false) [MkEntry 0 0 source] false work) with
  | None => (no_outcome false false, work)
  | Some (st, limit) =>
      early (no_outcome true (es_overflow st), es_work st) when limit ;;
      (expanded_result source dest st, es_work st)
  end.
End expanded.

Definition ShortestPath (v : PlanningView) (source dest : nat) (hop_budget : Z) (bans : BanSet)
    (w : Work) : SearchOutcome * Work :=
  early (MkOutcome true false false (MkRaw [source] []), w) when (source =? dest)%nat ;;
  let node_count := NodeCount v in
  early (no_outcome false false, w) when ((node_count <=? source)%nat || (node_count <=? dest)%nat) ;;
  early (no_outcome false false, w) when (hop_budget =? 0) ;;
  early PlainSearch v bans kNoHopBound source dest w when (hop_budget =? kNoHopBound) ;;
  let simple_bound := if (node_count =? 0)%nat then 0 else Z.of_nat node_count - 1 in
  early ExpandedSearch v bans hop_budget source dest w when (hop_budget <? simple_bound) ;;
  PlainSearch v bans hop_budget source dest w.

(** ** Candidate enumeration *)

Definition RawPathIsSimple (path : RawPath) : bool := negb (has_adjacent id (sort_ids (rp_nodes path))).

Definition ContainsRawPath (paths : list RankedRawPath) (candidate : RawPath) : bool :=
  existsb (λ entry, SameRawPath (rr_path entry) candidate) paths.

Record EnumerationOptions := MkOptions {
  op_source_view : nat; op_destination_view : nat; op_max_candidates : Z;
  op_enumeration_ceiling : Z; op_max_hops : Z; op_domain_member_limit_active : bool
}.

Record EnumerationResult := MkEnumeration {
  en_ok : bool; en_failure : DiagnosticCode.t; en_resource_limit : bool; en_truncated : bool;
  en_paths : list RawPath; en_detail : string
}.
Definition enumeration_failure (code : DiagnosticCode.t) (resource_limit : bool) (detail : string) :
  EnumerationResult := MkEnumeration false code resource_limit false [] detail.

(** Appending a leg that starts at the last node of the path. *)
Definition join (path leg : RawPath) : RawPath :=
  MkRaw (rp_nodes path ++ tail (rp_nodes leg)) (rp_adjacency path ++ rp_adjacency leg).

Definition leg_budget (max_hops used : Z) : Z :=
  if max_hops =? kNoHopBound then kNoHopBound else wrap32 (max_hops - used).

(** *** Required transit *)

(** The checks on the stages: the number of combinations, or a failure. *)
Fixpoint count_combinations (limit : Z) (stages : list TransitStage) (combinations alternatives : Z) :
  EnumerationResult + Z * Z :=
  match stages with
  | [] => inr (combinations, alternatives)
  | stage :: stages =>
      let size := Z.of_nat (length (ts_alternatives stage)) in
      early inl (enumeration_failure kMalformedIdentifier false "transit stage has no alternatives")
        when (size =? 0) ;;
      let alternatives := wrap64 (alternatives + size) in
      early inl (enumeration_failure kConstraintCountExceeded true
                   "required transit expands beyond the configured combination limit")
        when (combinations >? limit / size) ;;
      count_combinations limit stages (wrap64 (combinations * size)) alternatives
  end.

(** [selection]: the digits of [combination], the last stage varying fastest. *)
Fixpoint select_alternatives (stages : list TransitStage) (combination : Z) : list nat * Z :=
  match stages with
  | [] => ([], combination)
  | stage :: stages =>
      let '(selection, remainder) := select_alternatives stages combination in
      let size := Z.of_nat (length (ts_alternatives stage)) in
      (Z.to_nat (remainder mod size) :: selection, remainder / size)
  end.

(** The state of one combination: the path so far, its end and its hops. *)
Record Staged := MkStaged { sg_combined : RawPath; sg_current : nat; sg_used_hops : Z }.

Inductive LegResult :=
  | LegOk (st : Staged)
  | LegFailed (failure : DiagnosticCode.t)
  | LegLimit.

Definition other_nodes (keep : list nat) (path : RawPath) : BanSet :=
  fold_left (λ bans node, if existsb (Nat.eqb node) keep then bans else BanNode node bans)
    (rp_nodes path) no_bans.

Section transit.
Context (v : PlanningView) (options : EnumerationOptions).

(** The leg to the selected alternative of one stage. *)
Definition stage_leg (stage : TransitStage) (choice : nat) (st : Staged) (w : Work) :
  LegResult * Work :=
  match ViewIndex v (nth choice (ts_alternatives stage) (nil_id _)) with
  | None => (LegFailed kRequiredNodeMissing, w)
  | Some target_view =>
      early (LegFailed kMaxHopsExceeded, w)
        when (negb (op_max_hops options =? kNoHopBound) &&
              (sg_used_hops st >=? op_max_hops options)) ;;
      let bans := other_nodes [sg_current st] (sg_combined st) in
      let '(leg, w) :=
        ShortestPath v (sg_current st) target_view
          (leg_budget (op_max_hops options) (sg_used_hops st)) bans w in
      early (LegLimit, w) when so_resource_limit leg ;;
      early (LegFailed (match ts_kind stage with
                        | TransitKind.kExact => kRequiredNodeMissing
                        | TransitKind.kAnyOf => kRequiredAnySetUnsatisfied
                        end), w)
        when negb (so_found leg) ;;
      (LegOk (MkStaged (join (sg_combined st) (so_path leg)) target_view
                (wrap32 (sg_used_hops st + Z.of_nat (length (rp_adjacency (so_path leg)))))), w)
  end.

Fixpoint stage_legs (stages : list TransitStage) (selection : list nat) (st : Staged) (w : Work) :
  LegResult * Work :=
  match stages, selection with
  | stage :: stages, choice :: selection =>
      match stage_leg stage choice st w with
      | (LegOk st, w) => stage_legs stages selection st w
      | other => other
      end
  | _, _ => (LegOk st, w)
  end.

Record TransitState := MkTransit {
  tr_best : option RankedRawPath; tr_failure : DiagnosticCode.t; tr_work : Work
}.

(** One combination; [Some detail] when the work budget ran out. *)
Definition try_combination (stages : list TransitStage) (combination : Z) (st : TransitState) :
  TransitState * option string :=
  let fail code w := (MkTransit (tr_best st) code w, None) in
  let '(selection, _) := select_alternatives stages combination in
  let start := MkStaged (MkRaw [op_source_view options] []) (op_source_view options) 0 in
  match stage_legs stages selection start (tr_work st) with
  | (LegLimit, w) =>
      (MkTransit (tr_best st) (tr_failure st) w,
       Some "work budget exhausted during a required transit leg"%string)
  | (LegFailed code, w) => fail code w
  | (LegOk sg, w) =>
      let dest := op_destination_view options in
      early fail kMaxHopsExceeded w
        when (negb (op_max_hops options =? kNoHopBound) &&
              (sg_used_hops sg >=? op_max_hops options) && negb (sg_current sg =? dest)%nat) ;;
      let bans := other_nodes [sg_current sg; dest] (sg_combined sg) in
      let '(final_leg, w) :=
        ShortestPath v (sg_current sg) dest
          (leg_budget (op_max_hops options) (sg_used_hops sg)) bans w in
      early (MkTransit (tr_best st) (tr_failure st) w,
             Some "work budget exhausted during the final transit leg"%string)
        when so_resource_limit final_leg ;;
      early fail kMaxHopsExceeded w when negb (so_found final_leg) ;;
      let combined := join (sg_combined sg) (so_path final_leg) in
      early (MkTransit (tr_best st) (tr_failure st) w, None) when negb (RawPathIsSimple combined) ;;
      match ComputeRawPathCost v combined with
      | None => fail kCostOverflow w
      | Some cost =>
          let ranked := MkRanked combined cost in
          let better :=
            match tr_best st with None => true | Some best => RankedBefore v ranked best end in
          (MkTransit (if better then Some ranked else tr_best st) (tr_failure st) w, None)
      end
  end.

Fixpoint try_combinations (stages : list TransitStage) (combinations : list Z) (st : TransitState) :
  TransitState * option string :=
  match combinations with
  | [] => (st, None)
  | combination :: combinations =>
      match try_combination stages combination st with
      | (st, None) => try_combinations stages combinations st
      | other => other
      end
  end.

Definition enumerate_transit (stages : list TransitStage) (w : Work) : EnumerationResult * Work :=
  early (enumeration_failure kUnsupportedRequest false
           ("K > 1 with required transit stages is not supported: staged legs have no " +:+
            "proven K-shortest semantics"), w)
    when (op_max_candidates options >? 1) ;;
  let limit := max_transit_combinations (v_limits v) in
  match count_combinations limit stages 1 0 with
  | inl failure => (failure, w)
  | inr (combinations, alternatives) =>
      early (enumeration_failure kConstraintCountExceeded true
               "required transit alternative count exceeds the configured limit", w)
        when (alternatives >? max_transit_alternatives (v_limits v)) ;;
      early (enumeration_failure kConstraintCountExceeded true
               "required transit combination count exceeds the configured limit", w)
        when (combinations >? limit) ;;
      let '(st, limit_detail) :=
        try_combinations stages (map Z.of_nat (seq 0 (Z.to_nat combinations)))
          (MkTransit None kRequiredNodeMissing w) in
      match limit_detail with
      | Some detail => (enumeration_failure kWorkBudgetExhausted true detail, tr_work st)
      | None =>
          match tr_best st with
          | None =>
              (enumeration_failure (tr_failure st) false
                 "no staged path satisfies the ordered transit requirement", tr_work st)
          | Some best =>
              (MkEnumeration true kNoStructuralPath false false [rr_path best] "", tr_work st)
          end
      end
  end.
End transit.

(** *** Yen's algorithm over the view *)

Section yen.
Context (v : PlanningView) (options : EnumerationOptions).

(** The pending candidates and the budget, or the detail of the failure. *)
Definition YenState : Type := list RankedRawPath * Work * option string.

(** The bans of one spur: the root before the spur node, and the adjacency every
    accepted path with the same root nodes leaves the spur node by. *)
Definition spur_bans (accepted : list RankedRawPath) (previous : RawPath) (spur_index : nat) : BanSet :=
  let root := take (spur_index + 1) (rp_nodes previous) in
  let bans := fold_left (λ bans node, BanNode node bans) (take spur_index (rp_nodes previous)) no_bans in
  fold_left
    (λ bans candidate,
      let path := rr_path candidate in
      if (spur_index + 1 <? length (rp_nodes path))%nat &&
         eqb root (take (spur_index + 1) (rp_nodes path))
      then BanAdjacency (nth spur_index (rp_adjacency path) 0%nat) bans else bans)
    accepted bans.

Definition spur_total (previous : RawPath) (spur_index : nat) (spur : RawPath) : RawPath :=
  join (MkRaw (take (spur_index + 1) (rp_nodes previous)) (take spur_index (rp_adjacency previous)))
    spur.

(** One spur search; [true] when a budget ran out. *)
Definition spur_step (accepted : list RankedRawPath) (previous : RawPath) (spur_index : nat)
    (st : YenState) : YenState * bool :=
  let '(pending, w, _) := st in
  let bans := spur_bans accepted previous spur_index in
  let '(w, ok) := SpendSpur w in
  early (pending, w, Some "spur search budget exhausted"%string, true) when negb ok ;;
  let '(spur, w) :=
    ShortestPath v (nth spur_index (rp_nodes previous) 0%nat) (op_destination_view options)
      (leg_budget (op_max_hops options) (Z.of_nat spur_index)) bans w in
  early (pending, w, Some "work budget exhausted during a spur search"%string, true)
    when so_resource_limit spur ;;
  let unchanged := (pending, w, None, false) in
  early unchanged when negb (so_found spur) ;;
  let total := spur_total previous spur_index (so_path spur) in
  early unchanged when negb (RawPathIsSimple total) ;;
  early unchanged when (ContainsRawPath accepted total || ContainsRawPath pending total) ;;
  match ComputeRawPathCost v total with
  | None => unchanged
  | Some cost => (pending ++ [MkRanked total cost], w, None, false)
  end.

(** [best_index] over the pending candidates. *)
Fixpoint best_index (best : nat) (best_entry : RankedRawPath) (index : nat)
    (rest : list RankedRawPath) : nat :=
  match rest with
  | [] => best
  | entry :: rest =>
      if RankedBefore v entry best_entry
      then best_index index entry (S index) rest
      else best_index best best_entry (S index) rest
  end.

Definition take_best (pending : list RankedRawPath) :
  option (RankedRawPath * list RankedRawPath) :=
  match pending with
  | [] => None
  | first :: rest =>
      let best := best_index 0 first 1 rest in
      Some (nth best pending first, take best pending ++ drop (S best) pending)
  end.

(** [while (accepted.size() < wanted)]: a round accepts one candidate or ends the
    loop, so [wanted - accepted.size()] rounds are enough. *)
Fixpoint yen_loop (rounds : nat) (accepted pending : list RankedRawPath) (w : Work) :
  list RankedRawPath * Work * option string :=
  match rounds with
  | O => (accepted, w, None)
  | S rounds =>
      let previous := List.last (map rr_path accepted) empty_raw in
      let hop_count := length (rp_adjacency previous) in
      let '(pending, w, detail, stop) :=
        for_each (spur_step accepted previous) (seq 0 hop_count) (pending, w, None) in
      early (accepted, w, detail) when stop ;;
      match take_best pending with
      | None => (accepted, w, None)
      | Some (best, pending) => yen_loop rounds (accepted ++ [best]) pending w
      end
  end.

(** The member-limit filter: stops once enough candidates comply. *)
Fixpoint filter_compliant (limit : Z) (fail_closed : bool)
    (candidates compliant : list RankedRawPath) : list RankedRawPath :=
  match candidates with
  | [] => compliant
  | entry :: candidates =>
      let compliant :=
        if DomainMemberLimitCompliant v (rr_path entry) limit fail_closed
        then compliant ++ [entry] else compliant in
      early compliant
        when (Z.of_nat (length compliant) >=? op_max_candidates options) ;;
      filter_compliant limit fail_closed candidates compliant
  end.

Definition finish_enumeration (request : PlanningRequest) (wanted : Z)
    (accepted : list RankedRawPath) : EnumerationResult :=
  let hit_ceiling := Z.of_nat (length accepted) >=? wanted in
  let constraints := rq_constraints request in
  let '(accepted, truncated) :=
    match cs_max_members_per_failure_domain constraints with
    | Some limit =>
        early (accepted, false) when negb (op_domain_member_limit_active options) ;;
        let compliant :=
          filter_compliant limit (cs_fail_closed_on_unknown_domains constraints) accepted [] in
        (compliant, (Z.of_nat (length compliant) <? op_max_candidates options) && hit_ceiling)
    | None => (accepted, false)
    end in
  let paths := map rr_path (take (Z.to_nat (op_max_candidates options)) accepted) in
  MkEnumeration (negb (length paths =? 0)%nat) kNoStructuralPath false truncated paths "".

Definition enumerate_yen (request : PlanningRequest) (w : Work) : EnumerationResult * Work :=
  let wanted :=
    if op_enumeration_ceiling options >? 0 then op_enumeration_ceiling options
    else op_max_candidates options in
  let '(first, w) :=
    ShortestPath v (op_source_view options) (op_destination_view options) (op_max_hops options)
      no_bans w in
  early (enumeration_failure kWorkBudgetExhausted true "", w) when so_resource_limit first ;;
  early (enumeration_failure (if so_cost_overflow first then kCostOverflow else kNoStructuralPath)
           false "", w)
    when negb (so_found first) ;;
  match ComputeRawPathCost v (so_path first) with
  | None => (enumeration_failure kCostOverflow false "", w)
  | Some first_cost =>
      let '(accepted, w, detail) :=
        yen_loop (Z.to_nat wanted - 1) [MkRanked (so_path first) first_cost] [] w in
      match detail with
      | Some detail => (enumeration_failure kWorkBudgetExhausted true detail, w)
      | None => (finish_enumeration request wanted accepted, w)
      end
  end.
End yen.

Definition EnumerateCandidatePaths (v : PlanningView) (request : PlanningRequest)
    (options : EnumerationOptions) (w : Work) : EnumerationResult * Work :=
  let stages := cs_required_transit (rq_constraints request) in
  early enumerate_transit v options stages w when negb (length stages =? 0)%nat ;;
  enumerate_yen v options request w.
