(* ===== verification/Dijkstra.v ===== *)
(** Dijkstra's algorithm on an abstract finite graph: the invariant of the main
    loop and its preservation by each step, the optimality of the final labels,
    the backward pass over levels and the greedy reconstruction. The two
    searches of search.cpp are instances (SearchFacts.v). *)

From S2P Require Import Prelude.

Section graph.
(** Edges leave a state by an index of [out]; [head] is where they lead. *)
Context (out : nat → list nat) (head : nat → nat → nat) (weight : nat → Z).
Context (weight_nonneg : ∀ i, 0 <= weight i).

Inductive gwalk : nat → list nat → nat → Prop :=
  | gwalk_nil s : gwalk s [] s
  | gwalk_cons s i l t : i ∈ out s → gwalk (head s i) l t → gwalk s (i :: l) t.

Definition gcost (l : list nat) : Z := zsum weight l.

Lemma gcost_cons i l : gcost (i :: l) = weight i + gcost l.
Proof. reflexivity. Qed.
Lemma gcost_app l1 l2 : gcost (l1 ++ l2) = gcost l1 + gcost l2.
Proof. apply zsum_app. Qed.
Lemma gcost_nonneg l : 0 <= gcost l.
Proof. apply zsum_nonneg, Forall_forall. intros. apply weight_nonneg. Qed.

Lemma gwalk_app s l1 t l2 u : gwalk s l1 t → gwalk t l2 u → gwalk s (l1 ++ l2) u.
Proof. induction 1; simpl; [done|]. intros. constructor; auto. Qed.

Lemma gwalk_snoc s l t i : gwalk s l t → i ∈ out t → gwalk s (l ++ [i]) (head t i).
Proof. intros Hw Hi. eapply gwalk_app; [done|]. by constructor; [|constructor]. Qed.

(** ** The loop invariant *)

Context (source : nat) (top : Z) (top_pos : 0 < top).

(** [R u i]: edge [i] of the settled state [u] has been relaxed. *)
Record DInv (R : nat → nat → Prop) (D : nat → Z) (S : nat → bool) (Q : list (Z * nat)) : Prop := {
  di_source : D source = 0;
  di_range : ∀ u, 0 <= D u <= top;
  di_sound : ∀ u, D u < top → ∃ l, gwalk source l u ∧ gcost l = D u;
  di_relaxed : ∀ u i, R u i → D u + weight i < top → D (head u i) <= D u + weight i;
  di_settled : ∀ u, S u = true → D u < top;
  di_queued : ∀ u, S u = false → D u < top → (D u, u) ∈ Q;
  di_queue : ∀ k u, (k, u) ∈ Q → D u <= k < top;
  di_order : ∀ u k w, S u = true → (k, w) ∈ Q → D u <= k;
  di_relaxed_settled : ∀ u i, R u i → S u = true
}.

Definition upd (f : nat → Z) (x : nat) (k : Z) (y : nat) : Z := if decide (y = x) then k else f y.

Lemma DInv_init D :
  D source = 0 → (∀ u, u ≠ source → D u = top) →
  DInv (λ _ _, False) D (λ _, false) [(0, source)].
Proof.
  intros H0 Htop.
  assert (Hcase : ∀ u, u = source ∧ D u = 0 ∨ u ≠ source ∧ D u = top).
  { intros u. destruct (decide (u = source)) as [->|Hne]; auto. }
  constructor; try done.
  - intros u. destruct (Hcase u) as [[_ ->]|[_ ->]]; lia.
  - intros u Hu. destruct (Hcase u) as [[-> _]|[_ ?]]; [|lia]. exists [].
    split; [constructor|]. rewrite H0. done.
  - intros u _ Hu. destruct (Hcase u) as [[-> _]|[_ ?]]; [|lia]. rewrite H0. by left.
  - intros k u Hin. apply list_elem_of_singleton in Hin as [= -> ->]. lia.
Qed.

Lemma DInv_weaken (R R' : nat → nat → Prop) D S Q :
  (∀ u i, R' u i → R u i) → DInv R D S Q → DInv R' D S Q.
Proof. intros HR []. constructor; eauto. Qed.

(** Popping an entry of a settled state, or one whose label has improved. *)
Lemma DInv_skip R D S Q k u Q' :
  DInv R D S Q → Q ≡ₚ (k, u) :: Q' → S u = true ∨ D u < k → DInv R D S Q'.
Proof.
  intros [] HQ Hskip.
  assert (Hsub : ∀ x, x ∈ Q' → x ∈ Q) by (intros x Hx; rewrite HQ; by right).
  constructor; eauto.
  intros w Hw Hlt. pose proof (di_queued0 w Hw Hlt) as Hin. rewrite HQ in Hin.
  apply elem_of_cons in Hin as [[= Hk ->]|]; [|done]. destruct Hskip; [congruence|lia].
Qed.

(** Settling the popped state: its entry is minimal and carries its label. *)
Lemma DInv_settle R D S Q k u Q' S' :
  DInv R D S Q → Q ≡ₚ (k, u) :: Q' → (∀ k' w, (k', w) ∈ Q' → k <= k') →
  S u = false → k <= D u → (∀ w, S' w = true ↔ S w = true ∨ w = u) →
  D u = k ∧ DInv R D S' Q' ∧ (∀ w, S' w = true → D w <= k).
Proof.
  intros [] HQ Hmin Hu Hk HS'.
  assert (Hsub : ∀ x, x ∈ Q' → x ∈ Q) by (intros x Hx; rewrite HQ; by right).
  assert (Hin : (k, u) ∈ Q) by (rewrite HQ; by left).
  destruct (di_queue0 _ _ Hin) as [Hle Hlt]. assert (HD : D u = k) by lia.
  split; [done|]. split.
  - constructor; eauto.
    + intros w [Hw| ->]%HS'; [eauto|lia].
    + intros w Hw HwT. assert (Hw' : S w = false).
      { destruct (S w) eqn:E; [|done]. rewrite (proj2 (HS' w)) in Hw by (by left). done. }
      pose proof (di_queued0 w Hw' HwT) as Hwq. rewrite HQ in Hwq.
      apply elem_of_cons in Hwq as [[= _ ->]|]; [|done].
      rewrite (proj2 (HS' u)) in Hw by (by right). done.
    + intros w k' x [Hw| ->]%HS' Hx; [eauto|]. rewrite HD. eauto.
    + intros w i HR. apply HS'. left. eauto.
  - intros w [Hw| ->]%HS'; [eauto|lia].
Qed.

(** Relaxing an edge of the settled state [u], whose label is the largest of the
    settled ones. *)
Lemma DInv_relax_keep (R R' : nat → nat → Prop) D S Q u i :
  DInv R D S Q → S u = true → (∀ w j, R' w j → R w j ∨ w = u ∧ j = i) →
  (D u + weight i < top → D (head u i) <= D u + weight i) → DInv R' D S Q.
Proof.
  intros [] Hu HR' Hkeep. constructor; eauto.
  - intros w j [HR|[-> ->]]%HR'; auto.
  - intros w j [HR|[-> _]]%HR'; eauto.
Qed.

Lemma DInv_relax_better (R R' : nat → nat → Prop) D D' S Q u i :
  DInv R D S Q → S u = true → (∀ w, S w = true → D w <= D u) → i ∈ out u →
  (∀ w j, R' w j → R w j ∨ w = u ∧ j = i) →
  D u + weight i < top → D u + weight i < D (head u i) →
  (∀ w, D' w = upd D (head u i) (D u + weight i) w) →
  S (head u i) = false ∧ DInv R' D' S ((D u + weight i, head u i) :: Q).
Proof.
  intros [] Hu Hmax Hi HR' Htop Hbetter HD'.
  pose proof (weight_nonneg i) as Hw. set (h := head u i) in *. set (k := D u + weight i) in *.
  assert (Hh : S h = false).
  { destruct (S h) eqn:E; [|done]. specialize (Hmax h E). lia. }
  split; [done|].
  assert (Hne : ∀ w, S w = true → w ≠ h) by (intros w Hw' ->; congruence).
  assert (Hother : ∀ w, w ≠ h → D' w = D w).
  { intros w Hwh. rewrite HD'. unfold upd. by rewrite decide_False. }
  assert (Hhk : D' h = k) by (rewrite HD'; unfold upd; by rewrite decide_True).
  assert (Hle : ∀ w, D' w <= D w).
  { intros w. rewrite HD'. unfold upd. destruct (decide (w = h)) as [->|]; lia. }
  assert (Hmin : ∀ w, D' w = k ∧ w = h ∨ D' w = D w).
  { intros w. destruct (decide (w = h)) as [->|]; auto. }
  assert (Hku : 0 <= D u) by apply di_range0.
  constructor.
  - destruct (Hmin source) as [[_ <-]| ->]; [|done]. lia.
  - intros w. pose proof (di_range0 w). destruct (Hmin w) as [[-> _]| ->]; lia.
  - intros w Hlt. destruct (Hmin w) as [[-> ->]|Heq].
    + destruct (di_sound0 u) as (l & Hwalk & Hcost); [eauto|].
      exists (l ++ [i]). split; [by apply gwalk_snoc|].
      rewrite gcost_app, Hcost. unfold k, gcost. simpl. lia.
    + rewrite Heq in *. eauto.
  - intros w j [HR|[-> ->]]%HR' Hlt.
    + rewrite (Hother w) in * by eauto. specialize (di_relaxed0 w j HR Hlt).
      pose proof (Hle (head w j)). lia.
    + rewrite (Hother u) by eauto. fold h k. by rewrite Hhk.
  - intros w Hs. rewrite Hother by eauto. eauto.
  - intros w Hs Hlt. destruct (Hmin w) as [[Hk ->]|Heq]; [rewrite Hk; by left|].
    rewrite Heq in *. right. eauto.
  - intros k' w Hin. apply elem_of_cons in Hin as [[= -> ->]|Hin]; [lia|].
    pose proof (Hle w). specialize (di_queue0 k' w Hin). lia.
  - intros w k' x Hs Hin. rewrite Hother by eauto.
    apply elem_of_cons in Hin as [[= -> ->]|Hin]; [|eauto]. specialize (Hmax w Hs). lia.
  - intros w j [HR|[-> _]]%HR'; eauto.
Qed.

(** ** Optimality of the final labels *)

Definition final (D : nat → Z) : Prop :=
  D source = 0 ∧ (∀ u, 0 <= D u <= top) ∧
  (∀ u, D u < top → ∃ l, gwalk source l u ∧ gcost l = D u) ∧
  (∀ u i, i ∈ out u → D u + weight i < top → D (head u i) <= D u + weight i).

Lemma DInv_final (R : nat → nat → Prop) D S :
  DInv R D S [] → (∀ u i, S u = true → i ∈ out u → R u i) → final D.
Proof.
  intros [] HR. split_and!; try done. intros u i Hi Hlt.
  destruct (S u) eqn:E; [eauto|]. pose proof (weight_nonneg i).
  apply di_queued0 in E; [|lia]. by apply elem_of_nil in E.
Qed.

Lemma final_walk D u l w :
  final D → gwalk u l w → D u + gcost l < top → D w <= D u + gcost l.
Proof.
  intros (_ & _ & _ & Hrel). induction 1 as [s|s i l t Hi _ IH]; [unfold gcost; simpl; lia|].
  rewrite gcost_cons. intros Hlt. pose proof (gcost_nonneg l). pose proof (weight_nonneg i).
  specialize (Hrel s i Hi). lia.
Qed.

Lemma final_optimal D l w : final D → gwalk source l w → D w <= gcost l ∨ top <= gcost l.
Proof.
  intros Hf Hw. destruct (Z.lt_ge_cases (gcost l) top) as [Hlt|]; [left|by right].
  pose proof (final_walk D source l w Hf Hw) as H. destruct Hf as [H0 _]. rewrite H0 in H. lia.
Qed.

(** ** Tight walks *)

(** Every step meets the label of its head exactly. *)
Inductive tight_walk (D : nat → Z) : nat → list nat → nat → Prop :=
  | tight_nil s : tight_walk D s [] s
  | tight_cons s i l t : i ∈ out s → D (head s i) = D s + weight i →
      tight_walk D (head s i) l t → tight_walk D s (i :: l) t.

Lemma tight_walk_cost D s l t : tight_walk D s l t → gwalk s l t ∧ D t = D s + gcost l.
Proof.
  induction 1 as [s|s i l t Hi Hd _ [Hw Hc]]; [split; [constructor|unfold gcost; simpl; lia]|].
  split; [by constructor|]. rewrite gcost_cons. lia.
Qed.

Lemma optimal_tight D s l t :
  final D → gwalk s l t → D t < top → D t = D s + gcost l → tight_walk D s l t.
Proof.
  intros Hf. induction 1 as [s|s i l t Hi Hw IH]; [constructor|].
  rewrite gcost_cons. intros Hlt Heq. pose proof (gcost_nonneg l). pose proof (weight_nonneg i).
  pose proof (final_walk D (head s i) l t Hf Hw) as Ht.
  pose proof Hf as (_ & Hr & _ & Hrel). specialize (Hrel s i Hi).
  constructor; [done|lia|]. apply IH; lia.
Qed.
End graph.

(** ** The backward pass and the greedy walk *)

Section reconstruction.
Context (rows : nat → list nat) (head : nat → nat → nat).
(** [T s i]: the label of the head of edge [i] is met exactly from [s]. *)
Context (T : nat → nat → bool) (level : nat → nat).
Context (N dest target : nat).

Inductive tpath : nat → list nat → Prop :=
  | tpath_nil : tpath dest []
  | tpath_cons s i l : i ∈ rows s → T s i = true → tpath (head s i) l → tpath s (i :: l).

(** [nodes L]: the states the pass visits at level [L]. *)
Context (nodes : nat → list nat).
Context (T_bound : ∀ s i, (s < N)%nat → i ∈ rows s → T s i = true → (head s i < N)%nat).
Context (T_level : ∀ s i, T s i = true → level (head s i) = S (level s)).
Context (dest_level : level dest = target) (dest_bound : (dest < N)%nat).
Context (nodes_level : ∀ L s, s ∈ nodes L → level s = L ∧ (s < N)%nat).
Context (nodes_complete : ∀ s l, tpath s l → (s < N)%nat → l ≠ [] → s ∈ nodes (level s)).

Definition level_step (cr : list bool) (L : nat) : list bool :=
  fold_left (λ cr s, <[s := existsb (λ i, T s i && nth (head s i) cr false) (rows s)]> cr)
    (nodes L) cr.

Lemma tpath_level s l : tpath s l → (level s + length l = target)%nat.
Proof.
  induction 1 as [|s i l _ HT _ IH]; simpl; [lia|]. apply T_level in HT. lia.
Qed.

(** What the array says after the levels [>= L]. *)
Definition reach_ok (L : nat) (cr : list bool) : Prop :=
  length cr = N ∧
  ∀ s, (s < N)%nat → nth s cr false = true ↔ (L <= level s)%nat ∧ ∃ l, tpath s l.

Lemma level_step_spec L cr : (L < target)%nat → reach_ok (S L) cr → reach_ok L (level_step cr L).
Proof.
  intros HL [Hlen Hcr]. unfold level_step.
  set (val := λ s, existsb (λ i, T s i && nth (head s i) cr false) (rows s)).
  assert (Hfold : ∀ l cr', (∀ s, s ∈ l → level s = L ∧ (s < N)%nat) → length cr' = N →
    (∀ t, level t ≠ L → nth t cr' false = nth t cr false) →
    let r := fold_left (λ cr s, <[s := existsb (λ i, T s i && nth (head s i) cr false) (rows s)]> cr)
               l cr' in
    length r = N ∧ ∀ t, nth t r false = if decide (t ∈ l) then val t else nth t cr' false).
  { induction l as [|s l IH]; intros cr' Hl Hlen' Hsame; [done|]. simpl.
    destruct (Hl s) as [Hs HsN]; [by left|].
    assert (Hval : existsb (λ i, T s i && nth (head s i) cr' false) (rows s) = val s).
    { unfold val. clear -Hsame Hs T_level. induction (rows s) as [|i r IHr]; [done|]. simpl.
      rewrite IHr. destruct (T s i) eqn:E; [|done]. simpl.
      rewrite Hsame; [done|]. apply T_level in E. lia. }
    rewrite Hval. destruct (IH (<[s := val s]> cr')) as [Hr1 Hr2].
    - intros t Ht. apply Hl. by right.
    - by rewrite length_insert.
    - intros t Ht. rewrite nth_insert by lia. rewrite decide_False by congruence. auto.
    - split; [done|]. intros t. rewrite Hr2.
      destruct (decide (t ∈ l)) as [Hin|Hin].
      + by rewrite decide_True by by right.
      + rewrite nth_insert by lia. destruct (decide (t = s)) as [->|Hne].
        * by rewrite decide_True by by left.
        * rewrite decide_False; [done|]. by intros [|]%elem_of_cons. }
  destruct (Hfold (nodes L) cr) as [Hr1 Hr2]; [apply nodes_level|done|done|].
  split; [done|]. intros s Hs. rewrite Hr2. clear Hfold Hr1 Hr2.
  destruct (decide (s ∈ nodes L)) as [Hin|Hin].
  - destruct (nodes_level L s Hin) as [HsL _]. unfold val. rewrite existsb_exists. split.
    + intros (i & Hi%list_elem_of_In & HT). apply andb_prop in HT as [HT Hc].
      split; [lia|]. apply Hcr in Hc as [_ [l Hl]]; [|eauto]. exists (i :: l). by constructor.
    + intros [_ [l Hl]]. destruct Hl as [|s i l Hi HT Hl]; [lia|].
      exists i. split; [by apply list_elem_of_In|]. rewrite HT. simpl.
      apply Hcr; [eauto|]. split; [apply T_level in HT; lia|eauto].
  - rewrite Hcr by done. split.
    + intros [? ?]. split; [lia|done].
    + intros [Hge [l Hl]]. split; [|eauto].
      destruct (decide (level s = L)) as [Heq|]; [|lia]. destruct l as [|i l].
      * inversion Hl; subst. lia.
      * exfalso. apply Hin. rewrite <- Heq. by apply (nodes_complete s (i :: l)).
Qed.

Definition levels : list bool :=
  fold_left level_step (rev (seq 0 target)) (<[dest := true]> (replicate N false)).

(** After the pass, the array marks the states with a tight path to [dest]. *)
Lemma levels_spec :
  length levels = N ∧ ∀ s, (s < N)%nat → nth s levels false = true ↔ ∃ l, tpath s l.
Proof.
  assert (Hpass : ∀ k, (k <= target)%nat → ∀ cr, reach_ok k cr →
    reach_ok 0 (fold_left level_step (rev (seq 0 k)) cr)).
  { induction k as [|k IH]; intros Hk cr Hcr; [done|].
    rewrite seq_S, rev_app_distr. simpl. apply IH; [lia|]. apply level_step_spec; [lia|done]. }
  destruct (Hpass target (le_n _) (<[dest := true]> (replicate N false))) as [Hl Hs].
  - split; [by rewrite length_insert, length_replicate|]. intros s Hs.
    rewrite nth_insert by by rewrite length_replicate.
    destruct (decide (s = dest)) as [->|Hne].
    + split; [|done]. intros _. split; [lia|]. exists []. constructor.
    + rewrite nth_replicate. split; [done|].
      intros [Hge [l Hl]]. pose proof (tpath_level s l Hl). destruct l; simpl in *; [|lia].
      inversion Hl. congruence.
  - split; [done|]. intros s Hb. unfold levels. rewrite Hs by done. split; [by intros [_ ?]|].
    intros. split; [lia|done].
Qed.

(** The greedy walk over edge indices. *)
Fixpoint first_path (cr : list bool) (fuel : nat) (s : nat) : option (list nat) :=
  if (s =? dest)%nat then Some [] else
  match fuel with
  | O => None
  | S fuel =>
      match List.find (λ i, T s i && nth (head s i) cr false) (rows s) with
      | None => None
      | Some i => cons i <$> first_path cr fuel (head s i)
      end
  end.

(** Rows are in strict key order; the first half of the key fixes the head. *)
Context {A B : Type} `{Ordered A, Ordered B} (key1 : nat → A) (key2 : nat → B).
Context (rows_sorted : ∀ s, (s < N)%nat → strictly_sorted (λ i, (key1 i, key2 i)) (rows s)).
Context (key_head : ∀ s i j, (s < N)%nat → i ∈ rows s → j ∈ rows s → key1 i = key1 j →
  T s i = true → T s j = true → head s i = head s j).

Definition path_key (l : list nat) : list A * list B := (map key1 l, map key2 l).

Lemma find_first {C K} `{Ordered K} (key : C → K) f (l : list C) x y :
  strictly_sorted key l → List.find f l = Some x → y ∈ l → f y = true → ole (key x) (key y).
Proof.
  induction 1 as [|z l Hs IH Hall]; simpl; [done|]. intros Hf Hy Hfy.
  destruct (f z) eqn:E.
  - injection Hf as ->. apply ole_lt_or_eq. apply elem_of_cons in Hy as [->|Hy]; [by right|left].
    rewrite Forall_forall in Hall. auto.
  - apply IH; [done| |done]. apply elem_of_cons in Hy as [->|]; [congruence|done].
Qed.

Lemma path_key_cons i j l1 l2 :
  ole (key1 i, key2 i) (key1 j, key2 j) → (key1 i = key1 j → ole (path_key l1) (path_key l2)) →
  ole (path_key (i :: l1)) (path_key (j :: l2)).
Proof.
  unfold ole, ltb, path_key. simpl. intros Hij Hl. revert Hij Hl.
  destruct (cmp (key1 j) (key1 i)) eqn:E1; simpl; try done.
  apply cmp_eq in E1. rewrite E1. intros Hij Hl. specialize (Hl eq_refl). revert Hij Hl.
  destruct (lex_cmp (map key1 l2) (map key1 l1)); simpl; try done.
  destruct (cmp (key2 j) (key2 i)); simpl; done.
Qed.

Lemma first_path_spec cr fuel s l' :
  (∀ s, (s < N)%nat → nth s cr false = true ↔ ∃ l, tpath s l) →
  tpath s l' → (s < N)%nat → (length l' <= fuel)%nat →
  ∃ l, first_path cr fuel s = Some l ∧ tpath s l ∧
    ∀ l2, tpath s l2 → ole (path_key l) (path_key l2).
Proof.
  intros Hcr. revert s l'. induction fuel as [|fuel IH]; intros s l' Hl' Hs Hlen; simpl.
  - destruct Hl'; [|simpl in *; lia]. rewrite Nat.eqb_refl. exists [].
    split_and!; [done|constructor|]. intros l2 Hl2. pose proof (tpath_level _ _ Hl2).
    destruct l2; simpl in *; [|lia]. reflexivity.
  - destruct (s =? dest)%nat eqn:E; bool_to_prop.
    { subst s. exists []. split_and!; [done|constructor|]. intros l2 Hl2.
      pose proof (tpath_level _ _ Hl2). destruct l2; simpl in *; [|lia]. reflexivity. }
    set (f := λ i, T s i && nth (head s i) cr false).
    assert (Hf : ∀ j l, j ∈ rows s → T s j = true → tpath (head s j) l → f j = true).
    { intros j l Hj HT Hl. unfold f. rewrite HT. simpl. apply Hcr; eauto. }
    destruct (List.find f (rows s)) as [i|] eqn:Efind.
    2:{ destruct Hl' as [|s j l' Hj HT Hl']; [done|].
        pose proof (find_none _ _ Efind j (proj1 (list_elem_of_In _ _) Hj)) as Hn.
        rewrite (Hf j l') in Hn; done. }
    pose proof (find_some _ _ Efind) as [Hi%list_elem_of_In Hfi].
    unfold f in Hfi. apply andb_prop in Hfi as [HT Hc].
    apply Hcr in Hc as [l1 Hl1]; [|eauto].
    destruct (IH (head s i) l1) as (l & Hl & Htp & Hbest); [done|eauto| |].
    { pose proof (tpath_level _ _ Hl1). pose proof (tpath_level _ _ Hl').
      apply T_level in HT. lia. }
    exists (i :: l). rewrite Hl. simpl. split_and!; [done|by constructor|].
    intros l2 Hl2. destruct Hl2 as [|s j l2 Hj HTj Hl2]; [done|].
    assert (Hole : ole (key1 i, key2 i) (key1 j, key2 j)).
    { apply (find_first (λ i, (key1 i, key2 i)) f (rows s)); eauto. }
    apply path_key_cons; [done|]. intros Hk. apply Hbest.
    by rewrite (key_head s i j).
Qed.
End reconstruction.
