(* ===== verification/SearchFacts.v ===== *)
(** What the searches of search.cpp compute: walks of the planning view, their
    exact cost and canonical rank, and the proof that a search returns the
    canonical minimum among the walks its bans and its hop bound allow. *)

From S2P Require Import Prelude Canonical Status Ids Codec Limits Graph Builder Path Request View ViewFacts PathSearch Dijkstra.

(** ** Ban sets *)

Definition bans_ok (b : BanSet) : Prop :=
  bn_normalized b = true → bn_nodes b = [] ∧ bn_adjacency b = [].

Lemma bans_ok_none : bans_ok no_bans.
Proof. done. Qed.
Lemma bans_ok_node x b : bans_ok (BanNode x b).
Proof. done. Qed.
Lemma bans_ok_adjacency x b : bans_ok (BanAdjacency x b).
Proof. done. Qed.
#[export] Hint Resolve bans_ok_none bans_ok_node bans_ok_adjacency : core.

Lemma bans_ok_fold {A} (f : BanSet → A → BanSet) l b :
  (∀ b x, bans_ok b → bans_ok (f b x)) → bans_ok b → bans_ok (fold_left f l b).
Proof. intros Hf. revert b. induction l as [|x l IH]; simpl; auto. Qed.

Lemma binary_search_unique_sort (l : list nat) x :
  binary_search (unique_ids (sort_ids l)) x = true ↔ x ∈ l.
Proof.
  assert (Hs : StronglySorted ole (unique_ids (sort_ids l))).
  { eapply StronglySorted_weaken; [|apply unique_ids_sorted].
    - intros y z Hyz. apply ole_lt_or_eq. by left.
    - unfold sort_ids. apply sort_by_sorted. }
  rewrite (binary_search_sorted _ _ Hs), elem_of_unique_ids. unfold sort_ids.
  apply elem_of_sort_by.
Qed.

Lemma NodeBanned_spec b x : bans_ok b → NodeBanned b x = true ↔ x ∈ bn_nodes b.
Proof.
  intros Hb. unfold NodeBanned, Normalize. destruct (bn_normalized b) eqn:E.
  - destruct (Hb E) as [-> _]. simpl. by rewrite elem_of_nil.
  - apply binary_search_unique_sort.
Qed.

Lemma AdjacencyBanned_spec b x : bans_ok b → AdjacencyBanned b x = true ↔ x ∈ bn_adjacency b.
Proof.
  intros Hb. unfold AdjacencyBanned, Normalize. destruct (bn_normalized b) eqn:E.
  - destruct (Hb E) as [_ ->]. simpl. by rewrite elem_of_nil.
  - apply binary_search_unique_sort.
Qed.

(** ** Walks *)

Definition allowed (v : PlanningView) (bans : BanSet) (i : nat) : bool :=
  negb (AdjacencyBanned bans i) && negb (NodeBanned bans (a_to (AdjacencyAt v i))).

(** [walk v bans u l w]: the adjacency indices [l] lead from [u] to [w]. *)
Inductive walk (v : PlanningView) (bans : BanSet) : nat → list nat → nat → Prop :=
  | walk_nil u : walk v bans u [] u
  | walk_cons u i l w : i ∈ row v u → allowed v bans i = true →
      walk v bans (a_to (AdjacencyAt v i)) l w → walk v bans u (i :: l) w.

(** The same as a test. *)
Fixpoint walk_test (v : PlanningView) (bans : BanSet) (u : nat) (l : list nat) (w : nat) : bool :=
  match l with
  | [] => (u =? w)%nat
  | i :: l =>
      existsb (Nat.eqb i) (row v u) && allowed v bans i &&
      walk_test v bans (a_to (AdjacencyAt v i)) l w
  end.

Lemma walk_test_spec v bans u l w : walk_test v bans u l w = true ↔ walk v bans u l w.
Proof.
  revert u. induction l as [|i l IH]; intros u; cbn [walk_test].
  - rewrite Nat.eqb_eq. split; [intros ->; constructor|by inversion 1].
  - rewrite !andb_true_iff, IH. assert (Hin : existsb (Nat.eqb i) (row v u) = true ↔ i ∈ row v u).
    { rewrite existsb_exists, list_elem_of_In. setoid_rewrite Nat.eqb_eq. naive_solver. }
    rewrite Hin. split; [intros [[? ?] ?]; by constructor|]. by inversion 1.
Qed.

(** The nodes a walk visits, and the raw path the code keeps for it. *)
Definition walk_nodes (v : PlanningView) (u : nat) (l : list nat) : list nat :=
  u :: map (λ i, a_to (AdjacencyAt v i)) l.
Definition walk_raw (v : PlanningView) (u : nat) (l : list nat) : RawPath :=
  MkRaw (walk_nodes v u l) l.

Definition increment (v : PlanningView) (i : nat) : Z :=
  cm_hop_cost (v_cost_model v) + a_traversal_cost (AdjacencyAt v i).
Definition walk_cost (v : PlanningView) (l : list nat) : Z := zsum (increment v) l.

(** The canonical rank: cost, hops, node identities, link identities. *)
Definition walk_rank (v : PlanningView) (u : nat) (l : list nat) :
  Z * (Z * (list NodeId * list LinkId)) :=
  (walk_cost v l, (Z.of_nat (length l),
    (map (node_id v) (walk_nodes v u l), map (link_id v) l))).

(** Among walks of one cost and one length the rank compares the identities. *)
Lemma walk_rank_ole v u l l' :
  walk_cost v l = walk_cost v l' → length l = length l' →
  ole (path_key (λ i, node_id v (a_to (AdjacencyAt v i))) (link_id v) l)
      (path_key (λ i, node_id v (a_to (AdjacencyAt v i))) (link_id v) l') →
  ole (walk_rank v u l) (walk_rank v u l').
Proof.
  unfold walk_rank, path_key, walk_nodes. cbn [map]. intros -> -> Hole.
  by rewrite !ole_pair_same, ole_cons_same, !map_map.
Qed.

Lemma walk_app v bans s l1 t l2 u :
  walk v bans s l1 t → walk v bans t l2 u → walk v bans s (l1 ++ l2) u.
Proof. induction 1; simpl; [done|]. intros. constructor; auto. Qed.

(** Splitting a walk at a node it visits. *)
Lemma walk_split v bans s l t x :
  walk v bans s l t → x ∈ walk_nodes v s l →
  ∃ l1 l2, l = l1 ++ l2 ∧ walk v bans s l1 x ∧ walk v bans x l2 t.
Proof.
  induction 1 as [s|s i l t Hi Ha Hw IH]; unfold walk_nodes in *; simpl; intros Hx.
  - apply list_elem_of_singleton in Hx as ->. exists [], []. split_and!; constructor.
  - apply elem_of_cons in Hx as [->|Hx].
    + exists [], (i :: l). split_and!; [done|constructor|by constructor].
    + destruct (IH Hx) as (l1 & l2 & -> & H1 & H2). exists (i :: l1), l2.
      split_and!; [done|by constructor|done].
Qed.

Lemma walk_nodes_app v s l1 l2 :
  walk_nodes v s (l1 ++ l2) = walk_nodes v s l1 ++ map (λ i, a_to (AdjacencyAt v i)) l2.
Proof. unfold walk_nodes. by rewrite map_app. Qed.

Lemma walk_last v bans s l t : walk v bans s l t → List.last (walk_nodes v s l) s = t.
Proof.
  induction 1 as [s|s i l t Hi Ha Hw IH]; [done|].
  unfold walk_nodes in *. simpl map. rewrite <- IH.
  destruct l as [|j l]; [done|]. simpl. clear. revert j.
  induction l as [|k l IH]; intros j; [done|]. simpl. destruct l; auto.
Qed.

Section costs.
Context (v : PlanningView) (bans : BanSet).
Context (Hinc : ∀ i, 0 <= increment v i).

Lemma walk_cost_nonneg l : 0 <= walk_cost v l.
Proof. apply zsum_nonneg, Forall_forall. auto. Qed.
Lemma walk_cost_app l1 l2 : walk_cost v (l1 ++ l2) = walk_cost v l1 + walk_cost v l2.
Proof. apply zsum_app. Qed.

(** Cutting the cycles of a walk: no dearer, and shorter unless it was simple. *)
Lemma walk_simplify s l t :
  walk v bans s l t → ∃ l', walk v bans s l' t ∧ NoDup (walk_nodes v s l') ∧
    walk_cost v l' <= walk_cost v l ∧ (l' = l ∨ (length l' < length l)%nat).
Proof.
  remember (length l) as k eqn:Hk. revert s l Hk.
  induction k as [k IH] using lt_wf_ind. intros s l Hk Hw.
  destruct Hw as [s|s i l t Hi Ha Hw].
  { exists []. split_and!; [constructor|apply NoDup_singleton|lia|by left]. }
  simpl in Hk. destruct (IH (length l) ltac:(lia) _ l eq_refl Hw) as (l1 & Hw1 & Hnd & Hc & Hlen).
  pose proof (Hinc i). destruct (decide (s ∈ walk_nodes v (a_to (AdjacencyAt v i)) l1)) as [Hin|Hin].
  - destruct (walk_split _ _ _ _ _ _ Hw1 Hin) as (p & q & -> & Hp & Hq).
    assert (Hlt : (length q < k)%nat).
    { rewrite length_app in Hlen. destruct Hlen as [<-|Hlen]; rewrite ?length_app in *; lia. }
    destruct (IH (length q) Hlt s q eq_refl Hq) as (l' & Hw' & Hnd' & Hc' & Hl').
    exists l'. rewrite walk_cost_app in Hc. pose proof (walk_cost_nonneg p).
    split_and!; [done|done|unfold walk_cost in *; rewrite zsum_cons; lia|].
    right. destruct Hl' as [->|]; lia.
  - exists (i :: l1). split_and!; [by constructor| | |].
    + unfold walk_nodes in *. simpl. by apply NoDup_cons.
    + unfold walk_cost in *. rewrite !zsum_cons. lia.
    + destruct Hlen as [->|]; [by left|right; simpl; lia].
Qed.
End costs.

(** ** The searched view *)

(** What the searches rely on: a coherent view of a coherent snapshot, values of
    the C++ types, and fewer nodes than the 32-bit sentinel (the default
    [max_nodes] is far below it). *)
Class Searchable (v : PlanningView) : Prop := {
  sv_wf : ViewWf v;
  sv_snapshot : snapshot_wf (v_snapshot v);
  sv_edges : Forall edge_typed (s_edges (v_snapshot v));
  sv_model : model_typed (v_cost_model v);
  sv_nodes : Z.of_nat (NodeCount v) < u32_max
}.

Lemma sv_hop_cost `{Hv : !Searchable v} : 0 <= cm_hop_cost (v_cost_model v) <= u64_max.
Proof. apply sv_model. Qed.

Section searchable.
Context (v : PlanningView) `{Hv : !Searchable v}.

Lemma row_index u i : (u < NodeCount v)%nat → i ∈ row v u → (i < length (v_adjacency v))%nat.
Proof.
  intros Hu Hi. unfold row in Hi. apply elem_of_seq in Hi.
  pose proof (vw_offset_end v sv_wf (u + 1) ltac:(lia)).
  pose proof (vw_offset_mono v sv_wf u Hu). lia.
Qed.

Lemma row_to u i :
  (u < NodeCount v)%nat → i ∈ row v u → (a_to (AdjacencyAt v i) < NodeCount v)%nat.
Proof. intros Hu Hi. by eapply vw_to, row_index; [apply sv_wf| |]. Qed.

Lemma row_NoDup u : NoDup (row v u).
Proof. apply NoDup_seq. Qed.

Lemma traversal_range i : 0 <= a_traversal_cost (AdjacencyAt v i) <= u64_max.
Proof.
  destruct (Nat.lt_ge_cases i (length (v_adjacency v))) as [Hi|Hi].
  - apply (vw_cost v sv_wf i Hi).
  - unfold AdjacencyAt. rewrite nth_overflow by done. simpl. unfold u64_max. lia.
Qed.

Lemma increment_nonneg i : 0 <= increment v i.
Proof. unfold increment. pose proof (traversal_range i). pose proof sv_hop_cost. lia. Qed.

Lemma HopIncrement_spec i :
  HopIncrement v (AdjacencyAt v i) =
  if increment v i <=? u64_max then Some (increment v i) else None.
Proof. apply CheckedAdd_spec; [apply sv_hop_cost|apply traversal_range]. Qed.

(** The two checked additions of a relaxation in one step. *)
Lemma next_cost_spec cost i :
  0 <= cost <= u64_max →
  (increment ← HopIncrement v (AdjacencyAt v i); CheckedAdd cost increment) =
  if cost + increment v i <=? u64_max then Some (cost + increment v i) else None.
Proof.
  intros Hc. rewrite HopIncrement_spec. pose proof (increment_nonneg i).
  destruct (increment v i <=? u64_max) eqn:E; bool_to_prop; simpl.
  - by rewrite CheckedAdd_spec by lia.
  - rewrite (proj2 (Z.leb_gt _ _)) by lia. done.
Qed.

Lemma walk_bound bans u l w :
  walk v bans u l w → (u < NodeCount v)%nat → (w < NodeCount v)%nat.
Proof.
  induction 1 as [|u i l w Hi _ _ IH]; [done|]. intros Hu. apply IH. by eapply row_to.
Qed.

Lemma walk_nodes_bound bans u l w :
  walk v bans u l w → (u < NodeCount v)%nat →
  Forall (λ x, (x < NodeCount v)%nat) (walk_nodes v u l).
Proof.
  induction 1 as [|u i l w Hi _ _ IH]; intros Hu; unfold walk_nodes in *; simpl.
  - by apply Forall_singleton.
  - constructor; [done|]. apply IH. by eapply row_to.
Qed.

Lemma simple_walk_length bans u l w :
  walk v bans u l w → (u < NodeCount v)%nat → NoDup (walk_nodes v u l) →
  (length l < NodeCount v)%nat.
Proof.
  intros Hw Hu Hnd. pose proof (walk_nodes_bound bans u l w Hw Hu) as Hall.
  assert (Hle : (length (walk_nodes v u l) <= length (seq 0 (NodeCount v)))%nat).
  { apply NoDup_incl_length; [by apply NoDup_ListNoDup|].
    intros x Hx%list_elem_of_In. rewrite Forall_forall in Hall. apply in_seq.
    specialize (Hall x Hx). lia. }
  unfold walk_nodes in Hle. simpl in Hle. rewrite length_map, length_seq in Hle. lia.
Qed.

Lemma node_id_inj u w :
  (u < NodeCount v)%nat → (w < NodeCount v)%nat → node_id v u = node_id v w → u = w.
Proof.
  intros Hu Hw Heq. destruct (Nat.lt_trichotomy u w) as [Hlt|[|Hlt]]; [|done|].
  - pose proof (vw_order v sv_wf u w ltac:(lia)) as H. apply ltb_neq in H. done.
  - pose proof (vw_order v sv_wf w u ltac:(lia)) as H. apply ltb_neq in H. done.
Qed.

Lemma row_key_sorted u :
  (u < NodeCount v)%nat →
  strictly_sorted (λ i, (node_id v (a_to (AdjacencyAt v i)), link_id v i)) (row v u).
Proof. intros Hu. exact (vw_sorted v sv_wf u Hu). Qed.
End searchable.

(** ** The queue *)

Definition entry_key (e : QueueEntry) : Z * (Z * nat) := (q_cost e, (q_hops e, q_state e)).

Lemma QueueGreater_ltb l r : QueueGreater l r = ltb (entry_key r) (entry_key l).
Proof.
  unfold QueueGreater, entry_key, ltb. destruct l as [c h s], r as [c' h' s']. simpl.
  rewrite Z.gtb_ltb. destruct (Z.eqb_spec c c') as [->|Hc]; simpl.
  - rewrite Z.compare_refl. rewrite Z.gtb_ltb. destruct (Z.eqb_spec h h') as [->|Hh]; simpl.
    + rewrite Z.compare_refl. destruct (Z.compare_spec (Z.of_nat s') (Z.of_nat s));
        destruct (Nat.ltb_spec s' s); try done; lia.
    + destruct (Z.compare_spec h' h), (Z.ltb_spec h' h); try done; lia.
  - destruct (Z.compare_spec c' c), (Z.ltb_spec c' c); try done; lia.
Qed.

Lemma pop_min_None q : pop_min q = None ↔ q = [].
Proof.
  destruct q as [|e q]; simpl; [done|]. split; [|done].
  destruct (pop_min q) as [[m r]|]; [destruct (QueueGreater e m); done|done].
Qed.

Lemma pop_min_Some q m r :
  pop_min q = Some (m, r) →
  q ≡ₚ m :: r ∧ Forall (λ e, ole (entry_key m) (entry_key e)) r.
Proof.
  revert m r. induction q as [|e q IH]; intros m r; simpl; [done|].
  destruct (pop_min q) as [[m' r']|] eqn:E.
  - destruct (IH m' r' eq_refl) as [Hp Hall]. rewrite QueueGreater_ltb.
    destruct (ltb (entry_key m') (entry_key e)) eqn:Hg; intros [= <- <-].
    + split; [by rewrite Hp, Permutation_swap|]. constructor; [|done].
      apply ole_lt_or_eq. by left.
    + split; [done|]. rewrite Hp. constructor; [exact Hg|].
      eapply Forall_impl; [exact Hall|]. simpl. intros x Hx. by transitivity (entry_key m').
  - apply pop_min_None in E as ->. by intros [= <- <-].
Qed.

Lemma entry_key_cost e e' : ole (entry_key e) (entry_key e') → q_cost e <= q_cost e'.
Proof.
  unfold ole, ltb, entry_key. simpl.
  destruct (Z.compare_spec (q_cost e') (q_cost e)); simpl; done || lia.
Qed.

(** Cost and hops as one integer: the order of the labels is its order. *)
Definition label_key (cost hops : Z) : Z := cost * 4294967296 + hops.

Lemma BetterLabel_key c1 h1 c2 h2 :
  0 <= h1 <= u32_max → 0 <= h2 <= u32_max →
  BetterLabel c1 h1 c2 h2 = (label_key c1 h1 <? label_key c2 h2).
Proof.
  unfold BetterLabel, label_key, u32_max. intros H1 H2.
  destruct (Z.eqb_spec c1 c2) as [->|Hc]; cbn [negb].
  - destruct (Z.ltb_spec (c2 * 4294967296 + h1) (c2 * 4294967296 + h2)), (Z.ltb_spec h1 h2);
      done || lia.
  - destruct (Z.ltb_spec (c1 * 4294967296 + h1) (c2 * 4294967296 + h2)), (Z.ltb_spec c1 c2);
      done || lia.
Qed.

Lemma entry_key_label e e' :
  0 <= q_hops e <= u32_max → 0 <= q_hops e' <= u32_max →
  ole (entry_key e) (entry_key e') →
  label_key (q_cost e) (q_hops e) <= label_key (q_cost e') (q_hops e').
Proof.
  unfold ole, ltb, entry_key, label_key, u32_max. simpl. intros H1 H2.
  destruct (Z.compare_spec (q_cost e') (q_cost e)); simpl; try done; [|lia].
  destruct (Z.compare_spec (q_hops e') (q_hops e)); simpl; try done; lia.
Qed.

(** ** The work left: a measure for the main loops *)

(** The adjacencies of the states still to settle. *)
Definition pending_work (settled : list bool) (cost : nat → nat) (states : nat) : nat :=
  list_sum (map (λ s, if nth s settled false then 0%nat else cost s) (seq 0 states)).

Lemma list_sum_update (f g : nat → nat) l u :
  NoDup l → u ∈ l → (∀ x, x ∈ l → x ≠ u → f x = g x) →
  (list_sum (map f l) + g u = list_sum (map g l) + f u)%nat.
Proof.
  induction l as [|x l IH]; intros Hnd Hu Hfg; [by apply elem_of_nil in Hu|]. simpl.
  apply NoDup_cons in Hnd as [Hx Hnd]. destruct (decide (x = u)) as [->|Hne].
  - assert (Heq : map f l = map g l).
    { apply map_ext_in. intros y Hy%list_elem_of_In. apply Hfg; [by right|]. by intros ->. }
    rewrite Heq. lia.
  - apply elem_of_cons in Hu as [|Hu]; [congruence|].
    rewrite (Hfg x) by (done || by left). specialize (IH Hnd Hu).
    rewrite <- Nat.add_assoc, IH; [lia|]. intros y Hy. apply Hfg. by right.
Qed.

Lemma pending_work_settle settled cost states u :
  (u < states)%nat → (u < length settled)%nat → nth u settled false = false →
  (pending_work (<[u := true]> settled) cost states + cost u = pending_work settled cost states)%nat.
Proof.
  intros Hu Hlen Hs. unfold pending_work.
  pose proof (list_sum_update (λ s, if nth s (<[u:=true]> settled) false then 0%nat else cost s)
    (λ s, if nth s settled false then 0%nat else cost s) (seq 0 states) u) as H.
  cbv beta in H. rewrite Hs, nth_insert, decide_True in H by done.
  rewrite Nat.add_0_r in H. apply H; [apply NoDup_seq| |].
  - apply elem_of_seq. lia.
  - intros x _ Hx. by rewrite nth_insert, decide_False.
Qed.

Lemma pending_work_init m cost states :
  pending_work (replicate m false) cost states = list_sum (map cost (seq 0 states)).
Proof. unfold pending_work. f_equal. apply map_ext. intros s. by rewrite nth_replicate. Qed.

Lemma rows_total v `{Hv : !Searchable v} :
  (list_sum (map (λ u, length (row v u)) (seq 0 (NodeCount v))) <= length (v_adjacency v))%nat.
Proof.
  assert (Hsum : ∀ k, (k <= NodeCount v)%nat →
    (list_sum (map (λ u, length (row v u)) (seq 0 k)) + offset v 0 = offset v k)%nat).
  { induction k as [|k IH]; intros Hk; [done|].
    rewrite seq_S, map_app, list_sum_app. specialize (IH ltac:(lia)). cbn [map list_sum fold_right].
    assert (Hk' : length (row v (0 + k)) = (offset v (k + 1) - offset v k)%nat) by apply length_seq.
    pose proof (vw_offset_mono v sv_wf k ltac:(lia)) as Hm.
    rewrite Nat.add_1_r in *. lia. }
  specialize (Hsum (NodeCount v) (le_n _)).
  pose proof (vw_offset_end v sv_wf (NodeCount v) (le_n _)). lia.
Qed.

(** A loop whose body adds at most one unit of [f] per iteration. *)
Lemma for_each_grows {A S} (f : S → nat) (body : A → S → S * bool) l s :
  (∀ x s, f (body x s).1 <= Datatypes.S (f s))%nat → (f (for_each body l s).1 <= f s + length l)%nat.
Proof.
  intros Hb. revert s. induction l as [|x l IH]; intros s; simpl; [lia|].
  specialize (Hb x s). destruct (body x s) as [s' stop]. simpl in *. destruct stop; simpl; [lia|].
  specialize (IH s'). lia.
Qed.

Lemma for_each_same {A S B} (f : S → B) (body : A → S → S * bool) l s :
  (∀ x s, f (body x s).1 = f s) → f (for_each body l s).1 = f s.
Proof.
  intros Hb. revert s. induction l as [|x l IH]; intros s; simpl; [done|].
  specialize (Hb x s). destruct (body x s) as [s' stop]. simpl in *. destruct stop; simpl; [done|].
  by rewrite IH.
Qed.

(** The budget pays for [k] more expansions. *)
Definition affords (w : Work) (k : nat) : Prop :=
  Z.of_nat k <= wb_states_remaining (w_budget w) ∧ Z.of_nat k <= wb_pushes_remaining (w_budget w).

Lemma affords_le w j k : affords w k → (j <= k)%nat → affords w j.
Proof. unfold affords. lia. Qed.

Lemma for_each_affords {A S} (f : S → Work) (body : A → S → S * bool) l s k :
  (∀ x s k, affords (f s) (Datatypes.S k) → (body x s).2 = false ∧ affords (f (body x s).1) k) →
  affords (f s) (length l + k) →
  (for_each body l s).2 = false ∧ affords (f (for_each body l s).1) k.
Proof.
  intros Hb. revert s. induction l as [|x l IH]; intros s Ha; simpl; [done|].
  destruct (Hb x s (length l + k)%nat Ha) as [Hr Ha'].
  destruct (body x s) as [s' stop]. simpl in *. subst stop. by apply IH.
Qed.

(** A spend that the budget affords succeeds. *)
Lemma SpendState_affords w k :
  affords w (Datatypes.S k) →
  (SpendState w).2 = true ∧
  Z.of_nat k <= wb_states_remaining (w_budget (SpendState w).1) ∧
  wb_pushes_remaining (w_budget (SpendState w).1) = wb_pushes_remaining (w_budget w).
Proof.
  unfold affords, SpendState. intros [Hs Hp].
  rewrite (proj2 (Z.eqb_neq _ 0)) by lia. simpl. lia.
Qed.

Lemma SpendPush_affords w k :
  Z.of_nat k < wb_pushes_remaining (w_budget w) →
  (SpendPush w).2 = true ∧
  Z.of_nat k <= wb_pushes_remaining (w_budget (SpendPush w).1) ∧
  wb_states_remaining (w_budget (SpendPush w).1) = wb_states_remaining (w_budget w).
Proof.
  unfold SpendPush. intros Hp.
  rewrite (proj2 (Z.eqb_neq _ 0)) by lia. simpl. lia.
Qed.

(** ** What a search promises *)

(** A hop bound of [kNoHopBound] is no bound. *)
Definition within (hop_budget : Z) (l : list nat) : Prop :=
  hop_budget = kNoHopBound ∨ Z.of_nat (length l) <= hop_budget.

(** [l] is the canonical minimum of the allowed walks within the hop bound. *)
Record canonical_minimum (v : PlanningView) (bans : BanSet) (hop_budget : Z) (source dest : nat)
    (l : list nat) : Prop := {
  cm_walk : walk v bans source l dest;
  cm_within : within hop_budget l;
  cm_simple : NoDup (walk_nodes v source l);
  cm_cost : walk_cost v l < u64_max;
  cm_least : ∀ l', walk v bans source l' dest → within hop_budget l' →
    ole (walk_rank v source l) (walk_rank v source l')
}.

(** The contract of a search that did not run out of budget: the canonical
    minimum, or no allowed walk of representable cost below the sentinel. *)
Definition search_correct (v : PlanningView) (bans : BanSet) (hop_budget : Z) (source dest : nat)
    (outcome : SearchOutcome) : Prop :=
  if so_found outcome
  then ∃ l, so_path outcome = walk_raw v source l ∧
         canonical_minimum v bans hop_budget source dest l
  else ∀ l, walk v bans source l dest → within hop_budget l → u64_max <= walk_cost v l.

Lemma walk_rank_lt v u l l' :
  walk_cost v l < walk_cost v l' ∨
  walk_cost v l = walk_cost v l' ∧ (length l < length l')%nat →
  ole (walk_rank v u l) (walk_rank v u l').
Proof.
  intros Hlt. apply ole_lt_or_eq. left. unfold ltb, walk_rank. simpl.
  destruct Hlt as [Hlt|[-> Hlt]].
  - by rewrite (proj2 (Z.compare_lt_iff _ _) Hlt).
  - rewrite Z.compare_refl. by rewrite (proj2 (Z.compare_lt_iff _ _)) by lia.
Qed.

(** A walk that is least among the simple walks is the canonical minimum. *)
Lemma least_of_simple v bans hop_budget source dest l :
  (∀ i, 0 <= increment v i) →
  walk v bans source l dest → within hop_budget l → walk_cost v l < u64_max →
  (∀ l', walk v bans source l' dest → within hop_budget l' → NoDup (walk_nodes v source l') →
    walk_cost v l < walk_cost v l' ∨
    walk_cost v l = walk_cost v l' ∧ (length l < length l')%nat ∨
    walk_cost v l = walk_cost v l' ∧ length l = length l' ∧
      ole (walk_rank v source l) (walk_rank v source l')) →
  canonical_minimum v bans hop_budget source dest l.
Proof.
  intros Hinc Hw Hb Hc Hleast.
  assert (Hsub : ∀ l', walk v bans source l' dest → within hop_budget l' →
    ∃ l'', walk v bans source l'' dest ∧ within hop_budget l'' ∧ NoDup (walk_nodes v source l'') ∧
      walk_cost v l'' <= walk_cost v l' ∧ (l'' = l' ∨ (length l'' < length l')%nat)).
  { intros l' Hw' Hb'. destruct (walk_simplify v bans Hinc _ _ _ Hw') as (l'' & ? & ? & ? & Hl).
    exists l''. split_and!; try done. destruct Hb' as [|Hb']; [by left|right].
    destruct Hl as [->|]; lia. }
  constructor; try done.
  - destruct (Hsub l Hw Hb) as (l1 & Hw1 & Hb1 & Hnd & Hc1 & [->|Hlt]); [done|].
    destruct (Hleast l1 Hw1 Hb1 Hnd) as [?|[[? ?]|(? & ? & _)]]; lia.
  - intros l' Hw' Hb'. destruct (Hsub l' Hw' Hb') as (l1 & Hw1 & Hb1 & Hnd & Hc1 & Hl1).
    destruct (Hleast l1 Hw1 Hb1 Hnd) as [?|[[? ?]|(? & ? & Hr)]].
    + apply walk_rank_lt. lia.
    + apply walk_rank_lt. destruct Hl1 as [->|]; lia.
    + destruct Hl1 as [->|]; [done|]. apply walk_rank_lt. lia.
Qed.
