(* ===== verification/PlainFacts.v ===== *)
(** The search over nodes ([Searcher::PlainSearch]): its main loop is Dijkstra's
    algorithm on (cost, hops) labels, it ends within its fuel, and it returns the
    canonical minimum of the allowed walks. *)

From S2P Require Import Prelude Canonical Status Ids Codec Limits Graph Builder Path Request View ViewFacts PathSearch Dijkstra SearchFacts.

Definition count_true (l : list bool) : nat := length (List.filter id l).

Lemma count_true_insert l u : l !! u = Some false → count_true (<[u := true]> l) = S (count_true l).
Proof.
  unfold count_true. revert u. induction l as [|b l IH]; intros u Hu; [done|].
  destruct u as [|u]; simpl in *.
  - injection Hu as ->. done.
  - specialize (IH u Hu). destruct b; simpl; lia.
Qed.

Lemma count_true_le l : (count_true l <= length l)%nat.
Proof. apply List.filter_length_le. Qed.

Lemma count_true_all l u : count_true l = length l → (u < length l)%nat → nth u l false = true.
Proof.
  unfold count_true. revert u. induction l as [|b l IH]; intros u Hc Hu; simpl in *; [lia|].
  pose proof (count_true_le l) as Hle. unfold count_true in Hle.
  destruct b; simpl in *; [|lia]. destruct u as [|u]; [done|]. apply IH; lia.
Qed.

Section plain.
Context (v : PlanningView) `{Hv : !Searchable v} (bans : BanSet) (hop_budget : Z) (source : nat).
Context (Hsource : (source < NodeCount v)%nat).
Context (Hbudget : hop_budget = kNoHopBound ∨ Z.of_nat (NodeCount v) - 1 <= hop_budget).

Let n : nat := NodeCount v.
Definition plain_out (u : nat) : list nat := List.filter (allowed v bans) (row v u).
Definition plain_head (u i : nat) : nat := a_to (AdjacencyAt v i).
Definition plain_weight (i : nat) : Z := increment v i * 4294967296 + 1.
Definition plain_top : Z := label_key u64_max u32_max.
Definition plain_label (st : PlainState) (u : nat) : Z := label_key (dist_at st u) (hops_at st u).
Definition plain_queue (st : PlainState) : list (Z * nat) :=
  map (λ e, (label_key (q_cost e) (q_hops e), q_state e)) (ps_queue st).

Notation plain_inv R st :=
  (DInv plain_out plain_head plain_weight source plain_top R (plain_label st) (settled_at st)
     (plain_queue st)).

Lemma plain_weight_nonneg i : 0 <= plain_weight i.
Proof. unfold plain_weight. pose proof (increment_nonneg v i). lia. Qed.

Lemma elem_of_plain_out u i : i ∈ plain_out u ↔ i ∈ row v u ∧ allowed v bans i = true.
Proof. unfold plain_out. by rewrite !list_elem_of_In, filter_In. Qed.

Record plain_ok (st : PlainState) : Prop := {
  po_dist : length (ps_dist st) = n;
  po_hops : length (ps_hops st) = n;
  po_settled : length (ps_settled st) = n;
  po_label : ∀ u, (dist_at st u = u64_max ∧ hops_at st u = u32_max) ∨
    (0 <= dist_at st u <= u64_max ∧ 0 <= hops_at st u <= Z.of_nat (count_true (ps_settled st)));
  po_queue : Forall (λ e, 0 <= q_cost e <= u64_max ∧ 0 <= q_hops e < u32_max ∧ (q_state e < n)%nat)
               (ps_queue st)
}.

Lemma plain_count st : plain_ok st → Z.of_nat (count_true (ps_settled st)) < u32_max.
Proof.
  intros Hok. pose proof (count_true_le (ps_settled st)) as H. rewrite (po_settled st Hok) in H.
  pose proof (sv_nodes (v := v)). unfold n in *. lia.
Qed.

Lemma plain_label_range st u :
  plain_ok st → 0 <= dist_at st u <= u64_max ∧ 0 <= hops_at st u <= u32_max.
Proof.
  intros Hok. pose proof (plain_count st Hok). unfold u64_max, u32_max in *.
  destruct (po_label st Hok u) as [[-> ->]|[? ?]]; unfold u64_max, u32_max in *; lia.
Qed.

Lemma settled_bound st u : plain_ok st → settled_at st u = true → (u < n)%nat.
Proof.
  intros Hok Hs. destruct (Nat.lt_ge_cases u n) as [|Hge]; [done|].
  unfold settled_at in Hs. rewrite nth_overflow in Hs by (rewrite (po_settled st Hok); lia). done.
Qed.

(** The edges relaxed while [node] has the adjacencies [l] still to visit. *)
Definition relaxed (node : nat) (l : list nat) (st : PlainState) (u i : nat) : Prop :=
  settled_at st u = true ∧ i ∈ plain_out u ∧ (u = node → i ∉ l).

Record RelaxInv (node : nat) (cost : Z) (l : list nat) (st : PlainState) : Prop := {
  ri_ok : plain_ok st;
  ri_inv : plain_inv (relaxed node l st) st;
  ri_settled : settled_at st node = true;
  ri_max : ∀ w, settled_at st w = true → plain_label st w <= plain_label st node;
  ri_cost : dist_at st node = cost;
  ri_hops : 0 <= hops_at st node ∧ hops_at st node + 1 <= Z.of_nat (count_true (ps_settled st));
  ri_row : ∀ i, i ∈ l → i ∈ row v node
}.

(** Writing a label leaves everything else as it was. *)
Lemma with_label_at st u c h w :
  plain_ok st → (u < n)%nat →
  dist_at (with_label u c h st) w = (if decide (w = u) then c else dist_at st w) ∧
  hops_at (with_label u c h st) w = (if decide (w = u) then h else hops_at st w).
Proof.
  intros Hok Hu. unfold dist_at, hops_at, with_label. simpl.
  rewrite !nth_insert by (rewrite ?(po_dist st Hok), ?(po_hops st Hok); done). done.
Qed.

Lemma plain_ok_with_label st u c h :
  plain_ok st → (u < n)%nat → 0 <= c <= u64_max →
  0 <= h <= Z.of_nat (count_true (ps_settled st)) → plain_ok (with_label u c h st).
Proof.
  intros Hok Hu Hc Hh. pose proof (plain_count st Hok). pose proof Hok as [].
  constructor; simpl; rewrite ?length_insert; try done.
  - intros w. destruct (with_label_at st u c h w Hok Hu) as [-> ->].
    destruct (decide (w = u)); [by right|]. apply po_label0.
  - constructor; [|done]. simpl. lia.
Qed.

(** The state fields [SpendState] and [SpendPush] change play no part. *)
Lemma plain_ok_with_work w st : plain_ok st → plain_ok (with_work w st).
Proof. intros []. by constructor. Qed.

Lemma relaxed_cons node i l st u j :
  relaxed node l st u j → relaxed node (i :: l) st u j ∨ u = node ∧ j = i.
Proof.
  intros (Hs & Hj & Hn). destruct (decide (u = node ∧ j = i)) as [|Hne]; [by right|left].
  split_and!; [done..|]. intros -> [->|Hin]%elem_of_cons; [by apply Hne|]. by apply Hn.
Qed.

(** An adjacency the search passes over needs no relaxation: it is banned, or its
    head is labelled well enough. *)
Lemma RelaxInv_keep node cost i l st st' :
  RelaxInv node cost (i :: l) st →
  (allowed v bans i = true → plain_label st node + plain_weight i < plain_top →
   plain_label st (plain_head node i) <= plain_label st node + plain_weight i) →
  ps_dist st' = ps_dist st → ps_hops st' = ps_hops st → ps_settled st' = ps_settled st →
  ps_queue st' = ps_queue st → RelaxInv node cost l st'.
Proof.
  intros [Hok Hinv Hs Hmax Hcost Hhops Hrow] Hkeep E1 E2 E3 E4.
  assert (Hinv' : plain_inv (relaxed node l st) st).
  { destruct (allowed v bans i) eqn:Ea.
    - eapply (DInv_relax_keep _ _ _ _ _ _ _ _ _ _ node i Hinv Hs); [apply relaxed_cons|].
      intros Hlt. by apply Hkeep.
    - eapply DInv_weaken; [|exact Hinv]. intros u j Hj.
      destruct (relaxed_cons node i l st u j Hj) as [|[-> ->]]; [done|].
      destruct Hj as (_ & Hin & _). apply elem_of_plain_out in Hin as [_ ?]. congruence. }
  destruct st as [d h s q o w], st' as [d' h' s' q' o' w']. simpl in *. subst.
  constructor; try done.
  - destruct Hok. by constructor.
  - intros j Hj. apply Hrow. by right.
Qed.

Lemma relax_edge_inv node cost i l st :
  RelaxInv node cost (i :: l) st → (relax_edge v bans hop_budget node cost i st).2 = false →
  RelaxInv node cost l (relax_edge v bans hop_budget node cost i st).1.
Proof.
  intros Hri. pose proof Hri as [Hok Hinv Hs Hmax Hcost [Hh0 Hh1] Hrow].
  pose proof (plain_count st Hok) as Hcount. pose proof (settled_bound st node Hok Hs) as Hnode.
  assert (Hi : i ∈ row v node) by (apply Hrow; by left).
  assert (Hto : (a_to (AdjacencyAt v i) < n)%nat) by by apply (row_to v node).
  pose proof (plain_label_range st node Hok) as [Hc _].
  pose proof (plain_label_range st (a_to (AdjacencyAt v i)) Hok) as [Htc Hth].
  pose proof (increment_nonneg v i) as Hinc.
  unfold relax_edge.
  destruct (AdjacencyBanned bans i) eqn:Eab.
  { intros _. apply (RelaxInv_keep node cost i l st); try done. unfold allowed. by rewrite Eab. }
  destruct (NodeBanned bans _) eqn:Enb.
  { intros _. apply (RelaxInv_keep node cost i l st); try done. unfold allowed. by rewrite Eab, Enb. }
  assert (Hall : allowed v bans i = true) by (unfold allowed; by rewrite Eab, Enb).
  rewrite wrap32_small by (unfold u32_max in *; lia).
  assert (Hcase : ∀ st', ps_dist st' = ps_dist st → ps_hops st' = ps_hops st →
    ps_settled st' = ps_settled st → ps_queue st' = ps_queue st →
    label_key (dist_at st (a_to (AdjacencyAt v i))) (hops_at st (a_to (AdjacencyAt v i))) <=
      label_key (cost + increment v i) (hops_at st node + 1) ∨ u64_max < cost + increment v i →
    RelaxInv node cost l st').
  { intros st' E1 E2 E3 E4 Hor. apply (RelaxInv_keep node cost i l st); try done.
    intros _ Hlt. unfold plain_label, plain_head, plain_weight, plain_top, label_key in *.
    rewrite Hcost in *. unfold u64_max, u32_max in *. lia. }
  destruct (negb _ && _) eqn:Ehb.
  { intros _. apply Hcase; try done. left. apply andb_prop in Ehb as [Ehb1 Ehb2].
    bool_to_prop. apply Z.gtb_lt in Ehb2.
    pose proof (count_true_le (ps_settled st)) as Hle. rewrite (po_settled st Hok) in Hle.
    assert (Hfull : count_true (ps_settled st) = length (ps_settled st)).
    { rewrite (po_settled st Hok). destruct Hbudget as [->|?]; [done|]. unfold n in *. lia. }
    pose proof (Hmax (a_to (AdjacencyAt v i))) as Hm. unfold settled_at in Hm.
    rewrite count_true_all in Hm by first [exact Hfull | by rewrite (po_settled st Hok)]. specialize (Hm eq_refl).
    unfold plain_label, label_key in *. rewrite Hcost in Hm. lia. }
  rewrite Hcost in Hc. pose proof (next_cost_spec v cost i Hc) as Hnext.
  destruct (HopIncrement v (AdjacencyAt v i)) as [inc|] eqn:Einc; simpl in Hnext.
  2:{ intros _. apply Hcase; try done. right. destruct (_ <=? _) eqn:E in Hnext; bool_to_prop; [done|lia]. }
  rewrite Hnext. destruct (cost + increment v i <=? u64_max) eqn:Eov; bool_to_prop.
  2:{ intros _. apply Hcase; try done. by right. }
  destruct (SpendState (ps_work st)) as [work ok]. destruct ok; [|done]. simpl.
  change (dist_at (with_work work st)) with (dist_at st).
  change (hops_at (with_work work st)) with (hops_at st).
  rewrite BetterLabel_key by (unfold u32_max in *; lia).
  destruct (label_key _ _ <? label_key _ _) eqn:Ebetter; bool_to_prop; simpl.
  2:{ intros _. apply Hcase; try done. by left. }
  destruct (SpendPush work) as [work' ok']. destruct ok'; simpl; [|done]. intros _.
  set (c := cost + increment v i) in *. set (h := hops_at st node + 1) in *.
  set (u := a_to (AdjacencyAt v i)) in *.
  assert (Hok' : plain_ok (with_label u c h (with_work work st))).
  { apply plain_ok_with_label; [by apply plain_ok_with_work|done|unfold c; lia|simpl; lia]. }
  assert (Hlab : ∀ w, plain_label (with_label u c h (with_work work st)) w =
    if decide (w = u) then label_key c h else plain_label st w).
  { intros w. unfold plain_label.
    destruct (with_label_at (with_work work st) u c h w) as [-> ->];
      [by apply plain_ok_with_work|done|]. by destruct (decide (w = u)). }
  assert (Hkey : plain_label st node + plain_weight i = label_key c h).
  { unfold plain_label, plain_weight, label_key, c, h. rewrite Hcost. lia. }
  destruct (DInv_relax_better plain_out plain_head plain_weight plain_weight_nonneg source plain_top
    (relaxed node (i :: l) st) (relaxed node l st) (plain_label st)
    (plain_label (with_label u c h (with_work work st))) (settled_at st) (plain_queue st) node i)
    as [Hu Hinv']; try done.
  - apply elem_of_plain_out. done.
  - apply relaxed_cons.
  - rewrite Hkey. unfold label_key, plain_top, u64_max, u32_max, label_key, c, h in *. lia.
  - rewrite Hkey. exact Ebetter.
  - intros w. rewrite Hlab, Hkey. reflexivity.
  - rewrite Hkey in Hinv'.
    assert (Hnu : node ≠ u) by (unfold plain_head in Hu; fold u in Hu; congruence).
    constructor.
    + apply (plain_ok_with_work work'). exact Hok'.
    + exact Hinv'.
    + exact Hs.
    + intros w Hw. change (plain_label (with_work work' (with_label u c h (with_work work st))))
        with (plain_label (with_label u c h (with_work work st))).
      rewrite !Hlab, (decide_False _ (P := node = u)) by done.
      rewrite decide_False; [by apply Hmax|].
      intros ->. change (settled_at st u = true) in Hw. unfold plain_head in Hu. fold u in Hu. congruence.
    + change (dist_at (with_label u c h (with_work work st)) node = cost).
      destruct (with_label_at (with_work work st) u c h node) as [-> _];
        [by apply plain_ok_with_work|done|]. by rewrite decide_False.
    + change (0 <= hops_at (with_label u c h (with_work work st)) node /\
        hops_at (with_label u c h (with_work work st)) node + 1 <=
          Z.of_nat (count_true (ps_settled st))).
      destruct (with_label_at (with_work work st) u c h node) as [_ ->];
        [by apply plain_ok_with_work|done|]. by rewrite decide_False.
    + intros j Hj. apply Hrow. by right.
Qed.

(** *** The main loop *)

Definition MainInv (st : PlainState) : Prop :=
  plain_ok st ∧ plain_inv (λ u i, settled_at st u = true ∧ i ∈ plain_out u) st.

Lemma plain_ok_with_queue q st :
  plain_ok st → (∀ e, e ∈ q → e ∈ ps_queue st) → plain_ok (with_queue q st).
Proof.
  intros [] Hq. constructor; try done. simpl. rewrite Forall_forall in *. eauto.
Qed.

Lemma with_settled_at u st w :
  plain_ok st → (u < n)%nat →
  settled_at (with_settled u st) w = true ↔ settled_at st w = true ∨ w = u.
Proof.
  intros Hok Hu. unfold settled_at, with_settled. simpl.
  rewrite nth_insert by (rewrite (po_settled st Hok); done).
  destruct (decide (w = u)); naive_solver.
Qed.

Lemma plain_ok_with_settled u st :
  plain_ok st → (u < n)%nat → settled_at st u = false →
  plain_ok (with_settled u st) ∧
  count_true (ps_settled (with_settled u st)) = S (count_true (ps_settled st)).
Proof.
  intros Hok Hu Hs.
  assert (Hlook : ps_settled st !! u = Some false).
  { unfold settled_at in Hs. rewrite nth_lookup in Hs.
    destruct (lookup_lt_is_Some_2 (ps_settled st) u) as [b Hb]; [by rewrite (po_settled st Hok)|].
    rewrite Hb in *. simpl in Hs. by subst. }
  pose proof (count_true_insert _ _ Hlook) as Hc. split; [|exact Hc].
  destruct Hok. constructor; simpl; rewrite ?length_insert; try done.
  intros w. rewrite Hc. specialize (po_label0 w).
  change (dist_at (with_settled u st) w) with (dist_at st w).
  change (hops_at (with_settled u st) w) with (hops_at st w). destruct po_label0; [by left|right; lia].
Qed.

Lemma settle_inv st entry q :
  MainInv st → pop_min (ps_queue st) = Some (entry, q) →
  let r := settle v bans hop_budget entry (with_queue q st) in r.2 = false → MainInv r.1.
Proof.
  intros [Hok Hinv] Hpop. apply pop_min_Some in Hpop as [Hperm Hmin].
  set (k := label_key (q_cost entry) (q_hops entry)). set (u := q_state entry).
  assert (HQ : plain_queue st ≡ₚ (k, u) :: plain_queue (with_queue q st)).
  { unfold plain_queue. rewrite Hperm. reflexivity. }
  pose proof (po_queue st Hok) as Hall. rewrite Hperm in Hall.
  apply Forall_cons in Hall as [(Hec & Heh & Hen) Hall].
  assert (Hok' : plain_ok (with_queue q st)).
  { apply plain_ok_with_queue; [done|]. intros e He. rewrite Hperm. by right. }
  fold u in Hen. unfold settle. fold u.
  change (settled_at (with_queue q st)) with (settled_at st).
  destruct (settled_at st u) eqn:Es.
  { intros _. split; [done|]. eapply DInv_skip; [exact Hinv|exact HQ|by left]. }
  change (dist_at (with_queue q st)) with (dist_at st).
  change (hops_at (with_queue q st)) with (hops_at st).
  pose proof (plain_label_range st u Hok) as [Huc Huh].
  rewrite BetterLabel_key by (unfold u32_max in *; lia).
  destruct (_ <? _) eqn:Eb; bool_to_prop.
  { intros _. split; [done|]. eapply DInv_skip; [exact Hinv|exact HQ|by right]. }
  destruct (plain_ok_with_settled u (with_queue q st)) as [Hok2 Hcount]; [done..|].
  destruct (DInv_settle plain_out plain_head plain_weight source plain_top _ (plain_label st)
    (settled_at st) (plain_queue st) k u (plain_queue (with_queue q st))
    (settled_at (with_settled u (with_queue q st))) Hinv HQ) as (HD & Hinv2 & Hmax); try done.
  - intros k' w Hin. unfold plain_queue in Hin.
    apply list_elem_of_fmap in Hin as (e & [= -> ->] & He). simpl in He.
    rewrite Forall_forall in Hmin, Hall. specialize (Hall e He). unfold k.
    apply entry_key_label; [lia|lia|]. apply Hmin, He.
  - intros w. by apply (with_settled_at u (with_queue q st)).
  - assert (Hlab : dist_at st u = q_cost entry).
    { unfold plain_label, k, label_key in HD. unfold u32_max in *. lia. }
    assert (Hstart : RelaxInv u (q_cost entry) (row v u) (with_settled u (with_queue q st))).
    { constructor.
      - exact Hok2.
      - eapply DInv_weaken; [|exact Hinv2]. intros w i (Hw & Hi & Hn).
        apply (with_settled_at u (with_queue q st)) in Hw as [Hw|Hw]; [done| |done|done].
        subst w. apply elem_of_plain_out in Hi as [Hi _]. by destruct (Hn eq_refl Hi).
      - apply with_settled_at; auto.
      - intros w Hw. specialize (Hmax w Hw). rewrite <- HD in Hmax. exact Hmax.
      - exact Hlab.
      - change (0 <= hops_at st u ∧ hops_at st u + 1 <=
          Z.of_nat (count_true (ps_settled (with_settled u (with_queue q st))))).
        rewrite Hcount. simpl. destruct (po_label st Hok u) as [[_ Hinf]|[_ [? ?]]]; [|lia].
        unfold plain_label, k, label_key in HD. unfold u32_max in *. lia.
      - done. }
    cbv zeta. intros Hf.
    pose proof (for_each_invariant (RelaxInv u (q_cost entry))
      (relax_edge v bans hop_budget u (q_cost entry)) (row v u) _
      (λ i l s, relax_edge_inv u (q_cost entry) i l s) Hstart Hf) as [Hok3 Hinv3 _ _ _ _ _].
    split; [done|]. eapply DInv_weaken; [|exact Hinv3].
    intros w i [Hw Hi]. split_and!; [done..|]. intros _. apply not_elem_of_nil.
Qed.

Lemma plain_loop_inv fuel st st' :
  MainInv st → plain_loop v bans hop_budget fuel st = Some (st', false) →
  MainInv st' ∧ ps_queue st' = [].
Proof.
  revert st. induction fuel as [|fuel IH]; intros st Hst; [done|]. simpl.
  destruct (pop_min (ps_queue st)) as [[entry q]|] eqn:Epop.
  - pose proof (settle_inv st entry q Hst Epop) as Hs. cbv zeta in Hs.
    destruct (settle v bans hop_budget entry (with_queue q st)) as [st2 limit]. simpl in Hs.
    destruct limit; [done|]. apply IH. by apply Hs.
  - intros [= <-]. split; [done|]. by apply pop_min_None.
Qed.

Lemma plain_init_inv w : MainInv (plain_init v source w).
Proof.
  assert (Hat : ∀ u, dist_at (plain_init v source w) u = (if decide (u = source) then 0 else u64_max) ∧
    hops_at (plain_init v source w) u = (if decide (u = source) then 0 else u32_max)).
  { intros u. unfold dist_at, hops_at, plain_init. simpl.
    rewrite !nth_insert by by rewrite length_replicate.
    split; destruct (decide _); try done; apply nth_replicate. }
  assert (Hs : ∀ u, settled_at (plain_init v source w) u = false).
  { intros u. apply nth_replicate. }
  split.
  - constructor; simpl; rewrite ?length_insert, ?length_replicate; try done.
    + intros u. destruct (Hat u) as [-> ->]. destruct (decide (u = source)); [right|by left].
      unfold u64_max. lia.
    + constructor; [|done]. simpl. unfold u64_max, u32_max. lia.
  - eapply (DInv_weaken _ _ _ _ _ (λ _ _, False)); [|].
    { intros u i [Hu _]. rewrite Hs in Hu. done. }
    assert (Hinit : DInv plain_out plain_head plain_weight source plain_top (λ _ _, False)
      (plain_label (plain_init v source w)) (λ _, false) [(0, source)]).
    { apply DInv_init; [unfold plain_top, label_key, u64_max, u32_max; lia| |].
      - unfold plain_label. destruct (Hat source) as [-> ->]. by rewrite !decide_True.
      - intros u Hu. unfold plain_label. destruct (Hat u) as [-> ->]. by rewrite !decide_False. }
    destruct Hinit. constructor; try done.
    + intros u Hu. rewrite Hs in Hu. done.
    + intros u _. by apply di_queued.
    + intros u k x Hu. rewrite Hs in Hu. done.
Qed.

(** The labels the loop leaves. *)
Lemma plain_final fuel w st :
  plain_loop v bans hop_budget fuel (plain_init v source w) = Some (st, false) →
  plain_ok st ∧ final plain_out plain_head plain_weight source plain_top (plain_label st).
Proof.
  intros Hloop. destruct (plain_loop_inv _ _ _ (plain_init_inv w) Hloop) as [[Hok Hinv] Hq].
  split; [done|]. unfold plain_queue in Hinv. rewrite Hq in Hinv.
  eapply (DInv_final _ _ _ plain_weight_nonneg); [exact Hinv|]. simpl. intros u i Hu Hi. by split.
Qed.

(** *** The reconstruction *)

Lemma walk_gwalk u l w : walk v bans u l w ↔ gwalk plain_out plain_head u l w.
Proof.
  split; induction 1; try constructor; try done.
  - by apply elem_of_plain_out.
  - by apply elem_of_plain_out in H as [? _].
  - by apply elem_of_plain_out in H as [_ ?].
Qed.

Lemma plain_gcost l : gcost plain_weight l = label_key (walk_cost v l) (Z.of_nat (length l)).
Proof.
  unfold gcost, walk_cost, label_key, plain_weight.
  induction l as [|i l IH]; [done|]. rewrite !zsum_cons, IH. simpl length. lia.
Qed.

Section result.
Context (st : PlainState) (dest : nat).
Context (Hok : plain_ok st) (Hdest : (dest < n)%nat).
Context (Hfinal : final plain_out plain_head plain_weight source plain_top (plain_label st)).
Context (Hreached : dist_at st dest ≠ u64_max).

Let T (u i : nat) : bool :=
  negb (dist_at st u =? u64_max) && allowed v bans i &&
  (hops_at st (plain_head u i) =? hops_at st u + 1) &&
  (dist_at st (plain_head u i) =? dist_at st u + increment v i).
Let level (u : nat) : nat := Z.to_nat (hops_at st u).
Notation tp := (tpath (row v) plain_head T dest).

Lemma labelled u :
  dist_at st u ≠ u64_max → 0 <= dist_at st u < u64_max ∧ 0 <= hops_at st u < u32_max.
Proof.
  intros Hu. pose proof (plain_count st Hok). destruct (po_label st Hok u) as [[? _]|[? ?]]; [done|lia].
Qed.

Lemma T_spec u i :
  T u i = true ↔ dist_at st u ≠ u64_max ∧ allowed v bans i = true ∧
    hops_at st (plain_head u i) = hops_at st u + 1 ∧
    dist_at st (plain_head u i) = dist_at st u + increment v i.
Proof. unfold T. rewrite !andb_true_iff, negb_true_iff, Z.eqb_neq, !Z.eqb_eq. tauto. Qed.

(** The test of the code is [T] and the array. *)
Lemma tight_T cr u i :
  dist_at st u ≠ u64_max →
  tight v bans (ps_dist st) (ps_hops st) cr u (hops_at st u + 1) i =
  T u i && nth (plain_head u i) cr false.
Proof.
  intros Hu. destruct (labelled u Hu) as [Hd Hh]. unfold tight, T, allowed, plain_head.
  rewrite (proj2 (Z.eqb_neq _ _) Hu). simpl.
  destruct (AdjacencyBanned bans i); [done|]. destruct (NodeBanned bans _); [done|]. simpl.
  set (to := a_to (AdjacencyAt v i)). fold (hops_at st to). fold (dist_at st u) (dist_at st to).
  destruct (hops_at st to =? _); [|done]. simpl.
  destruct (nth to cr false); simpl; [|by rewrite andb_false_r].
  rewrite andb_true_r. pose proof (next_cost_spec v (dist_at st u) i ltac:(lia)) as Hnext.
  pose proof (plain_label_range st to Hok) as [Ht _].
  destruct (HopIncrement v _) as [inc|]; simpl in Hnext; [rewrite Hnext|];
    destruct (dist_at st u + increment v i <=? u64_max) eqn:E; bool_to_prop; try done;
    try apply Z.eqb_sym; symmetry; apply Z.eqb_neq; lia.
Qed.

Lemma T_level u i : T u i = true → level (plain_head u i) = S (level u).
Proof.
  intros (Hu & _ & Hh & _)%T_spec. destruct (labelled u Hu). unfold level. rewrite Hh. lia.
Qed.

Lemma tp_dist u l : tp u l → dist_at st u <= dist_at st dest.
Proof.
  induction 1 as [|u i l _ HT _ IH]; [lia|]. apply T_spec in HT as (_ & _ & _ & Hd).
  pose proof (increment_nonneg v i). lia.
Qed.

Lemma tp_length u l : tp u l → (level u + length l)%nat = level dest.
Proof. by apply (tpath_level (row v) plain_head T level n dest (level dest) T_level). Qed.

Lemma tp_tight u l :
  tp u l ↔ tight_walk plain_out plain_head plain_weight (plain_label st) u l dest.
Proof.
  split.
  - induction 1 as [|u i l Hi HT _ IH]; [constructor|].
    apply T_spec in HT as (_ & Ha & Hh & Hd). constructor; [by apply elem_of_plain_out| |done].
    unfold plain_label, plain_weight, label_key. rewrite Hh, Hd. lia.
  - enough (Hgen : ∀ d, tight_walk plain_out plain_head plain_weight (plain_label st) u l d →
      d = dest → tp u l) by (intros; by eapply Hgen).
    induction 1 as [d|u i l d [Hi Ha]%elem_of_plain_out Heq _ IH]; intros Ed;
      [rewrite Ed; constructor|].
    specialize (IH Ed). pose proof (tp_dist _ _ IH) as Hle.
    pose proof (increment_nonneg v i). destruct (labelled dest Hreached).
    assert (Hto : dist_at st (plain_head u i) ≠ u64_max) by lia.
    destruct (labelled _ Hto). pose proof (plain_label_range st u Hok) as [? ?].
    unfold plain_label, plain_weight, label_key in *.
    assert (Hu : dist_at st u ≠ u64_max) by (unfold u32_max, u64_max in *; lia).
    destruct (labelled u Hu). unfold u32_max, u64_max in *.
    constructor; [done| |done]. apply T_spec. unfold u64_max. split_and!; [lia|done|lia|lia].
Qed.

Lemma nth_alter_app (l : list (list nat)) i j x :
  (j < length l)%nat →
  nth i (alter (λ b, b ++ [x]) j l) [] = nth i l [] ++ (if decide (i = j) then [x] else []).
Proof.
  intros Hj. rewrite !nth_lookup. destruct (decide (i = j)) as [->|Hne].
  - rewrite list_lookup_alter_eq. destruct (lookup_lt_is_Some_2 l j Hj) as [y ->]. done.
  - rewrite list_lookup_alter_ne by done. by rewrite app_nil_r.
Qed.

Lemma fill_buckets_spec L u :
  (L < level dest)%nat →
  u ∈ nth L (fill_buckets v (ps_dist st) (ps_hops st) (hops_at st dest)) [] ↔
  (u < n)%nat ∧ dist_at st u ≠ u64_max ∧ level u = L.
Proof.
  intros HL. unfold fill_buckets.
  set (step := λ buckets node, _). set (m := (Z.to_nat (hops_at st dest) + 1)%nat).
  assert (Hgen : ∀ l, length (fold_left step l (replicate m [])) = m ∧
    (u ∈ nth L (fold_left step l (replicate m [])) [] ↔ u ∈ l ∧ dist_at st u ≠ u64_max ∧ level u = L)).
  { induction l as [|x l [IHl IHe]] using rev_ind.
    - simpl. rewrite length_replicate, nth_replicate. split; [done|].
      split; [by intros ?%elem_of_nil|]. by intros [?%elem_of_nil _].
    - rewrite fold_left_app. cbn [fold_left]. set (b := fold_left step l _) in *. unfold step.
      change (nth x (ps_dist st) kMaxCost) with (dist_at st x).
      change (nth x (ps_hops st) kInfiniteHops) with (hops_at st x). change kMaxCost with u64_max.
      destruct (Z.eqb_spec (dist_at st x) u64_max) as [Hx|Hx]; simpl.
      + split; [done|]. rewrite IHe, elem_of_app, list_elem_of_singleton. naive_solver.
      + destruct (labelled x Hx). destruct (labelled dest Hreached).
        destruct (Z.leb_spec (hops_at st x) (hops_at st dest)) as [Hle|Hgt].
        * rewrite length_alter. split; [done|].
          rewrite nth_alter_app by (rewrite IHl; unfold m; lia).
          rewrite elem_of_app, IHe, elem_of_app, list_elem_of_singleton. fold (level x).
          destruct (decide (L = level x)) as [->|HLx].
          -- rewrite list_elem_of_singleton. naive_solver.
          -- rewrite elem_of_nil. naive_solver.
        * split; [done|]. rewrite IHe, elem_of_app, list_elem_of_singleton.
          unfold level in *. split; [naive_solver|].
          intros [[?|Hux] [? Hlev]]; [done|]. subst u. lia. }
  destruct (Hgen (seq 0 (NodeCount v))) as [_ ->]. rewrite elem_of_seq. unfold n. split; [|lia].
  intros (? & ? & ?). split_and!; [lia|done|done].
Qed.

Let nodes (L : nat) : list nat := nth L (fill_buckets v (ps_dist st) (ps_hops st) (hops_at st dest)) [].
Let nodes' (L : nat) : list nat := if (L <? level dest)%nat then nodes L else [].

Lemma reach_levels_eq :
  reach_levels v bans (ps_dist st) (ps_hops st) dest =
  levels (row v) plain_head T n dest (level dest) nodes'.
Proof.
  unfold reach_levels, levels. change (nth dest (ps_hops st) kInfiniteHops) with (hops_at st dest).
  apply fold_left_ext. intros cr L HL%list_elem_of_In. apply in_rev, in_seq in HL.
  fold (level dest) in HL. unfold reach_level, level_step, nodes'.
  rewrite (proj2 (Nat.ltb_lt L (level dest))) by lia. fold (nodes L).
  apply fold_left_ext. intros cr' u Hu. unfold nodes in Hu. apply fill_buckets_spec in Hu as (_ & Hu & Hlev); [|lia].
  f_equal. apply existsb_ext. intros i _. destruct (labelled u Hu).
  replace (Z.of_nat L + 1) with (hops_at st u + 1) by (unfold level in Hlev; lia).
  by apply tight_T.
Qed.

Lemma can_reach_spec :
  let cr := reach_levels v bans (ps_dist st) (ps_hops st) dest in
  ∀ u, (u < n)%nat → nth u cr false = true ↔ ∃ l, tp u l.
Proof.
  cbv zeta. rewrite reach_levels_eq. destruct (labelled dest Hreached).
  apply (levels_spec (row v) plain_head T level n dest (level dest) nodes'); try done.
  - intros s i Hs Hi _. by apply (row_to v s).
  - apply T_level.
  - intros L s Hs. unfold nodes' in Hs. destruct (L <? level dest)%nat eqn:E; bool_to_prop.
    + apply fill_buckets_spec in Hs as (? & _ & ?); [done|lia].
    + by apply elem_of_nil in Hs.
  - intros s l Htp Hs Hne. pose proof (tp_length s l Htp) as Hlen.
    destruct l as [|i l]; [done|]. simpl in Hlen. unfold nodes'.
    rewrite (proj2 (Nat.ltb_lt _ _)) by lia. apply fill_buckets_spec; [lia|].
    split_and!; [done| |done]. inversion Htp as [|? ? ? _ HT _]; subst. by apply T_spec in HT as [? _].
Qed.

Lemma greedy_first_path cr fuel u path :
  (∀ u, (u < n)%nat → nth u cr false = true ↔ ∃ l, tp u l) →
  (u < n)%nat → dist_at st u ≠ u64_max →
  greedy v bans (ps_dist st) (ps_hops st) cr dest fuel u path =
  (λ l, MkRaw (rp_nodes path ++ map (λ i, a_to (AdjacencyAt v i)) l) (rp_adjacency path ++ l)) <$>
    first_path (row v) plain_head T dest cr fuel u.
Proof.
  intros Hcr. revert u path. induction fuel as [|fuel IH]; intros u path Hu Hd; simpl;
    destruct (u =? dest)%nat; simpl; rewrite ?app_nil_r; try by destruct path.
  destruct (labelled u Hd) as [_ Hh].
  change (nth u (ps_hops st) kInfiniteHops) with (hops_at st u).
  rewrite wrap32_small by (unfold u32_max in *; lia).
  rewrite (find_ext _ (λ i, T u i && nth (plain_head u i) cr false)) by (intros; by apply tight_T).
  destruct (List.find _ _) as [i|] eqn:Ef; [|done]. simpl.
  apply find_some in Ef as [Hi%list_elem_of_In [HT Hc]%andb_prop].
  assert (Hto : (plain_head u i < n)%nat) by by apply (row_to v u).
  apply Hcr in Hc as [l Hl]; [|done]. pose proof (tp_dist _ _ Hl). destruct (labelled dest Hreached).
  fold (plain_head u i). rewrite IH by (done || lia). simpl.
  destruct (first_path _ _ _ _ _ _ _) as [l'|]; simpl; [|done]. by rewrite <- !app_assoc.
Qed.

(** The walk the reconstruction returns. *)
Lemma plain_result_spec :
  ∃ l, plain_result v bans source dest st = MkOutcome true false (ps_overflow st) (walk_raw v source l) ∧
    walk v bans source l dest ∧ walk_cost v l = dist_at st dest ∧
    Z.of_nat (length l) = hops_at st dest ∧
    ∀ l', walk v bans source l' dest → gcost plain_weight l' = plain_label st dest →
      ole (walk_rank v source l) (walk_rank v source l').
Proof.
  pose proof Hfinal as (H0 & _ & Hsound & _).
  destruct (labelled dest Hreached) as [Hdd Hdh].
  assert (Hlt : plain_label st dest < plain_top).
  { unfold plain_label, plain_top, label_key, u64_max, u32_max in *. lia. }
  assert (Htight : ∀ l', walk v bans source l' dest → gcost plain_weight l' = plain_label st dest →
    tp source l').
  { intros l' Hw Hc. apply tp_tight. eapply optimal_tight; [exact plain_weight_nonneg|exact Hfinal
      |by apply walk_gwalk|done|]. rewrite H0. lia. }
  destruct (Hsound dest Hlt) as (l0 & Hl0 & Hc0). apply walk_gwalk in Hl0.
  pose proof (Htight l0 Hl0 Hc0) as Htp0.
  pose proof can_reach_spec as Hcr. cbv zeta in Hcr.
  set (cr := reach_levels v bans (ps_dist st) (ps_hops st) dest) in *.
  pose proof (tp_length _ _ Htp0) as Hlen.
  destruct (first_path_spec (row v) plain_head T level n dest (level dest)
    (λ s i Hs Hi _, row_to v s i Hs Hi) T_level eq_refl Hdest
    (λ i, node_id v (a_to (AdjacencyAt v i))) (link_id v)
    (λ u Hu, row_key_sorted v u Hu)
    (λ s i j Hs Hi Hj Hk _ _, node_id_inj v _ _ (row_to v s i Hs Hi) (row_to v s j Hs Hj) Hk)
    cr (level dest) source l0 Hcr Htp0 Hsource) as (l & Hl & Htp & Hbest); [lia|].
  assert (Hcost : walk_cost v l = dist_at st dest ∧ Z.of_nat (length l) = hops_at st dest).
  { pose proof (tp_length _ _ Htp) as H1.
    apply tp_tight, (tight_walk_cost _ _ plain_weight (plain_label st)) in Htp as [_ Hcl].
    rewrite H0, plain_gcost in Hcl. unfold plain_label, label_key, u32_max in *.
    unfold level in *. lia. }
  exists l. split_and!.
  - unfold plain_result. change kMaxCost with u64_max. rewrite (proj2 (Z.eqb_neq _ _) Hreached).
    fold cr. rewrite (proj2 (Hcr source Hsource)) by eauto. simpl.
    pose proof (tp_dist _ _ Htp0).
    rewrite greedy_first_path by (done || lia). fold (level dest). by rewrite Hl.
  - apply walk_gwalk. apply tp_tight in Htp. by apply (tight_walk_cost _ _ plain_weight (plain_label st)).
  - apply Hcost.
  - apply Hcost.
  - intros l' Hw' Hc'. pose proof (Htight l' Hw' Hc') as Htp'. specialize (Hbest l' Htp').
    pose proof (tp_length _ _ Htp) as H1. pose proof (tp_length _ _ Htp') as H2.
    apply tp_tight, (tight_walk_cost _ _ plain_weight (plain_label st)) in Htp as [_ Hcl].
    rewrite H0 in Hcl. rewrite plain_gcost in Hc', Hcl.
    apply walk_rank_ole; [|lia|exact Hbest]. unfold label_key in *. lia.
Qed.
End result.

(** *** Termination *)

Definition plain_measure (st : PlainState) : nat :=
  length (ps_queue st) + pending_work (ps_settled st) (λ u, length (row v u)) (NodeCount v).

Lemma relax_edge_settled node cost i st :
  ps_settled (relax_edge v bans hop_budget node cost i st).1 = ps_settled st.
Proof. unfold relax_edge. split_match; simplify_eq; done. Qed.

Lemma relax_edge_queue node cost i st :
  (length (ps_queue (relax_edge v bans hop_budget node cost i st).1) <= S (length (ps_queue st)))%nat.
Proof. unfold relax_edge. split_match; simplify_eq; simpl; lia. Qed.

Lemma settle_measure entry st :
  plain_ok st → (q_state entry < n)%nat →
  (plain_measure (settle v bans hop_budget entry st).1 <= plain_measure st)%nat.
Proof.
  intros Hok Hn. unfold settle. destruct (settled_at st (q_state entry)) eqn:Es; [done|].
  destruct (BetterLabel _ _ _ _); [done|]. unfold plain_measure.
  rewrite (for_each_same ps_settled) by (intros; apply relax_edge_settled).
  pose proof (for_each_grows (λ s, length (ps_queue s))
    (relax_edge v bans hop_budget (q_state entry) (q_cost entry)) (row v (q_state entry))
    (with_settled (q_state entry) st) (λ x s, relax_edge_queue _ _ x s)) as Hq.
  simpl in Hq. pose proof (pending_work_settle (ps_settled st) (λ u, length (row v u)) (NodeCount v)
    (q_state entry) Hn) as Hp.
  rewrite (po_settled st Hok) in Hp. specialize (Hp Hn Es). simpl in *. lia.
Qed.

Lemma plain_loop_total fuel st :
  MainInv st → (plain_measure st < fuel)%nat → is_Some (plain_loop v bans hop_budget fuel st).
Proof.
  revert st. induction fuel as [|fuel IH]; intros st Hst Hlt; [lia|]. simpl.
  destruct (pop_min (ps_queue st)) as [[entry q]|] eqn:Epop; [|by eexists].
  pose proof (settle_inv st entry q Hst Epop) as Hs. cbv zeta in Hs. destruct Hst as [Hok _].
  apply pop_min_Some in Epop as [Hperm _].
  pose proof (po_queue st Hok) as Hall. rewrite Hperm in Hall.
  apply Forall_cons in Hall as [(_ & _ & Hn) _].
  assert (Hok' : plain_ok (with_queue q st)).
  { apply plain_ok_with_queue; [done|]. intros e He. rewrite Hperm. by right. }
  pose proof (settle_measure entry _ Hok' Hn) as Hm.
  destruct (settle v bans hop_budget entry (with_queue q st)) as [st2 limit]. simpl in *.
  destruct limit; [by eexists|]. apply IH; [by apply Hs|].
  unfold plain_measure in *. simpl in Hm. apply Permutation_length in Hperm. simpl in Hperm. lia.
Qed.

Lemma plain_fuel_enough w :
  is_Some (plain_loop v bans hop_budget (plain_fuel v) (plain_init v source w)).
Proof.
  apply plain_loop_total; [apply plain_init_inv|]. unfold plain_measure, plain_fuel. simpl.
  rewrite pending_work_init. pose proof (rows_total v). lia.
Qed.

(** *** Budget *)

Notation unsettled st := (pending_work (ps_settled st) (λ u, length (row v u)) (NodeCount v)).

Lemma relax_edge_affords node cost i st k :
  affords (ps_work st) (S k) →
  let r := relax_edge v bans hop_budget node cost i st in
  r.2 = false ∧ affords (ps_work r.1) k.
Proof.
  intros Ha. assert (Hle : affords (ps_work st) k) by (eapply affords_le; [done|lia]).
  unfold relax_edge.
  destruct (AdjacencyBanned bans i); [done|]. destruct (NodeBanned bans _); [done|].
  destruct (_ && _); [done|]. destruct (HopIncrement _ _) as [inc|]; [|done].
  destruct (CheckedAdd cost inc) as [c|]; [|done].
  destruct (SpendState_affords _ _ Ha) as (Hok & Hs & Hp).
  destruct (SpendState (ps_work st)) as [w ok]. simpl in *. subst ok. simpl.
  destruct (negb _); [by split; unfold affords in *; simpl; lia|]. cbn [with_label ps_work with_work].
  destruct (SpendPush_affords w k) as (Hok & Hp' & Hs'); [unfold affords in *; lia|].
  destruct (SpendPush w) as [w' ok]. simpl in *. subst ok. unfold affords. simpl. split; [done|lia].
Qed.

Lemma settle_affords entry st :
  plain_ok st → (q_state entry < n)%nat → affords (ps_work st) (unsettled st) →
  let r := settle v bans hop_budget entry st in
  r.2 = false ∧ affords (ps_work r.1) (unsettled r.1).
Proof.
  intros Hok Hn Ha. unfold settle. destruct (settled_at st (q_state entry)) eqn:Es; [done|].
  destruct (BetterLabel _ _ _ _); [done|].
  rewrite (for_each_same ps_settled) by (intros; apply relax_edge_settled).
  apply (for_each_affords ps_work); [intros; by apply relax_edge_affords|].
  eapply affords_le; [exact Ha|].
  pose proof (pending_work_settle (ps_settled st) (λ u, length (row v u)) (NodeCount v)
    (q_state entry) Hn) as Hp.
  rewrite (po_settled st Hok) in Hp. specialize (Hp Hn Es). simpl in *. lia.
Qed.

Lemma plain_loop_affords fuel st r :
  MainInv st → affords (ps_work st) (unsettled st) →
  plain_loop v bans hop_budget fuel st = Some r → r.2 = false.
Proof.
  revert st. induction fuel as [|fuel IH]; intros st Hst Ha; [done|]. simpl.
  destruct (pop_min (ps_queue st)) as [[entry q]|] eqn:Epop; [|by intros [= <-]].
  pose proof (settle_inv st entry q Hst Epop) as Hs. cbv zeta in Hs. destruct Hst as [Hok _].
  apply pop_min_Some in Epop as [Hperm _].
  pose proof (po_queue st Hok) as Hall. rewrite Hperm in Hall.
  apply Forall_cons in Hall as [(_ & _ & Hn) _].
  assert (Hok' : plain_ok (with_queue q st)).
  { apply plain_ok_with_queue; [done|]. intros e He. rewrite Hperm. by right. }
  destruct (settle_affords entry _ Hok' Hn Ha) as [Hlimit Ha'].
  destruct (settle v bans hop_budget entry (with_queue q st)) as [st2 limit]. simpl in *.
  subst limit. apply IH; [by apply Hs|done].
Qed.

Lemma plain_search_answers dest w :
  affords w (length (v_adjacency v)) →
  Z.of_nat (length (v_adjacency v)) < wb_pushes_remaining (w_budget w) →
  so_resource_limit (PlainSearch v bans hop_budget source dest w).1 = false.
Proof.
  intros Ha Hp. unfold PlainSearch.
  destruct (SpendPush_affords w _ Hp) as (Hok & Hp' & Hs').
  destruct (SpendPush w) as [w' ok]. simpl in Hok, Hp', Hs'. subst ok. cbn [negb].
  destruct (plain_fuel_enough w') as [[st limit] Hloop]. rewrite Hloop.
  assert (Hlimit : limit = false).
  { apply (plain_loop_affords _ _ _ (plain_init_inv w')) in Hloop; [done|]. simpl.
    rewrite pending_work_init. pose proof (rows_total v). unfold affords in *. lia. }
  subst limit. cbn [fst]. unfold plain_result. split_match; done.
Qed.

(** *** The contract *)

Lemma plain_search_correct dest w :
  (dest < NodeCount v)%nat →
  let r := PlainSearch v bans hop_budget source dest w in
  so_resource_limit r.1 = false → search_correct v bans hop_budget source dest r.1.
Proof.
  intros Hdest. unfold PlainSearch. destruct (SpendPush w) as [w' ok]. destruct ok; [|done].
  cbn [negb].
  destruct (plain_fuel_enough w') as [[st limit] Hloop]. rewrite Hloop.
  destruct limit; [done|]. intros _. simpl.
  destruct (plain_final _ _ _ Hloop) as [Hok Hfinal].
  assert (Hsimple : ∀ l, walk v bans source l dest → NoDup (walk_nodes v source l) →
    plain_label st dest <= label_key (walk_cost v l) (Z.of_nat (length l)) ∨
      plain_top <= label_key (walk_cost v l) (Z.of_nat (length l))).
  { intros l Hw%walk_gwalk _. rewrite <- plain_gcost.
    by apply (final_optimal _ _ _ plain_weight_nonneg _ _ _ _ _ Hfinal). }
  assert (Hlen : ∀ l, walk v bans source l dest → NoDup (walk_nodes v source l) →
    Z.of_nat (length l) < u32_max ∧ within hop_budget l).
  { intros l Hw Hnd. pose proof (simple_walk_length v bans source l dest Hw Hsource Hnd).
    pose proof (sv_nodes (v := v)). unfold within. destruct Hbudget as [->|?]; lia || auto with lia. }
  unfold search_correct.
  destruct (decide (dist_at st dest = u64_max)) as [Hmax|Hreached].
  - unfold plain_result. change kMaxCost with u64_max. rewrite (proj2 (Z.eqb_eq _ _) Hmax). simpl.
    intros l Hw _. apply Z.nlt_ge. intros Hlt.
    destruct (walk_simplify v bans (increment_nonneg v) _ _ _ Hw) as (l' & Hw' & Hnd & Hc & _).
    destruct (Hlen l' Hw' Hnd) as [Hl _]. pose proof (plain_label_range st dest Hok).
    specialize (Hsimple l' Hw' Hnd). unfold plain_label, plain_top, label_key, u64_max, u32_max in *.
    lia.
  - destruct (plain_result_spec st dest Hok Hdest Hfinal Hreached) as (l & -> & Hw & Hc & Hh & Hbest).
    simpl. exists l. split; [done|].
    pose proof (plain_count st Hok). destruct (po_label st Hok dest) as [[? _]|[Hd Hhops]]; [done|].
    apply least_of_simple; [exact (increment_nonneg v)|done| |lia|].
    + unfold within. destruct Hbudget as [->|Hb]; [by left|right].
      destruct (walk_simplify v bans (increment_nonneg v) _ _ _ Hw) as (l' & Hw' & Hnd & Hc' & Hl').
      pose proof (simple_walk_length v bans source l' dest Hw' Hsource Hnd).
      destruct Hl' as [->|Hlt]; [lia|]. destruct (Hlen l' Hw' Hnd).
      specialize (Hsimple l' Hw' Hnd).
      unfold plain_label, plain_top, label_key, u64_max, u32_max in *. lia.
    + intros l' Hw' _ Hnd. destruct (Hlen l' Hw' Hnd) as [Hl' _].
      specialize (Hsimple l' Hw' Hnd).
      assert (Hle : label_key (walk_cost v l) (Z.of_nat (length l)) <=
        label_key (walk_cost v l') (Z.of_nat (length l'))).
      { unfold plain_label, plain_top, label_key, u64_max, u32_max in *. lia. }
      destruct (decide (walk_cost v l = walk_cost v l' ∧ length l = length l')) as [[E1 E2]|Hne].
      * right. right. split_and!; [done..|]. apply Hbest; [done|].
        rewrite plain_gcost. unfold plain_label. by rewrite <- E1, <- E2, Hc, Hh.
      * unfold label_key, u32_max in *. lia.
Qed.
End plain.
