(* ===== verification/ExpandedFacts.v ===== *)
(** The search over (hops, node) states ([Searcher::ExpandedSearch]), used when the
    hop bound can bind: Dijkstra's algorithm on the layered graph, with the same
    contract as the search over nodes. *)

From S2P Require Import Prelude Canonical Status Ids Codec Limits Graph Builder Path Request View ViewFacts PathSearch Dijkstra SearchFacts.

Section expanded.
Context (v : PlanningView) `{Hv : !Searchable v} (bans : BanSet) (layers : nat) (source : nat).
Context (Hsource : (source < NodeCount v)%nat).

(** The hop bound is [layers]; state [(h, u)] has index [h * n + u]. *)
Let n : nat := NodeCount v.
Let hop_budget : Z := Z.of_nat layers.
Definition ix (h u : nat) : nat := (h * NodeCount v + u)%nat.
Definition states : nat := ((layers + 1) * NodeCount v)%nat.

Definition exp_out (s : nat) : list nat :=
  if (s / NodeCount v <? layers)%nat
  then List.filter (allowed v bans) (row v (s mod NodeCount v)) else [].
Definition exp_head (s i : nat) : nat := ix (s / NodeCount v + 1) (a_to (AdjacencyAt v i)).
Definition exp_label (st : ExpandedState) (s : nat) : Z := nth s (es_dist st) kMaxCost.
Definition exp_settled (st : ExpandedState) (s : nat) : bool := nth s (es_settled st) false.
Definition exp_queue (st : ExpandedState) : list (Z * nat) :=
  map (λ e, (q_cost e, index_of v (q_hops e) (q_state e))) (es_queue st).

Notation exp_inv R st :=
  (DInv exp_out exp_head (increment v) source u64_max R (exp_label st) (exp_settled st)
     (exp_queue st)).

Lemma index_of_ix h u : index_of v (Z.of_nat h) u = ix h u.
Proof. unfold index_of, ix. by rewrite Nat2Z.id. Qed.

Lemma ix_div h u : (u < n)%nat → (ix h u / NodeCount v)%nat = h.
Proof.
  unfold ix, n. intros Hu. rewrite Nat.div_add_l by lia. rewrite Nat.div_small by done. lia.
Qed.
Lemma ix_mod h u : (u < n)%nat → (ix h u mod NodeCount v)%nat = u.
Proof.
  unfold ix, n. intros Hu. rewrite Nat.add_comm, Nat.Div0.mod_add. by apply Nat.mod_small.
Qed.
Lemma ix_bound h u : (u < n)%nat → (h <= layers)%nat → (ix h u < states)%nat.
Proof. unfold ix, states, n. nia. Qed.
Lemma ix_inj h u h' u' : (u < n)%nat → (u' < n)%nat → ix h u = ix h' u' → h = h' ∧ u = u'.
Proof.
  intros Hu Hu' Heq. split.
  - by rewrite <- (ix_div h u Hu), Heq, ix_div.
  - by rewrite <- (ix_mod h u Hu), Heq, ix_mod.
Qed.
Lemma exp_head_ix h u i : (u < n)%nat → exp_head (ix h u) i = ix (h + 1) (a_to (AdjacencyAt v i)).
Proof. intros Hu. unfold exp_head. by rewrite ix_div. Qed.

Lemma elem_of_exp_out h u i :
  (u < n)%nat →
  i ∈ exp_out (ix h u) ↔ (h < layers)%nat ∧ i ∈ row v u ∧ allowed v bans i = true.
Proof.
  intros Hu. unfold exp_out. rewrite ix_div, ix_mod by done.
  destruct (h <? layers)%nat eqn:E; bool_to_prop.
  - rewrite !list_elem_of_In, filter_In. tauto.
  - rewrite elem_of_nil. split; [done|lia].
Qed.

Record exp_ok (st : ExpandedState) : Prop := {
  eo_dist : length (es_dist st) = states;
  eo_settled : length (es_settled st) = states;
  eo_queue : Forall (λ e, ∃ h, q_hops e = Z.of_nat h ∧ (h <= layers)%nat ∧ (q_state e < n)%nat)
               (es_queue st)
}.

Definition exp_relaxed (s : nat) (l : list nat) (st : ExpandedState) (u i : nat) : Prop :=
  exp_settled st u = true ∧ i ∈ exp_out u ∧ (u = s → i ∉ l).

Record ExpandInv (h u : nat) (cost : Z) (l : list nat) (st : ExpandedState) : Prop := {
  ei_ok : exp_ok st;
  ei_inv : exp_inv (exp_relaxed (ix h u) l st) st;
  ei_settled : exp_settled st (ix h u) = true;
  ei_max : ∀ w, exp_settled st w = true → exp_label st w <= exp_label st (ix h u);
  ei_cost : exp_label st (ix h u) = cost;
  ei_layer : (h < layers)%nat ∧ (u < n)%nat;
  ei_row : ∀ i, i ∈ l → i ∈ row v u
}.

Lemma exp_relaxed_cons s i l st u j :
  exp_relaxed s l st u j → exp_relaxed s (i :: l) st u j ∨ u = s ∧ j = i.
Proof.
  intros (Hs & Hj & Hn). destruct (decide (u = s ∧ j = i)) as [|Hne]; [by right|left].
  split_and!; [done..|]. intros -> [->|Hin]%elem_of_cons; [by apply Hne|]. by apply Hn.
Qed.

Lemma ExpandInv_keep h u cost i l st st' :
  ExpandInv h u cost (i :: l) st →
  (allowed v bans i = true → exp_label st (ix h u) + increment v i < u64_max →
   exp_label st (exp_head (ix h u) i) <= exp_label st (ix h u) + increment v i) →
  es_dist st' = es_dist st → es_settled st' = es_settled st → es_queue st' = es_queue st →
  ExpandInv h u cost l st'.
Proof.
  intros [Hok Hinv Hs Hmax Hcost [Hh Hu] Hrow] Hkeep E1 E2 E3.
  assert (Hinv' : exp_inv (exp_relaxed (ix h u) l st) st).
  { destruct (allowed v bans i) eqn:Ea.
    - eapply (DInv_relax_keep _ _ _ _ _ _ _ _ _ _ (ix h u) i Hinv Hs); [apply exp_relaxed_cons|].
      intros Hlt. by apply Hkeep.
    - eapply DInv_weaken; [|exact Hinv]. intros w j Hj.
      destruct (exp_relaxed_cons (ix h u) i l st w j Hj) as [|[-> ->]]; [done|].
      destruct Hj as (_ & Hin & _). apply elem_of_exp_out in Hin as (_ & _ & ?); congruence. }
  destruct st as [d s q o w], st' as [d' s' q' o' w']. simpl in *. subst.
  constructor; try done.
  - destruct Hok. by constructor.
  - intros j Hj. apply Hrow. by right.
Qed.

Lemma expand_edge_inv h u cost i l st :
  ExpandInv h u cost (i :: l) st → (expand_edge v bans (Z.of_nat h) cost i st).2 = false →
  ExpandInv h u cost l (expand_edge v bans (Z.of_nat h) cost i st).1.
Proof.
  intros Hei. pose proof Hei as [Hok Hinv Hs Hmax Hcost [Hh Hu] Hrow].
  assert (Hi : i ∈ row v u) by (apply Hrow; by left).
  assert (Hto : (a_to (AdjacencyAt v i) < n)%nat) by by apply (row_to v u).
  assert (Hc : 0 <= cost <= u64_max).
  { rewrite <- Hcost. exact (di_range _ _ _ _ _ _ _ _ _ Hinv (ix h u)). }
  pose proof (increment_nonneg v i) as Hinc.
  unfold expand_edge.
  destruct (AdjacencyBanned bans i) eqn:Eab.
  { intros _. apply (ExpandInv_keep h u cost i l st); try done. unfold allowed. by rewrite Eab. }
  destruct (NodeBanned bans _) eqn:Enb.
  { intros _. apply (ExpandInv_keep h u cost i l st); try done. unfold allowed. by rewrite Eab, Enb. }
  assert (Hall : allowed v bans i = true) by (unfold allowed; by rewrite Eab, Enb).
  replace (Z.of_nat h + 1) with (Z.of_nat (h + 1)) by lia. rewrite index_of_ix.
  assert (Hcase : ∀ st', es_dist st' = es_dist st → es_settled st' = es_settled st →
    es_queue st' = es_queue st →
    exp_label st (ix (h + 1) (a_to (AdjacencyAt v i))) <= cost + increment v i ∨
      u64_max < cost + increment v i → ExpandInv h u cost l st').
  { intros st' E1 E2 E3 Hor. apply (ExpandInv_keep h u cost i l st); try done.
    intros _ Hlt. rewrite exp_head_ix by done. rewrite Hcost in *. lia. }
  pose proof (next_cost_spec v cost i Hc) as Hnext.
  destruct (HopIncrement v (AdjacencyAt v i)) as [inc|] eqn:Einc; simpl in Hnext.
  2:{ intros _. apply Hcase; try done. right. destruct (_ <=? _) eqn:E in Hnext; bool_to_prop; [done|lia]. }
  rewrite Hnext. destruct (cost + increment v i <=? u64_max) eqn:Eov; bool_to_prop.
  2:{ intros _. apply Hcase; try done. by right. }
  destruct (SpendState (es_work st)) as [work ok]. destruct ok; [|done]. cbn [negb es_dist].
  set (t := ix (h + 1) (a_to (AdjacencyAt v i))) in *. fold (exp_label st t).
  destruct (exp_label st t <=? cost + increment v i) eqn:Ebetter; bool_to_prop.
  { intros _. apply Hcase; try done. by left. }
  destruct (SpendPush work) as [work' ok']. destruct ok'; [|done]. intros _.
  cbn [fst es_settled es_queue es_overflow].
  set (st2 := MkExpanded (<[t := _]> (es_dist st)) _ _ _ _).
  assert (Htb : (t < states)%nat) by (apply ix_bound; [done|lia]).
  assert (Hlab : ∀ w, exp_label st2 w = if decide (w = t) then cost + increment v i else exp_label st w).
  { intros w. unfold exp_label, st2. simpl. by rewrite nth_insert by by rewrite (eo_dist st Hok). }
  assert (HQ : exp_queue st2 = (cost + increment v i, t) :: exp_queue st).
  { unfold exp_queue, st2. cbn [es_queue map q_cost q_hops q_state]. by rewrite index_of_ix. }
  pose proof (di_range _ _ _ _ _ _ _ _ _ Hinv t) as Hrt.
  destruct (DInv_relax_better exp_out exp_head (increment v) (increment_nonneg v) source u64_max
    (exp_relaxed (ix h u) (i :: l) st) (exp_relaxed (ix h u) l st) (exp_label st)
    (exp_label st2) (exp_settled st) (exp_queue st) (ix h u) i)
    as [Ht Hinv']; rewrite ?exp_head_ix, ?Hcost by done; try done.
  - intros w Hw. rewrite <- Hcost. by apply Hmax.
  - by apply elem_of_exp_out.
  - apply exp_relaxed_cons.
  - lia.
  - rewrite exp_head_ix in Ht by done. fold t in Ht.
    rewrite exp_head_ix, Hcost in Hinv' by done. fold t in Hinv'.
    assert (Hne : ix h u ≠ t) by (intros Heq; rewrite Heq in Hs; congruence).
    constructor.
    + destruct Hok. constructor; unfold st2; cbn [es_dist es_settled es_queue];
        rewrite ?length_insert; try done.
      constructor; [|done]. exists (h + 1)%nat. split_and!; [done|lia|done].
    + rewrite HQ. exact Hinv'.
    + exact Hs.
    + intros w Hw. change (exp_settled st w = true) in Hw. rewrite !Hlab, (decide_False _ (P := ix h u = t)) by done.
      rewrite decide_False; [by apply Hmax|]. intros ->. congruence.
    + rewrite Hlab. by rewrite decide_False.
    + done.
    + intros j Hj. apply Hrow. by right.
Qed.

(** ** The main loop *)

Definition ExpMainInv (st : ExpandedState) : Prop :=
  exp_ok st ∧ exp_inv (λ u i, exp_settled st u = true ∧ i ∈ exp_out u) st.

Definition pop_queue (q : list QueueEntry) (st : ExpandedState) : ExpandedState :=
  MkExpanded (es_dist st) (es_settled st) q (es_overflow st) (es_work st).
Definition mark (s : nat) (st : ExpandedState) : ExpandedState :=
  MkExpanded (es_dist st) (<[s := true]> (es_settled st)) (es_queue st) (es_overflow st) (es_work st).

Lemma exp_ok_pop q st : exp_ok st → (∀ e, e ∈ q → e ∈ es_queue st) → exp_ok (pop_queue q st).
Proof. intros [] Hq. constructor; try done. simpl. rewrite Forall_forall in *. eauto. Qed.

Lemma exp_ok_mark s st : exp_ok st → exp_ok (mark s st).
Proof. intros []. constructor; try done. simpl. by rewrite length_insert. Qed.

Lemma mark_at s st w :
  exp_ok st → (s < states)%nat →
  exp_settled (mark s st) w = true ↔ exp_settled st w = true ∨ w = s.
Proof.
  intros Hok Hs. unfold exp_settled, mark. simpl.
  rewrite nth_insert by (rewrite (eo_settled st Hok); done).
  destruct (decide (w = s)); naive_solver.
Qed.

Lemma expand_inv st entry q :
  ExpMainInv st → pop_min (es_queue st) = Some (entry, q) →
  let r := expand v bans hop_budget entry (pop_queue q st) in r.2 = false → ExpMainInv r.1.
Proof.
  intros [Hok Hinv] Hpop. apply pop_min_Some in Hpop as [Hperm Hmin].
  pose proof (eo_queue st Hok) as Hall. rewrite Hperm in Hall.
  apply Forall_cons in Hall as [(h & Hh & Hlay & Hu) Hall].
  set (u := q_state entry) in *. set (k := q_cost entry).
  assert (HQ : exp_queue st ≡ₚ (k, ix h u) :: exp_queue (pop_queue q st)).
  { unfold exp_queue. rewrite Hperm. cbn [map]. by rewrite Hh, index_of_ix. }
  assert (Hok' : exp_ok (pop_queue q st)).
  { apply exp_ok_pop; [done|]. intros e He. rewrite Hperm. by right. }
  assert (Hb : (ix h u < states)%nat) by by apply ix_bound.
  unfold expand. rewrite Hh, index_of_ix. fold u.
  change (nth (ix h u) (es_settled (pop_queue q st)) false) with (exp_settled st (ix h u)).
  destruct (exp_settled st (ix h u)) eqn:Es.
  { intros _. split; [done|]. eapply DInv_skip; [exact Hinv|exact HQ|by left]. }
  change (nth (ix h u) (es_dist (pop_queue q st)) kMaxCost) with (exp_label st (ix h u)). fold k.
  destruct (Z.eqb_spec (exp_label st (ix h u)) k) as [Hk|Hk]; cbn [negb].
  2:{ intros _. split; [done|]. eapply DInv_skip; [exact Hinv|exact HQ|right].
      assert (Hin : (k, ix h u) ∈ exp_queue st) by (rewrite HQ; by left).
      pose proof (di_queue _ _ _ _ _ _ _ _ _ Hinv _ _ Hin). change (exp_label st (ix h u) < k). lia. }
  change (MkExpanded (es_dist (pop_queue q st)) _ _ _ _) with (mark (ix h u) (pop_queue q st)).
  destruct (DInv_settle exp_out exp_head (increment v) source u64_max _ (exp_label st)
    (exp_settled st) (exp_queue st) k (ix h u) (exp_queue (pop_queue q st))
    (exp_settled (mark (ix h u) (pop_queue q st))) Hinv HQ) as (HD & Hinv2 & Hmax); try done.
  - intros k' w Hin. unfold exp_queue in Hin.
    apply list_elem_of_fmap in Hin as (e & [= -> ->] & He).
    rewrite Forall_forall in Hmin. apply entry_key_cost, Hmin, He.
  - lia.
  - intros w. by apply (mark_at (ix h u) (pop_queue q st)).
  - destruct (Z.eqb_spec (Z.of_nat h) hop_budget) as [Hlast|Hlast].
    { intros _. split; [by apply exp_ok_mark|]. eapply DInv_weaken; [|exact Hinv2].
      intros w i [Hw Hi]. apply (mark_at (ix h u) (pop_queue q st)) in Hw as [Hw| ->]; [done| |done|done].
      apply elem_of_exp_out in Hi as (? & _); [unfold hop_budget in Hlast; lia|done]. }
    assert (Hstart : ExpandInv h u k (row v u) (mark (ix h u) (pop_queue q st))).
    { constructor.
      - by apply exp_ok_mark.
      - eapply DInv_weaken; [|exact Hinv2]. intros w i (Hw & Hi & Hn).
        apply (mark_at (ix h u) (pop_queue q st)) in Hw as [Hw| ->]; [done| |done|done].
        apply elem_of_exp_out in Hi as (_ & Hi & _); [|done]. by destruct (Hn eq_refl Hi).
      - apply mark_at; auto.
      - intros w Hw. specialize (Hmax w Hw). rewrite <- HD in Hmax. exact Hmax.
      - exact HD.
      - unfold hop_budget in Hlast. split; [lia|done].
      - done. }
    cbv zeta. intros Hf.
    pose proof (for_each_invariant (ExpandInv h u k) (expand_edge v bans (Z.of_nat h) k) (row v u) _
      (λ i l s, expand_edge_inv h u k i l s) Hstart Hf) as [Hok3 Hinv3 _ _ _ _ _].
    split; [done|]. eapply DInv_weaken; [|exact Hinv3].
    intros w i [Hw Hi]. split_and!; [done..|]. intros _. apply not_elem_of_nil.
Qed.

Lemma expanded_loop_inv fuel st st' :
  ExpMainInv st → expanded_loop v bans hop_budget fuel st = Some (st', false) →
  ExpMainInv st' ∧ es_queue st' = [].
Proof.
  revert st. induction fuel as [|fuel IH]; intros st Hst; [done|]. simpl.
  destruct (pop_min (es_queue st)) as [[entry q]|] eqn:Epop.
  - pose proof (expand_inv st entry q Hst Epop) as Hs. cbv zeta in Hs. unfold pop_queue in Hs.
    destruct (expand _ _ _ _ _) as [st2 limit]. simpl in Hs.
    destruct limit; [done|]. apply IH. by apply Hs.
  - intros [= <-]. split; [done|]. by apply pop_min_None.
Qed.

Definition exp_init (w : Work) : ExpandedState :=
  MkExpanded (<[index_of v 0 source := 0]> (replicate states kMaxCost))
    (replicate states false) [MkEntry 0 0 source] false w.

Lemma exp_init_inv w : ExpMainInv (exp_init w).
Proof.
  assert (H0 : index_of v 0 source = source) by reflexivity.
  assert (Hb : (source < states)%nat) by (unfold states, n in *; nia).
  assert (Hat : ∀ s, exp_label (exp_init w) s = if decide (s = source) then 0 else u64_max).
  { intros s. unfold exp_label, exp_init. rewrite H0. simpl.
    rewrite nth_insert by by rewrite length_replicate. destruct (decide _); [done|]. apply nth_replicate. }
  assert (Hs : ∀ s, exp_settled (exp_init w) s = false) by (intros s; apply nth_replicate).
  split.
  - constructor; simpl; rewrite ?length_insert, ?length_replicate; try done.
    constructor; [|done]. exists 0%nat. split_and!; [done|lia|done].
  - eapply (DInv_weaken _ _ _ _ _ (λ _ _, False)); [intros u i [Hu _]; by rewrite Hs in Hu|].
    assert (Hinit : DInv exp_out exp_head (increment v) source u64_max (λ _ _, False)
      (exp_label (exp_init w)) (λ _, false) [(0, source)]).
    { apply DInv_init; [unfold u64_max; lia| |].
      - rewrite Hat. by rewrite decide_True.
      - intros u Hu. rewrite Hat. by rewrite decide_False. }
    destruct Hinit. unfold exp_queue. simpl. rewrite H0. constructor; try done.
    + intros u Hu. by rewrite Hs in Hu.
    + intros u _. by apply di_queued.
    + intros u k x Hu. by rewrite Hs in Hu.
Qed.

(** ** Termination *)

Definition exp_measure (st : ExpandedState) : nat :=
  length (es_queue st) +
  pending_work (es_settled st) (λ s, length (row v (s mod NodeCount v))) states.

Lemma expand_edge_settled h cost i st :
  es_settled (expand_edge v bans h cost i st).1 = es_settled st.
Proof. unfold expand_edge. split_match; simplify_eq; done. Qed.

Lemma expand_edge_queue h cost i st :
  (length (es_queue (expand_edge v bans h cost i st).1) <= S (length (es_queue st)))%nat.
Proof. unfold expand_edge. split_match; simplify_eq; simpl; lia. Qed.

Lemma expand_measure entry h st :
  exp_ok st → q_hops entry = Z.of_nat h → (h <= layers)%nat → (q_state entry < n)%nat →
  (exp_measure (expand v bans hop_budget entry st).1 <= exp_measure st)%nat.
Proof.
  intros Hok Hh Hlay Hu. unfold expand. rewrite Hh, index_of_ix.
  set (u := q_state entry) in *. set (s := ix h u).
  assert (Hb : (s < states)%nat) by by apply ix_bound.
  destruct (nth s (es_settled st) false) eqn:Es; [done|].
  destruct (negb _); [done|]. fold (mark s st).
  pose proof (pending_work_settle (es_settled st) (λ s, length (row v (s mod NodeCount v))) states s Hb)
    as Hp. rewrite (eo_settled st Hok) in Hp. specialize (Hp Hb Es). cbv beta in Hp.
  unfold s in Hp at 2. rewrite ix_mod in Hp by done.
  destruct (Z.of_nat h =? hop_budget); [unfold exp_measure, mark; simpl; lia|]. unfold exp_measure.
  rewrite (for_each_same es_settled) by (intros; apply expand_edge_settled).
  pose proof (for_each_grows (λ s, length (es_queue s)) (expand_edge v bans (Z.of_nat h) (q_cost entry))
    (row v u) (mark s st) (λ x s, expand_edge_queue _ _ x s)) as Hq.
  simpl in *. lia.
Qed.

Lemma expanded_loop_total fuel st :
  ExpMainInv st → (exp_measure st < fuel)%nat → is_Some (expanded_loop v bans hop_budget fuel st).
Proof.
  revert st. induction fuel as [|fuel IH]; intros st Hst Hlt; [lia|]. simpl.
  destruct (pop_min (es_queue st)) as [[entry q]|] eqn:Epop; [|by eexists].
  pose proof (expand_inv st entry q Hst Epop) as Hs. cbv zeta in Hs. destruct Hst as [Hok _].
  apply pop_min_Some in Epop as [Hperm _].
  pose proof (eo_queue st Hok) as Hall. rewrite Hperm in Hall.
  apply Forall_cons in Hall as [(h & Hh & Hlay & Hu) _].
  assert (Hok' : exp_ok (pop_queue q st)).
  { apply exp_ok_pop; [done|]. intros e He. rewrite Hperm. by right. }
  pose proof (expand_measure entry h _ Hok' Hh Hlay Hu) as Hm.
  fold (pop_queue q st).
  destruct (expand v bans hop_budget entry (pop_queue q st)) as [st2 limit]. simpl in *.
  destruct limit; [by eexists|]. apply IH; [by apply Hs|].
  unfold exp_measure in *. simpl in Hm. apply Permutation_length in Hperm. simpl in Hperm. lia.
Qed.

Lemma layers_total (cost : nat → nat) k :
  list_sum (map (λ s, cost (s mod NodeCount v)%nat) (seq 0 (k * NodeCount v))) =
  (k * list_sum (map cost (seq 0 (NodeCount v))))%nat.
Proof.
  induction k as [|k IH]; [done|]. rewrite Nat.mul_succ_l, seq_app, map_app, list_sum_app, IH. simpl.
  assert (Heq : map (λ s, cost (s mod NodeCount v)%nat) (seq (k * NodeCount v) (NodeCount v)) =
    map cost (seq 0 (NodeCount v))).
  { rewrite <- (Nat.add_0_r (k * NodeCount v)) at 1. rewrite <- fmap_add_seq.
    change (Nat.add (k * NodeCount v) <$> seq 0 (NodeCount v))
      with (map (Nat.add (k * NodeCount v)) (seq 0 (NodeCount v))).
    rewrite map_map. apply map_ext_in. intros u Hu%in_seq. f_equal.
    rewrite Nat.add_comm, Nat.Div0.mod_add. apply Nat.mod_small. lia. }
  rewrite Heq. lia.
Qed.

Lemma expanded_fuel_enough w :
  is_Some (expanded_loop v bans hop_budget (expanded_fuel v hop_budget) (exp_init w)).
Proof.
  apply expanded_loop_total; [apply exp_init_inv|]. unfold exp_measure, expanded_fuel. simpl.
  rewrite pending_work_init. unfold states. rewrite (layers_total (λ u, length (row v u))).
  pose proof (rows_total v). unfold hop_budget.
  replace (Z.to_nat (Z.of_nat layers + 1)) with (layers + 1)%nat by lia. nia.
Qed.

(** ** Budget *)

Notation unsettled st :=
  (pending_work (es_settled st) (λ s, length (row v (s mod NodeCount v))) states).

Lemma expand_edge_affords h cost i st k :
  affords (es_work st) (S k) →
  let r := expand_edge v bans h cost i st in
  r.2 = false ∧ affords (es_work r.1) k.
Proof.
  intros Ha. assert (Hle : affords (es_work st) k) by (eapply affords_le; [done|lia]).
  unfold expand_edge.
  destruct (AdjacencyBanned bans i); [done|]. destruct (NodeBanned bans _); [done|].
  destruct (HopIncrement _ _) as [inc|]; [|done]. destruct (CheckedAdd cost inc) as [c|]; [|done].
  destruct (SpendState_affords _ _ Ha) as (Hok & Hs & Hp).
  destruct (SpendState (es_work st)) as [w ok]. simpl in *. subst ok. simpl.
  destruct (_ <=? _); [by split; unfold affords in *; simpl; lia|].
  destruct (SpendPush_affords w k) as (Hok & Hp' & Hs'); [unfold affords in *; lia|].
  destruct (SpendPush w) as [w' ok]. simpl in *. subst ok. unfold affords. simpl. split; [done|lia].
Qed.

Lemma expand_affords entry h st :
  exp_ok st → q_hops entry = Z.of_nat h → (h <= layers)%nat → (q_state entry < n)%nat →
  affords (es_work st) (unsettled st) →
  let r := expand v bans hop_budget entry st in
  r.2 = false ∧ affords (es_work r.1) (unsettled r.1).
Proof.
  intros Hok Hh Hlay Hu Ha. unfold expand. rewrite Hh, index_of_ix.
  set (u := q_state entry) in *. set (s := ix h u).
  assert (Hb : (s < states)%nat) by by apply ix_bound.
  destruct (nth s (es_settled st) false) eqn:Es; [done|].
  destruct (negb _); [done|]. fold (mark s st).
  pose proof (pending_work_settle (es_settled st) (λ s, length (row v (s mod NodeCount v))) states s Hb)
    as Hp. rewrite (eo_settled st Hok) in Hp. specialize (Hp Hb Es). cbv beta in Hp.
  unfold s in Hp at 2. rewrite ix_mod in Hp by done.
  destruct (Z.of_nat h =? hop_budget).
  { split; [done|]. eapply affords_le; [exact Ha|]. unfold mark. cbn [fst es_settled]. lia. }
  rewrite (for_each_same es_settled) by (intros; apply expand_edge_settled).
  apply (for_each_affords es_work); [intros; by apply expand_edge_affords|].
  eapply affords_le; [exact Ha|]. unfold mark. cbn [fst es_settled]. lia.
Qed.

Lemma expanded_loop_affords fuel st r :
  ExpMainInv st → affords (es_work st) (unsettled st) →
  expanded_loop v bans hop_budget fuel st = Some r → r.2 = false.
Proof.
  revert st. induction fuel as [|fuel IH]; intros st Hst Ha; [done|]. simpl.
  destruct (pop_min (es_queue st)) as [[entry q]|] eqn:Epop; [|by intros [= <-]].
  pose proof (expand_inv st entry q Hst Epop) as Hs. cbv zeta in Hs. destruct Hst as [Hok _].
  apply pop_min_Some in Epop as [Hperm _].
  pose proof (eo_queue st Hok) as Hall. rewrite Hperm in Hall.
  apply Forall_cons in Hall as [(h & Hh & Hlay & Hu) _].
  assert (Hok' : exp_ok (pop_queue q st)).
  { apply exp_ok_pop; [done|]. intros e He. rewrite Hperm. by right. }
  destruct (expand_affords entry h _ Hok' Hh Hlay Hu Ha) as [Hlimit Ha'].
  fold (pop_queue q st).
  destruct (expand v bans hop_budget entry (pop_queue q st)) as [st2 limit]. simpl in *.
  subst limit. apply IH; [by apply Hs|done].
Qed.

Lemma expanded_search_answers dest w :
  (layers < NodeCount v)%nat → Z.of_nat states <= max_search_states (v_limits v) →
  affords w ((layers + 1) * length (v_adjacency v)) →
  Z.of_nat ((layers + 1) * length (v_adjacency v)) < wb_pushes_remaining (w_budget w) →
  so_resource_limit (ExpandedSearch v bans hop_budget source dest w).1 = false.
Proof.
  intros Hlay Hmax Ha Hp. unfold ExpandedSearch.
  assert (Hwrap : wrap64 ((hop_budget + 1) * Z.of_nat (NodeCount v)) = Z.of_nat states).
  { pose proof (sv_nodes (v := v)). unfold states, hop_budget.
    rewrite wrap64_small; [nia|]. unfold u32_max, u64_max in *. nia. }
  rewrite Hwrap, Nat2Z.id. destruct (_ >? _) eqn:E; bool_to_prop; [lia|].
  destruct (SpendPush_affords w _ Hp) as (Hok & Hp' & Hs').
  destruct (SpendPush w) as [w' ok]. simpl in Hok, Hp', Hs'. subst ok. cbn [negb].
  fold (exp_init w'). destruct (expanded_fuel_enough w') as [[st limit] Hloop]. rewrite Hloop.
  assert (Hlimit : limit = false).
  { apply (expanded_loop_affords _ _ _ (exp_init_inv w')) in Hloop; [done|]. simpl.
    rewrite pending_work_init. unfold states. rewrite (layers_total (λ u, length (row v u))).
    pose proof (rows_total v). unfold affords in *. nia. }
  subst limit. cbn [fst]. unfold expanded_result. split_match; done.
Qed.

Lemma expanded_final fuel w st :
  expanded_loop v bans hop_budget fuel (exp_init w) = Some (st, false) →
  exp_ok st ∧ final exp_out exp_head (increment v) source u64_max (exp_label st).
Proof.
  intros Hloop. destruct (expanded_loop_inv _ _ _ (exp_init_inv w) Hloop) as [[Hok Hinv] Hq].
  split; [done|]. unfold exp_queue in Hinv. rewrite Hq in Hinv.
  eapply (DInv_final _ _ _ (increment_nonneg v)); [exact Hinv|]. simpl. intros u i Hu Hi. by split.
Qed.

(** ** Walks of the layered graph *)

Lemma exp_walk_gwalk h u l w :
  walk v bans u l w → (u < n)%nat → (h + length l <= layers)%nat →
  gwalk exp_out exp_head (ix h u) l (ix (h + length l) w).
Proof.
  intros Hw. revert h. induction Hw as [u|u i l w Hi Ha Hw IH]; intros h Hu Hl; simpl in *.
  - rewrite Nat.add_0_r. constructor.
  - constructor; [apply elem_of_exp_out; auto with lia|]. rewrite exp_head_ix by done.
    replace (h + S (length l))%nat with (h + 1 + length l)%nat by lia.
    apply IH; [by apply (row_to v u)|lia].
Qed.

Lemma gwalk_walk s l t h u :
  gwalk exp_out exp_head s l t → s = ix h u → (u < n)%nat → (h <= layers)%nat →
  ∃ w, t = ix (h + length l) w ∧ walk v bans u l w ∧ (h + length l <= layers)%nat ∧ (w < n)%nat.
Proof.
  intros Hw. revert h u. induction Hw as [s|s i l t Hi Hw IH]; intros h u -> Hu Hh; simpl.
  - exists u. rewrite Nat.add_0_r. split_and!; [done|constructor|lia|done].
  - apply elem_of_exp_out in Hi as (Hlt & Hi & Ha); [|done].
    destruct (IH (h + 1)%nat (a_to (AdjacencyAt v i))) as (w & -> & Hwalk & ? & ?);
      [by apply exp_head_ix|by apply (row_to v u)|lia|].
    exists w. split_and!; [f_equal; lia|by constructor|lia|done].
Qed.

(** ** The reconstruction *)

Section result.
Context (st : ExpandedState) (dest : nat).
Context (Hok : exp_ok st) (Hdest : (dest < n)%nat) (Hlayers : (layers < n)%nat).
Context (Hfinal : final exp_out exp_head (increment v) source u64_max (exp_label st)).

(** The scan finds the least (cost, hops) label of the destination. *)
Lemma best_label_spec :
  (best_label v hop_budget (es_dist st) dest = (u64_max, kInfiniteHops) ∧
   ∀ h, (h <= layers)%nat → exp_label st (ix h dest) = u64_max) ∨
  ∃ h, (h <= layers)%nat ∧
    best_label v hop_budget (es_dist st) dest = (exp_label st (ix h dest), Z.of_nat h) ∧
    exp_label st (ix h dest) < u64_max ∧
    ∀ h', (h' <= layers)%nat → exp_label st (ix h dest) < exp_label st (ix h' dest) ∨
      exp_label st (ix h dest) = exp_label st (ix h' dest) ∧ (h <= h')%nat.
Proof.
  unfold best_label, hop_budget. rewrite Nat2Z.id, fold_left_map.
  set (step := λ (best : Z * Z) (x : nat), _).
  assert (Hrange : ∀ s, 0 <= exp_label st s <= u64_max) by (destruct Hfinal as (_ & ? & _); done).
  assert (Hgen : ∀ k,
    (fold_left step (seq 0 k) (u64_max, kInfiniteHops) = (u64_max, kInfiniteHops) ∧
     ∀ h, (h < k)%nat → exp_label st (ix h dest) = u64_max) ∨
    ∃ h, (h < k)%nat ∧
      fold_left step (seq 0 k) (u64_max, kInfiniteHops) = (exp_label st (ix h dest), Z.of_nat h) ∧
      exp_label st (ix h dest) < u64_max ∧
      ∀ h', (h' < k)%nat → exp_label st (ix h dest) < exp_label st (ix h' dest) ∨
        exp_label st (ix h dest) = exp_label st (ix h' dest) ∧ (h <= h')%nat).
  { induction k as [|k IH]; [left; split; [done|lia]|].
    rewrite seq_S, fold_left_app. cbn [fold_left]. rewrite Nat.add_0_l.
    set (r := fold_left step (seq 0 k) _) in *. unfold step at 1. rewrite index_of_ix.
    fold (exp_label st (ix k dest)). change kMaxCost with u64_max.
    assert (Hext : ∀ P : nat → Prop, (∀ h, (h < k)%nat → P h) → P k → ∀ h, (h < S k)%nat → P h).
    { intros P HP Hk h Hh. destruct (decide (h = k)) as [->|]; [done|]. apply HP. lia. }
    unfold step. rewrite index_of_ix. fold (exp_label st (ix k dest)). change kMaxCost with u64_max.
    destruct IH as [[-> Hall]|(h & Hh & -> & Hlt & Hall)];
      destruct (Z.eqb_spec (exp_label st (ix k dest)) u64_max) as [Ek|Ek].
    - left. split; [done|]. by apply Hext.
    - right. exists k. pose proof (Hrange (ix k dest)).
      rewrite (proj2 (Z.ltb_lt _ _)) by lia. simpl. split_and!; [lia|done|lia|].
      apply Hext; [|right; split; [done|lia]]. intros h Hh. left. rewrite (Hall h Hh). lia.
    - right. exists h. split_and!; [lia|done|done|]. apply Hext; [done|]. left. lia.
    - right. destruct (Z.ltb_spec (exp_label st (ix k dest)) (exp_label st (ix h dest))) as [Hlt'|Hge].
      + simpl. exists k. split_and!; [lia|done|lia|]. apply Hext; [|right; split; [done|lia]].
        intros h' Hh'. specialize (Hall h' Hh'). lia.
      + simpl. rewrite (proj2 (Z.ltb_ge (Z.of_nat k) (Z.of_nat h))) by lia. rewrite andb_false_r.
        exists h. split_and!; [lia|done|done|]. apply Hext; [done|]. lia. }
  destruct (Hgen (layers + 1)%nat) as [[H1 H2]|(h & ? & ? & ? & H2)].
  - left. split; [exact H1|]. intros h Hh. apply H2. lia.
  - right. exists h. split_and!; [lia|done|done|]. intros h' Hh'. apply H2. lia.
Qed.

Section best.
Context (best : nat) (Hbest : (best <= layers)%nat).
Context (Hreached : exp_label st (ix best dest) < u64_max).

Let target : nat := ix best dest.
Let rows (s : nat) : list nat := row v (s mod NodeCount v).
Let level (s : nat) : nat := (s / NodeCount v)%nat.
Let T (s i : nat) : bool :=
  negb (exp_label st s =? u64_max) && (level s <? layers)%nat &&
  (a_to (AdjacencyAt v i) <? n)%nat && allowed v bans i &&
  (exp_label st (exp_head s i) =? exp_label st s + increment v i).
Notation tp := (tpath rows exp_head T target).

Lemma exp_T_spec s i :
  T s i = true ↔ exp_label st s ≠ u64_max ∧ (level s < layers)%nat ∧
    (a_to (AdjacencyAt v i) < n)%nat ∧ allowed v bans i = true ∧
    exp_label st (exp_head s i) = exp_label st s + increment v i.
Proof.
  unfold T. rewrite !andb_true_iff, negb_true_iff, Z.eqb_neq, Z.eqb_eq, !Nat.ltb_lt. tauto.
Qed.

Lemma exp_label_range s : 0 <= exp_label st s <= u64_max.
Proof. by destruct Hfinal as (_ & ? & _). Qed.

Lemma expanded_tight_T cr h u i :
  (u < n)%nat → (h < layers)%nat → exp_label st (ix h u) ≠ u64_max → i ∈ row v u →
  expanded_tight v bans (es_dist st) cr (Z.of_nat h) u i =
  T (ix h u) i && nth (exp_head (ix h u) i) cr false.
Proof.
  intros Hu Hh Hne Hi. pose proof (row_to v u i Hu Hi) as Hto.
  unfold expanded_tight, T, allowed, level. rewrite exp_head_ix, ix_div by done.
  rewrite (proj2 (Z.eqb_neq _ _) Hne), (proj2 (Nat.ltb_lt _ _) Hh), (proj2 (Nat.ltb_lt _ n) Hto).
  simpl.
  destruct (AdjacencyBanned bans i); [done|]. destruct (NodeBanned bans _); [done|]. simpl.
  replace (Z.of_nat h + 1) with (Z.of_nat (h + 1)) by lia. rewrite !index_of_ix.
  set (t := ix (h + 1) _). fold (exp_label st t) (exp_label st (ix h u)).
  destruct (nth t cr false); simpl; [|by rewrite andb_false_r].
  rewrite andb_true_r. pose proof (exp_label_range (ix h u)) as Hr. pose proof (exp_label_range t).
  pose proof (next_cost_spec v (exp_label st (ix h u)) i Hr) as Hnext.
  destruct (HopIncrement v _) as [inc|]; simpl in Hnext; [rewrite Hnext|];
    destruct (exp_label st (ix h u) + increment v i <=? u64_max) eqn:E; bool_to_prop; try done;
    try apply Z.eqb_sym; symmetry; apply Z.eqb_neq; lia.
Qed.

Lemma exp_T_level s i : T s i = true → level (exp_head s i) = S (level s).
Proof.
  intros (_ & _ & Hto & _)%exp_T_spec. unfold level, exp_head. rewrite ix_div by done. lia.
Qed.

Lemma exp_tp_length s l : tp s l → (level s + length l)%nat = best.
Proof.
  intros Htp. rewrite (tpath_level rows exp_head T level states target best exp_T_level
    (ix_div best dest Hdest) (ix_bound best dest Hdest Hbest) s l Htp). done.
Qed.

Lemma exp_tp_dist s l : tp s l → exp_label st s <= exp_label st target.
Proof.
  induction 1 as [|s i l _ HT _ IH]; [lia|]. apply exp_T_spec in HT as (_ & _ & _ & _ & Hd).
  pose proof (increment_nonneg v i). lia.
Qed.

Lemma exp_tp_tight h u l :
  (u < n)%nat → tp (ix h u) l ↔ tight_walk exp_out exp_head (increment v) (exp_label st) (ix h u) l target.
Proof.
  intros Hu. split.
  - enough (Hgen : ∀ s l, tp s l → ∀ h u, s = ix h u → (u < n)%nat →
      tight_walk exp_out exp_head (increment v) (exp_label st) s l target) by eauto.
    clear Hu h u l. induction 1 as [|s i l Hi HT _ IH]; intros h u -> Hu; [constructor|].
    apply exp_T_spec in HT as (_ & Hlev & Hto & Ha & Hd). unfold level in Hlev.
    rewrite ix_div in Hlev by done. unfold rows in Hi. rewrite ix_mod in Hi by done.
    constructor; [by apply elem_of_exp_out|done|]. eapply IH; [by apply exp_head_ix|done].
  - enough (Hgen : ∀ s l t, tight_walk exp_out exp_head (increment v) (exp_label st) s l t →
      t = target → ∀ h u, s = ix h u → (u < n)%nat → tp s l) by eauto.
    clear Hu h u l. induction 1 as [t|s i l t Hi Hd _ IH]; intros Ht h u Hs Hu.
    + rewrite Ht. constructor.
    + rewrite Hs in Hi. apply elem_of_exp_out in Hi as (Hlt & Hi & Ha); [|done].
      pose proof (row_to v u i Hu Hi) as Hto.
      assert (Htp : tp (exp_head s i) l).
      { apply (IH Ht (h + 1)%nat (a_to (AdjacencyAt v i))); [|done]. rewrite Hs. by apply exp_head_ix. }
      pose proof (exp_tp_dist _ _ Htp) as Hle. pose proof (increment_nonneg v i).
      constructor; [unfold rows; by rewrite Hs, ix_mod| |done].
      apply exp_T_spec. unfold level. rewrite Hs at 2. rewrite ix_div by done.
      unfold target in *. split_and!; [lia|done..].
Qed.

Let nodes (L : nat) : list nat :=
  if (L <? best)%nat
  then map (ix L) (List.filter (λ u, negb (exp_label st (ix L u) =? u64_max)) (seq 0 (NodeCount v)))
  else [].

Lemma elem_of_nodes L s :
  s ∈ nodes L ↔ (L < best)%nat ∧ ∃ u, s = ix L u ∧ (u < n)%nat ∧ exp_label st (ix L u) ≠ u64_max.
Proof.
  unfold nodes. destruct (L <? best)%nat eqn:E; bool_to_prop.
  - rewrite list_elem_of_fmap. split.
    + intros (u & -> & Hu). apply list_elem_of_In, filter_In in Hu as [Hu Hne].
      apply in_seq in Hu. bool_to_prop. split; [done|]. exists u. split_and!; [done|unfold n; lia|done].
    + intros (_ & u & -> & Hu & Hne). exists u. split; [done|]. apply list_elem_of_In, filter_In.
      split; [apply in_seq; unfold n in Hu; lia|]. by rewrite (proj2 (Z.eqb_neq _ _) Hne).
  - rewrite elem_of_nil. split; [done|]. lia.
Qed.

Lemma expanded_levels_eq :
  expanded_levels v bans hop_budget (es_dist st) (Z.of_nat best) dest =
  levels rows exp_head T states target best nodes.
Proof.
  unfold expanded_levels, levels. rewrite index_of_ix, Nat2Z.id. unfold hop_budget.
  replace (Z.to_nat (Z.of_nat layers + 1) * NodeCount v)%nat with states by (unfold states; lia).
  apply fold_left_ext. intros cr L HL%list_elem_of_In. apply in_rev, in_seq in HL.
  unfold expanded_level, level_step, nodes. rewrite (proj2 (Nat.ltb_lt L best)) by lia.
  rewrite fold_left_map, <- (fold_left_skip (λ u, exp_label st (ix L u) =? u64_max)).
  apply fold_left_ext. intros cr' u Hu%elem_of_seq. rewrite index_of_ix.
  fold (exp_label st (ix L u)). change kMaxCost with u64_max.
  destruct (Z.eqb_spec (exp_label st (ix L u)) u64_max) as [|Hne]; [done|].
  assert (Hb : (u < n)%nat) by (unfold n; lia).
  f_equal. unfold rows. rewrite ix_mod by done. apply existsb_ext. intros i Hi.
  apply expanded_tight_T; [done|lia|done|done].
Qed.

Lemma expanded_can_reach_spec :
  let cr := expanded_levels v bans hop_budget (es_dist st) (Z.of_nat best) dest in
  ∀ s, (s < states)%nat → nth s cr false = true ↔ ∃ l, tp s l.
Proof.
  cbv zeta. rewrite expanded_levels_eq.
  apply (levels_spec rows exp_head T level states target best nodes).
  - intros s i _ _ (_ & Hlev & Hto & _)%exp_T_spec. unfold exp_head, level in *.
    apply ix_bound; [done|lia].
  - apply exp_T_level.
  - by apply ix_div.
  - by apply ix_bound.
  - intros L s (HL & u & -> & Hu & _)%elem_of_nodes. split; [by apply ix_div|].
    apply ix_bound; [done|lia].
  - intros s l Htp Hs Hne. pose proof (exp_tp_length s l Htp) as Hlen.
    destruct l as [|i l]; [done|]. simpl in Hlen. apply elem_of_nodes. split; [lia|].
    exists (s mod NodeCount v)%nat.
    assert (Hn : (0 < NodeCount v)%nat) by (unfold n in Hdest; lia).
    assert (Heq : s = ix (level s) (s mod NodeCount v)).
    { unfold ix, level. rewrite Nat.mul_comm. apply Nat.Div0.div_mod. }
    split_and!; [done|by apply Nat.mod_upper_bound; lia|]. rewrite <- Heq.
    inversion Htp as [|? ? ? _ HT _]; subst. by apply exp_T_spec in HT as [? _].
Qed.

Lemma expanded_greedy_first_path cr fuel h u path :
  (∀ s, (s < states)%nat → nth s cr false = true ↔ ∃ l, tp s l) →
  (u < n)%nat → (h + fuel)%nat = best → exp_label st (ix h u) ≠ u64_max →
  expanded_greedy v bans (es_dist st) cr dest (Z.of_nat best) fuel u (Z.of_nat h) path =
  (λ l, MkRaw (rp_nodes path ++ map (λ i, a_to (AdjacencyAt v i)) l) (rp_adjacency path ++ l)) <$>
    first_path rows exp_head T target cr fuel (ix h u).
Proof.
  intros Hcr. revert h u path. induction fuel as [|fuel IH]; intros h u path Hu Hlen Hd.
  - simpl. rewrite (proj2 (Z.eqb_eq _ _)) by lia. rewrite andb_true_r.
    assert (Heq : (u =? dest)%nat = (ix h u =? target)%nat).
    { unfold target. replace best with h by lia. destruct (u =? dest)%nat eqn:E; bool_to_prop.
      - subst u. symmetry. apply Nat.eqb_refl.
      - symmetry. apply Nat.eqb_neq. intros Hix. apply ix_inj in Hix as [_ ?]; done. }
    rewrite Heq. destruct (_ =? target)%nat; [|done]. simpl. rewrite !app_nil_r. by destruct path.
  - simpl. rewrite (proj2 (Z.eqb_neq (Z.of_nat h) _)) by lia. rewrite andb_false_r.
    assert (Hne : (ix h u =? target)%nat = false).
    { apply Nat.eqb_neq. intros Hix. apply ix_inj in Hix as [? _]; [lia|done|done]. }
    rewrite Hne. unfold rows at 1. rewrite ix_mod by done.
    rewrite (find_ext _ (λ i, T (ix h u) i && nth (exp_head (ix h u) i) cr false))
      by (intros i Hi; apply expanded_tight_T; [done|lia|done|done]).
    destruct (List.find _ _) as [i|] eqn:Ef; [|done]. simpl.
    apply find_some in Ef as [Hi%list_elem_of_In [HT Hc]%andb_prop].
    pose proof (row_to v u i Hu Hi) as Hto. rewrite exp_head_ix in * by done.
    apply Hcr in Hc as [l Hl]; [|apply ix_bound; [done|lia]]. pose proof (exp_tp_dist _ _ Hl).
    replace (Z.of_nat h + 1) with (Z.of_nat (h + 1)) by lia.
    rewrite IH by (done || lia || (unfold target in *; lia)). simpl.
    destruct (first_path _ _ _ _ _ _ _) as [l'|]; simpl; [|done]. by rewrite <- !app_assoc.
Qed.

(** The walk the reconstruction returns. *)
Lemma expanded_walk_spec :
  ∃ l, expanded_greedy v bans (es_dist st)
         (expanded_levels v bans hop_budget (es_dist st) (Z.of_nat best) dest) dest (Z.of_nat best)
         best source 0 (MkRaw [source] []) = Some (walk_raw v source l) ∧
    walk v bans source l dest ∧ walk_cost v l = exp_label st (ix best dest) ∧ length l = best ∧
    ∀ l', walk v bans source l' dest → length l' = best →
      walk_cost v l' = exp_label st (ix best dest) →
      ole (walk_rank v source l) (walk_rank v source l').
Proof.
  pose proof Hfinal as (H0 & _ & Hsound & _).
  assert (Hsrc : ix 0 source = source) by reflexivity.
  assert (Htight : ∀ l', walk v bans source l' dest → length l' = best →
    walk_cost v l' = exp_label st (ix best dest) → tp source l').
  { intros l' Hw Hl Hc. rewrite <- Hsrc. apply exp_tp_tight; [done|]. rewrite Hsrc.
    apply (exp_walk_gwalk 0) in Hw; [|done|lia]. rewrite Hl in Hw.
    apply (optimal_tight _ _ _ (increment_nonneg v) _ _ _ _ _ _ Hfinal Hw Hreached).
    rewrite Hsrc, H0. unfold gcost. fold (walk_cost v l'). cbn [Nat.add]. lia. }
  destruct (Hsound (ix best dest) Hreached) as (l0 & Hl0 & Hc0).
  destruct (gwalk_walk _ _ _ 0 source Hl0 eq_refl Hsource ltac:(lia)) as (w0 & Heq0 & Hw0 & _ & Hwb).
  apply ix_inj in Heq0 as [Hlen0 <-]; [|done|done]. simpl in Hlen0.
  pose proof (Htight l0 Hw0 (eq_sym Hlen0) Hc0) as Htp0.
  pose proof expanded_can_reach_spec as Hcr. cbv zeta in Hcr.
  set (cr := expanded_levels _ _ _ _ _ _) in *.
  assert (Hrow : ∀ s, strictly_sorted (λ i, (node_id v (a_to (AdjacencyAt v i)), link_id v i)) (rows s)).
  { intros s. apply row_key_sorted; [done|]. apply Nat.mod_upper_bound. unfold n in Hdest. lia. }
  assert (HTb : ∀ s i, (s < states)%nat → i ∈ rows s → T s i = true → (exp_head s i < states)%nat).
  { intros s i _ _ (_ & Hlev & Hto & _)%exp_T_spec. unfold exp_head, level in *.
    apply ix_bound; [done|lia]. }
  assert (Hkey : ∀ s i j, (s < states)%nat → i ∈ rows s → j ∈ rows s →
    node_id v (a_to (AdjacencyAt v i)) = node_id v (a_to (AdjacencyAt v j)) →
    T s i = true → T s j = true → exp_head s i = exp_head s j).
  { intros s i j _ _ _ Hk (_ & _ & Hi & _)%exp_T_spec (_ & _ & Hj & _)%exp_T_spec.
    unfold exp_head. f_equal. by apply (node_id_inj v). }
  assert (Hsb : (source < states)%nat) by (rewrite <- Hsrc; apply ix_bound; [done|lia]).
  destruct (first_path_spec rows exp_head T level states target best HTb exp_T_level
    (ix_div best dest Hdest) (ix_bound best dest Hdest Hbest)
    (λ i, node_id v (a_to (AdjacencyAt v i))) (link_id v) (λ s _, Hrow s) Hkey cr best source l0
    Hcr Htp0 Hsb ltac:(lia)) as (l & Hl & Htp & Hb).
  assert (Hfacts : walk v bans source l dest ∧ walk_cost v l = exp_label st (ix best dest) ∧
      length l = best).
    { pose proof (exp_tp_length _ _ Htp) as Hlen. unfold level in Hlen.
      rewrite <- Hsrc, ix_div in Hlen by done. simpl in Hlen.
      rewrite <- Hsrc in Htp. apply exp_tp_tight in Htp; [|done]. rewrite Hsrc in Htp.
      apply tight_walk_cost in Htp as [Hg Hc]. rewrite H0 in Hc.
      destruct (gwalk_walk _ _ _ 0 source Hg eq_refl Hsource ltac:(lia)) as (w & Heq & Hw & _ & Hwb').
      unfold target in Heq. apply ix_inj in Heq as [_ <-]; [|done|done].
      split_and!; [done| |done]. unfold target in Hc. unfold walk_cost. unfold gcost in Hc. lia. }
    exists l. split_and!; try apply Hfacts.
    + pose proof (exp_tp_dist _ _ Htp0) as Hd. unfold target in Hd.
      pose proof (expanded_greedy_first_path cr best 0 source (MkRaw [source] [])) as Hg.
      change (Z.of_nat 0) with 0 in Hg. rewrite Hg; [|done|done|done|rewrite Hsrc; lia].
      rewrite Hsrc, Hl. done.
    + intros l' Hw' Hl' Hc'. destruct Hfacts as (_ & Hc & Hlen).
      apply walk_rank_ole; [congruence|congruence|]. apply Hb. by apply Htight.
Qed.
End best.
End result.

(** ** The contract *)

Lemma expanded_search_correct dest w :
  (dest < NodeCount v)%nat → (0 < layers < NodeCount v)%nat →
  let r := ExpandedSearch v bans hop_budget source dest w in
  so_resource_limit r.1 = false → search_correct v bans hop_budget source dest r.1.
Proof.
  intros Hdest Hlay. unfold ExpandedSearch.
  assert (Hwrap : wrap64 ((hop_budget + 1) * Z.of_nat (NodeCount v)) = Z.of_nat states).
  { pose proof (sv_nodes (v := v)). unfold states, hop_budget.
    rewrite wrap64_small; [nia|]. unfold u32_max, u64_max in *. nia. }
  rewrite Hwrap, Nat2Z.id. destruct (_ >? _); [done|].
  destruct (SpendPush w) as [w' ok]. destruct ok; [|done]. cbn [negb].
  fold (exp_init w'). destruct (expanded_fuel_enough w') as [[st limit] Hloop]. rewrite Hloop.
  destruct limit; [done|]. intros _. cbn [fst].
  destruct (expanded_final _ _ _ Hloop) as [Hok Hfinal].
  assert (Hlower : ∀ l, walk v bans source l dest → (length l <= layers)%nat →
    exp_label st (ix (length l) dest) <= walk_cost v l ∨ u64_max <= walk_cost v l).
  { intros l Hw Hl. apply (exp_walk_gwalk 0) in Hw; [|done|lia].
    by apply (final_optimal _ _ _ (increment_nonneg v) _ _ _ _ _ Hfinal). }
  assert (Hin : ∀ l, within hop_budget l → (length l <= layers)%nat).
  { intros l [Hno|Hle]; [|unfold hop_budget in Hle; lia].
    pose proof (sv_nodes (v := v)). unfold hop_budget, kNoHopBound, u32_max in *. lia. }
  unfold search_correct, expanded_result.
  destruct (best_label_spec st dest Hdest (proj2 Hlay) Hfinal) as [[-> Hall]|(h & Hh & -> & Hlt & Hall)].
  - rewrite Z.eqb_refl. cbn [so_found no_outcome]. intros l Hw Hl%Hin.
    destruct (Hlower l Hw Hl) as [Hle|]; [|done]. by rewrite (Hall (length l) Hl) in Hle.
  - rewrite (proj2 (Z.eqb_neq _ _))
      by (pose proof (sv_nodes (v := v)); unfold kInfiniteHops, u32_max in *; lia).
    rewrite Nat2Z.id.
    destruct (expanded_walk_spec st dest Hdest (proj2 Hlay) Hfinal h Hh Hlt) as (l & -> & Hw & Hc & Hlen & Hbest).
    cbn [so_found so_path]. exists l. split; [done|].
    apply least_of_simple; [exact (increment_nonneg v)|done|right; unfold hop_budget; lia|lia|].
    intros l' Hw' Hl' _. apply Hin in Hl'. specialize (Hlower l' Hw' Hl').
    destruct (decide (walk_cost v l = walk_cost v l' ∧ length l = length l')) as [[E1 E2]|Hne].
    + right. right. split_and!; [done..|]. apply Hbest; [done|lia|lia].
    + specialize (Hall (length l') Hl'). lia.
Qed.
End expanded.
