(* ===== verification/RouteFacts.v ===== *)
(** What a search result becomes: the contract of [ShortestPath] as a whole, the
    exact cost and canonical rank of a raw path, the typed candidate built from
    it, and the failure-domain member limit. *)

From S2P Require Import Prelude Canonical Status Ids Codec Limits Graph Builder Path Request View ViewFacts PathSearch Dijkstra SearchFacts PlainFacts ExpandedFacts.

(** The view of the demo request. *)
Definition demo_built : PlanningView := vb_view demo_view.

(** ** A built view is searchable *)

Lemma built_searchable s request limits src dst :
  snapshot_wf s → Forall edge_typed (s_edges s) → model_typed (pp_cost_model (rq_policy request)) →
  Z.of_nat (length (s_nodes s)) < u32_max →
  vb_fatal (BuildPlanningView s request limits src dst) = None →
  Searchable (vb_view (BuildPlanningView s request limits src dst)).
Proof.
  intros Hs He Hm Hn (vts & stv & HB)%BuildPlanningView_built.
  assert (Hsnap : v_snapshot (vb_view (BuildPlanningView s request limits src dst)) = s)
    by exact (built_snapshot_eq s request limits src dst _ vts stv HB).
  constructor.
  - exact (built_view_wf s request limits src dst _ vts stv Hs He Hm HB).
  - by rewrite Hsnap.
  - by rewrite Hsnap.
  - by rewrite (bt_config _ _ _ _ _ _ _ _ HB).
  - rewrite (built_NodeCount s request limits src dst _ vts stv HB).
    pose proof (NodesInv_bound _ _ _ _ _ (bt_nodes _ _ _ _ _ _ _ _ HB)). lia.
Qed.

#[export] Instance demo_searchable : Searchable demo_built.
Proof.
  apply built_searchable.
  - apply demo_snapshot_wf.
  - apply demo_edges_typed.
  - repeat split; vm_compute; congruence.
  - vm_compute. reflexivity.
  - vm_compute. reflexivity.
Qed.

(** ** The contract of [ShortestPath] *)

Lemma ShortestPath_spec v `{Hv : !Searchable v} source dest hop_budget bans w :
  (source < NodeCount v)%nat → (dest < NodeCount v)%nat → 0 <= hop_budget <= u32_max →
  let r := ShortestPath v source dest hop_budget bans w in
  so_resource_limit r.1 = false → search_correct v bans hop_budget source dest r.1.
Proof.
  intros Hs Hd Hb. unfold ShortestPath.
  destruct (source =? dest)%nat eqn:E; bool_to_prop.
  { subst dest. intros _. exists []. split; [done|]. pose proof (increment_nonneg v) as Hinc.
    constructor.
    - constructor.
    - right. simpl. lia.
    - apply NoDup_singleton.
    - done.
    - intros l' _ _. pose proof (walk_cost_nonneg v Hinc l') as Hc.
      destruct l' as [|i l']; [apply ole_lt_or_eq; by right|]. apply walk_rank_lt.
      unfold walk_cost at 1 3. cbn [zsum fold_right length].
      destruct (decide (walk_cost v (i :: l') = 0)); [right|left]; lia. }
  rewrite !(proj2 (Nat.leb_gt _ _)) by lia. cbn [orb].
  destruct (hop_budget =? 0) eqn:E0; bool_to_prop.
  { subst hop_budget. intros _ l Hw [Hl|Hl]; [done|].
    destruct l as [|i l]; [|simpl in Hl; lia]. inversion Hw; congruence. }
  destruct (hop_budget =? kNoHopBound) eqn:En; bool_to_prop.
  { subst hop_budget. apply plain_search_correct; first [done | by left]. }
  rewrite (proj2 (Nat.eqb_neq _ 0)) by lia.
  destruct (hop_budget <? Z.of_nat (NodeCount v) - 1) eqn:El; bool_to_prop.
  - rewrite <- (Z2Nat.id hop_budget) by lia. apply expanded_search_correct; first [done | lia].
  - apply plain_search_correct; first [done | right; lia].
Qed.

(** C24: [ShortestPath] is exact: unless it reports a resource limit, it returns the
    walk that is least by (cost, hops, node identities, link identities) among
    all walks from the source to the destination that use no banned node or
    adjacency and respect the hop bound, and that walk is simple; or it reports
    not found, and then every such walk costs at least 2^64 - 1. *)
Theorem shortest_path_correct v source dest hop_budget bans w :
  Searchable v →
  (source < NodeCount v)%nat → (dest < NodeCount v)%nat → 0 <= hop_budget <= u32_max →
  let r := ShortestPath v source dest hop_budget bans w in
  so_resource_limit r.1 = false → search_correct v bans hop_budget source dest r.1.
Proof. intros Hv. by apply ShortestPath_spec. Qed.

Definition demo_work : Work := MkWork (MkBudget 1000 1000 100 false false) zero_stats.

Lemma shortest_path_correct_witness :
  search_correct demo_built no_bans 2 0 3 (ShortestPath demo_built 0 3 2 no_bans demo_work).1 ∧
  search_correct demo_built no_bans kNoHopBound 0 3
    (ShortestPath demo_built 0 3 kNoHopBound no_bans demo_work).1.
Proof.
  split; apply shortest_path_correct.
  - apply demo_searchable.
  - vm_compute. lia.
  - vm_compute. lia.
  - vm_compute. split; congruence.
  - vm_compute. reflexivity.
  - apply demo_searchable.
  - vm_compute. lia.
  - vm_compute. lia.
  - vm_compute. split; congruence.
  - vm_compute. reflexivity.
Defined.

(** ** Cost *)

Section routes.
Context (v : PlanningView) `{Hv : !Searchable v}.

Lemma walk_indices bans u l w :
  walk v bans u l w → (u < NodeCount v)%nat → Forall (λ i, (i < length (v_adjacency v))%nat) l.
Proof.
  induction 1 as [|u i l w Hi _ _ IH]; intros Hu; [constructor|].
  constructor; [by apply (row_index v u)|]. apply IH. by eapply row_to.
Qed.

Lemma edge_published i :
  (i < length (v_adjacency v))%nat → edge_of v i ∈ s_edges (v_snapshot v).
Proof.
  intros Hi. destruct (vw_rows v sv_wf i Hi) as (u & Hu & Hr).
  by destruct (vw_edge v sv_wf u i Hu Hr).
Qed.

Lemma hop_increment_input i :
  (i < length (v_adjacency v))%nat →
  hop_increment (v_cost_model v) (hop_input v i) = increment v i.
Proof.
  intros Hi. destruct (vw_cost v sv_wf i Hi) as [_ Hc]. unfold hop_increment, increment, hop_input.
  simpl. fold (edge_of v i) in Hc. lia.
Qed.

(** The exact cost record of a list of adjacencies. *)
Definition route_cost (l : list nat) : PathCost := exact_cost (map (hop_input v) l) (v_cost_model v).

Lemma c_hops_route_cost l : c_hops (route_cost l) = Z.of_nat (length l).
Proof. unfold route_cost, exact_cost. simpl. by rewrite length_map. Qed.

Lemma c_total_route_cost l :
  Forall (λ i, (i < length (v_adjacency v))%nat) l → c_total (route_cost l) = walk_cost v l.
Proof.
  unfold route_cost, exact_cost, walk_cost. cbn [c_total].
  induction 1 as [|i l Hi _ IH]; [done|]. cbn [map]. rewrite !zsum_cons.
  by rewrite hop_increment_input, IH.
Qed.

Lemma ComputeRawPathCost_spec raw :
  Forall (λ i, (i < length (v_adjacency v))%nat) (rp_adjacency raw) →
  ComputeRawPathCost v raw =
    if (Z.of_nat (length (rp_adjacency raw)) <=? kMaxHopCount) &&
       (walk_cost v (rp_adjacency raw) <=? u64_max)
    then Some (route_cost (rp_adjacency raw)) else None.
Proof.
  intros Hall. unfold ComputeRawPathCost. rewrite AccumulatePathCost_spec.
  - rewrite length_map. rewrite <- (c_total_route_cost _ Hall). done.
  - apply sv_model.
  - apply Forall_map. eapply Forall_impl; [exact Hall|]. intros i Hi. simpl.
    apply edge_published in Hi. pose proof sv_edges as He. rewrite Forall_forall in He.
    by destruct (He _ Hi) as (_ & _ & _ & _ & _ & ? & _).
Qed.

(** ** Rank *)

Lemma before_shared_Some {A} `{Ordered A} (l r : list A) b :
  before_shared l r = Some b → ltb l r = b ∧ l ≠ r.
Proof.
  revert r. induction l as [|x l IH]; intros [|y r]; simpl; try done.
  destruct (eqb x y) eqn:E; simpl.
  - apply eqb_eq in E as ->. intros [? ?]%IH. split; [|congruence].
    unfold ltb in *. simpl. by rewrite cmp_refl.
  - apply eqb_neq in E. intros [= <-]. split; [|congruence].
    unfold ltb. simpl. destruct (cmp x y) eqn:Ec; try done. by apply cmp_eq in Ec.
Qed.

Lemma before_shared_None {A} `{Ordered A} (l r : list A) :
  before_shared l r = None → length l = length r → l = r.
Proof.
  revert r. induction l as [|x l IH]; intros [|y r]; simpl; try done.
  destruct (eqb x y) eqn:E; simpl; [|done]. apply eqb_eq in E as ->. intros Hb [= Hl].
  f_equal. by apply IH.
Qed.

Lemma ltb_pair_key {A B} `{Ordered A, Ordered B} (a c : A) (b d : B) :
  ltb (a, b) (c, d) = if eqb a c then ltb b d else ltb a c.
Proof.
  unfold ltb, eqb. rewrite cmp_pair. destruct (cmp a c) eqn:E; simpl; [|done..].
  by destruct (cmp b d).
Qed.

Lemma eqb_Z (x y : Z) : eqb x y = (x =? y).
Proof. unfold eqb. simpl. destruct (Z.compare_spec x y), (Z.eqb_spec x y); done || lia. Qed.

Definition ranked_walk (u : nat) (l : list nat) : RankedRawPath :=
  MkRanked (walk_raw v u l) (route_cost l).

(** The code's predicate is the lexicographic order of the canonical ranks. *)
Lemma RankedBefore_ltb u l l' :
  Forall (λ i, (i < length (v_adjacency v))%nat) l →
  Forall (λ i, (i < length (v_adjacency v))%nat) l' →
  RankedBefore v (ranked_walk u l) (ranked_walk u l') = ltb (walk_rank v u l) (walk_rank v u l').
Proof.
  intros Hl Hl'. unfold RankedBefore, walk_rank, ranked_walk. cbn [rr_cost rr_path].
  rewrite !c_total_route_cost, !c_hops_route_cost by done.
  rewrite ltb_pair_key, (eqb_Z (walk_cost v l)).
  destruct (walk_cost v l =? walk_cost v l'); cbn [negb]; [|done].
  rewrite ltb_pair_key, (eqb_Z (Z.of_nat (length l))).
  destruct (Z.of_nat (length l) =? Z.of_nat (length l')) eqn:El; cbn [negb]; [|done].
  bool_to_prop. cbv zeta. cbn [walk_raw rp_nodes rp_adjacency].
  assert (Hlen : length (walk_nodes v u l) = length (walk_nodes v u l')).
  { unfold walk_nodes. simpl. rewrite !length_map. lia. }
  rewrite ltb_pair_key.
  destruct (before_shared (map (node_id v) _) _) as [b|] eqn:Eb.
  - apply before_shared_Some in Eb as [Hb Hne]. rewrite (proj2 (eqb_neq _ _) Hne). by rewrite Hb.
  - apply before_shared_None in Eb; [|by rewrite !length_map].
    rewrite Eb, eqb_refl, Hlen, Nat.eqb_refl. cbn [negb].
    destruct (before_shared (map (link_id v) l) _) as [b|] eqn:Ec.
    + by apply before_shared_Some in Ec as [-> _].
    + apply before_shared_None in Ec; [|rewrite !length_map; lia]. by rewrite Ec, ltb_irrefl.
Qed.

(** ** The typed candidate *)

Lemma h_to_raw_hop u i :
  (u < NodeCount v)%nat → i ∈ row v u →
  h_from (raw_hop v i) = node_id v u ∧ h_to (raw_hop v i) = node_id v (a_to (AdjacencyAt v i)).
Proof. intros Hu Hi. by destruct (vw_edge v sv_wf u i Hu Hi). Qed.

Lemma walk_chain bans u l w :
  walk v bans u l w → (u < NodeCount v)%nat →
  map h_to (map (raw_hop v) l) = map (node_id v) (map (λ i, a_to (AdjacencyAt v i)) l) ∧
  chain (node_id v u) (map (raw_hop v) l) (node_id v w).
Proof.
  induction 1 as [|u i l w Hi _ _ IH]; intros Hu; [done|].
  destruct (h_to_raw_hop u i Hu Hi) as [Hf Ht].
  destruct IH as [Hm Hc]; [by eapply row_to|].
  cbn [map chain]. rewrite Ht, Hm. done.
Qed.

Lemma node_id_valid u : (u < NodeCount v)%nat → IsValid (node_id v u) = true.
Proof.
  intros Hu. pose proof (vw_node v sv_wf u Hu) as Hin.
  pose proof (sw_node_ok _ sv_snapshot) as Hok. rewrite Forall_forall in Hok.
  apply (no_id _ _ (Hok _ Hin)).
Qed.

Lemma raw_hop_ok i :
  (i < length (v_adjacency v))%nat → hop_ok (v_layer v) (raw_hop v i).
Proof.
  intros Hi. pose proof (vw_layer v sv_wf i Hi) as Hl. pose proof (edge_published i Hi) as He.
  pose proof (sw_edge_ok _ sv_snapshot) as Hok. rewrite Forall_forall in Hok.
  destruct (Hok _ He). by split.
Qed.

Lemma BuildCandidatePath_walk bans u l w :
  walk v bans u l w →
  BuildCandidatePath v (walk_raw v u l) =
    MkPath (node_id v u) (node_id v w) (v_layer v) (map (node_id v) (walk_nodes v u l))
      (map (raw_hop v) l).
Proof.
  intros Hw. by rewrite <- (walk_last v bans u l w Hw).
Qed.

Lemma candidate_wf bans u l w :
  walk v bans u l w → (u < NodeCount v)%nat →
  path_wf (BuildCandidatePath v (walk_raw v u l)) ∧
  p_source (BuildCandidatePath v (walk_raw v u l)) = node_id v u ∧
  p_destination (BuildCandidatePath v (walk_raw v u l)) = node_id v w.
Proof.
  intros Hw Hu. rewrite (BuildCandidatePath_walk bans u l w Hw).
  destruct (walk_chain bans u l w Hw Hu) as [Hm Hc].
  split; [|done]. constructor; cbn [p_source p_destination p_nodes p_hops p_layer].
  - by apply node_id_valid.
  - apply node_id_valid. by eapply walk_bound.
  - unfold walk_nodes. cbn [map]. by rewrite Hm.
  - done.
  - apply Forall_map. eapply Forall_impl; [by eapply walk_indices|]. apply raw_hop_ok.
Qed.

Lemma candidate_simple bans u l w :
  walk v bans u l w → (u < NodeCount v)%nat →
  NoDup (walk_nodes v u l) → NoDup (p_nodes (BuildCandidatePath v (walk_raw v u l))).
Proof.
  intros Hw Hu Hnd. rewrite (BuildCandidatePath_walk bans u l w Hw). cbn [p_nodes].
  pose proof (walk_nodes_bound v bans u l w Hw Hu) as Hb. revert Hb Hnd.
  generalize (walk_nodes v u l). clear -Hv. intros ns. induction ns as [|x ns IH]; [constructor|].
  intros [Hx Hb]%Forall_cons [Hni Hnd]%NoDup_cons. cbn [map]. constructor; [|by apply IH].
  intros (y & Heq & Hy)%list_elem_of_fmap. rewrite Forall_forall in Hb.
  apply (node_id_inj v) in Heq; [by subst|done|by apply Hb].
Qed.

Lemma rank_key_walk bans u l w c :
  walk v bans u l w → Forall (λ i, (i < length (v_adjacency v))%nat) l →
  cd_path c = BuildCandidatePath v (walk_raw v u l) → route_cost l = cd_cost c →
  rank_key c = walk_rank v u l.
Proof.
  intros Hw Hi Hp Hc. unfold rank_key, Path.path_key, walk_rank.
  rewrite Hp, <- Hc, (BuildCandidatePath_walk bans u l w Hw). cbn [p_nodes p_hops].
  by rewrite c_total_route_cost, c_hops_route_cost, (map_map (raw_hop v) h_link).
Qed.
End routes.

(** C40: a walk found by a search becomes a well-formed candidate path between the
    identities of its ends on the view's layer, with one hop per adjacency; and
    the candidate of a simple walk is simple. *)
Theorem candidate_well_formed v bans u l w :
  Searchable v → walk v bans u l w → (u < NodeCount v)%nat →
  let p := BuildCandidatePath v (walk_raw v u l) in
  IsWellFormed p = true ∧ p_source p = node_id v u ∧ p_destination p = node_id v w ∧
  length (p_hops p) = length l ∧ (NoDup (walk_nodes v u l) → IsSimple p = true).
Proof.
  intros Hv Hw Hu p. destruct (candidate_wf v bans u l w Hw Hu) as (Hwf & Hs & Hd).
  rewrite IsWellFormed_spec, IsSimple_spec. split_and!; [done..| |].
  - unfold p. rewrite (BuildCandidatePath_walk v bans u l w Hw). simpl. apply length_map.
  - by apply (candidate_simple v bans u l w).
Qed.

(** Two walks of the demo view, from node 0 to node 3. *)
Lemma demo_walk : walk demo_built no_bans 0 [0%nat; 2%nat] 3.
Proof. apply walk_test_spec. vm_compute. reflexivity. Qed.
Lemma demo_walk' : walk demo_built no_bans 0 [1%nat; 3%nat] 3.
Proof. apply walk_test_spec. vm_compute. reflexivity. Qed.

Lemma candidate_well_formed_witness :
  IsWellFormed (BuildCandidatePath demo_built (walk_raw demo_built 0 [0%nat; 2%nat])) = true.
Proof.
  refine (proj1 (candidate_well_formed demo_built no_bans 0 [0%nat; 2%nat] 3 _ demo_walk _)).
  vm_compute. lia.
Defined.

(** The two rankings agree: the order the enumeration uses on raw paths is the
    canonical order [RanksBefore] of the candidates built from them, whatever the
    other fields of the candidates hold, and the cost it compares is the exact
    sum of what the hops contribute. *)
Theorem raw_ranking_agrees v bans u l l' w c c' :
  Searchable v → (u < NodeCount v)%nat → walk v bans u l w → walk v bans u l' w →
  ComputeRawPathCost v (walk_raw v u l) = Some (cd_cost c) →
  ComputeRawPathCost v (walk_raw v u l') = Some (cd_cost c') →
  cd_path c = BuildCandidatePath v (walk_raw v u l) →
  cd_path c' = BuildCandidatePath v (walk_raw v u l') →
  RawPathRanksBefore v (walk_raw v u l) (walk_raw v u l') = RanksBefore c c' ∧
  c_total (cd_cost c) = walk_cost v l.
Proof.
  intros Hv Hu Hw Hw' Hc Hc' Hp Hp'.
  pose proof (walk_indices v bans u l w Hw Hu) as Hi.
  pose proof (walk_indices v bans u l' w Hw' Hu) as Hi'.
  unfold RawPathRanksBefore. rewrite Hc, Hc'. rewrite ComputeRawPathCost_spec in Hc, Hc' by done.
  destruct (_ && _) in Hc; [|done]. destruct (_ && _) in Hc'; [|done].
  injection Hc as Hc. injection Hc' as Hc'. rewrite <- Hc, <- Hc'. cbn [rp_adjacency walk_raw].
  rewrite c_total_route_cost by done. split; [|done].
  fold (ranked_walk v u l) (ranked_walk v u l').
  rewrite (RankedBefore_ltb v u l l' Hi Hi'), RanksBefore_ltb.
  by rewrite (rank_key_walk v bans u l w c), (rank_key_walk v bans u l' w c').
Qed.

Definition demo_candidate (l : list nat) : Candidate :=
  MkCandidate (nil_id _) (BuildCandidatePath demo_built (walk_raw demo_built 0 l))
    (route_cost demo_built l) 0 (MkEvidence (nil_id _) zero_generations EvidenceSource.kReal 0)
    (MkProvenance 0 (nil_id _) 0 0 EvidenceSource.kReal 1 1)
    AuthorityValidation.kNotRequested Currentness.kCurrent [].

Lemma raw_ranking_agrees_witness :
  RawPathRanksBefore demo_built (walk_raw demo_built 0 [0%nat; 2%nat])
    (walk_raw demo_built 0 [1%nat; 3%nat]) =
  RanksBefore (demo_candidate [0%nat; 2%nat]) (demo_candidate [1%nat; 3%nat]).
Proof.
  refine (proj1 (raw_ranking_agrees demo_built no_bans 0 [0%nat; 2%nat] [1%nat; 3%nat] 3
    (demo_candidate [0%nat; 2%nat]) (demo_candidate [1%nat; 3%nat]) _ _ demo_walk demo_walk' _ _
    eq_refl eq_refl)).
  - vm_compute. lia.
  - vm_compute. reflexivity.
  - vm_compute. reflexivity.
Defined.

(** ** The failure-domain member limit *)

Section domain_limit.
Context (v : PlanningView) (limit : Z) (fail_closed : bool).

Definition link_membership (i : nat) : Membership :=
  MembershipOf (s_failure_domains (v_snapshot v)) (ForLink (link_id v i)).
(** Every membership the path's known links contribute, in order. *)
Definition path_domains (l : list nat) : list FailureDomainId :=
  mjoin (map (λ i, if mb_known (link_membership i) then mb_domains (link_membership i) else []) l).

Definition occurrences (d : FailureDomainId) (l : list FailureDomainId) : Z :=
  Z.of_nat (length (List.filter (λ x, eqb x d) l)).

Lemma occurrences_app d l1 l2 : occurrences d (l1 ++ l2) = occurrences d l1 + occurrences d l2.
Proof. unfold occurrences. rewrite List.filter_app, length_app. lia. Qed.
Lemma occurrences_cons d x l : occurrences d (x :: l) = ind (eqb x d) + occurrences d l.
Proof. unfold occurrences. simpl. destruct (eqb x d); simpl; lia. Qed.
Lemma occurrences_le d l : 0 <= occurrences d l <= Z.of_nat (length l).
Proof.
  unfold occurrences. pose proof (List.filter_length_le (λ x, eqb x d) l). lia.
Qed.

(** The association vector is sorted and counts the domains seen. *)
Record counts_ok (seen : list FailureDomainId) (counts : list (FailureDomainId * Z)) : Prop := {
  ct_sorted : strictly_sorted fst counts;
  ct_count : ∀ d n, (d, n) ∈ counts → n = occurrences d seen;
  ct_seen : ∀ d, d ∈ seen → ∃ n, (d, n) ∈ counts
}.

Lemma bump_count_spec d counts :
  strictly_sorted fst counts →
  let r := bump_count d counts in
  strictly_sorted fst r.1 ∧
  (∀ x n, (x, n) ∈ r.1 ↔ (x ≠ d ∧ (x, n) ∈ counts) ∨ (x = d ∧ n = r.2)) ∧
  ((∃ m, (d, m) ∈ counts ∧ r.2 = wrap32 (m + 1)) ∨ ((∀ m, (d, m) ∉ counts) ∧ r.2 = 1)).
Proof.
  unfold strictly_sorted. induction counts as [|[x n] counts IH]; intros Hs; simpl.
  { split_and!; [by repeat constructor| |].
    - intros y m. rewrite list_elem_of_singleton, elem_of_nil. naive_solver.
    - right. split; [|done]. intros m. apply not_elem_of_nil. }
  apply StronglySorted_inv in Hs as [Hs Hall]. rewrite Forall_forall in Hall.
  destruct (ltb x d) eqn:Elt.
  - destruct (IH Hs) as (Hs' & Hin & Hr). destruct (bump_count d counts) as [rest m]. simpl in *.
    pose proof (ltb_neq _ _ Elt) as Hne. split_and!.
    + constructor; [done|]. rewrite Forall_forall. intros [y k] [[_ Hy]|[-> _]]%Hin; [|done].
      exact (Hall _ Hy).
    + intros y k. rewrite !elem_of_cons, Hin. naive_solver.
    + setoid_rewrite elem_of_cons. destruct Hr as [(m' & ? & ?)|[Hno ?]]; [left; naive_solver|].
      right. split; [|done]. intros m' [[= ? ?]|Hm]; [done|by apply (Hno m')].
  - destruct (eqb x d) eqn:Eq.
    + apply eqb_eq in Eq as ->. simpl. split_and!.
      * constructor; [done|]. by apply Forall_forall.
      * intros y k. rewrite !elem_of_cons. split.
        -- intros [[= -> ->]|Hy]; [by right|]. left. split; [|by right].
           intros ->. pose proof (Hall _ Hy) as H. simpl in H. by rewrite ltb_irrefl in H.
        -- intros [[Hne [[= -> ->]|Hy]]|[-> ->]]; [done|by right|by left].
      * left. exists n. split; [by left|done].
    + apply eqb_neq in Eq. assert (Hd : ltb d x = true).
      { destruct (ltb_trichotomy d x) as [?|[->|?]]; [done|done|congruence]. }
      simpl. assert (Hno : ∀ m, (d, m) ∉ (x, n) :: counts).
      { intros m [[= ? ?]|Hm]%elem_of_cons; [done|]. pose proof (Hall _ Hm) as H. simpl in H.
        by rewrite (ltb_asym _ _ H) in Hd. }
      split_and!.
      * constructor; [by constructor; [|apply Forall_forall]|]. constructor; [done|].
        apply Forall_forall. intros [y k] Hy. pose proof (Hall _ Hy) as H. simpl in *.
        by eapply ltb_trans.
      * intros y k. rewrite (elem_of_cons ((x, n) :: counts)). split.
        -- intros [[= -> ->]|Hy]; [by right|]. left. split; [|done]. intros ->. by apply (Hno k).
        -- intros [[_ Hy]|[-> ->]]; [by right|by left].
      * right. done.
Qed.
Definition below_limit (seen : list FailureDomainId) : Prop := ∀ d, occurrences d seen <= limit.

Lemma occurrences_zero d l : d ∉ l → occurrences d l = 0.
Proof.
  induction l as [|x l IH]; intros Hd; [done|]. apply not_elem_of_cons in Hd as [Hne Hd].
  rewrite occurrences_cons, (IH Hd), (proj2 (eqb_neq _ _)) by done. done.
Qed.

Lemma occurrences_snoc d x l : occurrences d (l ++ [x]) = occurrences d l + ind (eqb x d).
Proof. rewrite occurrences_app, occurrences_cons. change (occurrences d []) with 0. lia. Qed.

Lemma count_domain_spec d seen counts :
  counts_ok seen counts → Z.of_nat (length seen) < u32_max → 0 <= limit →
  let r := count_domain limit d counts in
  counts_ok (seen ++ [d]) r.1 ∧ (r.2 = true ↔ limit < occurrences d (seen ++ [d])).
Proof.
  intros [Hs Hc Hd] Hlen Hlim. unfold count_domain.
  pose proof (bump_count_spec d counts Hs) as Hb. cbv zeta in Hb.
  destruct (bump_count d counts) as [counts' n]. simpl in *. destruct Hb as (Hs' & Hin & Hr).
  assert (Hn : n = occurrences d (seen ++ [d])).
  { rewrite occurrences_snoc, eqb_refl. simpl.
    pose proof (occurrences_le d seen) as Hle.
    destruct Hr as [(m & Hm & ->)|[Hno ->]].
    - rewrite (Hc _ _ Hm). rewrite wrap32_small by lia. done.
    - rewrite occurrences_zero; [done|]. intros Hseen. destruct (Hd _ Hseen) as [m Hm].
      by apply (Hno m). }
  split; [constructor|].
  - done.
  - intros x k [[Hne Hx]|[-> ->]]%Hin; [|done].
    rewrite occurrences_snoc, (proj2 (eqb_neq d x)) by congruence.
    rewrite (Hc _ _ Hx). simpl. lia.
  - intros x Hx. setoid_rewrite Hin. destruct (decide (x = d)) as [->|Hne]; [by exists n; right|].
    apply elem_of_app in Hx as [Hx|Hx%list_elem_of_singleton]; [|done].
    destruct (Hd _ Hx) as [m Hm]. exists m. by left.
  - rewrite <- Hn, Z.gtb_lt. done.
Qed.

Lemma below_limit_snoc d seen :
  below_limit seen → ¬ limit < occurrences d (seen ++ [d]) → below_limit (seen ++ [d]).
Proof.
  intros Hb Hd x. destruct (decide (x = d)) as [->|Hne]; [lia|].
  rewrite occurrences_snoc, (proj2 (eqb_neq d x)) by congruence. specialize (Hb x). simpl. lia.
Qed.

Lemma not_below_limit d seen rest :
  limit < occurrences d seen → ¬ below_limit (seen ++ rest).
Proof.
  intros Hd Hb. specialize (Hb d). rewrite occurrences_app in Hb.
  pose proof (occurrences_le d rest). lia.
Qed.

Lemma count_domains ds seen counts :
  counts_ok seen counts → below_limit seen → Z.of_nat (length (seen ++ ds)) <= u32_max →
  0 <= limit →
  let r := for_each (count_domain limit) ds counts in
  if r.2 then ¬ below_limit (seen ++ ds)
  else counts_ok (seen ++ ds) r.1 ∧ below_limit (seen ++ ds).
Proof.
  revert seen counts. induction ds as [|d ds IH]; intros seen counts Hc Hb Hlen Hlim; simpl.
  { by rewrite app_nil_r. }
  assert (Hl : Z.of_nat (length seen) < u32_max).
  { rewrite length_app in Hlen. simpl in Hlen. lia. }
  destruct (count_domain_spec d seen counts Hc Hl Hlim) as [Hc' Hstop].
  destruct (count_domain limit d counts) as [counts' stop]. simpl in *.
  replace (seen ++ d :: ds) with ((seen ++ [d]) ++ ds) in * by by rewrite <- app_assoc.
  destruct stop; simpl.
  - apply (not_below_limit d). by apply Hstop.
  - apply IH; [done| |done|done]. apply below_limit_snoc; [done|]. intros H. by apply Hstop in H.
Qed.

(** The compliance of a path, without the association vector. *)
Definition domain_limit_ok (l : list nat) : Prop :=
  below_limit (path_domains l) ∧
  (fail_closed = true → ∀ i, i ∈ l → mb_known (link_membership i) = true).

Lemma path_domains_cons i l :
  path_domains (i :: l) =
  (if mb_known (link_membership i) then mb_domains (link_membership i) else []) ++ path_domains l.
Proof. done. Qed.

Lemma count_links l seen counts :
  counts_ok seen counts → below_limit seen → 0 <= limit →
  Z.of_nat (length (seen ++ path_domains l)) <= u32_max →
  (for_each (count_link v limit fail_closed) l counts).2 = false ↔
  below_limit (seen ++ path_domains l) ∧
  (fail_closed = true → ∀ i, i ∈ l → mb_known (link_membership i) = true).
Proof.
  revert seen counts. induction l as [|i l IH]; intros seen counts Hc Hb Hlim Hlen.
  { simpl. change (path_domains []) with (@nil FailureDomainId). rewrite app_nil_r.
    split; [|done]. intros _. split; [done|]. intros _ i Hi. by apply elem_of_nil in Hi. }
  cbn [for_each]. unfold count_link at 1. fold (link_membership i).
  rewrite path_domains_cons in *. destruct (mb_known (link_membership i)) eqn:Ek; cbn [negb].
  - rewrite app_assoc in *.
    pose proof (count_domains (mb_domains (link_membership i)) seen counts Hc Hb) as Hr.
    assert (Hlen' : Z.of_nat (length (seen ++ mb_domains (link_membership i))) <= u32_max).
    { rewrite length_app in Hlen. lia. }
    specialize (Hr Hlen' Hlim). cbv zeta in Hr.
    destruct (for_each _ (mb_domains _) counts) as [counts' stop]. simpl in *. destruct stop; simpl.
    + split; [done|]. intros [Hbl _]. exfalso. apply Hr. intros d.
      pose proof (Hbl d) as Hd. rewrite occurrences_app in Hd.
      pose proof (occurrences_le d (path_domains l)). lia.
    + destruct Hr as [Hc' Hb']. rewrite (IH _ _ Hc' Hb' Hlim Hlen). setoid_rewrite elem_of_cons.
      naive_solver.
  - change ([] ++ path_domains l) with (path_domains l) in *. destruct fail_closed eqn:Ef; simpl.
    + split; [done|]. intros [_ Hk].
      assert (Hk' : mb_known (link_membership i) = true) by (apply Hk; [done|by left]).
      congruence.
    + rewrite (IH _ _ Hc Hb Hlim Hlen). split; intros [? _]; by split.
Qed.

Lemma DomainMemberLimitCompliant_spec raw :
  0 <= limit → Z.of_nat (length (path_domains (rp_adjacency raw))) <= u32_max →
  DomainMemberLimitCompliant v raw limit fail_closed = true ↔
  domain_limit_ok (rp_adjacency raw).
Proof.
  intros Hlim Hlen. unfold DomainMemberLimitCompliant, domain_limit_ok.
  assert (Hnil : below_limit []) by (intros d; change (occurrences d []) with 0; done).
  destruct (length (rp_adjacency raw) =? 0)%nat eqn:E0; bool_to_prop.
  { apply nil_length_inv in E0. rewrite E0. split; [|done]. intros _. split; [done|].
    intros _ i Hi. by apply elem_of_nil in Hi. }
  assert (Hok : counts_ok [] []).
  { constructor; [apply SSorted_nil| |]; intros d; [intros n|]; intros Hd;
      by apply elem_of_nil in Hd. }
  rewrite negb_true_iff. by apply (count_links (rp_adjacency raw) [] []).
Qed.
End domain_limit.

(** The member limit is exact: a path complies precisely when no failure domain
    is published for more than [limit] of the links it traverses, and, when the
    request fails closed, the membership of every link is known; unknown
    membership is skipped otherwise. *)
Theorem domain_member_limit_exact v raw limit fail_closed :
  0 <= limit → Z.of_nat (length (path_domains v (rp_adjacency raw))) <= u32_max →
  DomainMemberLimitCompliant v raw limit fail_closed = true ↔
  (∀ d, occurrences d (path_domains v (rp_adjacency raw)) <= limit) ∧
  (fail_closed = true → ∀ i, i ∈ rp_adjacency raw → mb_known (link_membership v i) = true).
Proof. apply DomainMemberLimitCompliant_spec. Qed.

Lemma domain_member_limit_exact_witness :
  DomainMemberLimitCompliant demo_built (walk_raw demo_built 0 [0%nat; 2%nat]) 1 true = true ∧
  ¬ ((∀ d, occurrences d (path_domains demo_built [4%nat; 0%nat]) <= 1) ∧
     (true = true → ∀ i, i ∈ [4%nat; 0%nat] → mb_known (link_membership demo_built i) = true)).
Proof.
  split.
  - apply domain_member_limit_exact; [lia|vm_compute; congruence|]. split.
    + intros d. pose proof (occurrences_le d (path_domains demo_built [0%nat; 2%nat])) as H.
      assert (Hl : length (path_domains demo_built [0%nat; 2%nat]) = 1%nat)
        by (vm_compute; reflexivity).
      cbn [rp_adjacency walk_raw]. lia.
    + intros _ i Hi. apply elem_of_cons in Hi as [->|Hi%list_elem_of_singleton]; [|subst];
        vm_compute; reflexivity.
  - intros H. apply (domain_member_limit_exact demo_built (walk_raw demo_built 3 [4%nat; 0%nat]))
      in H; [|lia|vm_compute; congruence]. vm_compute in H. discriminate.
Defined.
