(* ===== verification/BudgetFacts.v ===== *)
(** The deterministic work budget of search.cpp: what a search and an enumeration
    spend is exactly what the statistics record, no counter runs below zero, and
    a resource limit is reported exactly when a bound of the budget stopped the
    work; enough budget makes a search answer. *)

From S2P Require Import Prelude Canonical Status Ids Codec Limits Graph Builder Path Request View ViewFacts PathSearch Dijkstra SearchFacts PlainFacts ExpandedFacts RouteFacts.
Import DiagnosticCode.

(** ** The ledger *)

Definition flagged (w : Work) : bool :=
  wb_exhausted (w_budget w) || wb_state_space_exceeded (w_budget w).

(** The counters no search touches. *)
Definition other_counters (s : PlannerStatistics) : list Z :=
  [plans_computed s; plans_published s; plans_publish_rejected_stale s; candidates_returned s;
   snapshots_published s; epochs_advanced s; invalidations_applied s; plans_retired s].

(** From [w0] to [w]: nothing below zero, every unit taken from the budget is a unit
    on the 64-bit counter, and the flags say whether a bound was hit. *)
Record ledger (w0 w : Work) (limit : bool) : Prop := {
  lg_states : 0 <= wb_states_remaining (w_budget w) <= wb_states_remaining (w_budget w0);
  lg_pushes : 0 <= wb_pushes_remaining (w_budget w) <= wb_pushes_remaining (w_budget w0);
  lg_spur : 0 <= wb_spur_remaining (w_budget w) <= wb_spur_remaining (w_budget w0);
  lg_expanded : wrap64 (wb_states_remaining (w_budget w) + states_expanded (w_stats w)) =
    wrap64 (wb_states_remaining (w_budget w0) + states_expanded (w_stats w0));
  lg_queued : wrap64 (wb_pushes_remaining (w_budget w) + queue_pushes (w_stats w)) =
    wrap64 (wb_pushes_remaining (w_budget w0) + queue_pushes (w_stats w0));
  lg_spurs : wrap64 (wb_spur_remaining (w_budget w) + spur_searches (w_stats w)) =
    wrap64 (wb_spur_remaining (w_budget w0) + spur_searches (w_stats w0));
  lg_other : other_counters (w_stats w) = other_counters (w_stats w0);
  lg_flagged : flagged w = limit
}.

Record budget_ok (w : Work) : Prop := {
  bg_states : 0 <= wb_states_remaining (w_budget w);
  bg_pushes : 0 <= wb_pushes_remaining (w_budget w);
  bg_spur : 0 <= wb_spur_remaining (w_budget w);
  bg_flags : flagged w = false
}.

Lemma ledger_refl w : budget_ok w → ledger w w false.
Proof. intros []. constructor; done || lia. Qed.

Lemma wrap64_spend a b : wrap64 (a - 1 + wrap64 (b + 1)) = wrap64 (a + b).
Proof. unfold wrap64. rewrite Zplus_mod_idemp_r. f_equal. lia. Qed.

Ltac spend_tac :=
  let Hw := fresh "Hw" in
  intros Hw; destruct Hw; destruct (_ =? 0) eqn:?; bool_to_prop;
  constructor; simpl; unfold flagged in *; simpl in *; rewrite ?wrap64_spend; done || lia.

Section ledger.
Context (w0 : Work).
Notation L := (ledger w0).

Lemma SpendState_ledger w : L w false → L (SpendState w).1 (negb (SpendState w).2).
Proof. unfold SpendState. spend_tac. Qed.
Lemma SpendPush_ledger w : L w false → L (SpendPush w).1 (negb (SpendPush w).2).
Proof. unfold SpendPush. spend_tac. Qed.
Lemma SpendSpur_ledger w : L w false → L (SpendSpur w).1 (negb (SpendSpur w).2).
Proof. unfold SpendSpur. spend_tac. Qed.

(** A loop stops on a limit exactly when its body does. *)
Lemma for_each_ledger {A S} (f : S → Work) (body : A → S → S * bool) l s :
  (∀ x s, L (f s) false → L (f (body x s).1) (body x s).2) →
  L (f s) false → L (f (for_each body l s).1) (for_each body l s).2.
Proof.
  intros Hb. revert s. induction l as [|x l IH]; intros s Hs; simpl; [done|].
  specialize (Hb x s Hs). destruct (body x s) as [s' [|]]; simpl in *; [done|]. by apply IH.
Qed.

Section search.
Context (v : PlanningView) (bans : BanSet) (hop_budget : Z).

Lemma relax_edge_ledger node cost i st :
  L (ps_work st) false →
  let r := relax_edge v bans hop_budget node cost i st in L (ps_work r.1) r.2.
Proof.
  intros Hw. unfold relax_edge.
  destruct (AdjacencyBanned bans i); [done|]. destruct (NodeBanned bans _); [done|].
  destruct (_ && _); [done|]. destruct (HopIncrement _ _) as [inc|]; [|done].
  destruct (CheckedAdd cost inc) as [c|]; [|done].
  apply SpendState_ledger in Hw. destruct (SpendState (ps_work st)) as [w [|]]; simpl in *; [|done].
  destruct (negb _); [done|]. cbn [with_label ps_work with_work].
  apply SpendPush_ledger in Hw. by destruct (SpendPush w) as [w' [|]].
Qed.

Lemma settle_ledger entry st :
  L (ps_work st) false → let r := settle v bans hop_budget entry st in L (ps_work r.1) r.2.
Proof.
  intros Hw. unfold settle. destruct (settled_at _ _); [done|]. destruct (BetterLabel _ _ _ _); [done|].
  apply (for_each_ledger ps_work); [|done]. intros i s. apply relax_edge_ledger.
Qed.

Lemma plain_loop_ledger fuel st r :
  L (ps_work st) false → plain_loop v bans hop_budget fuel st = Some r → L (ps_work r.1) r.2.
Proof.
  revert st. induction fuel as [|fuel IH]; intros st Hw; simpl; [done|].
  destruct (pop_min (ps_queue st)) as [[entry q]|]; [|by intros [= <-]].
  pose proof (settle_ledger entry (with_queue q st) Hw) as Hs. cbv zeta in Hs.
  destruct (settle v bans hop_budget entry _) as [st2 [|]]; simpl in *; [by intros [= <-]|by apply IH].
Qed.

Lemma plain_result_limit source dest st :
  so_resource_limit (plain_result v bans source dest st) = false.
Proof. unfold plain_result. split_match; done. Qed.

Lemma PlainSearch_ledger source dest w :
  L w false → let r := PlainSearch v bans hop_budget source dest w in L r.2 (so_resource_limit r.1).
Proof.
  intros Hw%SpendPush_ledger. unfold PlainSearch.
  destruct (SpendPush w) as [w' [|]]; simpl in Hw; cbn [negb]; [|done].
  destruct (plain_loop _ _ _ _ _) as [[st limit]|] eqn:El; [|done].
  apply plain_loop_ledger in El; [|done]. simpl in El. destruct limit; [done|].
  cbn [fst snd]. by rewrite plain_result_limit.
Qed.

Lemma expand_edge_ledger h cost i st :
  L (es_work st) false →
  let r := expand_edge v bans h cost i st in L (es_work r.1) r.2.
Proof.
  intros Hw. unfold expand_edge.
  destruct (AdjacencyBanned bans i); [done|]. destruct (NodeBanned bans _); [done|].
  destruct (HopIncrement _ _) as [inc|]; [|done]. destruct (CheckedAdd cost inc) as [c|]; [|done].
  apply SpendState_ledger in Hw. destruct (SpendState (es_work st)) as [w [|]]; simpl in *; [|done].
  destruct (_ <=? _); [done|].
  apply SpendPush_ledger in Hw. by destruct (SpendPush w) as [w' [|]].
Qed.

Lemma expand_ledger entry st :
  L (es_work st) false → let r := expand v bans hop_budget entry st in L (es_work r.1) r.2.
Proof.
  intros Hw. unfold expand. destruct (nth _ _ _); [done|]. destruct (negb _); [done|].
  destruct (_ =? _); [done|].
  apply (for_each_ledger es_work); [|done]. intros i s. apply expand_edge_ledger.
Qed.

Lemma expanded_loop_ledger fuel st r :
  L (es_work st) false → expanded_loop v bans hop_budget fuel st = Some r → L (es_work r.1) r.2.
Proof.
  revert st. induction fuel as [|fuel IH]; intros st Hw; simpl; [done|].
  destruct (pop_min (es_queue st)) as [[entry q]|]; [|by intros [= <-]].
  pose proof (expand_ledger entry (MkExpanded (es_dist st) (es_settled st) q (es_overflow st)
    (es_work st)) Hw) as Hs. cbv zeta in Hs.
  destruct (expand v bans hop_budget entry _) as [st2 [|]]; simpl in *; [by intros [= <-]|by apply IH].
Qed.

Lemma ExpandedSearch_ledger source dest w :
  L w false → let r := ExpandedSearch v bans hop_budget source dest w in L r.2 (so_resource_limit r.1).
Proof.
  intros Hw. unfold ExpandedSearch. destruct (_ >? _).
  { destruct Hw. constructor; simpl; try done. unfold flagged. simpl. by rewrite orb_true_r. }
  apply SpendPush_ledger in Hw.
  destruct (SpendPush w) as [w' [|]]; simpl in Hw; cbn [negb]; [|done].
  destruct (expanded_loop _ _ _ _ _) as [[st limit]|] eqn:El; [|done].
  apply expanded_loop_ledger in El; [|done]. simpl in El. destruct limit; [done|].
  cbn [fst snd]. assert (Hr : so_resource_limit (expanded_result v bans hop_budget source dest st) = false)
    by (unfold expanded_result; split_match; done).
  by rewrite Hr.
Qed.
End search.

Lemma ShortestPath_ledger v source dest hop_budget bans w :
  L w false →
  let r := ShortestPath v source dest hop_budget bans w in L r.2 (so_resource_limit r.1).
Proof.
  intros Hw. unfold ShortestPath. destruct (_ =? _)%nat; [done|]. destruct (_ || _); [done|].
  destruct (_ =? 0); [done|]. destruct (_ =? kNoHopBound); [by apply PlainSearch_ledger|].
  destruct (_ <? _); [by apply ExpandedSearch_ledger|by apply PlainSearch_ledger].
Qed.

(** ** The enumeration *)

Definition leg_limit (r : LegResult) : bool := match r with LegLimit => true | _ => false end.

Lemma stage_leg_ledger v options stage choice st w :
  L w false → let r := stage_leg v options stage choice st w in L r.2 (leg_limit r.1).
Proof.
  intros Hw. unfold stage_leg. destruct (ViewIndex _ _) as [t|]; [|done]. destruct (_ && _); [done|].
  cbv zeta.
  pose proof (ShortestPath_ledger v (sg_current st) t (leg_budget (op_max_hops options) (sg_used_hops st))
    (other_nodes [sg_current st] (sg_combined st)) w Hw) as Hs. cbv zeta in Hs.
  destruct (ShortestPath _ _ _ _ _ _) as [leg w']. simpl in Hs.
  destruct (so_resource_limit leg); [done|]. by destruct (so_found leg).
Qed.

Lemma stage_legs_ledger v options stages selection st w :
  L w false → let r := stage_legs v options stages selection st w in L r.2 (leg_limit r.1).
Proof.
  revert selection st w. induction stages as [|stage stages IH]; intros [|c selection] st w Hw;
    cbn [stage_legs]; try done.
  pose proof (stage_leg_ledger v options stage c st w Hw) as Hs. cbv zeta in Hs.
  destruct (stage_leg v options stage c st w) as [[st'|code|] w']; [|done..]. by apply IH.
Qed.

Definition stopped (detail : option string) : bool :=
  match detail with Some _ => true | None => false end.

Lemma try_combination_ledger v options stages k st :
  L (tr_work st) false →
  let r := try_combination v options stages k st in L (tr_work r.1) (stopped r.2).
Proof.
  intros Hw. unfold try_combination. cbv zeta.
  destruct (select_alternatives stages k) as [selection rest].
  pose proof (stage_legs_ledger v options stages selection (MkStaged (MkRaw [op_source_view options] [])
    (op_source_view options) 0) _ Hw) as Hs. cbv zeta in Hs.
  destruct (stage_legs _ _ _ _ _ _) as [[sg|code|] w]; [|done..]. simpl in Hs.
  destruct (_ && _ && _); [done|].
  pose proof (ShortestPath_ledger v (sg_current sg) (op_destination_view options)
    (leg_budget (op_max_hops options) (sg_used_hops sg))
    (other_nodes [sg_current sg; op_destination_view options] (sg_combined sg)) w Hs) as Hf.
  cbv zeta in Hf. destruct (ShortestPath _ _ _ _ _ _) as [leg w']. simpl in Hf.
  destruct (so_resource_limit leg); [done|]. destruct (so_found leg); cbn [negb]; [|done].
  destruct (negb _); [done|]. by destruct (ComputeRawPathCost _ _).
Qed.

Lemma try_combinations_ledger v options stages ks st :
  L (tr_work st) false →
  let r := try_combinations v options stages ks st in L (tr_work r.1) (stopped r.2).
Proof.
  revert st. induction ks as [|k ks IH]; intros st Hw; simpl; [done|].
  pose proof (try_combination_ledger v options stages k st Hw) as Hs. cbv zeta in Hs.
  destruct (try_combination v options stages k st) as [st' [d|]]; [done|]. by apply IH.
Qed.

(** The failure an enumeration reports for an exhausted budget. *)
Definition exhausted_result (r : EnumerationResult) : bool :=
  en_resource_limit r && enum_eqb (en_failure r) kWorkBudgetExhausted.

Lemma count_combinations_failure limit stages c a r :
  count_combinations limit stages c a = inl r →
  exhausted_result r = false.
Proof.
  revert c a. induction stages as [|stage stages IH]; intros c a; simpl; [done|].
  destruct (_ =? 0); [by intros [= <-]|]. destruct (_ >? _); [by intros [= <-]|]. apply IH.
Qed.

Lemma enumerate_transit_ledger v options stages w :
  L w false →
  let r := enumerate_transit v options stages w in L r.2 (exhausted_result r.1).
Proof.
  intros Hw. unfold enumerate_transit. destruct (_ >? 1); [done|]. cbv zeta.
  destruct (count_combinations _ _ _ _) as [r|[c a]] eqn:Ec.
  { apply count_combinations_failure in Ec. simpl. by rewrite Ec. }
  destruct (_ >? _); [done|]. destruct (_ >? _); [done|].
  pose proof (try_combinations_ledger v options stages (map Z.of_nat (seq 0 (Z.to_nat c)))
    (MkTransit None kRequiredNodeMissing w) Hw) as Hs. cbv zeta in Hs.
  destruct (try_combinations _ _ _ _ _) as [st [d|]]; [done|]. by destruct (tr_best st).
Qed.

Lemma spur_step_ledger v options accepted previous i st :
  L st.1.2 false →
  let r := spur_step v options accepted previous i st in L r.1.1.2 r.2 ∧ stopped r.1.2 = r.2.
Proof.
  destruct st as [[pending w] d]. intros Hw%SpendSpur_ledger. cbn [fst snd] in Hw. unfold spur_step.
  cbv zeta.
  destruct (SpendSpur w) as [w1 [|]]; simpl in Hw; cbn [negb]; [|done].
  pose proof (ShortestPath_ledger v (nth i (rp_nodes previous) 0%nat) (op_destination_view options)
    (leg_budget (op_max_hops options) (Z.of_nat i)) (spur_bans accepted previous i) w1 Hw) as Hs.
  cbv zeta in Hs. destruct (ShortestPath _ _ _ _ _ _) as [spur w2]. simpl in Hs.
  destruct (so_resource_limit spur); [done|]. destruct (so_found spur); cbn [negb]; [|done].
  destruct (negb _); [done|]. destruct (_ || _); [done|]. by destruct (ComputeRawPathCost _ _).
Qed.

Lemma spur_steps_ledger v options accepted previous l st :
  L st.1.2 false → stopped st.2 = false →
  let r := for_each (spur_step v options accepted previous) l st in
  L r.1.1.2 r.2 ∧ stopped r.1.2 = r.2.
Proof.
  revert st. induction l as [|i l IH]; intros st Hw Hd; cbn [for_each]; [done|].
  pose proof (spur_step_ledger v options accepted previous i st Hw) as Hs. cbv zeta in Hs.
  destruct (spur_step v options accepted previous i st) as [st' [|]]; simpl in *; [done|].
  destruct Hs. by apply IH.
Qed.

Lemma yen_loop_ledger v options rounds accepted pending w :
  L w false →
  let r := yen_loop v options rounds accepted pending w in L r.1.2 (stopped r.2).
Proof.
  revert accepted pending w. induction rounds as [|k IH]; intros accepted pending w Hw;
    cbn [yen_loop]; [done|]. cbv zeta.
  pose proof (spur_steps_ledger v options accepted (List.last (map rr_path accepted) empty_raw)
    (seq 0 (length (rp_adjacency (List.last (map rr_path accepted) empty_raw)))) (pending, w, None)
    Hw eq_refl) as Hs.
  cbv zeta in Hs. destruct (for_each _ _ _) as [[[pending' w'] d] [|]]; simpl in Hs.
  - destruct Hs as [Hs Hd]. simpl. by rewrite Hd.
  - destruct (take_best v pending') as [[best rest]|]; [apply IH|]; apply Hs.
Qed.

Lemma enumerate_yen_ledger v options request w :
  L w false →
  let r := enumerate_yen v options request w in L r.2 (exhausted_result r.1).
Proof.
  intros Hw. unfold enumerate_yen. cbv zeta.
  pose proof (ShortestPath_ledger v (op_source_view options) (op_destination_view options)
    (op_max_hops options) no_bans w Hw) as Hs. cbv zeta in Hs.
  destruct (ShortestPath _ _ _ _ _ _) as [first w1]. simpl in Hs.
  destruct (so_resource_limit first); [done|].
  destruct (so_found first); [|done].
  destruct (ComputeRawPathCost _ _) as [cost|]; [|done].
  match goal with |- context [yen_loop ?v ?o ?n ?a ?p w1] =>
    pose proof (yen_loop_ledger v o n a p w1 Hs) as Hy; cbv zeta in Hy;
    destruct (yen_loop v o n a p w1) as [[accepted w2] [d|]] end; [done|].
  simpl in *. assert (Hf : ∀ wanted, exhausted_result (finish_enumeration v options request wanted
    accepted) = false) by (intros; unfold finish_enumeration; split_match; done).
  by rewrite Hf.
Qed.
End ledger.

(** The work budget is kept exactly: whatever an enumeration does, no bound runs
    below zero, every unit taken from a bound appears on its 64-bit counter and on
    no other, and the exhaustion flags are set precisely when the enumeration
    answers with an exhausted work budget. *)
Theorem enumeration_budget_exact v request options w :
  budget_ok w →
  let r := EnumerateCandidatePaths v request options w in
  ledger w r.2 (exhausted_result r.1).
Proof.
  intros Hw%ledger_refl. unfold EnumerateCandidatePaths. cbv zeta.
  destruct (negb _); [by apply enumerate_transit_ledger|by apply enumerate_yen_ledger].
Qed.

Definition demo_options : EnumerationOptions := MkOptions 0 3 3 3 kNoHopBound false.

Lemma enumeration_budget_exact_witness :
  let r := EnumerateCandidatePaths demo_built demo_request demo_options demo_work in
  ledger demo_work r.2 (exhausted_result r.1) ∧ length (en_paths r.1) = 2%nat.
Proof.
  split; [|vm_compute; reflexivity]. apply enumeration_budget_exact.
  constructor; vm_compute; congruence.
Defined.

(** ** Enough budget *)

(** The expansions a search can need: each adjacency once, or once per layer. *)
Definition expansions (v : PlanningView) (hop_budget : Z) : nat :=
  if hop_budget <? Z.of_nat (NodeCount v) - 1
  then (Z.to_nat hop_budget + 1) * length (v_adjacency v) else length (v_adjacency v).

(** C37: a search that is given enough work answers: with a state per possible
    expansion, one push more than that, and, for a hop bound that can bind, a
    state space within the limit, [ShortestPath] never reports a resource limit;
    so it returns the canonical minimum or proves there is none. *)
Theorem search_answers v source dest hop_budget bans w :
  Searchable v →
  (source < NodeCount v)%nat → (dest < NodeCount v)%nat → 0 <= hop_budget <= u32_max →
  Z.of_nat (expansions v hop_budget) <= wb_states_remaining (w_budget w) →
  Z.of_nat (expansions v hop_budget) < wb_pushes_remaining (w_budget w) →
  (hop_budget < Z.of_nat (NodeCount v) - 1 →
   (hop_budget + 1) * Z.of_nat (NodeCount v) <= max_search_states (v_limits v)) →
  let r := ShortestPath v source dest hop_budget bans w in
  so_resource_limit r.1 = false ∧ search_correct v bans hop_budget source dest r.1.
Proof.
  intros Hv Hs Hd Hb Hst Hpu Hmax r.
  assert (Hlimit : so_resource_limit r.1 = false).
  2: { split; [done|]. by apply ShortestPath_spec. }
  unfold r, ShortestPath, expansions in *. destruct (_ =? _)%nat; [done|].
  rewrite !(proj2 (Nat.leb_gt _ _)) by lia. cbn [orb].
  destruct (hop_budget =? 0); [done|].
  assert (Hplain : ∀ hb, hb = kNoHopBound ∨ Z.of_nat (NodeCount v) - 1 <= hb →
    Z.of_nat (length (v_adjacency v)) <= wb_states_remaining (w_budget w) →
    Z.of_nat (length (v_adjacency v)) < wb_pushes_remaining (w_budget w) →
    so_resource_limit (PlainSearch v bans hb source dest w).1 = false).
  { intros hb Hhb ? ?. apply plain_search_answers; try done. split; [done|lia]. }
  destruct (hop_budget =? kNoHopBound) eqn:En; bool_to_prop.
  { subst hop_budget. pose proof (sv_nodes (v := v)). unfold kNoHopBound, u32_max in *.
    rewrite (proj2 (Z.ltb_ge _ _)) in Hst, Hpu by lia. apply Hplain; [by left|done|done]. }
  rewrite (proj2 (Nat.eqb_neq _ 0)) by lia.
  destruct (hop_budget <? Z.of_nat (NodeCount v) - 1) eqn:El; bool_to_prop.
  - rewrite <- (Z2Nat.id hop_budget) by lia.
    apply expanded_search_answers; try done; unfold states; try lia. split; [done|lia].
  - apply Hplain; [by right|done|done].
Qed.

Lemma search_answers_witness :
  so_resource_limit (ShortestPath demo_built 0 3 2 no_bans demo_work).1 = false.
Proof.
  refine (proj1 (search_answers demo_built 0 3 2 no_bans demo_work _ _ _ _ _ _ _)).
  - vm_compute. lia.
  - vm_compute. lia.
  - vm_compute. split; congruence.
  - vm_compute. congruence.
  - vm_compute. reflexivity.
  - intros _. vm_compute. congruence.
Defined.

(** C38: both main loops end: on a view of any size the queue empties, or a bound
    stops the loop, within the stated number of iterations, which depends on the
    adjacency of the view (and the hop bound) only; so the fuel of the model is
    never what ends a search. *)
Theorem search_loops_terminate v bans source hop_budget w :
  Searchable v → (source < NodeCount v)%nat → 0 <= hop_budget →
  (hop_budget = kNoHopBound ∨ Z.of_nat (NodeCount v) - 1 <= hop_budget →
   is_Some (plain_loop v bans hop_budget (plain_fuel v) (plain_init v source w))) ∧
  (hop_budget < Z.of_nat (NodeCount v) - 1 →
   is_Some (expanded_loop v bans hop_budget (expanded_fuel v hop_budget)
     (exp_init v (Z.to_nat hop_budget) source w))).
Proof.
  intros Hv Hs Hb. split; intros Hh.
  - by apply plain_fuel_enough.
  - pose proof (expanded_fuel_enough v bans (Z.to_nat hop_budget) source Hs w) as He.
    by rewrite Z2Nat.id in He by done.
Qed.

Lemma search_loops_terminate_witness :
  is_Some (plain_loop demo_built no_bans kNoHopBound (plain_fuel demo_built)
    (plain_init demo_built 0 demo_work)) ∧
  is_Some (expanded_loop demo_built no_bans 2 (expanded_fuel demo_built 2)
    (exp_init demo_built 2 0 demo_work)).
Proof.
  split.
  - refine (proj1 (search_loops_terminate demo_built no_bans 0 kNoHopBound demo_work _ _ _) _).
    + vm_compute. lia.
    + vm_compute. congruence.
    + by left.
  - refine (proj2 (search_loops_terminate demo_built no_bans 0 2 demo_work _ _ _) _).
    + vm_compute. lia.
    + lia.
    + vm_compute. reflexivity.
Defined.
