(* ===== verification/SpurFacts.v ===== *)
(** One spur search of Yen's algorithm (search.cpp): the routes it ranges over, the
    bans it sets, and what it adds to the pending candidates. *)

From S2P Require Import Prelude Canonical Status Ids Codec Limits Graph Builder Path Request View ViewFacts PathSearch Dijkstra SearchFacts PlainFacts ExpandedFacts RouteFacts.

(** ** Cutting walks *)

(** The last node of a walk. *)
Definition end_of (v : PlanningView) (u : nat) (l : list nat) : nat := List.last (walk_nodes v u l) u.

Lemma walk_end v bans u l w : walk v bans u l w → end_of v u l = w.
Proof. apply walk_last. Qed.

Lemma walk_app_inv v bans u l1 l2 w :
  walk v bans u (l1 ++ l2) w → walk v bans u l1 (end_of v u l1) ∧ walk v bans (end_of v u l1) l2 w.
Proof.
  intros Hw. assert (Hm : ∃ m, walk v bans u l1 m ∧ walk v bans m l2 w).
  { revert u Hw. induction l1 as [|i l1 IH]; intros u Hw; [by exists u; split; [constructor|]|].
    simpl in Hw. inversion Hw; subst. destruct (IH _ ltac:(eassumption)) as (m & ? & ?).
    exists m. split; [by constructor|done]. }
  destruct Hm as (m & H1 & H2). by rewrite (walk_end _ _ _ _ _ H1).
Qed.

Lemma walk_cut v bans u l w i :
  walk v bans u l w →
  walk v bans u (take i l) (end_of v u (take i l)) ∧ walk v bans (end_of v u (take i l)) (drop i l) w.
Proof. intros Hw. apply walk_app_inv. by rewrite take_drop. Qed.

Lemma walk_weaken v bans u l w : walk v bans u l w → walk v no_bans u l w.
Proof. induction 1; by constructor. Qed.

Lemma walk_strengthen v bans u l w :
  walk v no_bans u l w → (∀ i, i ∈ l → allowed v bans i = true) → walk v bans u l w.
Proof.
  induction 1 as [|u i l w Hi _ _ IH]; intros Hall; constructor; [done|apply Hall; by left|].
  apply IH. intros j Hj. apply Hall. by right.
Qed.

Lemma walk_nodes_take v u l i : take (i + 1) (walk_nodes v u l) = walk_nodes v u (take i l).
Proof. unfold walk_nodes. rewrite Nat.add_1_r. simpl. by rewrite <- firstn_map. Qed.

Lemma length_walk_nodes v u l : length (walk_nodes v u l) = S (length l).
Proof. unfold walk_nodes. simpl. by rewrite length_map. Qed.

Lemma nth_walk_nodes v u l i :
  (i <= length l)%nat → nth i (walk_nodes v u l) 0%nat = end_of v u (take i l).
Proof.
  intros Hi. unfold end_of. rewrite <- walk_nodes_take, Nat.add_1_r.
  pose proof (length_walk_nodes v u l) as Hlen. revert Hlen.
  generalize (walk_nodes v u l) as ns. intros ns Hlen.
  assert (Hi' : (i < length ns)%nat) by lia. clear -Hi'. revert i Hi'.
  induction ns as [|x ns IH]; intros i Hi; simpl in Hi; [lia|]. destruct i as [|i]; [done|].
  cbn [nth]. rewrite IH by lia. simpl. destruct ns as [|y ns]; [simpl in Hi; lia|]. done.
Qed.

(** A walk of a simple walk is not continued once it reached its end. *)
Lemma simple_prefix v bans u l1 l2 w :
  walk v bans u (l1 ++ l2) w → NoDup (walk_nodes v u (l1 ++ l2)) → end_of v u l1 = w → l2 = [].
Proof.
  intros Hw Hnd He. apply walk_app_inv in Hw as [H1 H2].
  rewrite walk_nodes_app in Hnd. apply NoDup_app in Hnd as (_ & Hdis & _).
  destruct l2 as [|i l2] using rev_ind; [done|]. exfalso. clear IHl2.
  apply (Hdis w).
  - rewrite <- He. unfold end_of, walk_nodes.
    destruct (exists_last (l := u :: map (λ i, a_to (AdjacencyAt v i)) l1)) as (p & x & Hp); [done|].
    rewrite Hp, last_last. apply elem_of_app. right. by left.
  - apply walk_app_inv in H2 as [_ H2]. inversion H2 as [|? ? ? ? ? ? H3]; subst.
    inversion H3; subst. rewrite map_app. apply elem_of_app. right. by left.
Qed.

(** Ranks of walks that share a prefix compare by the rest. *)
Lemma ltb_app_same `{Ordered A} (p l l' : list A) : ltb (p ++ l) (p ++ l') = ltb l l'.
Proof.
  unfold ltb. induction p as [|x p IH]; [done|]. simpl in *. by rewrite cmp_refl.
Qed.

Lemma ole_pair_key {A B} `{Ordered A, Ordered B} (a c : A) (b d : B) :
  ole (a, b) (c, d) ↔ ltb a c = true ∨ a = c ∧ ole b d.
Proof.
  unfold ole. rewrite ltb_pair_key. destruct (eqb c a) eqn:E.
  - apply eqb_eq in E as ->. rewrite ltb_irrefl. naive_solver.
  - apply eqb_neq in E. split.
    + intros H1. destruct (ltb_trichotomy a c) as [?|[?|?]]; [by left|congruence|congruence].
    + intros [Hlt|[? _]]; [by apply ltb_asym|congruence].
Qed.

Lemma walk_rank_prefix v s p l l' :
  ole (walk_rank v (end_of v s p) l) (walk_rank v (end_of v s p) l') →
  ole (walk_rank v s (p ++ l)) (walk_rank v s (p ++ l')).
Proof.
  unfold walk_rank. rewrite !ole_pair_key, !(walk_cost_app v p), !length_app.
  intros [Hc|[Hc Hr]].
  - left. revert Hc. unfold ltb. simpl.
    destruct (Z.compare_spec (walk_cost v l) (walk_cost v l')); try done. intros _.
    by rewrite (proj2 (Z.compare_lt_iff _ _)) by lia.
  - right. split; [by rewrite Hc|]. destruct Hr as [Hc'|[Hn Hr]].
    + left. revert Hc'. unfold ltb. simpl.
      destruct (Z.compare_spec (Z.of_nat (length l)) (Z.of_nat (length l'))); try done. intros _.
      by rewrite (proj2 (Z.compare_lt_iff _ _)) by lia.
    + right. split; [lia|]. unfold walk_nodes in Hr. cbn [map] in Hr.
      rewrite !walk_nodes_app, !map_app, ltb_app_same. unfold ole in *. rewrite ltb_app_same.
      destruct Hr as [Hr|[[= Hr] Hl]]; [left|right; by rewrite Hr].
      exact (eq_trans (eq_sym (ltb_app_same [_] _ _)) Hr).
Qed.

Section rows.
Context (v : PlanningView) `{Hv : !Searchable v}.

Lemma row_unique u w i :
  (u < NodeCount v)%nat → (w < NodeCount v)%nat → i ∈ row v u → i ∈ row v w → u = w.
Proof.
  intros Hu Hw Hi Hi'. apply (node_id_inj v); [done|done|].
  destruct (vw_edge v sv_wf u i Hu Hi) as (_ & H1 & _).
  destruct (vw_edge v sv_wf w i Hw Hi') as (_ & H2 & _). unfold node_id. congruence.
Qed.

(** Every adjacency of a walk leaves one of its nodes. *)
Lemma walk_row bans u l w i :
  walk v bans u l w → i ∈ l → ∃ y, y ∈ walk_nodes v u l ∧ i ∈ row v y.
Proof.
  induction 1 as [|u j l w Hj _ _ IH]; intros Hi; [by apply elem_of_nil in Hi|].
  apply elem_of_cons in Hi as [->|Hi].
  - exists u. split; [by left|done].
  - destruct (IH Hi) as (y & Hy & Hr). exists y. split; [|done]. unfold walk_nodes in *.
    simpl. by right.
Qed.

(** Walks with the same rank are the same. *)
Lemma walk_rank_inj bans u l l' w w' :
  (u < NodeCount v)%nat → walk v bans u l w → walk v bans u l' w' →
  walk_rank v u l = walk_rank v u l' → l = l'.
Proof.
  intros Hu Hw Hw' Heq. unfold walk_rank in Heq. injection Heq as _ _ Hn Hl.
  revert l' Hw' Hn Hl. induction Hw as [u|u i l w Hi _ _ IH]; intros l' Hw' Hn Hl.
  { by destruct l'. }
  destruct Hw' as [u|u j l' w' Hj _ Hw']; [done|]. cbn [map] in Hn, Hl.
  injection Hn as Hni Hn. injection Hl as Hli Hl.
  assert (Hij : i = j).
  { apply (strictly_sorted_inj _ (row v u) _ _ (row_key_sorted v u Hu)); [done|done|]. by f_equal. }
  subst j. f_equal. apply IH; [by eapply row_to|done|done|done].
Qed.
End rows.

(** ** Routes *)

Lemma RawPathIsSimple_spec raw : RawPathIsSimple raw = true ↔ NoDup (rp_nodes raw).
Proof. unfold RawPathIsSimple. rewrite negb_true_iff. apply has_adjacent_sort_ids. Qed.

Lemma allowed_spec v bans i :
  bans_ok bans →
  allowed v bans i = true ↔ i ∉ bn_adjacency bans ∧ a_to (AdjacencyAt v i) ∉ bn_nodes bans.
Proof.
  intros Hb. unfold allowed. rewrite andb_true_iff, !negb_true_iff, <- !not_true_iff_false.
  by rewrite AdjacencyBanned_spec, NodeBanned_spec.
Qed.

(** What an enumeration ranges over: the simple walks from the source to the
    destination within the hop bound, of a cost below the sentinel. *)
Record route (v : PlanningView) (options : EnumerationOptions) (l : list nat) : Prop := {
  rt_walk : walk v no_bans (op_source_view options) l (op_destination_view options);
  rt_within : within (op_max_hops options) l;
  rt_simple : NoDup (walk_nodes v (op_source_view options) l);
  rt_cost : walk_cost v l < u64_max
}.

(** The options a planner passes, the bounds that keep a route's hop count within
    what [AccumulatePathCost] accepts, and no walk of cost exactly the sentinel. *)
Record options_ok (v : PlanningView) (options : EnumerationOptions) : Prop := {
  oo_source : (op_source_view options < NodeCount v)%nat;
  oo_destination : (op_destination_view options < NodeCount v)%nat;
  oo_max_hops : 0 <= op_max_hops options <= u32_max;
  oo_hops : op_max_hops options <= kMaxHopCount ∨ Z.of_nat (NodeCount v) <= kMaxHopCount + 1;
  oo_cost : ∀ l,
    walk v no_bans (op_source_view options) l (op_destination_view options) →
    NoDup (walk_nodes v (op_source_view options) l) → walk_cost v l ≠ u64_max
}.

Section spur.
Context (v : PlanningView) `{Hv : !Searchable v} (options : EnumerationOptions).
Context (Hoptions : options_ok v options).
Local Notation s := (op_source_view options).
Local Notation d := (op_destination_view options).
Local Notation rank l := (walk_rank v s l).
Local Notation rw := (ranked_walk v s).

Lemma route_indices l : route v options l → Forall (λ i, (i < length (v_adjacency v))%nat) l.
Proof. intros Hr. exact (walk_indices v _ _ _ _ (rt_walk _ _ _ Hr) (oo_source _ _ Hoptions)). Qed.

Lemma route_length l : route v options l → Z.of_nat (length l) <= kMaxHopCount.
Proof.
  intros [Hw Hb Hs Hc]. pose proof (simple_walk_length v _ _ _ _ Hw (oo_source _ _ Hoptions) Hs).
  destruct (oo_hops _ _ Hoptions) as [Hm|Hm]; [|lia]. destruct Hb as [Hb|Hb]; [|lia].
  rewrite Hb in Hm. done.
Qed.

Lemma route_cost_Some l :
  route v options l → ComputeRawPathCost v (walk_raw v s l) = Some (route_cost v l).
Proof.
  intros Hr. rewrite (ComputeRawPathCost_spec v (walk_raw v s l)) by by apply route_indices.
  cbn [rp_adjacency walk_raw]. rewrite !(proj2 (Z.leb_le _ _)); [done| |by apply route_length].
  pose proof (rt_cost _ _ _ Hr). lia.
Qed.

Lemma route_hops l : route v options l → within (op_max_hops options) l.
Proof. apply rt_within. Qed.

(** The end of a proper prefix is not the destination. *)
Lemma route_prefix l i :
  route v options l → (i < length l)%nat → end_of v s (take i l) ≠ d.
Proof.
  intros [Hw _ Hs _] Hi He. rewrite <- (take_drop i l) in Hw, Hs.
  apply (simple_prefix _ _ _ _ _ _ Hw Hs) in He.
  apply (f_equal length) in He. rewrite length_drop in He. simpl in He. lia.
Qed.

Lemma route_not_prefix l l' i :
  route v options l → route v options l' → (i < length l)%nat → take i l' = take i l →
  (i < length l')%nat.
Proof.
  intros Hl Hl' Hi Heq. destruct (decide (i < length l')%nat) as [|Hge]; [done|].
  destruct (route_prefix l i Hl Hi). rewrite <- Heq, take_ge by lia.
  apply (walk_end _ no_bans), Hl'.
Qed.

(** ** The bans of a spur *)

(** The edges the accepted routes with the same root nodes leave the spur node by. *)
Definition taken_edge (accepted : list (list nat)) (p : list nat) (i e : nat) : Prop :=
  ∃ a, a ∈ accepted ∧ (i < length a)%nat ∧
    walk_nodes v s (take i a) = walk_nodes v s (take i p) ∧ nth i a 0%nat = e.

Lemma spur_bans_ok accepted previous i : bans_ok (spur_bans accepted previous i).
Proof.
  unfold spur_bans. apply bans_ok_fold.
  - intros b x Hb. by destruct (_ && _).
  - apply bans_ok_fold; auto.
Qed.

Lemma fold_BanNode l b :
  bn_nodes (fold_left (λ bans node, BanNode node bans) l b) = bn_nodes b ++ l ∧
  bn_adjacency (fold_left (λ bans node, BanNode node bans) l b) = bn_adjacency b.
Proof.
  revert b. induction l as [|x l IH]; intros b; simpl; [by rewrite app_nil_r|].
  destruct (IH (BanNode x b)) as [-> ->]. simpl. by rewrite <- app_assoc.
Qed.

Lemma spur_bans_nodes accepted p i :
  bn_nodes (spur_bans accepted (walk_raw v s p) i) = take i (walk_nodes v s p).
Proof.
  unfold spur_bans. rewrite fold_left_invariant_eq with (f := bn_nodes).
  - by rewrite (proj1 (fold_BanNode _ _)).
  - intros b x. by destruct (_ && _).
Qed.

Lemma spur_bans_adjacency accepted p i e :
  e ∈ bn_adjacency (spur_bans (map rw accepted) (walk_raw v s p) i) ↔ taken_edge accepted p i e.
Proof.
  unfold spur_bans, taken_edge. cbn [rp_nodes walk_raw].
  generalize (fold_left (λ bans node, BanNode node bans) (take i (walk_nodes v s p)) no_bans)
    (proj2 (fold_BanNode (take i (walk_nodes v s p)) no_bans)).
  intros b Hb. cbn [bn_adjacency no_bans] in Hb.
  assert (Hgen : ∀ b, e ∈ bn_adjacency (fold_left (λ bans candidate,
      if (i + 1 <? length (rp_nodes (rr_path candidate)))%nat &&
         eqb (take (i + 1) (walk_nodes v s p)) (take (i + 1) (rp_nodes (rr_path candidate)))
      then BanAdjacency (nth i (rp_adjacency (rr_path candidate)) 0%nat) bans else bans)
      (map rw accepted) b) ↔
    e ∈ bn_adjacency b ∨ ∃ a, a ∈ accepted ∧ (i < length a)%nat ∧
      walk_nodes v s (take i a) = walk_nodes v s (take i p) ∧ nth i a 0%nat = e).
  2: { cbv zeta. rewrite Hgen, Hb, elem_of_nil. split; [intros [[]|H]; exact H|by right]. }
  clear b Hb. induction accepted as [|a accepted IH]; intros b; cbn [map fold_left].
  { split; [by left|]. intros [H|(a & H & _)]; [done|]. by apply elem_of_nil in H. }
  rewrite IH. cbn [rr_path ranked_walk walk_raw rp_nodes rp_adjacency].
  rewrite length_walk_nodes, !walk_nodes_take. setoid_rewrite elem_of_cons.
  destruct (i + 1 <? S (length a))%nat eqn:E1; destruct (eqb _ _) eqn:E2; simpl; bool_to_prop.
  - apply eqb_eq in E2. cbn [bn_adjacency BanAdjacency].
    rewrite elem_of_app, list_elem_of_singleton. split.
    + intros [[H|H]|(a' & H & ?)]; [by left| |right; exists a'; auto].
      right. exists a. split_and!; [by left|lia|done|done].
    + intros [H|(a' & [->|H] & H1 & H2 & H3)]; [by left; left|left; right; done|].
      right. by exists a'.
  - apply eqb_neq in E2. split; (intros [H|(a' & H & H1 & H2 & H3)]; [by left|right; exists a']);
      [auto|]. destruct H as [->|H]; [by destruct E2|auto].
  - split; (intros [H|(a' & H & H1 & H2 & H3)]; [by left|right; exists a']);
      [auto|]. destruct H as [->|H]; [lia|auto].
  - split; (intros [H|(a' & H & H1 & H2 & H3)]; [by left|right; exists a']);
      [auto|]. destruct H as [->|H]; [lia|auto].
Qed.

(** ** What a spur search finds *)

(** The routes of one subproblem: those that follow [p] up to its [i]-th node and
    leave it by an edge no accepted route with these nodes took. *)
Definition deviates (accepted : list (list nat)) (p : list nat) (i : nat) (c : list nat) : Prop :=
  take i c = take i p ∧ ¬ taken_edge accepted p i (nth i c 0%nat).

Lemma drop_nth (l : list nat) i : (i < length l)%nat → drop i l = nth i l 0%nat :: drop (S i) l.
Proof.
  revert i. induction l as [|x l IH]; intros i Hi; simpl in Hi; [lia|].
  destruct i as [|i]; [done|]. simpl. apply IH. lia.
Qed.

Lemma spur_node p i :
  (i <= length p)%nat → nth i (walk_nodes v s p) 0%nat = end_of v s (take i p).
Proof. apply nth_walk_nodes. Qed.

Lemma end_of_elem l : end_of v s l ∈ walk_nodes v s l.
Proof.
  unfold end_of. destruct (exists_last (l := walk_nodes v s l)) as (q & x & Hq); [done|].
  rewrite Hq, last_last. apply elem_of_app. right. by left.
Qed.

(** The rest of a route of the subproblem is a walk the bans allow. *)
Lemma walk_step u l w i :
  walk v no_bans u l w → (i < length l)%nat →
  nth i l 0%nat ∈ row v (end_of v u (take i l)) ∧
  walk v no_bans (a_to (AdjacencyAt v (nth i l 0%nat))) (drop (S i) l) w.
Proof.
  intros Hw Hi. destruct (walk_cut _ _ _ _ _ i Hw) as [_ Hw2]. rewrite (drop_nth l i Hi) in Hw2.
  inversion Hw2; subst. done.
Qed.

Lemma end_bound l i : route v options l → (end_of v s (take i l) < NodeCount v)%nat.
Proof.
  intros Hr. destruct (walk_cut _ _ _ _ _ i (rt_walk _ _ _ Hr)) as [Hw _].
  eapply (walk_bound v); [exact Hw|apply Hoptions].
Qed.

Lemma deviation_allowed accepted p i c :
  Forall (route v options) accepted → (i < length p)%nat → route v options p → route v options c → deviates accepted p i c →
  walk v (spur_bans (map rw accepted) (walk_raw v s p) i) (end_of v s (take i p)) (drop i c) d.
Proof.
  intros Hall Hi Hp Hc [Heq Htaken].
  pose proof (route_not_prefix p c i Hp Hc Hi Heq) as Hic.
  destruct (walk_cut _ _ _ _ _ i (rt_walk _ _ _ Hc)) as [_ Hw2]. rewrite Heq in Hw2.
  pose proof (rt_simple _ _ _ Hc) as Hnd.
  rewrite <- (take_drop i c), walk_nodes_app, Heq in Hnd. apply NoDup_app in Hnd as (_ & Hdis & _).
  apply walk_strengthen; [done|]. intros e He.
  apply (allowed_spec _ _ _ (spur_bans_ok _ _ _)). split.
  - rewrite spur_bans_adjacency. intros Hte. apply Htaken.
    destruct (decide (e = nth i c 0%nat)) as [<-|Hne]; [done|]. exfalso.
    (* a taken edge leaves the spur node, which no later edge of [c] does *)
    destruct Hte as (a & Ha & Hia & Hnodes & Hea).
    rewrite Forall_forall in Hall. specialize (Hall a Ha).
    destruct (walk_step _ _ _ i (rt_walk _ _ _ Hall) Hia) as [Hrow _]. rewrite Hea in Hrow.
    unfold end_of in Hrow. rewrite Hnodes in Hrow. fold (end_of v s (take i p)) in Hrow.
    rewrite (drop_nth c i Hic) in He, Hdis. apply elem_of_cons in He as [He|He]; [done|].
    destruct (walk_step _ _ _ i (rt_walk _ _ _ Hc) Hic) as [Hrow0 Hw3].
    destruct (walk_row v _ _ _ _ _ Hw3 He) as (y & Hy & Hrow').
    pose proof (end_bound c i Hc) as Hb.
    assert (Hyb : (y < NodeCount v)%nat).
    { pose proof (walk_nodes_bound v _ _ _ _ Hw3 (row_to v _ _ Hb Hrow0)) as Hns.
      rewrite Forall_forall in Hns. by apply Hns. }
    rewrite (row_unique v y (end_of v s (take i p)) e) in Hy; [|done|by apply end_bound|done|done].
    exact (Hdis _ (end_of_elem _) Hy).
  - rewrite spur_bans_nodes. intros Hin. apply (Hdis (a_to (AdjacencyAt v e))).
    + rewrite <- walk_nodes_take. rewrite Nat.add_1_r, <- (take_drop i (take (S i) _)).
      rewrite take_take. apply elem_of_app. left. by rewrite Nat.min_l by lia.
    + apply list_elem_of_fmap. by exists e.
Qed.

(** A walk the bans allow extends the root to a simple walk of the subproblem. *)
Lemma extension_simple accepted p i l :
  (i < length p)%nat → route v options p →
  walk v (spur_bans (map rw accepted) (walk_raw v s p) i) (end_of v s (take i p)) l d →
  NoDup (walk_nodes v (end_of v s (take i p)) l) →
  let t := take i p ++ l in
  walk v no_bans s t d ∧ NoDup (walk_nodes v s t) ∧ take i t = take i p ∧ (i < length t)%nat ∧
  ¬ taken_edge accepted p i (nth i t 0%nat).
Proof.
  intros Hi Hp Hw Hnd t. pose proof (rt_simple _ _ _ Hp) as Hpn.
  rewrite <- (take_drop (i + 1) (walk_nodes v s p)) in Hpn. apply NoDup_app in Hpn as [Hpn _].
  destruct (walk_cut _ _ _ _ _ i (rt_walk _ _ _ Hp)) as [Hw1 _].
  assert (Hlen : length (take i p) = i) by (rewrite length_take; lia).
  assert (Hall : ∀ e, e ∈ l → ¬ taken_edge accepted p i e ∧
    a_to (AdjacencyAt v e) ∉ take i (walk_nodes v s p)).
  { clear Hnd. revert Hw. generalize (end_of v s (take i p)). intros x Hw.
    induction Hw as [|x j l w Hj Ha Hw IH]; intros e He; [by apply elem_of_nil in He|].
    apply elem_of_cons in He as [->|He]; [|by apply IH].
    apply (allowed_spec _ _ _ (spur_bans_ok _ _ _)) in Ha.
    by rewrite spur_bans_adjacency, spur_bans_nodes in Ha. }
  assert (Hne : l ≠ []).
  { intros ->. inversion Hw as [? Heq|]; subst. by apply (route_prefix p i Hp Hi). }
  unfold t. split_and!.
  - eapply walk_app; [exact Hw1|]. by eapply walk_weaken.
  - rewrite walk_nodes_app. unfold walk_nodes in Hnd at 1. apply NoDup_cons in Hnd as [Hx Hnd].
    rewrite <- (walk_nodes_take v s p i). apply NoDup_app. split_and!; [done| |done].
    intros y Hy Hyl. rewrite Nat.add_1_r in Hy.
    assert (Hcase : y ∈ take i (walk_nodes v s p) ∨ y = end_of v s (take i p)).
    { rewrite <- (nth_walk_nodes v s p i) by lia.
      assert (Hn : (i < length (walk_nodes v s p))%nat) by (rewrite length_walk_nodes; lia).
      rewrite (take_S_r _ i (nth i (walk_nodes v s p) 0%nat)) in Hy.
      - apply elem_of_app in Hy as [?|Hy%list_elem_of_singleton]; auto.
      - destruct (nth_lookup_or_length (walk_nodes v s p) i 0%nat); [done|lia]. }
    destruct Hcase as [Hin|Heq]; [|by subst y].
    apply list_elem_of_fmap in Hyl as (e & -> & He). by apply Hall in He as [_ ?].
  - rewrite <- Hlen at 1. apply take_app_length.
  - rewrite length_app, Hlen. destruct l; [done|]. simpl. lia.
  - rewrite app_nth2 by lia. rewrite Hlen, Nat.sub_diag. destruct l as [|e l]; [done|].
    apply Hall. by left.
Qed.
(** ** The search of one spur *)

Lemma leg_budget_within i l :
  within (op_max_hops options) l → (i <= length l)%nat →
  0 <= leg_budget (op_max_hops options) (Z.of_nat i) <= u32_max ∧
  ∀ q, within (leg_budget (op_max_hops options) (Z.of_nat i)) q ↔
    op_max_hops options = kNoHopBound ∨ Z.of_nat (i + length q) <= op_max_hops options.
Proof.
  intros Hw Hi. pose proof (oo_max_hops _ _ Hoptions) as Hm. unfold leg_budget, within in *.
  destruct (op_max_hops options =? kNoHopBound) eqn:E; bool_to_prop.
  - rewrite E in *. split; [done|]. intros q. split; by left.
  - destruct Hw as [Hw|Hw]; [done|].
    rewrite wrap32_small by (unfold u32_max in *; lia). split; [lia|]. intros q.
    unfold kNoHopBound, u32_max in *. split.
    + intros [?|?]; right; lia.
    + intros [?|?]; [done|right; lia].
Qed.

(** [t] is least among the routes of the subproblem; it may itself be too dear. *)
Record least_deviation (accepted : list (list nat)) (p : list nat) (i : nat) (t : list nat) : Prop := {
  ld_walk : walk v no_bans s t d;
  ld_within : within (op_max_hops options) t;
  ld_simple : NoDup (walk_nodes v s t);
  ld_deviates : deviates accepted p i t;
  ld_long : (i < length t)%nat;
  ld_least : ∀ c, route v options c → deviates accepted p i c → ole (rank t) (rank c)
}.

Lemma spur_search accepted p i w :
  Forall (route v options) accepted → route v options p → (i < length p)%nat →
  let o := ShortestPath v (nth i (walk_nodes v s p) 0%nat) d
             (leg_budget (op_max_hops options) (Z.of_nat i))
             (spur_bans (map rw accepted) (walk_raw v s p) i) w in
  so_resource_limit o.1 = false →
  if so_found o.1
  then ∃ t, spur_total (walk_raw v s p) i (so_path o.1) = walk_raw v s t ∧
         least_deviation accepted p i t
  else ∀ c, route v options c → ¬ deviates accepted p i c.
Proof.
  intros Hall Hp Hi o Hlimit.
  destruct (leg_budget_within i p (rt_within _ _ _ Hp) ltac:(lia)) as [Hb Hwithin].
  assert (Hx : nth i (walk_nodes v s p) 0%nat = end_of v s (take i p)) by (apply spur_node; lia).
  pose proof (end_bound p i Hp) as Hxb.
  assert (Hlen : length (take i p) = i) by (rewrite length_take; lia).
  assert (Hsearch : search_correct v (spur_bans (map rw accepted) (walk_raw v s p) i)
    (leg_budget (op_max_hops options) (Z.of_nat i)) (end_of v s (take i p)) d o.1).
  { unfold o in *. rewrite Hx in *. apply ShortestPath_spec; try done. apply Hoptions. }
  assert (Hrest : ∀ c, route v options c → deviates accepted p i c →
    walk v (spur_bans (map rw accepted) (walk_raw v s p) i) (end_of v s (take i p)) (drop i c) d ∧
    within (leg_budget (op_max_hops options) (Z.of_nat i)) (drop i c) ∧
    walk_cost v c = walk_cost v (take i p) + walk_cost v (drop i c)).
  { intros c Hc Hdev. pose proof (route_not_prefix p c i Hp Hc Hi (proj1 Hdev)) as Hic.
    split_and!; [by apply deviation_allowed| |].
    - apply Hwithin. rewrite length_drop. destruct (rt_within _ _ _ Hc); [by left|right; lia].
    - rewrite <- (proj1 Hdev), <- walk_cost_app, take_drop. done. }
  pose proof (walk_cost_nonneg v (increment_nonneg v) (take i p)) as Hroot.
  unfold search_correct in Hsearch. destruct (so_found o.1).
  - destruct Hsearch as (l & Hpath & [Hw Hwi Hnd Hc Hleast]).
    destruct (extension_simple accepted p i l Hi Hp Hw Hnd) as (H1 & H2 & H3 & H4 & H5).
    exists (take i p ++ l). split.
    + unfold spur_total, join. rewrite Hpath. cbn [walk_raw rp_nodes rp_adjacency].
      rewrite walk_nodes_take. unfold walk_raw. by rewrite walk_nodes_app.
    + constructor; try done.
      * apply Hwithin in Hwi. rewrite <- Hlen in Hwi at 1. by rewrite <- length_app in Hwi.
      * intros c Hrc Hdev. destruct (Hrest c Hrc Hdev) as (Hcw & Hcb & _).
        rewrite <- (take_drop i c), (proj1 Hdev). apply walk_rank_prefix. by apply Hleast.
  - intros c Hrc Hdev. destruct (Hrest c Hrc Hdev) as (Hcw & Hcb & Hcost).
    specialize (Hsearch _ Hcw Hcb). pose proof (rt_cost _ _ _ Hrc). lia.
Qed.

Lemma ole_rank_cost l l' : ole (rank l) (rank l') → walk_cost v l <= walk_cost v l'.
Proof.
  unfold walk_rank. rewrite ole_pair_key. intros [Hlt|[-> _]]; [|lia].
  unfold ltb in Hlt. simpl in Hlt. destruct (Z.compare_spec (walk_cost v l) (walk_cost v l')); lia || done.
Qed.

(** The cost test of the code keeps exactly the routes. *)
Lemma least_deviation_cost accepted p i t :
  least_deviation accepted p i t →
  match ComputeRawPathCost v (walk_raw v s t) with
  | Some cost => cost = route_cost v t ∧ route v options t
  | None => ∀ c, route v options c → ¬ deviates accepted p i c
  end.
Proof.
  intros [Hw Hwi Hnd Hdev Hlong Hleast].
  pose proof (walk_indices v _ _ _ _ Hw (oo_source _ _ Hoptions)) as Hidx.
  rewrite (ComputeRawPathCost_spec v (walk_raw v s t)) by done. cbn [rp_adjacency walk_raw].
  assert (Hlen : Z.of_nat (length t) <= kMaxHopCount).
  { pose proof (simple_walk_length v _ _ _ _ Hw (oo_source _ _ Hoptions) Hnd).
    destruct (oo_hops _ _ Hoptions) as [Hm|Hm]; [|lia]. destruct Hwi as [Hb|Hb]; [|lia].
    rewrite Hb in Hm. done. }
  rewrite (proj2 (Z.leb_le _ _) Hlen). simpl. pose proof (oo_cost _ _ Hoptions t Hw Hnd) as Hne.
  destruct (walk_cost v t <=? u64_max) eqn:E; bool_to_prop.
  - split; [done|]. constructor; try done. lia.
  - intros c Hc Hdc. pose proof (ole_rank_cost _ _ (Hleast c Hc Hdc)).
    pose proof (rt_cost _ _ _ Hc). lia.
Qed.

Lemma ContainsRawPath_spec l t : ContainsRawPath (map rw l) (walk_raw v s t) = true ↔ t ∈ l.
Proof.
  unfold ContainsRawPath. rewrite existsb_exists. setoid_rewrite in_map_iff. split.
  - intros (x & (a & <- & Ha) & Heq). unfold SameRawPath in Heq. cbn in Heq.
    apply andb_true_iff in Heq as [_ Heq]. apply eqb_eq in Heq as <-. by apply list_elem_of_In.
  - intros Ht. exists (rw t). split; [exists t; by rewrite <- list_elem_of_In|].
    unfold SameRawPath. cbn [rr_path ranked_walk]. by rewrite !eqb_refl.
Qed.

(** What a spur adds to the pending candidates. *)
Record spur_adds (accepted pending : list (list nat)) (p : list nat) (i : nat)
    (pending' : list (list nat)) : Prop := {
  sa_pending : pending' = pending ∨ ∃ t, pending' = pending ++ [t] ∧ t ∉ accepted ∧ t ∉ pending ∧
    route v options t ∧ least_deviation accepted p i t;
  sa_covers : ∀ c, route v options c → deviates accepted p i c →
    ∃ r, r ∈ pending' ∧ take i r = take i p ∧ ole (rank r) (rank c)
}.

Lemma spur_step_spec accepted pending p i w detail :
  Forall (route v options) accepted → route v options p → (i < length p)%nat →
  let r := spur_step v options (map rw accepted) (walk_raw v s p) i (map rw pending, w, detail) in
  r.2 = false →
  ∃ pending', r.1.1.1 = map rw pending' ∧ spur_adds accepted pending p i pending'.
Proof.
  intros Hall Hp Hi. unfold spur_step. cbv zeta. destruct (SpendSpur w) as [w1 ok].
  destruct ok; cbn [negb]; [|done]. cbn [rp_nodes walk_raw].
  pose proof (spur_search accepted p i w1 Hall Hp Hi) as Hs. cbv zeta in Hs.
  cbn [rp_nodes walk_raw] in Hs.
  destruct (ShortestPath _ _ _ _ _ _) as [o w2]. cbn [fst] in Hs.
  destruct (so_resource_limit o); [done|]. specialize (Hs eq_refl).
  destruct (so_found o); cbn [negb].
  2: { intros _. exists pending. split; [done|]. constructor; [by left|].
       intros c Hc Hdev. by destruct (Hs c Hc). }
  destruct Hs as (t & Htotal & Hleast). rewrite Htotal.
  rewrite (proj2 (RawPathIsSimple_spec (walk_raw v s t)) (ld_simple _ _ _ _ Hleast)). cbn [negb].
  destruct (ContainsRawPath (map rw accepted) _) eqn:Ea; cbn [orb].
  { apply ContainsRawPath_spec in Ea. destruct (ld_deviates _ _ _ _ Hleast) as [Heq Htaken].
    destruct Htaken. exists t. split_and!; [done|apply Hleast|by rewrite Heq|done]. }
  destruct (ContainsRawPath (map rw pending) _) eqn:Ep.
  { apply ContainsRawPath_spec in Ep. intros _. exists pending. split; [done|].
    constructor; [by left|]. intros c Hc Hdev. exists t.
    split_and!; [done|apply (ld_deviates _ _ _ _ Hleast)|by apply (ld_least _ _ _ _ Hleast)]. }
  rewrite <- not_true_iff_false, ContainsRawPath_spec in Ea, Ep.
  pose proof (least_deviation_cost _ _ _ _ Hleast) as Hcost.
  destruct (ComputeRawPathCost v (walk_raw v s t)) as [cost|]; intros _.
  - destruct Hcost as [-> Hr]. exists (pending ++ [t]). split; [by rewrite map_app|].
    constructor; [right; by exists t|]. intros c Hc Hdev. exists t.
    split_and!; [apply elem_of_app; right; by left|apply (ld_deviates _ _ _ _ Hleast)|].
    by apply (ld_least _ _ _ _ Hleast).
  - exists pending. split; [done|]. constructor; [by left|]. intros c Hc Hdev.
    by destruct (Hcost c Hc).
Qed.
End spur.
