(* ===== verification/YenFacts.v ===== *)
(** Yen's enumeration over the view (search.cpp): the accepted candidates are
    distinct simple routes in canonical order, and, where no two links join the
    same pair of nodes, exactly the first ones in that order. *)

From S2P Require Import Prelude Canonical Status Ids Codec Limits Graph Builder Path Request View ViewFacts PathSearch Dijkstra SearchFacts PlainFacts ExpandedFacts RouteFacts BudgetFacts SpurFacts.
Import DiagnosticCode.

Lemma take_succ_inv (l l' : list nat) i :
  take (S i) l = take (S i) l' → (i < length l)%nat → take i l = take i l' ∧ nth i l 0%nat = nth i l' 0%nat.
Proof.
  intros Heq Hi. split.
  - apply (f_equal (take i)) in Heq. by rewrite !take_take, !Nat.min_l in Heq by lia.
  - apply (f_equal (λ x, nth i x 0%nat)) in Heq. cbv beta in Heq.
    assert (H : ∀ l : list nat, nth i (take (S i) l) 0%nat = nth i l 0%nat).
    { intros k. rewrite !nth_lookup. by rewrite lookup_take_lt by lia. }
    by rewrite !H in Heq.
Qed.

Lemma take_take_eq (l l' : list nat) i j : take j l = take j l' → (i <= j)%nat → take i l = take i l'.
Proof. intros Heq Hi. apply (f_equal (take i)) in Heq. by rewrite !take_take, !Nat.min_l in Heq by lia. Qed.

Lemma take_succ_eq (l l' : list nat) i :
  (i < length l)%nat → (i < length l')%nat → take i l = take i l' →
  nth i l 0%nat = nth i l' 0%nat → take (S i) l = take (S i) l'.
Proof.
  intros Hl Hl' Heq Hn.
  assert (H : ∀ k : list nat, (i < length k)%nat → take (S i) k = take i k ++ [nth i k 0%nat]).
  { intros k Hk. apply take_S_r. destruct (nth_lookup_or_length k i 0%nat); [done|lia]. }
  by rewrite !H, Heq, Hn.
Qed.

(** No two adjacencies join the same ordered pair of nodes. *)
Definition no_parallel (v : PlanningView) : Prop :=
  ∀ u i j, (u < NodeCount v)%nat → i ∈ row v u → j ∈ row v u →
    a_to (AdjacencyAt v i) = a_to (AdjacencyAt v j) → i = j.

Section yen.
Context (v : PlanningView) `{Hv : !Searchable v} (options : EnumerationOptions).
Context (Hoptions : options_ok v options).
Local Notation s := (op_source_view options).
Local Notation d := (op_destination_view options).
Local Notation rank l := (walk_rank v s l).
Local Notation rw := (ranked_walk v s).
Local Notation rle l l' := (ole (walk_rank v s l) (walk_rank v s l')).

(** ** The best pending candidate *)

Lemma best_index_spec pre b best rest :
  Forall (route v options) (pre ++ rest) → pre !! best = Some b → (∀ x, x ∈ pre → rle b x) →
  ∃ m, (pre ++ rest) !! best_index v best (rw b) (length pre) (map rw rest) = Some m ∧
    ∀ x, x ∈ pre ++ rest → rle m x.
Proof.
  revert pre b best. induction rest as [|y rest IH]; intros pre b best Hall Hb Hle; cbn [map best_index].
  { rewrite app_nil_r. by exists b. }
  assert (Hroute : ∀ x, x ∈ pre ++ y :: rest → route v options x) by by apply Forall_forall.
  assert (Hbr : route v options b) by (apply Hroute, elem_of_app; left; by eapply list_elem_of_lookup_2).
  assert (Hyr : route v options y) by (apply Hroute, elem_of_app; right; by left).
  rewrite (RankedBefore_ltb v s y b) by (by eapply route_indices).
  replace (pre ++ y :: rest) with ((pre ++ [y]) ++ rest) in * by by rewrite <- app_assoc.
  assert (Hlen : S (length pre) = length (pre ++ [y])) by (rewrite length_app; simpl; lia).
  rewrite Hlen. destruct (ltb (rank y) (rank b)) eqn:E.
  - apply IH; [done| |].
    + rewrite lookup_app_r by lia. by rewrite Nat.sub_diag.
    + intros x [Hx|Hx%list_elem_of_singleton]%elem_of_app.
      * transitivity (rank b); [apply ole_lt_or_eq; by left|by apply Hle].
      * subst x. apply ole_lt_or_eq. by right.
  - apply IH; [done| |].
    + rewrite lookup_app_l; [done|]. by eapply lookup_lt_Some.
    + intros x [Hx|Hx%list_elem_of_singleton]%elem_of_app; [by apply Hle|].
      subst x. exact E.
Qed.

Lemma take_best_spec pending :
  Forall (route v options) pending →
  match take_best v (map rw pending) with
  | None => pending = []
  | Some (best, rest) =>
      ∃ t p1 p2, best = rw t ∧ rest = map rw (p1 ++ p2) ∧ pending = p1 ++ t :: p2 ∧
        ∀ x, x ∈ pending → rle t x
  end.
Proof.
  intros Hall. destruct pending as [|b pending]; [done|]. cbn [map take_best].
  destruct (best_index_spec [b] b 0 pending) as (m & Hm & Hle); [done|done| |].
  { intros x Hx%list_elem_of_singleton. subst x. apply ole_lt_or_eq. by right. }
  cbn [app length] in Hm, Hle. set (k := best_index _ _ _ _ _) in *.
  pose proof (take_drop_middle _ _ _ Hm) as Hsplit.
  exists m, (take k (b :: pending)), (drop (S k) (b :: pending)). split_and!.
  - change (rw b :: map rw pending) with (map rw (b :: pending)).
    rewrite map_nth. f_equal. by apply nth_lookup_Some.
  - change (rw b :: map rw pending) with (map rw (b :: pending)).
    by rewrite map_app, firstn_map, skipn_map.
  - done.
  - done.
Qed.

(** ** The spurs of one accepted candidate *)

Record spurred (accepted : list (list nat)) (p : list nat) (l : list nat)
    (pending pending' : list (list nat)) : Prop := {
  sp_keep : ∀ t, t ∈ pending → t ∈ pending';
  sp_new : ∀ t, t ∈ pending' → t ∈ pending ∨
    (t ∉ accepted ∧ ∃ i, i ∈ l ∧ route v options t ∧ least_deviation v options accepted p i t);
  sp_nodup : NoDup pending → NoDup pending';
  sp_covers : ∀ i c, i ∈ l → route v options c → deviates v options accepted p i c →
    ∃ r, r ∈ pending' ∧ take i r = take i p ∧ rle r c
}.

Lemma spur_steps_spec accepted p l pending w detail :
  Forall (route v options) accepted → route v options p → (∀ i, i ∈ l → (i < length p)%nat) →
  let r := for_each (spur_step v options (map rw accepted) (walk_raw v s p)) l
             (map rw pending, w, detail) in
  r.2 = false → ∃ pending', r.1.1.1 = map rw pending' ∧ spurred accepted p l pending pending'.
Proof.
  intros Hall Hp. revert pending w detail.
  induction l as [|i l IH]; intros pending w detail Hl; cbn [for_each].
  { intros _. exists pending. split; [done|]. constructor; auto.
    intros i c Hi. by apply elem_of_nil in Hi. }
  pose proof (spur_step_spec v options Hoptions accepted pending p i w detail Hall Hp) as Hstep.
  specialize (Hstep (Hl i ltac:(by left))). cbv zeta in *.
  destruct (spur_step _ _ _ _ _ _) as [[[pd1 w1] d1] stop]. cbn [fst snd] in *.
  destruct stop; [done|]. destruct (Hstep eq_refl) as (pending1 & -> & [Hp1 Hc1]).
  intros Hr. destruct (IH pending1 w1 d1) as (pending' & Heq & [Hk Hn Hd Hc]);
    [intros j Hj; apply Hl; by right|done|].
  exists pending'. split; [done|].
  assert (Hkeep : ∀ t, t ∈ pending → t ∈ pending1).
  { destruct Hp1 as [->|(t & -> & _)]; [done|]. intros x Hx. apply elem_of_app. by left. }
  constructor.
  - auto.
  - intros t [Ht|(Hta & j & Hj & Hrt)]%Hn; [|right; split; [done|]; exists j; by split; [right|]].
    destruct Hp1 as [->|(t1 & -> & Ha & _ & Hr1 & Hleast)]; [by left|].
    apply elem_of_app in Ht as [Ht|Ht%list_elem_of_singleton]; [by left|subst t].
    right. split; [done|]. exists i. split; [by left|done].
  - intros Hnd. apply Hd. destruct Hp1 as [->|(t1 & -> & _ & Ht1 & _)]; [done|].
    apply NoDup_app. split_and!; [done| |apply NoDup_singleton].
    intros x Hx Hx1%list_elem_of_singleton. by subst.
  - intros j c Hj Hrc Hdev. apply elem_of_cons in Hj as [->|Hj]; [|by apply Hc].
    destruct (Hc1 c Hrc Hdev) as (r & Hin & ? & ?). exists r. split_and!; auto.
Qed.

(** ** The invariant of the enumeration *)

(** Where a pending candidate came from: the root of an accepted one, after which
    it is least. *)
Definition originates (accepted : list (list nat)) (t : list nat) : Prop :=
  ∃ q j, q ∈ accepted ∧ take j t = take j q ∧ (j < length q)%nat ∧
    ∀ c, route v options c → take (S j) c = take (S j) t → rle t c.

(** After the spurs of every accepted candidate. *)
Record full (accepted pending : list (list nat)) : Prop := {
  fu_routes : Forall (route v options) (accepted ++ pending);
  fu_nodup : NoDup (accepted ++ pending);
  fu_sorted : StronglySorted (λ a b, rle a b) accepted;
  fu_after : ∀ a t, a ∈ accepted → t ∈ pending → rle a t;
  fu_origin : ∀ t, t ∈ pending → originates accepted t;
  fu_cover : ∀ q i c, q ∈ accepted → (i < length q)%nat → route v options c →
    deviates v options accepted q i c → ∃ r, r ∈ pending ∧ take i r = take i q ∧ rle r c
}.

(** Before the spurs of the last accepted candidate [p]. *)
Record fresh (accepted : list (list nat)) (p : list nat) (pending : list (list nat)) : Prop := {
  fr_routes : Forall (route v options) ((accepted ++ [p]) ++ pending);
  fr_nodup : NoDup ((accepted ++ [p]) ++ pending);
  fr_sorted : StronglySorted (λ a b, rle a b) (accepted ++ [p]);
  fr_after : ∀ a t, a ∈ accepted ++ [p] → t ∈ pending → rle a t;
  fr_origin : ∀ t, t ∈ pending → originates (accepted ++ [p]) t;
  fr_cover : ∀ q i c, q ∈ accepted → (i < length q)%nat → route v options c →
    deviates v options (accepted ++ [p]) q i c →
    (∃ r, r ∈ pending ∧ take i r = take i q ∧ rle r c) ∨ take i p = take i q;
  fr_last : ∀ i c, (i < length p)%nat → route v options c →
    deviates v options (accepted ++ [p]) p i c → rle p c;
  fr_best : no_parallel v → ∀ c, route v options c → c ∉ accepted ++ [p] → rle p c
}.

(** The taken edges depend on the root only. *)
Lemma deviates_root accepted p q i c :
  take i p = take i q → deviates v options accepted p i c → deviates v options accepted q i c.
Proof.
  intros Heq [Hc Ht]. split; [congruence|]. intros (a & ? & ? & Hn & ?). apply Ht. exists a.
  by rewrite Heq.
Qed.

Lemma deviates_mono accepted p q i c :
  deviates v options (accepted ++ [p]) q i c → deviates v options accepted q i c.
Proof.
  intros [Hc Ht]. split; [done|]. intros (a & Ha & ?). apply Ht. exists a.
  split; [apply elem_of_app; by left|done].
Qed.

Lemma spurs_fill accepted p pending pending' :
  fresh accepted p pending →
  spurred (accepted ++ [p]) p (seq 0 (length p)) pending pending' →
  full (accepted ++ [p]) pending'.
Proof.
  intros [Hr Hnd Hs Ha Ho Hc Hl Hb] [Hkeep Hnew Hnod Hcov].
  apply Forall_app in Hr as [Hra Hrp]. apply NoDup_app in Hnd as (Hnda & Hdis & Hndp).
  rewrite Forall_forall in Hra, Hrp.
  assert (Hp : p ∈ accepted ++ [p]) by (apply elem_of_app; right; by left).
  constructor.
  - apply Forall_app. split; apply Forall_forall; [done|].
    intros t [?|(_ & i & _ & ? & _)]%Hnew; auto.
  - apply NoDup_app. split_and!; [done| |by apply Hnod].
    intros x Hx [?|[? _]]%Hnew; [by apply (Hdis x)|done].
  - done.
  - intros a t Hina [Ht|(_ & i & Hi & Hrt & Hld)]%Hnew; [by apply Ha|].
    assert (Hpt : rle p t).
    { apply (Hl i); [apply elem_of_seq in Hi; lia|done|apply Hld]. }
    apply elem_of_app in Hina as [Hina|Hina%list_elem_of_singleton]; [|by subst].
    transitivity (rank p); [|done]. apply (StronglySorted_app_1_elem_of _ _ _ _ _ Hs); [done|by left].
  - intros t [Ht|(_ & i & Hi & Hrt & Hld)]%Hnew; [by apply Ho|].
    exists p, i. split_and!; [done|apply (ld_deviates _ _ _ _ _ _ Hld)|apply elem_of_seq in Hi; lia|].
    intros c Hrc Heq. apply (ld_least _ _ _ _ _ _ Hld c Hrc).
    destruct (ld_deviates _ _ _ _ _ _ Hld) as [Htp Htk].
    destruct (take_succ_inv t c i (eq_sym Heq) (ld_long _ _ _ _ _ _ Hld)) as [H1 H2].
    split; [congruence|]. by rewrite <- H2.
  - intros q i c Hq Hi Hrc Hdev.
    assert (Hpi : take i p = take i q → ∃ r, r ∈ pending' ∧ take i r = take i q ∧ rle r c).
    { intros Heq. destruct (Hcov i c) as (r & ? & ? & ?).
      - apply elem_of_seq. split; [lia|]. simpl.
        exact (route_not_prefix v options q p i (Hra q Hq) (Hra p Hp) Hi Heq).
      - done.
      - by eapply deviates_root.
      - exists r. split_and!; [done|congruence|done]. }
    apply elem_of_app in Hq as [Hq|Hq%list_elem_of_singleton]; [|subst; by apply Hpi].
    destruct (Hc q i c Hq Hi Hrc Hdev) as [(r & ? & ? & ?)|]; [|by apply Hpi].
    exists r. auto.
Qed.

(** ** Completeness *)

Lemma walk_nodes_inj bans u l l' w w' :
  no_parallel v → (u < NodeCount v)%nat → walk v bans u l w → walk v bans u l' w' →
  walk_nodes v u l = walk_nodes v u l' → l = l'.
Proof.
  intros Hnp Hu Hw Hw' Heq. unfold walk_nodes in Heq. injection Heq as Heq.
  revert l' Hw' Heq. induction Hw as [u|u i l w Hi _ _ IH]; intros l' Hw' Heq.
  { by destruct l'. }
  destruct Hw' as [u|u j l' w' Hj _ Hw']; [done|]. cbn [map] in Heq. injection Heq as Hto Heq.
  rewrite (Hnp u i j Hu Hi Hj Hto) in *. f_equal. apply IH; [by eapply row_to|done|done].
Qed.

(** A route that no accepted one extends the prefix of, after [i] nodes. *)
Lemma longest_shared accepted c :
  accepted ≠ [] → Forall (route v options) accepted → route v options c → c ∉ accepted →
  ∃ q i, q ∈ accepted ∧ (i < length c)%nat ∧ take i q = take i c ∧
    ∀ a, a ∈ accepted → take (S i) a ≠ take (S i) c.
Proof.
  intros Hne Hall Hc Hnin. rewrite Forall_forall in Hall.
  assert (Hk : ∀ k, (k <= length c)%nat → (∃ q, q ∈ accepted ∧ take k q = take k c) ∨
    ∃ q i, q ∈ accepted ∧ (i < length c)%nat ∧ take i q = take i c ∧
      ∀ a, a ∈ accepted → take (S i) a ≠ take (S i) c).
  { induction k as [|k IH]; intros Hk.
    - left. destruct accepted as [|q accepted]; [done|]. exists q. by split; [left|].
    - destruct IH as [(q & Hq & Heq)|]; [lia| |by right].
      destruct (decide (Exists (λ a, take (S k) a = take (S k) c) accepted)) as [He|He].
      + left. apply Exists_exists in He as (a & ? & ?). by exists a.
      + right. exists q, k. split_and!; [done|lia|done|]. intros a Ha Heqa. apply He.
        apply Exists_exists. by exists a. }
  destruct (Hk (length c) (le_n _)) as [(q & Hq & Heq)|]; [|done]. exfalso. apply Hnin.
  rewrite (take_ge c) in Heq by lia. destruct (decide (length c < length q)%nat) as [Hlt|Hge].
  - destruct (route_prefix v options q (length c) (Hall q Hq) Hlt). rewrite Heq.
    apply (walk_end _ no_bans), Hc.
  - rewrite take_ge in Heq by lia. by subst.
Qed.

Lemma full_complete accepted pending c :
  accepted ≠ [] → full accepted pending → no_parallel v → route v options c → c ∉ accepted →
  ∃ r, r ∈ pending ∧ rle r c.
Proof.
  intros Hne [Hr _ _ _ _ Hcov] Hnp Hc Hnin. apply Forall_app in Hr as [Hra _].
  destruct (longest_shared accepted c Hne Hra Hc Hnin) as (q & i & Hq & Hi & Heq & Hlong).
  rewrite Forall_forall in Hra.
  pose proof (route_not_prefix v options c q i Hc (Hra q Hq) Hi Heq) as Hiq.
  destruct (Hcov q i c Hq Hiq Hc) as (r & ? & _ & ?); [|by exists r].
  split; [done|]. intros (a & Ha & Hia & Hn & He). apply (Hlong a Ha).
  apply take_succ_eq; [done|done| |done]. rewrite <- Heq.
  destruct (walk_cut _ _ _ _ _ i (rt_walk _ _ _ (Hra a Ha))) as [Hw1 _].
  destruct (walk_cut _ _ _ _ _ i (rt_walk _ _ _ (Hra q Hq))) as [Hw2 _].
  exact (walk_nodes_inj _ _ _ _ _ _ Hnp (oo_source _ _ Hoptions) Hw1 Hw2 Hn).
Qed.

Lemma elem_of_middle (t x : list nat) p1 p2 : x ∈ p1 ++ t :: p2 ↔ x = t ∨ x ∈ p1 ++ p2.
Proof. rewrite !elem_of_app, elem_of_cons. tauto. Qed.

(** Accepting the best pending candidate. *)
Lemma accept_fresh accepted t p1 p2 :
  accepted ≠ [] → full accepted (p1 ++ t :: p2) → (∀ x, x ∈ p1 ++ t :: p2 → rle t x) →
  fresh accepted t (p1 ++ p2).
Proof.
  intros Hne Hfull Hmin. pose proof Hfull as [Hr Hnd Hs Ha Ho Hc].
  assert (Hperm : (accepted ++ [t]) ++ p1 ++ p2 ≡ₚ accepted ++ p1 ++ t :: p2).
  { rewrite <- app_assoc. simpl. by rewrite Permutation_middle. }
  assert (Ht : t ∈ p1 ++ t :: p2) by (apply elem_of_middle; by left).
  assert (Hkeep : ∀ x, x ∈ p1 ++ p2 → x ∈ p1 ++ t :: p2) by (intros; apply elem_of_middle; by right).
  assert (Hroutes : ∀ x, x ∈ accepted ++ p1 ++ t :: p2 → route v options x) by by apply Forall_forall.
  assert (Hrt : route v options t) by (apply Hroutes, elem_of_app; by right).
  assert (Hrq : ∀ q, q ∈ accepted → route v options q) by (intros; apply Hroutes, elem_of_app; by left).
  constructor.
  - by rewrite Hperm.
  - by rewrite Hperm.
  - apply StronglySorted_app_2; [|done|repeat constructor].
    intros x y Hx Hy%list_elem_of_singleton. subst y. by apply Ha.
  - intros x y [Hx|Hx%list_elem_of_singleton]%elem_of_app Hy; [by apply Ha; auto|].
    subst x. by apply Hmin; auto.
  - intros x (q & j & Hq & ?)%Hkeep%Ho. exists q, j. split; [apply elem_of_app; by left|done].
  - intros q i c Hq Hi Hrc Hdev%deviates_mono.
    destruct (Hc q i c Hq Hi Hrc Hdev) as (r & [->|Hin]%elem_of_middle & ? & ?); [by right|].
    left. by exists r.
  - intros i c Hi Hrc Hdev. destruct (Ho t Ht) as (q & j & Hq & Hroot & Hj & Hleast).
    destruct (decide (i <= j)%nat) as [Hij|Hij].
    + assert (Heq : take i t = take i q) by by eapply take_take_eq.
      destruct (Hc q i c Hq ltac:(lia) Hrc) as (r & Hin & _ & Hrc').
      { eapply deviates_mono, deviates_root; [exact Heq|exact Hdev]. }
      transitivity (rank r); [by apply Hmin|done].
    + apply Hleast; [done|]. apply (take_take_eq _ _ (S j) i); [apply Hdev|lia].
  - intros Hnp c Hrc Hnin. destruct (full_complete _ _ c Hne Hfull Hnp Hrc) as (r & Hin & Hle).
    + intros Hin. apply Hnin, elem_of_app. by left.
    + transitivity (rank r); [by apply Hmin|done].
Qed.

(** ** The loop *)

(** What the accepted candidates are when the loop ends after [n] were wanted. *)
Record accepted_ok (n : nat) (accepted : list (list nat)) : Prop := {
  ac_routes : Forall (route v options) accepted;
  ac_nodup : NoDup accepted;
  ac_sorted : StronglySorted (λ a b, rle a b) accepted;
  ac_length : (length accepted <= n)%nat;
  ac_best : no_parallel v → ∀ c, route v options c → c ∉ accepted →
    length accepted = n ∧ ∀ a, a ∈ accepted → rle a c
}.

Lemma sorted_last accepted p a :
  StronglySorted (λ a b, rle a b) (accepted ++ [p]) → a ∈ accepted ++ [p] → rle a p.
Proof.
  intros Hs [Ha|Ha%list_elem_of_singleton]%elem_of_app.
  - apply (StronglySorted_app_1_elem_of _ _ _ _ _ Hs); [done|by left].
  - subst. apply ole_lt_or_eq. by right.
Qed.

Lemma spur_step_stopped accepted previous i st :
  (spur_step v options accepted previous i st).2 = true →
  (spur_step v options accepted previous i st).1.2 ≠ None.
Proof.
  destruct st as [[pending w] detail]. unfold spur_step. split_match; simplify_eq; done.
Qed.

Lemma yen_loop_spec rounds accepted p pending w :
  fresh accepted p pending →
  let r := yen_loop v options rounds (map rw (accepted ++ [p])) (map rw pending) w in
  r.2 = None →
  ∃ more, r.1.1 = map rw ((accepted ++ [p]) ++ more) ∧
    accepted_ok (length (accepted ++ [p]) + rounds) ((accepted ++ [p]) ++ more).
Proof.
  revert accepted p pending w. induction rounds as [|k IH]; intros accepted p pending w Hf;
    cbn [yen_loop]; cbv zeta.
  { intros _. exists []. rewrite app_nil_r. split; [done|].
    destruct Hf as [Hr Hnd Hs _ _ _ _ Hb]. apply Forall_app in Hr as [Hr _].
    apply NoDup_app in Hnd as [Hnd _]. constructor; [done|done|done|lia|].
    intros Hnp c Hrc Hnin. split; [lia|]. intros a Hin.
    transitivity (rank p); [by eapply sorted_last|by apply Hb]. }
  assert (Hlast : List.last (map rr_path (map rw (accepted ++ [p]))) empty_raw = walk_raw v s p).
  { rewrite !map_app. apply last_last. }
  rewrite Hlast. cbn [rp_adjacency walk_raw].
  pose proof (fr_routes _ _ _ Hf) as Hr. apply Forall_app in Hr as [Hr _].
  assert (Hrp : route v options p) by (apply Forall_app in Hr as [_ Hrp]; by inversion Hrp).
  pose proof (spur_steps_spec (accepted ++ [p]) p (seq 0 (length p)) pending w None Hr Hrp) as Hsp.
  specialize (Hsp ltac:(intros i Hi; apply elem_of_seq in Hi; lia)). cbv zeta in Hsp.
  pose proof (for_each_stopped (λ st : YenState, st.2 ≠ None)
    (spur_step v options (map rw (accepted ++ [p])) (walk_raw v s p)) (seq 0 (length p))
    (map rw pending, w, None) (λ i st, spur_step_stopped _ _ i st)) as Hstop.
  destruct (for_each _ _ _) as [[[pd w1] detail] stop]. cbn [fst snd] in Hsp, Hstop.
  destruct stop; [by intros Hnone%Hstop|].
  destruct (Hsp eq_refl) as (pending' & -> & Hspurred).
  pose proof (spurs_fill _ _ _ _ Hf Hspurred) as Hfull.
  assert (Hne : accepted ++ [p] ≠ []) by by destruct accepted.
  pose proof (fu_routes _ _ Hfull) as Hrf. apply Forall_app in Hrf as [_ Hrp'].
  pose proof (take_best_spec pending' Hrp') as Hbest.
  destruct (take_best v (map rw pending')) as [[best rest]|].
  - destruct Hbest as (t & p1 & p2 & -> & -> & -> & Hmin).
    pose proof (accept_fresh _ _ _ _ Hne Hfull Hmin) as Hf'.
    change [rw t] with (map rw [t]). rewrite <- map_app. intros Hnone.
    destruct (IH _ _ _ w1 Hf' Hnone) as (more & Heq & Hok).
    exists (t :: more). replace ((accepted ++ [p]) ++ t :: more)
      with (((accepted ++ [p]) ++ [t]) ++ more) by by rewrite <- (app_assoc _ [t]).
    split; [done|]. rewrite (length_app (accepted ++ [p]) [t]) in Hok. simpl in Hok.
    replace (length (accepted ++ [p]) + S k)%nat with (length (accepted ++ [p]) + 1 + k)%nat by lia.
    done.
  - intros _. subst pending'. exists []. rewrite app_nil_r. split; [done|].
    pose proof (fu_routes _ _ Hfull) as Hra. rewrite app_nil_r in Hra.
    pose proof (fu_nodup _ _ Hfull) as Hnd. rewrite app_nil_r in Hnd.
    constructor; [done|done|apply Hfull|lia|]. intros Hnp c Hrc Hnin.
    destruct (full_complete _ _ c Hne Hfull Hnp Hrc Hnin) as (r & Hin & _).
    by apply elem_of_nil in Hin.
Qed.

(** ** The enumeration *)

(** The first [n] routes in canonical order; which of several routes along the same
    nodes are listed is only promised where no links are parallel. *)
Record first_routes (n : nat) (l : list (list nat)) : Prop := {
  fs_routes : Forall (route v options) l;
  fs_sorted : StronglySorted (λ a b, ltb (rank a) (rank b) = true) l;
  fs_length : (length l <= n)%nat;
  fs_least : ∀ c, route v options c → ∃ a, head l = Some a ∧ rle a c;
  fs_best : no_parallel v → ∀ c, route v options c → c ∉ l →
    length l = n ∧ ∀ a, a ∈ l → ltb (rank a) (rank c) = true
}.

Lemma rle_strict a c :
  route v options a → route v options c → a ≠ c → rle a c → ltb (rank a) (rank c) = true.
Proof.
  intros Ha Hc Hne [Hlt|Heq]%ole_lt_or_eq; [done|]. destruct Hne.
  exact (walk_rank_inj v _ _ _ _ _ _ (oo_source _ _ Hoptions) (rt_walk _ _ _ Ha) (rt_walk _ _ _ Hc) Heq).
Qed.

Lemma accepted_first_routes n l more :
  (∀ c, route v options c → rle l c) → accepted_ok n (l :: more) → first_routes n (l :: more).
Proof.
  intros Hleast [Hr Hnd Hs Hlen Hb]. pose proof Hr as Hr'. rewrite Forall_forall in Hr'.
  constructor; [done| |done| |].
  - clear Hleast Hlen Hb. revert Hr Hnd Hs. generalize (l :: more) as k. clear Hr'.
    induction k as [|a k IH]; intros Hr Hnd Hs; [constructor|].
    apply Forall_cons in Hr as [Ha Hr]. apply NoDup_cons in Hnd as [Hni Hnd].
    apply StronglySorted_cons in Hs as [Hall Hs]. constructor; [by apply IH|].
    rewrite Forall_forall in *. intros c Hc. apply rle_strict; auto. by intros ->.
  - intros c Hc. exists l. auto.
  - intros Hnp c Hc Hnin. destruct (Hb Hnp c Hc Hnin) as [Hl Hle]. split; [done|].
    intros a Ha. apply rle_strict; auto. by intros ->.
Qed.

Lemma first_fresh l :
  canonical_minimum v no_bans (op_max_hops options) s d l → route v options l ∧ fresh [] l [].
Proof.
  intros [Hw Hwi Hnd Hc Hleast]. assert (Hr : route v options l) by done.
  assert (Hle : ∀ c, route v options c → rle l c).
  { intros c Hrc. apply Hleast; apply Hrc. }
  split; [done|]. constructor; simpl.
  - by constructor.
  - apply NoDup_singleton.
  - repeat constructor.
  - intros a t _ Ht. by apply elem_of_nil in Ht.
  - intros t Ht. by apply elem_of_nil in Ht.
  - intros q i c Hq. by apply elem_of_nil in Hq.
  - auto.
  - auto.
Qed.

(** The member-limit filter, which stops once it has enough. *)
Lemma filter_compliant_spec limit fail_closed l done_ :
  (Z.of_nat (length done_) < op_max_candidates options) →
  let keep := λ e, DomainMemberLimitCompliant v (rr_path e) limit fail_closed in
  let r := filter_compliant v options limit fail_closed l done_ in
  let full := done_ ++ List.filter keep l in
  take (Z.to_nat (op_max_candidates options)) r = take (Z.to_nat (op_max_candidates options)) full ∧
  (Z.of_nat (length r) <? op_max_candidates options) =
  (Z.of_nat (length full) <? op_max_candidates options).
Proof.
  intros Hd keep. revert done_ Hd. induction l as [|e l IH]; intros done_ Hd;
    cbn [filter_compliant List.filter].
  { cbv zeta. by rewrite app_nil_r. }
  cbv zeta. fold (keep e). destruct (keep e).
  - destruct (_ >=? _) eqn:E; bool_to_prop.
    + rewrite length_app in E. simpl in E.
      replace (done_ ++ e :: List.filter keep l) with ((done_ ++ [e]) ++ List.filter keep l)
        by by rewrite <- app_assoc.
      assert (Hlen : length (done_ ++ [e]) = Z.to_nat (op_max_candidates options)).
      { rewrite length_app. simpl. lia. }
      rewrite <- Hlen at 2. rewrite take_app_length. rewrite take_ge by lia. split; [done|].
      rewrite (length_app (done_ ++ [e])), Hlen.
      destruct (Z.ltb_spec (Z.of_nat (Z.to_nat (op_max_candidates options))) (op_max_candidates options)),
        (Z.ltb_spec (Z.of_nat (Z.to_nat (op_max_candidates options) + length (List.filter keep l)))
           (op_max_candidates options)); done || lia.
    + rewrite length_app in E. simpl in E.
      destruct (IH (done_ ++ [e])) as [H1 H2]; [rewrite length_app; simpl; lia|].
      rewrite <- app_assoc in H1, H2. done.
  - destruct (_ >=? _) eqn:E; bool_to_prop; [lia|]. by apply IH.
Qed.

(** How many candidates are enumerated before the member limit filters them. *)
Definition wanted : Z :=
  if op_enumeration_ceiling options >? 0 then op_enumeration_ceiling options
  else op_max_candidates options.

Definition limit_active (request : PlanningRequest) : bool :=
  op_domain_member_limit_active options &&
  match cs_max_members_per_failure_domain (rq_constraints request) with
  | Some _ => true | None => false end.

Definition compliant (request : PlanningRequest) (l : list nat) : bool :=
  match cs_max_members_per_failure_domain (rq_constraints request) with
  | Some limit =>
      negb (op_domain_member_limit_active options) ||
      DomainMemberLimitCompliant v (walk_raw v s l) limit
        (cs_fail_closed_on_unknown_domains (rq_constraints request))
  | None => true
  end.

Lemma filter_map_rw keep l :
  List.filter keep (map rw l) = map rw (List.filter (λ a, keep (rw a)) l).
Proof. induction l as [|a l IH]; [done|]. simpl. destruct (keep (rw a)); simpl; by rewrite IH. Qed.

Lemma map_rr_rw l : map rr_path (map rw l) = map (walk_raw v s) l.
Proof. by rewrite map_map. Qed.

(** What the enumeration reports of the accepted routes [l]. *)
Record reports (request : PlanningRequest) (l : list (list nat)) (r : EnumerationResult) : Prop := {
  rp_paths : en_paths r = map (walk_raw v s)
    (take (Z.to_nat (op_max_candidates options)) (List.filter (compliant request) l));
  rp_ok : en_ok r = negb (length (en_paths r) =? 0)%nat;
  rp_truncated : en_truncated r = limit_active request &&
    (Z.of_nat (length (List.filter (compliant request) l)) <? op_max_candidates options) &&
    (Z.of_nat (length l) >=? wanted)
}.

Lemma filter_true {A} (f : A → bool) l : (∀ x, f x = true) → List.filter f l = l.
Proof. intros Hf. induction l as [|x l IH]; [done|]. simpl. by rewrite Hf, IH. Qed.

Lemma finish_reports request l :
  0 < op_max_candidates options →
  reports request l (finish_enumeration v options request wanted (map rw l)).
Proof.
  intros Hk. unfold finish_enumeration. cbv zeta. rewrite length_map.
  destruct (cs_max_members_per_failure_domain (rq_constraints request)) as [limit|] eqn:Em;
    [destruct (op_domain_member_limit_active options) eqn:Ea; cbn [negb]|].
  - pose proof (filter_compliant_spec limit (cs_fail_closed_on_unknown_domains (rq_constraints request))
      (map rw l) [] Hk) as [H1 H2]. cbn [app] in H1, H2. rewrite filter_map_rw in H1, H2.
    assert (Heq : List.filter (compliant request) l = List.filter
      (λ a, DomainMemberLimitCompliant v (rr_path (rw a)) limit
              (cs_fail_closed_on_unknown_domains (rq_constraints request))) l).
    { apply List.filter_ext. intros a. unfold compliant. by rewrite Em, Ea. }
    rewrite H1, H2, firstn_map, map_rr_rw, <- Heq.
    constructor; cbn [en_paths en_ok en_truncated]; [done|done|]. unfold limit_active.
    by rewrite Ea, Em, length_map.
  - rewrite firstn_map, map_rr_rw.
    constructor; cbn [en_paths en_ok en_truncated]; [|done|unfold limit_active; by rewrite Ea].
    rewrite filter_true; [done|]. intros a. unfold compliant. by rewrite Em, Ea.
  - rewrite firstn_map, map_rr_rw.
    constructor; cbn [en_paths en_ok en_truncated]; [|done|unfold limit_active; by rewrite Em, andb_false_r].
    rewrite filter_true; [done|]. intros a. unfold compliant. by rewrite Em.
Qed.

Lemma enumerate_yen_spec request w :
  0 < op_max_candidates options → 0 <= op_enumeration_ceiling options →
  let r := enumerate_yen v options request w in
  en_resource_limit r.1 = false →
  ∃ l, first_routes (Z.to_nat wanted) l ∧ reports request l r.1.
Proof.
  intros Hk Hceil r Hlimit.
  assert (Hw : 0 < wanted) by (unfold wanted; destruct (_ >? _) eqn:E; bool_to_prop; lia).
  unfold r in *. clear r. unfold enumerate_yen in *. fold wanted in Hlimit |- *. cbv zeta in *.
  pose proof (ShortestPath_spec v s d (op_max_hops options) no_bans w (oo_source _ _ Hoptions)
    (oo_destination _ _ Hoptions) (oo_max_hops _ _ Hoptions)) as Hs. cbv zeta in Hs.
  destruct (ShortestPath _ _ _ _ _ _) as [first w1]. cbn [fst] in Hs.
  destruct (so_resource_limit first); [done|]. specialize (Hs eq_refl). unfold search_correct in Hs.
  assert (Hnone : (∀ c, ¬ route v options c) → ∀ code,
    ∃ l, first_routes (Z.to_nat wanted) l ∧ reports request l (enumeration_failure code false "")).
  { intros Hno code. exists []. split.
    - constructor; [constructor|constructor|simpl; lia| |]; intros; exfalso; eapply Hno; eassumption.
    - constructor; [cbn [List.filter]; by rewrite take_nil|done|]. symmetry. apply andb_false_iff. right.
      cbn [length]. rewrite Z.geb_leb. apply Z.leb_gt. lia. }
  destruct (so_found first).
  2: { apply Hnone. intros c Hc. specialize (Hs c (rt_walk _ _ _ Hc) (rt_within _ _ _ Hc)).
       pose proof (rt_cost _ _ _ Hc). lia. }
  destruct Hs as (l & Hpath & Hmin). destruct (first_fresh l Hmin) as [Hrl Hfresh].
  rewrite Hpath, (route_cost_Some v options Hoptions l Hrl) in *. cbn [negb] in *.
  pose proof (yen_loop_spec (Z.to_nat wanted - 1) [] l [] w1 Hfresh) as Hloop. cbv zeta in Hloop.
  change (map rw ([] ++ [l])) with [MkRanked (walk_raw v s l) (route_cost v l)] in Hloop.
  change (map rw []) with (@nil RankedRawPath) in Hloop.
  destruct (yen_loop v options _ _ _ w1) as [[accepted w2] [detail|]]; [done|]. cbn [fst snd] in Hloop.
  destruct (Hloop eq_refl) as (more & -> & Hok). cbn [fst].
  exists (l :: more). split; [|by apply finish_reports].
  cbn [app length] in Hok. replace (1 + (Z.to_nat wanted - 1))%nat with (Z.to_nat wanted) in Hok by lia.
  apply accepted_first_routes; [|done]. intros c Hc. apply (cm_least _ _ _ _ _ _ Hmin); apply Hc.
Qed.
End yen.

(** C23: without required transit stages, and unless a resource limit is reported,
    the enumeration is Yen's algorithm done right: it considers a list of
    distinct simple routes within the hop bound, strictly ascending in the
    canonical order, that starts with the least route of all and, where no two
    links join the same ordered pair of nodes, is exactly the first [wanted]
    routes; of these it reports, in order, the first [max_candidates] that comply
    with the failure-domain member limit, and says it was truncated precisely
    when the limit left too few and the ceiling was hit. *)
Theorem yen_k_shortest v request options w :
  Searchable v → options_ok v options →
  0 < op_max_candidates options → 0 <= op_enumeration_ceiling options →
  cs_required_transit (rq_constraints request) = [] →
  let r := EnumerateCandidatePaths v request options w in
  en_resource_limit r.1 = false →
  ∃ l, first_routes v options (Z.to_nat (wanted options)) l ∧ reports v options request l r.1.
Proof.
  intros Hv Ho Hk Hc Hstages. unfold EnumerateCandidatePaths. cbv zeta. rewrite Hstages.
  by apply enumerate_yen_spec.
Qed.

Lemma walk_cost_bound v k l : (∀ i, increment v i <= k) → walk_cost v l <= k * Z.of_nat (length l).
Proof.
  intros Hk. induction l as [|i l IH]; [unfold walk_cost; simpl; lia|].
  unfold walk_cost in *. rewrite zsum_cons. cbn [length]. specialize (Hk i). lia.
Qed.

(** A bound on the cost of every adjacency keeps all walks below the sentinel. *)
Lemma cheap_walks v `{Hv : !Searchable v} k source dest :
  (source < NodeCount v)%nat → 0 <= k →
  Forall (λ a, cm_hop_cost (v_cost_model v) + a_traversal_cost a <= k) (v_adjacency v) →
  cm_hop_cost (v_cost_model v) <= k → k * Z.of_nat (NodeCount v) < u64_max →
  ∀ l, walk v no_bans source l dest → NoDup (walk_nodes v source l) → walk_cost v l ≠ u64_max.
Proof.
  intros Hs Hk Hall Hhop Hbig l Hw Hnd.
  assert (Hinc : ∀ i, increment v i <= k).
  { intros i. unfold increment, AdjacencyAt.
    destruct (nth_in_or_default i (v_adjacency v) null_adjacency) as [Hin| ->].
    - rewrite Forall_forall in Hall. by apply Hall, list_elem_of_In.
    - simpl. lia. }
  pose proof (walk_cost_bound v k l Hinc). pose proof (simple_walk_length v _ _ _ _ Hw Hs Hnd). nia.
Qed.

Lemma demo_options_ok : options_ok demo_built demo_options.
Proof.
  constructor.
  - vm_compute. lia.
  - vm_compute. lia.
  - vm_compute. split; congruence.
  - right. vm_compute. congruence.
  - apply (cheap_walks demo_built 1000).
    + vm_compute. lia.
    + lia.
    + apply (bool_decide_unpack _). vm_compute. exact I.
    + vm_compute. congruence.
    + vm_compute. reflexivity.
Qed.

Lemma yen_k_shortest_witness :
  let r := EnumerateCandidatePaths demo_built demo_request demo_options demo_work in
  en_paths r.1 = [walk_raw demo_built 0 [0%nat; 2%nat]; walk_raw demo_built 0 [1%nat; 3%nat]] ∧
  ∃ l, first_routes demo_built demo_options (Z.to_nat (wanted demo_options)) l ∧
       reports demo_built demo_options demo_request l r.1.
Proof.
  split; [vm_compute; reflexivity|].
  apply (yen_k_shortest demo_built demo_request demo_options demo_work).
  - apply demo_searchable.
  - apply demo_options_ok.
  - vm_compute. reflexivity.
  - vm_compute. congruence.
  - reflexivity.
  - vm_compute. reflexivity.
Defined.

(** ** Parallel links *)

(** Three nodes in a row, two parallel links on each of the two steps. *)
Module Parallel.
Definition edges : list EdgeRecord :=
  [Demo.edge 1 1 2 1; Demo.edge 2 1 2 5; Demo.edge 3 2 4 1; Demo.edge 4 2 4 2].
Definition builder : FabricSnapshotBuilder :=
  run_ops ([OpSetGenerations Demo.generations] ++
    map (λ k, OpAddNode (Demo.node_record k)) [1; 2; 4] ++ map OpAddEdge edges ++
    [OpSetLinkStates (map Demo.up [1; 2; 3; 4]); OpSetPortStates Demo.ports])
    (new_builder default_limits).
Definition request : PlanningRequest :=
  MkRequest (Demo.tail_id PlanningRequestIdTag 1)
    (MkEndpointRef (Demo.tail_id EndpointIdTag 1) EndpointClass.kEndpoint 1)
    (MkEndpointRef (Demo.tail_id EndpointIdTag 2) EndpointClass.kEndpoint 1)
    (MkConstraints (Demo.tail_id ConstraintSetIdTag 1) 1 PathLayer.kPhysical
       [] [] [] [] [] [] [] None None false)
    (rq_policy demo_request) 4 PlanningMode.kStandard (rq_authority demo_request)
    false 0 false 0 false (nil_id _).
Definition view : PlanningView :=
  vb_view (BuildPlanningView (snapshot_with builder (replicate 32 0)) request default_limits
    (Demo.node 1) (Demo.node 4)).
Definition options : EnumerationOptions := MkOptions 0 2 4 4 kNoHopBound false.
End Parallel.

(** The spur of a root is compared by its nodes only, so the edges another accepted
    path took after a parallel link are banned too: of the four routes, with four
    wanted and no limit hit, three are reported. *)
Lemma parallel_links_lose_a_path :
  let r := EnumerateCandidatePaths Parallel.view Parallel.request Parallel.options demo_work in
  let lost := walk_raw Parallel.view 0 [1%nat; 3%nat] in
  en_ok r.1 = true ∧ en_resource_limit r.1 = false ∧ en_truncated r.1 = false ∧
  length (en_paths r.1) = 3%nat ∧ lost ∉ en_paths r.1 ∧
  walk Parallel.view no_bans 0 [1%nat; 3%nat] 2 ∧ IsSimple (BuildCandidatePath Parallel.view lost) = true ∧
  is_Some (ComputeRawPathCost Parallel.view lost).
Proof.
  split_and!; try (vm_compute; reflexivity).
  - intros Hin. apply (bool_decide_pack _) in Hin. vm_compute in Hin. exact Hin.
  - apply walk_test_spec. vm_compute. reflexivity.
  - vm_compute. by eexists.
Qed.
