(* ===== verification/TransitFacts.v ===== *)
(** Required transit (search.cpp): a path the staged enumeration reports is a simple
    walk within the hop bound that visits an alternative of every stage, in the
    order of the stages. *)

From S2P Require Import Prelude Canonical Status Ids Codec Limits Graph Builder Path Request View ViewFacts PathSearch Dijkstra SearchFacts PlainFacts ExpandedFacts RouteFacts BudgetFacts SpurFacts.
Import DiagnosticCode.

(** The nodes meet the stages in order; one node may serve consecutive stages. *)
Fixpoint visits (nodes : list NodeId) (stages : list TransitStage) : Prop :=
  match stages with
  | [] => True
  | stage :: stages =>
      ∃ before x after, nodes = before ++ x :: after ∧ x ∈ ts_alternatives stage ∧
        visits (x :: after) stages
  end.

Lemma visits_prefix before nodes stages : visits nodes stages → visits (before ++ nodes) stages.
Proof.
  destruct stages as [|stage stages]; [done|]. intros (b & x & a & -> & ? & ?).
  exists (before ++ b), x, a. by rewrite <- app_assoc.
Qed.

Lemma visits_suffix nodes after stages : visits nodes stages → visits (nodes ++ after) stages.
Proof.
  revert nodes. induction stages as [|stage stages IH]; intros nodes; [done|].
  intros (b & x & a & -> & ? & Hv). exists b, x, (a ++ after).
  rewrite <- app_assoc. split_and!; [done|done|]. by apply (IH (x :: a)).
Qed.

Lemma last_app_cons {A} (b a : list A) y x : List.last (b ++ y :: a) x = List.last (y :: a) x.
Proof. induction b as [|z b IH]; [done|]. simpl app. rewrite <- IH. by destruct b. Qed.

Lemma visits_snoc nodes stages stage x :
  visits nodes stages → List.last nodes x = x → x ∈ ts_alternatives stage → nodes ≠ [] →
  visits nodes (stages ++ [stage]).
Proof.
  revert nodes. induction stages as [|st stages IH]; intros nodes Hv Hlast Hx Hne; simpl.
  - destruct (exists_last Hne) as (b & y & ->). rewrite last_last in Hlast. subst y.
    exists b, x, []. done.
  - destruct Hv as (b & y & a & -> & ? & Hv). exists b, y, a. split_and!; [done|done|].
    rewrite last_app_cons in Hlast. by apply IH.
Qed.

Section transit.
Context (v : PlanningView) `{Hv : !Searchable v} (options : EnumerationOptions).
Context (Hsource : (op_source_view options < NodeCount v)%nat).
Context (Hdest : (op_destination_view options < NodeCount v)%nat).
Context (Hhops : 0 <= op_max_hops options <= u32_max).
Local Notation s := (op_source_view options).
Local Notation d := (op_destination_view options).

(** The staged path so far: a walk to the current node within the bound that met
    the stages done. *)
Record staged_ok (finished : list TransitStage) (st : Staged) : Prop := {
  so_raw : ∃ l, sg_combined st = walk_raw v s l ∧ walk v no_bans s l (sg_current st) ∧
    within (op_max_hops options) l ∧
    (op_max_hops options ≠ kNoHopBound → sg_used_hops st = Z.of_nat (length l)) ∧
    visits (map (node_id v) (walk_nodes v s l)) finished;
  so_current : (sg_current st < NodeCount v)%nat
}.

(** A leg appended to the path. *)
Lemma join_walk l leg bans t x :
  walk v no_bans s l x → walk v bans x leg t →
  join (walk_raw v s l) (walk_raw v x leg) = walk_raw v s (l ++ leg) ∧ walk v no_bans s (l ++ leg) t.
Proof.
  intros Hl Hleg. split; [|eapply walk_app; [done|by eapply walk_weaken]].
  unfold join, walk_raw. cbn [rp_nodes rp_adjacency]. by rewrite walk_nodes_app.
Qed.

Lemma leg_spec finished st target bans w :
  staged_ok finished st → (target < NodeCount v)%nat →
  (op_max_hops options = kNoHopBound ∨ sg_used_hops st < op_max_hops options ∨
   sg_current st = target) →
  let r := ShortestPath v (sg_current st) target
             (leg_budget (op_max_hops options) (sg_used_hops st)) bans w in
  so_resource_limit r.1 = false → so_found r.1 = true →
  ∃ l, join (sg_combined st) (so_path r.1) = walk_raw v s l ∧ walk v no_bans s l target ∧
    within (op_max_hops options) l ∧
    (op_max_hops options ≠ kNoHopBound →
     sg_used_hops st + Z.of_nat (length (rp_adjacency (so_path r.1))) = Z.of_nat (length l)) ∧
    visits (map (node_id v) (walk_nodes v s l)) finished.
Proof.
  intros [(l & -> & Hw & Hb & Hused & Hvis) Hcur] Ht Hroom r Hlimit Hfound.
  assert (Hbudget : 0 <= leg_budget (op_max_hops options) (sg_used_hops st) <= u32_max ∧
    ∀ q, within (leg_budget (op_max_hops options) (sg_used_hops st)) q →
      within (op_max_hops options) (l ++ q)).
  { unfold leg_budget. destruct (_ =? _) eqn:E; bool_to_prop.
    - split; [done|]. intros q _. left. done.
    - rewrite (Hused E) in *. destruct Hb as [|Hb]; [done|].
      rewrite wrap32_small by (unfold u32_max in *; lia). split; [lia|].
      intros q Hq. unfold within, kNoHopBound, u32_max in *. rewrite length_app. lia. }
  destruct Hbudget as [Hrange Hwithin].
  pose proof (ShortestPath_spec v (sg_current st) target _ bans w Hcur Ht Hrange Hlimit) as Hs.
  unfold search_correct in Hs. fold r in Hs. rewrite Hfound in Hs.
  destruct Hs as (leg & Hpath & Hmin). destruct (join_walk l leg bans target _ Hw (cm_walk _ _ _ _ _ _ Hmin))
    as [Hj Hw'].
  rewrite Hpath. exists (l ++ leg). cbn [rp_adjacency walk_raw]. split_and!; [done|done| | |].
  - apply Hwithin, Hmin.
  - intros Hne. rewrite (Hused Hne), length_app. lia.
  - rewrite walk_nodes_app, map_app. by apply visits_suffix.
Qed.

Lemma stage_leg_spec finished stage choice st st' w w' :
  staged_ok finished st → (choice < length (ts_alternatives stage))%nat →
  stage_leg v options stage choice st w = (LegOk st', w') →
  staged_ok (finished ++ [stage]) st'.
Proof.
  intros Hst Hchoice. unfold stage_leg.
  set (x := nth choice (ts_alternatives stage) (nil_id _)).
  destruct (ViewIndex v x) as [target|] eqn:Ev; [|done].
  destruct (vw_index v sv_wf x target Ev) as [Ht Hid].
  destruct (negb _ && _) eqn:Eroom; [done|]. cbv zeta.
  pose proof (leg_spec finished st target (other_nodes [sg_current st] (sg_combined st)) w Hst Ht) as Hleg.
  cbv zeta in Hleg. destruct (ShortestPath _ _ _ _ _ _) as [leg w1]. cbn [fst] in Hleg.
  destruct (so_resource_limit leg); [done|]. destruct (so_found leg); cbn [negb]; [|done].
  intros [= <- <-]. destruct Hleg as (l & Hj & Hw & Hb & Hused & Hvis); [|done|done|].
  { apply andb_false_iff in Eroom as [Eroom|Eroom]; bool_to_prop; [by left|]. right; left.
    lia. }
  constructor; cbn [sg_combined sg_current sg_used_hops]; [|done].
  exists l. split_and!; [done|done|done| |].
  - intros Hne. rewrite (Hused Hne). destruct Hb as [|Hb]; [done|]. apply wrap32_small. lia.
  - apply (visits_snoc _ _ _ x); [done| | |done].
    + pose proof (walk_last _ _ _ _ _ Hw) as Hlast. fold (node_id v target) in Hid. rewrite <- Hid.
      rewrite <- Hlast at 2.
      destruct (exists_last (l := walk_nodes v s l)) as (b & y & Hby); [done|].
      rewrite Hby, map_app. cbn [map]. by rewrite !last_last.
    + apply list_elem_of_In, nth_In. lia.
Qed.

Lemma stage_legs_spec finished stages selection st st' w w' :
  staged_ok finished st →
  Forall2 (λ stage choice, (choice < length (ts_alternatives stage))%nat) stages selection →
  stage_legs v options stages selection st w = (LegOk st', w') →
  staged_ok (finished ++ stages) st'.
Proof.
  intros Hst Hall. revert finished st w Hst. induction Hall as [|stage choice stages selection Hc _ IH];
    intros finished st w Hst; cbn [stage_legs].
  { intros [= <- _]. by rewrite app_nil_r. }
  destruct (stage_leg v options stage choice st w) as [[st1|code|] w1] eqn:E; [|done..].
  intros Hrest. apply stage_leg_spec with (finished := finished) in E; [|done|done].
  specialize (IH _ _ _ E Hrest). by rewrite <- app_assoc in IH.
Qed.

(** The digits of a combination select an alternative of every stage. *)
Lemma select_alternatives_spec stages k :
  0 <= k → Forall (λ stage, ts_alternatives stage ≠ []) stages →
  Forall2 (λ stage choice, (choice < length (ts_alternatives stage))%nat) stages
    (select_alternatives stages k).1 ∧ 0 <= (select_alternatives stages k).2.
Proof.
  intros Hk. induction 1 as [|stage stages Hne _ [IH Hr]]; cbn [select_alternatives]; [done|].
  destruct (select_alternatives stages k) as [selection r]. cbn [fst snd] in *.
  assert (0 < Z.of_nat (length (ts_alternatives stage))).
  { destruct (ts_alternatives stage); [done|]. simpl. lia. }
  split; [|by apply Z.div_pos]. constructor; [|done].
  pose proof (Z.mod_pos_bound r (Z.of_nat (length (ts_alternatives stage)))). lia.
Qed.

(** A path the enumeration may report. *)
Definition transit_path (stages : list TransitStage) (raw : RawPath) : Prop :=
  ∃ l, raw = walk_raw v s l ∧ walk v no_bans s l d ∧ NoDup (walk_nodes v s l) ∧
    within (op_max_hops options) l ∧ visits (map (node_id v) (walk_nodes v s l)) stages.

Lemma try_combination_spec stages k st :
  0 <= k → Forall (λ stage, ts_alternatives stage ≠ []) stages →
  (∀ best, tr_best st = Some best → transit_path stages (rr_path best)) →
  ∀ best, tr_best (try_combination v options stages k st).1 = Some best →
    transit_path stages (rr_path best).
Proof.
  intros Hk Hne Hst best. unfold try_combination. cbv zeta.
  destruct (select_alternatives_spec stages k Hk Hne) as [Hsel _].
  destruct (select_alternatives stages k) as [selection rest]. cbn [fst] in Hsel.
  assert (Hstart : staged_ok [] (MkStaged (MkRaw [s] []) s 0)).
  { constructor; [|done]. exists []. split_and!; [done|constructor| |done|done].
    right. simpl. lia. }
  destruct (stage_legs _ _ _ _ _ _) as [[sg|code|] w] eqn:El; [|by apply Hst..].
  apply (stage_legs_spec [] stages selection) in El; [|done|done]. cbn [app] in El.
  destruct (_ && _ && _) eqn:Eroom; [by apply Hst|].
  pose proof (leg_spec stages sg d (other_nodes [sg_current sg; d] (sg_combined sg)) w El Hdest) as Hleg.
  cbv zeta in Hleg. destruct (ShortestPath _ _ _ _ _ _) as [leg w1]. cbn [fst] in Hleg.
  destruct (so_resource_limit leg); [by apply Hst|].
  destruct (so_found leg); cbn [negb]; [|by apply Hst].
  destruct (RawPathIsSimple _) eqn:Esimple; cbn [negb]; [|by apply Hst].
  destruct (ComputeRawPathCost _ _) as [cost|]; [|by apply Hst].
  destruct Hleg as (l & Hj & Hw & Hb & _ & Hvis); [|done|done|].
  { apply andb_false_iff in Eroom as [Eroom|Eroom];
      [apply andb_false_iff in Eroom as [Eroom|Eroom]|]; bool_to_prop; auto. }
  rewrite Hj in *. apply RawPathIsSimple_spec in Esimple.
  assert (Hpath : transit_path stages (walk_raw v s l)) by (exists l; done).
  cbn [fst tr_best]. destruct (tr_best st) as [b|] eqn:Eb.
  - destruct (RankedBefore _ _ _); intros [= <-]; [done|by apply Hst].
  - by intros [= <-].
Qed.

Lemma try_combinations_spec stages ks st :
  Forall (λ k, 0 <= k) ks → Forall (λ stage, ts_alternatives stage ≠ []) stages →
  (∀ best, tr_best st = Some best → transit_path stages (rr_path best)) →
  ∀ best, tr_best (try_combinations v options stages ks st).1 = Some best →
    transit_path stages (rr_path best).
Proof.
  intros Hks Hne. revert st. induction Hks as [|k ks Hk _ IH]; intros st Hst; [done|].
  cbn [try_combinations]. pose proof (try_combination_spec stages k st Hk Hne Hst) as Hs.
  destruct (try_combination v options stages k st) as [st1 [detail|]]; [done|]. by apply IH.
Qed.

Lemma count_combinations_nonempty limit stages c a r :
  count_combinations limit stages c a = inr r → Forall (λ stage, ts_alternatives stage ≠ []) stages.
Proof.
  revert c a. induction stages as [|stage stages IH]; intros c a; cbn [count_combinations]; [done|].
  destruct (_ =? 0) eqn:E; [done|]. bool_to_prop. cbv zeta. destruct (_ >? _); [done|].
  intros Hr. constructor; [|by eapply IH]. intros Hnil. rewrite Hnil in E. done.
Qed.

Lemma enumerate_transit_spec stages w :
  let r := enumerate_transit v options stages w in
  if en_ok r.1 then ∃ raw, en_paths r.1 = [raw] ∧ transit_path stages raw else en_paths r.1 = [].
Proof.
  unfold enumerate_transit. destruct (_ >? 1); [done|]. cbv zeta.
  destruct (count_combinations _ _ _ _) as [r|[c a]] eqn:Ec.
  { assert (Hr : en_ok r = false ∧ en_paths r = []).
    { revert Ec. generalize 1, 0. induction stages as [|stage stages IH]; intros c a;
        cbn [count_combinations]; [done|]. cbv zeta.
      destruct (_ =? 0); [by intros [= <-]|]. destruct (_ >? _); [by intros [= <-]|]. apply IH. }
    cbn [fst]. by destruct Hr as [-> ->]. }
  destruct (_ >? _); [done|]. destruct (_ >? _); [done|].
  pose proof (try_combinations_spec stages (map Z.of_nat (seq 0 (Z.to_nat c)))
    (MkTransit None kRequiredNodeMissing w)) as Hs.
  assert (Hks : Forall (λ k, 0 <= k) (map Z.of_nat (seq 0 (Z.to_nat c)))).
  { apply Forall_map, Forall_forall. intros. simpl. lia. }
  specialize (Hs Hks (count_combinations_nonempty _ _ _ _ _ Ec) ltac:(done)).
  destruct (try_combinations _ _ _ _ _) as [st [detail|]]; [done|]. cbn [fst] in Hs.
  destruct (tr_best st) as [best|]; [|done]. cbn [fst en_ok en_paths].
  exists (rr_path best). split; [done|]. by apply Hs.
Qed.
End transit.

(** C39: with required transit stages the enumeration reports at most one path, and
    that path is a simple walk from the source to the destination within the hop
    bound that visits an alternative of every stage in the order of the stages;
    more than one candidate is refused as unsupported. *)
Theorem transit_in_order v request options w :
  Searchable v → (op_source_view options < NodeCount v)%nat →
  (op_destination_view options < NodeCount v)%nat → 0 <= op_max_hops options <= u32_max →
  let stages := cs_required_transit (rq_constraints request) in
  let r := EnumerateCandidatePaths v request options w in
  stages ≠ [] →
  (if en_ok r.1 then ∃ raw, en_paths r.1 = [raw] ∧ transit_path v options stages raw
   else en_paths r.1 = []) ∧
  (1 < op_max_candidates options → en_ok r.1 = false ∧ en_failure r.1 = kUnsupportedRequest).
Proof.
  intros Hv Hs Hd Hm stages r Hne. unfold r, EnumerateCandidatePaths. cbv zeta.
  rewrite (proj2 (Nat.eqb_neq _ 0)) by by destruct (cs_required_transit (rq_constraints request)).
  cbn [negb]. split; [by apply enumerate_transit_spec|]. intros Hk. unfold enumerate_transit.
  by rewrite (proj2 (Z.gtb_lt _ _)).
Qed.

(** The demo request with node 3 required on the way. *)
Definition transit_request : PlanningRequest :=
  let c := rq_constraints demo_request in
  MkRequest (rq_id demo_request) (rq_source demo_request) (rq_destination demo_request)
    (MkConstraints (cs_id c) 1 PathLayer.kPhysical [] [] [] [] []
       [MkStage TransitKind.kExact [Demo.node 3]] [] None None false)
    (rq_policy demo_request) 1 PlanningMode.kStandard (rq_authority demo_request)
    false 0 false 0 false (nil_id _).
Definition single_options : EnumerationOptions := MkOptions 0 3 1 1 kNoHopBound false.

Lemma transit_in_order_witness :
  let r := EnumerateCandidatePaths demo_built transit_request single_options demo_work in
  map rp_nodes (en_paths r.1) = [[0%nat; 2%nat; 3%nat]] ∧
  (if en_ok r.1
   then ∃ raw, en_paths r.1 = [raw] ∧
     transit_path demo_built single_options [MkStage TransitKind.kExact [Demo.node 3]] raw
   else en_paths r.1 = []).
Proof.
  split; [vm_compute; reflexivity|].
  apply (transit_in_order demo_built transit_request single_options demo_work).
  - apply demo_searchable.
  - vm_compute. lia.
  - vm_compute. lia.
  - vm_compute. split; congruence.
  - done.
Defined.
