(* ===== verification/Planner.v ===== *)
(** planner.hpp / planner.cpp: the planner runtime. Every member function is its
    critical sections, one function on the state each, composed with the lock-free
    work between them: [Plan] is [begin_plan] (capture under the lock), [compute]
    (validation, endpoint resolution, view construction, search, ranking, authority
    validation), [watermark_moved] (the compare-before-publish under the lock) and
    [publish] (identity, generation and statistics under the lock).

    The stage hooks are observational and run outside the lock; what a hook may do
    to the runtime is an interleaved operation of another caller. *)

From S2P Require Import Prelude Canonical Sha256 Status Ids Codec Limits Graph Path Request View Result Reach PathSearch.
Import DiagnosticCode.

(** ** Evidence differences *)

Definition EvidenceChangeDetail (dimension : string) (before after : Z) : string :=
  dimension +:+ " generation changed: " +:+ UIntToString before +:+ " -> " +:+ UIntToString after.

(** [if (changed) changes.push_back(...)]. *)
Definition note_change (changed : bool) (code : DiagnosticCode.t) (detail : string)
    (changes : list ExplanationEntry) : list ExplanationEntry :=
  if changed then changes ++ [MkExplanation code detail] else changes.

Definition DiffEvidence (prior current : EvidenceVector) : list ExplanationEntry :=
  let p := ev_generations prior in
  let c := ev_generations current in
  let generation (g : SnapshotGenerations → Z) code dimension :=
    note_change (negb (g p =? g c)) code (EvidenceChangeDetail dimension (g p) (g c)) in
  []
    |> generation g_topology kTopologyGenerationMismatch "topology"%string
    |> generation g_link_state kStaleEvidence "link-state"%string
    |> generation g_ports kStaleEvidence "port"%string
    |> generation g_capabilities kStaleEvidence "capability"%string
    |> generation g_failure_domains kStaleEvidence "failure-domain"%string
    |> generation g_policy kStaleEvidence "policy"%string
    |> generation g_epoch kEpochMismatch "fabric epoch"%string
    |> note_change (negb (eqb (ev_snapshot prior) (ev_snapshot current))) kStaleEvidence
         ("snapshot identity changed: " +:+ IdToString (ev_snapshot prior) +:+ " -> " +:+
          IdToString (ev_snapshot current))%string
    |> note_change (negb (ev_publish_sequence prior =? ev_publish_sequence current))
         kInvalidationWatermarkChanged
         ("publication watermark advanced: " +:+ UIntToString (ev_publish_sequence prior) +:+
          " -> " +:+ UIntToString (ev_publish_sequence current))%string.

(** ** Failure classification *)

(** [for (code : codes) if (log.Contains(code)) return code]. *)
Definition first_logged (log : RejectionLog) (codes : list DiagnosticCode.t) :
  option DiagnosticCode.t := List.find (Contains log) codes.

Definition operational_codes : list DiagnosticCode.t :=
  [kLinkStateDown; kLinkStateFaulted; kLinkStateRetired; kLinkStateRevalidationRequired;
   kLinkStateUnknown; kLinkStateDegradedDisallowed; kPortAdminDisabled; kPortDraining;
   kPortMaintenance; kPortRetired; kPortSuperseded; kPortRevalidationRequired; kPortUnknown;
   kCostOverflow].
Definition capability_codes : list DiagnosticCode.t := [kCapabilityUnknown; kCapabilityInsufficient].
Definition domain_codes : list DiagnosticCode.t :=
  [kFailureDomainForbidden; kFailureDomainUnknown; kFailureDomainClassForbidden;
   kFailureDomainMemberLimitExceeded].

Definition PrimaryFailure (v : PlanningView) (structural_reachable : bool) : DiagnosticCode.t :=
  let log := v_rejections v in
  if negb structural_reachable
  then default kNoStructuralPath
         (first_logged log [kForbiddenLink; kForbiddenPort; kForbiddenNode; kLayerMismatch])
  else
    onerror code := first_logged log operational_codes give code ;;
    onerror code := first_logged log capability_codes give code ;;
    onerror code := first_logged log domain_codes give code ;;
    default kNoStructuralPath (first_logged log [kForbiddenNode; kForbiddenLink; kForbiddenPort]).

Definition StatusForFailure (code : DiagnosticCode.t) : PlanStatus.t :=
  match code with
  | kRequiredNodeMissing | kRequiredAnySetUnsatisfied | kMaxHopsExceeded
  | kZeroHopSelfPathDisallowed | kFailureDomainMemberLimitExceeded =>
      PlanStatus.kConstraintUnsatisfied
  | kCostOverflow | kWorkBudgetExhausted | kConstraintCountExceeded => PlanStatus.kResourceLimit
  | kUnsupportedRequest => PlanStatus.kUnsupported
  | _ => PlanStatus.kNoPath
  end.

(** ** Endpoint resolution *)

Record Refusal := MkRefusal {
  rf_status : PlanStatus.t; rf_code : DiagnosticCode.t; rf_detail : string
}.

(** The refusal, or the endpoint and its node. *)
Definition ResolveEndpoint (s : FabricSnapshot) (ref : EndpointRef) (is_source : bool) :
  Refusal + (EndpointRecord * NodeRecord) :=
  let side := if is_source then "source"%string else "destination"%string in
  let unknown := if is_source then PlanStatus.kSourceUnknown else PlanStatus.kDestinationUnknown in
  match FindEndpoint s (er_id ref) with
  | None =>
      inl (MkRefusal unknown kUnknownEndpoint
             (side +:+ " endpoint has no published binding: " +:+ IdToString (er_id ref)))
  | Some record =>
      early inl (MkRefusal PlanStatus.kUnsupported kUnsupportedEndpointClass
                   (side +:+ " endpoint class mismatch: requested " +:+ EnumName (er_class ref) +:+
                    ", published " +:+ EnumName (ep_class record)))
        when negb (enum_eqb (ep_class record) (er_class ref)) ;;
      early inl (MkRefusal (if is_source then PlanStatus.kSourceStale
                            else PlanStatus.kDestinationStale) kEntityGenerationMismatch
                   (side +:+ " endpoint generation " +:+ UIntToString (er_generation ref) +:+
                    " does not match published generation " +:+
                    UIntToString (ep_entity_generation record)))
        when negb (ep_entity_generation record =? er_generation ref) ;;
      match FindNode s (ep_node record) with
      | None => inl (MkRefusal unknown kUnknownEndpoint
                       (side +:+ " endpoint resolves to an unknown node"))
      | Some node => inr (record, node)
      end
  end.

(** ** The state of the runtime *)

(** The caller's Path Authority: the number of the call within one plan, the path
    and the evidence give a verdict and a reason, which the planner discards. *)
Definition IPathAuthority : Type :=
  nat → CandidatePath → EvidenceVector → AuthorityValidation.t * string.

Record RetainedPlan := MkRetained { rt_plan : PathPlan; rt_currentness : Currentness.t }.
Record RequestGeneration := MkRequestGeneration { rg_digest : bytes; rg_generation : Z }.

(** [capability_index] and [domain_index] of the source are never used. *)
Record Runtime := MkRuntime {
  rn_limits : ResourceLimits; rn_snapshot : option FabricSnapshot;
  rn_authority : option IPathAuthority; rn_publish_sequence : Z; rn_epoch : Z;
  rn_stats : PlannerStatistics; rn_retained : gmap string RetainedPlan;
  rn_retention_order : list PathPlanId; rn_subject_index : gmap string (list string);
  rn_request_generations : gmap string RequestGeneration;
  rn_request_generation_order : list string;
  rn_reverse_entries : Z; rn_reverse_index_complete : bool
}.

(** Assignments to the members of [Impl]. *)
Definition set_stats (stats : PlannerStatistics) (r : Runtime) : Runtime :=
  MkRuntime (rn_limits r) (rn_snapshot r) (rn_authority r) (rn_publish_sequence r) (rn_epoch r)
    stats (rn_retained r) (rn_retention_order r) (rn_subject_index r) (rn_request_generations r)
    (rn_request_generation_order r) (rn_reverse_entries r) (rn_reverse_index_complete r).
Definition set_epoch (epoch : Z) (r : Runtime) : Runtime :=
  MkRuntime (rn_limits r) (rn_snapshot r) (rn_authority r) (rn_publish_sequence r) epoch
    (rn_stats r) (rn_retained r) (rn_retention_order r) (rn_subject_index r)
    (rn_request_generations r) (rn_request_generation_order r) (rn_reverse_entries r)
    (rn_reverse_index_complete r).
Definition set_snapshot (snapshot : option FabricSnapshot) (r : Runtime) : Runtime :=
  MkRuntime (rn_limits r) snapshot (rn_authority r) (rn_publish_sequence r) (rn_epoch r)
    (rn_stats r) (rn_retained r) (rn_retention_order r) (rn_subject_index r)
    (rn_request_generations r) (rn_request_generation_order r) (rn_reverse_entries r)
    (rn_reverse_index_complete r).
(** [publish_sequence = PlanPublishSequence(publish_sequence.Value() + 1)]. *)
Definition advance_watermark (r : Runtime) : Runtime :=
  MkRuntime (rn_limits r) (rn_snapshot r) (rn_authority r) (wrap64 (rn_publish_sequence r + 1))
    (rn_epoch r) (rn_stats r) (rn_retained r) (rn_retention_order r) (rn_subject_index r)
    (rn_request_generations r) (rn_request_generation_order r) (rn_reverse_entries r)
    (rn_reverse_index_complete r).
Definition set_retained (retained : gmap string RetainedPlan) (r : Runtime) : Runtime :=
  MkRuntime (rn_limits r) (rn_snapshot r) (rn_authority r) (rn_publish_sequence r) (rn_epoch r)
    (rn_stats r) retained (rn_retention_order r) (rn_subject_index r)
    (rn_request_generations r) (rn_request_generation_order r) (rn_reverse_entries r)
    (rn_reverse_index_complete r).
Definition set_retention_order (order : list PathPlanId) (r : Runtime) : Runtime :=
  MkRuntime (rn_limits r) (rn_snapshot r) (rn_authority r) (rn_publish_sequence r) (rn_epoch r)
    (rn_stats r) (rn_retained r) order (rn_subject_index r) (rn_request_generations r)
    (rn_request_generation_order r) (rn_reverse_entries r) (rn_reverse_index_complete r).
Definition set_index (index : gmap string (list string)) (total : Z) (r : Runtime) : Runtime :=
  MkRuntime (rn_limits r) (rn_snapshot r) (rn_authority r) (rn_publish_sequence r) (rn_epoch r)
    (rn_stats r) (rn_retained r) (rn_retention_order r) index (rn_request_generations r)
    (rn_request_generation_order r) total (rn_reverse_index_complete r).
Definition set_index_incomplete (r : Runtime) : Runtime :=
  MkRuntime (rn_limits r) (rn_snapshot r) (rn_authority r) (rn_publish_sequence r) (rn_epoch r)
    (rn_stats r) (rn_retained r) (rn_retention_order r) (rn_subject_index r)
    (rn_request_generations r) (rn_request_generation_order r) (rn_reverse_entries r) false.
Definition set_request_generations (generations : gmap string RequestGeneration)
    (order : list string) (r : Runtime) : Runtime :=
  MkRuntime (rn_limits r) (rn_snapshot r) (rn_authority r) (rn_publish_sequence r) (rn_epoch r)
    (rn_stats r) (rn_retained r) (rn_retention_order r) (rn_subject_index r) generations order
    (rn_reverse_entries r) (rn_reverse_index_complete r).

(** [stats.x += n]. *)
Definition count_computed (s : PlannerStatistics) : PlannerStatistics :=
  MkStats (wrap64 (plans_computed s + 1)) (plans_published s) (plans_publish_rejected_stale s)
    (candidates_returned s) (states_expanded s) (queue_pushes s) (spur_searches s)
    (snapshots_published s) (epochs_advanced s) (invalidations_applied s) (plans_retired s).
Definition count_rejected_stale (s : PlannerStatistics) : PlannerStatistics :=
  MkStats (plans_computed s) (plans_published s) (wrap64 (plans_publish_rejected_stale s + 1))
    (candidates_returned s) (states_expanded s) (queue_pushes s) (spur_searches s)
    (snapshots_published s) (epochs_advanced s) (invalidations_applied s) (plans_retired s).
Definition count_published (candidates : nat) (s : PlannerStatistics) : PlannerStatistics :=
  MkStats (plans_computed s) (wrap64 (plans_published s + 1)) (plans_publish_rejected_stale s)
    (wrap64 (candidates_returned s + Z.of_nat candidates)) (states_expanded s) (queue_pushes s)
    (spur_searches s) (snapshots_published s) (epochs_advanced s) (invalidations_applied s)
    (plans_retired s).
Definition count_snapshot (s : PlannerStatistics) : PlannerStatistics :=
  MkStats (plans_computed s) (plans_published s) (plans_publish_rejected_stale s)
    (candidates_returned s) (states_expanded s) (queue_pushes s) (spur_searches s)
    (wrap64 (snapshots_published s + 1)) (epochs_advanced s) (invalidations_applied s)
    (plans_retired s).
Definition count_epoch (s : PlannerStatistics) : PlannerStatistics :=
  MkStats (plans_computed s) (plans_published s) (plans_publish_rejected_stale s)
    (candidates_returned s) (states_expanded s) (queue_pushes s) (spur_searches s)
    (snapshots_published s) (wrap64 (epochs_advanced s + 1)) (invalidations_applied s)
    (plans_retired s).
Definition count_invalidation (s : PlannerStatistics) : PlannerStatistics :=
  MkStats (plans_computed s) (plans_published s) (plans_publish_rejected_stale s)
    (candidates_returned s) (states_expanded s) (queue_pushes s) (spur_searches s)
    (snapshots_published s) (epochs_advanced s) (wrap64 (invalidations_applied s + 1))
    (plans_retired s).
Definition count_retired (s : PlannerStatistics) : PlannerStatistics :=
  MkStats (plans_computed s) (plans_published s) (plans_publish_rejected_stale s)
    (candidates_returned s) (states_expanded s) (queue_pushes s) (spur_searches s)
    (snapshots_published s) (epochs_advanced s) (invalidations_applied s)
    (wrap64 (plans_retired s + 1)).
Definition update_stats (f : PlannerStatistics → PlannerStatistics) (r : Runtime) : Runtime :=
  set_stats (f (rn_stats r)) r.

(** ** The reverse dependency index *)

Definition PlanKey (id : PathPlanId) : string := IdToString id.

Definition subjects_of (plan : PathPlan) : list SubjectKey :=
  dp_subjects (CollectPlanDependencies plan).

Definition index_subject (key : string) (subject : SubjectKey) (r : Runtime) : Runtime * bool :=
  early (set_index_incomplete r, true)
    when (rn_reverse_entries r >=? max_reverse_dependency_entries (rn_limits r)) ;;
  let text := SubjectToString subject in
  let keys := default [] (rn_subject_index r !! text) in
  (set_index (<[text := keys ++ [key]]> (rn_subject_index r)) (rn_reverse_entries r + 1) r, false).

Definition IndexPlan (plan : PathPlan) (r : Runtime) : Runtime :=
  (for_each (index_subject (PlanKey (pl_id plan))) (subjects_of plan) r).1.

Definition unindex_subject (key : string) (r : Runtime) (subject : SubjectKey) : Runtime :=
  let text := SubjectToString subject in
  match rn_subject_index r !! text with
  | None => r
  | Some keys =>
      let kept := List.filter (λ entry, negb (String.eqb entry key)) keys in
      let removed := Z.of_nat (length keys) - Z.of_nat (length kept) in
      let total := rn_reverse_entries r in
      set_index
        (if (length kept =? 0)%nat then delete text (rn_subject_index r)
         else <[text := kept]> (rn_subject_index r))
        (if removed >? total then 0 else total - removed) r
  end.

Definition UnindexPlan (plan : PathPlan) (r : Runtime) : Runtime :=
  fold_left (unindex_subject (PlanKey (pl_id plan))) (subjects_of plan) r.

(** [while (order.size() > limit)]: the oldest request is forgotten. *)
Fixpoint trim_generations (limit : Z) (generations : gmap string RequestGeneration)
    (order : list string) : gmap string RequestGeneration * list string :=
  match order with
  | [] => (generations, [])
  | victim :: rest =>
      if Z.of_nat (length order) >? limit
      then trim_generations limit (delete victim generations) rest
      else (generations, order)
  end.

Definition NextGeneration (request : PlanningRequestId) (digest : bytes) (r : Runtime) :
  Runtime * Z :=
  let key := IdToString request in
  match rn_request_generations r !! key with
  | Some existing =>
      early (r, rg_generation existing) when eqb (rg_digest existing) digest ;;
      let next := default (rg_generation existing) (CheckedAdd (rg_generation existing) 1) in
      (set_request_generations
         (<[key := MkRequestGeneration digest next]> (rn_request_generations r))
         (rn_request_generation_order r) r, next)
  | None =>
      let '(generations, order) :=
        trim_generations (max_retained_plans (rn_limits r))
          (<[key := MkRequestGeneration digest 1]> (rn_request_generations r))
          (rn_request_generation_order r ++ [key]) in
      (set_request_generations generations order r, 1)
  end.

(** ** Construction and publication *)

Record PlannerConfig := MkPlannerConfig {
  pc_limits : ResourceLimits; pc_initial_snapshot : option FabricSnapshot;
  pc_path_authority : option IPathAuthority
}.

Definition snapshot_epoch (s : FabricSnapshot) : Z := g_epoch (s_generations s).

Definition new_PlannerRuntime (config : PlannerConfig) : Runtime :=
  MkRuntime (pc_limits config) (pc_initial_snapshot config) (pc_path_authority config) 0
    (match pc_initial_snapshot config with Some s => snapshot_epoch s | None => 0 end)
    zero_stats ∅ [] ∅ ∅ [] 0 true.

Definition PublishSnapshot (snapshot : option FabricSnapshot) (r : Runtime) : Runtime :=
  let r := set_snapshot snapshot r |> advance_watermark |> update_stats count_snapshot in
  match snapshot with Some s => set_epoch (snapshot_epoch s) r | None => r end.

(** The accessors, each under the lock. *)
Definition CurrentSnapshot (r : Runtime) : option FabricSnapshot := rn_snapshot r.
Definition CurrentEpoch (r : Runtime) : Z := rn_epoch r.
Definition PublishSequence (r : Runtime) : Z := rn_publish_sequence r.
Definition RuntimeLimits (r : Runtime) : ResourceLimits := rn_limits r.
Definition Stats (r : Runtime) : PlannerStatistics := rn_stats r.
Definition ResetStats (r : Runtime) : Runtime := set_stats zero_stats r.

(** ** Planning *)

(** What the first critical section of [Plan] copies out. *)
Record Capture := MkCapture {
  cp_limits : ResourceLimits; cp_snapshot : option FabricSnapshot; cp_sequence : Z;
  cp_epoch : Z; cp_authority : option IPathAuthority
}.

Definition begin_plan (r : Runtime) : Runtime * Capture :=
  (update_stats count_computed r,
   MkCapture (rn_limits r) (rn_snapshot r) (rn_publish_sequence r) (rn_epoch r) (rn_authority r)).

(** Status, primary failure and explanation of an early return. *)
Definition refuse (status : PlanStatus.t) (code : DiagnosticCode.t) (detail : string)
    (result : PlanningResult) : PlanningResult :=
  result |> set_status status |> set_failure (Some code) |> explain code detail.

(** The checks before an endpoint is looked at: the refusal or the snapshot. *)
Definition admit_request (capture : Capture) (request : PlanningRequest) : Refusal + FabricSnapshot :=
  let caller := rq_authority request in
  onerror e := ValidateRequest request (cp_limits capture)
    give inl (MkRefusal (StatusForValidationCode e.1) e.1 e.2) ;;
  early inl (MkRefusal PlanStatus.kUnauthorized kAuthorityScopeInsufficient
               "caller authority does not include kSubmitPlanRequest")
    when (ca_enforce_scope caller &&
          negb (HasScope (ca_scope_mask caller) AuthorityScope.kSubmitPlanRequest)) ;;
  early inl (MkRefusal PlanStatus.kEpochStale kEpochMismatch
               ("request carries coordinator epoch " +:+ UIntToString (ca_coordinator_epoch caller)
                +:+ " but the runtime epoch is " +:+ UIntToString (cp_epoch capture)))
    when (ca_epoch_bound caller && negb (ca_coordinator_epoch caller =? cp_epoch capture)) ;;
  match cp_snapshot capture with
  | None => inl (MkRefusal PlanStatus.kRevalidationRequired kSnapshotNotAvailable
                   "no fabric snapshot has been published to this runtime")
  | Some s =>
      let generations := s_generations s in
      early inl (MkRefusal PlanStatus.kEpochStale kEpochMismatch
                   ("request expects fabric epoch " +:+ UIntToString (rq_expected_epoch request) +:+
                    " but the captured snapshot carries " +:+ UIntToString (g_epoch generations)))
        when (rq_expect_epoch request && negb (rq_expected_epoch request =? g_epoch generations)) ;;
      early inl (MkRefusal PlanStatus.kTopologyStale kTopologyGenerationMismatch
                   ("request expects topology generation " +:+
                    UIntToString (rq_expected_topology request) +:+
                    " but the captured snapshot carries " +:+
                    UIntToString (g_topology generations)))
        when (rq_expect_topology request &&
              negb (rq_expected_topology request =? g_topology generations)) ;;
      early inl (MkRefusal PlanStatus.kRevalidationRequired kStaleEvidence
                   ("request expects snapshot " +:+ IdToString (rq_expected_snapshot request) +:+
                    " but the captured snapshot is " +:+ IdToString (SnapshotIdOf s)))
        when (rq_expect_snapshot request &&
              negb (eqb (rq_expected_snapshot request) (SnapshotIdOf s))) ;;
      inr s
  end.

Definition resolve_endpoints (s : FabricSnapshot) (request : PlanningRequest) :
  Refusal + (EndpointRecord * NodeRecord * (EndpointRecord * NodeRecord)) :=
  match ResolveEndpoint s (rq_source request) true with
  | inl refusal => inl refusal
  | inr source =>
      match ResolveEndpoint s (rq_destination request) false with
      | inl refusal => inl refusal
      | inr destination => inr (source, destination)
      end
  end.

(** The evidence a result carries: the snapshot's, at the captured watermark. *)
Definition captured_evidence (s : FabricSnapshot) (sequence : Z) : EvidenceVector :=
  MkEvidence (SnapshotIdOf s) (s_generations s) (s_source s) sequence.

Definition is_diagnostic (request : PlanningRequest) : bool :=
  enum_eqb (rq_mode request) PlanningMode.kDiagnosticNonCurrent.

(** The result once the endpoints are resolved and the evidence is captured. *)
Definition resolved_result (s : FabricSnapshot) (sequence : Z) (request : PlanningRequest)
    (source destination : EndpointRecord * NodeRecord) : PlanningResult :=
  MkResult PlanStatus.kNoPath None (ep_id source.1) (ep_id destination.1) (n_id source.2)
    (n_id destination.2) [] [] [] (captured_evidence s sequence) (nil_id _) 0 zero_digest
    (rq_max_candidates request) false (is_diagnostic request).

(** A [Candidate] with its path, cost and identity set. *)
Definition new_candidate (path : CandidatePath) (cost : PathCost) : Candidate :=
  MkCandidate (PathId path) path cost 0 zero_evidence default_provenance
    AuthorityValidation.kNotRequested Currentness.kCurrent [].

(** One raw path of the enumeration; [None] is [continue]. *)
Definition raw_candidate (v : PlanningView) (raw : RawPath) : option Candidate :=
  let path := BuildCandidatePath v raw in
  match ComputeRawPathCost v raw with
  | None => None
  | Some cost =>
      early None when (negb (IsWellFormed path) || negb (IsSimple path)) ;;
      Some (new_candidate path cost)
  end.

(** The local variables of [Plan] after the search. *)
Record Enumerated := MkEnumerated {
  em_candidates : list Candidate; em_truncated : bool; em_failure : option DiagnosticCode.t;
  em_detail : string; em_resource_limit : bool; em_stats : PlannerStatistics
}.

Definition enumeration_options (request : PlanningRequest) (limits : ResourceLimits)
    (source destination : nat) : EnumerationOptions :=
  let constraints := rq_constraints request in
  let active := match cs_max_members_per_failure_domain constraints with
                | Some _ => true | None => false end in
  MkOptions source destination (rq_max_candidates request)
    (if active then Z.max (rq_max_candidates request) (max_enumeration_candidates limits)
     else rq_max_candidates request)
    (default kNoHopBound (cs_max_hops constraints)) active.

Definition initial_work (limits : ResourceLimits) : Work :=
  MkWork (MkBudget (max_expanded_states limits) (max_queue_entries limits)
            (max_spur_searches limits) false false) zero_stats.

(** The branch that runs the enumeration. *)
Definition search_candidates (v : PlanningView) (request : PlanningRequest)
    (limits : ResourceLimits) (source destination : nat) : Enumerated :=
  let '(enumeration, work) :=
    EnumerateCandidatePaths v request (enumeration_options request limits source destination)
      (initial_work limits) in
  let exhausted := wb_exhausted (w_budget work) in
  let candidates :=
    if en_ok enumeration || en_resource_limit enumeration
    then omap (raw_candidate v) (en_paths enumeration) else [] in
  let failure := if en_ok enumeration then None else Some (en_failure enumeration) in
  let detail := if en_ok enumeration then ""%string else en_detail enumeration in
  let resource_limit := if en_ok enumeration then false else en_resource_limit enumeration in
  MkEnumerated candidates (en_truncated enumeration)
    (match failure with
     | None => if exhausted then Some kWorkBudgetExhausted else None
     | Some code => Some code
     end)
    (if exhausted then "deterministic work budget exhausted"%string else detail)
    (resource_limit || exhausted) (w_stats work).

(** [source] and [destination] are the view indices of the endpoints. *)
Definition enumerate (v : PlanningView) (request : PlanningRequest) (limits : ResourceLimits)
    (source destination : nat) : Enumerated :=
  let identity_request := (source =? destination)%nat in
  let transit_requested := negb (length (cs_required_transit (rq_constraints request)) =? 0)%nat in
  if identity_request && negb transit_requested && pp_allow_zero_hop_self_path (rq_policy request)
  then
    let zero_hop := MkRaw [source] [] in
    MkEnumerated
      [new_candidate (BuildCandidatePath v zero_hop) (default zero_cost (ComputeRawPathCost v zero_hop))]
      false None "" false zero_stats
  else if identity_request && negb transit_requested
  then MkEnumerated [] false (Some kZeroHopSelfPathDisallowed)
         "source and destination resolve to the same node and zero-hop self paths are disabled"
         false zero_stats
  else search_candidates v request limits source destination.

(** *** Ranking *)

(** The order of [std::sort] with [RanksBefore]. *)
Definition ranks_no_later (l r : Candidate) : Prop := RanksBefore r l = false.
#[export] Instance ranks_no_later_dec : RelDecision ranks_no_later :=
  λ l r, decide (RanksBefore r l = false).

(** Sort, remove adjacent candidates of equal identity, cut to the requested count. *)
Definition rank_candidates (max_candidates : Z) (l : list Candidate) : list Candidate :=
  take (Z.to_nat max_candidates) (unique_by cd_id (merge_sort ranks_no_later l)).

Definition set_rank (index : nat) (c : Candidate) : Candidate :=
  MkCandidate (cd_id c) (cd_path c) (cd_cost c) (wrap32 (Z.of_nat index + 1)) (cd_evidence c)
    (cd_provenance c) (cd_authority c) (cd_currentness c) (cd_notes c).
Definition add_note (note : DiagnosticCode.t) (c : Candidate) : Candidate :=
  MkCandidate (cd_id c) (cd_path c) (cd_cost c) (cd_rank c) (cd_evidence c) (cd_provenance c)
    (cd_authority c) (cd_currentness c) (cd_notes c ++ [note]).
Definition set_authority (verdict : AuthorityValidation.t) (c : Candidate) : Candidate :=
  MkCandidate (cd_id c) (cd_path c) (cd_cost c) (cd_rank c) (cd_evidence c) (cd_provenance c)
    verdict (cd_currentness c) (cd_notes c).
Definition set_currentness (value : Currentness.t) (c : Candidate) : Candidate :=
  MkCandidate (cd_id c) (cd_path c) (cd_cost c) (cd_rank c) (cd_evidence c) (cd_provenance c)
    (cd_authority c) value (cd_notes c).

Definition annotate (request : PlanningRequest) (source : EvidenceSource.t)
    (evidence : EvidenceVector) (provisional : bool) (index : nat) (c : Candidate) : Candidate :=
  let constraints := rq_constraints request in
  let c :=
    MkCandidate (cd_id c) (cd_path c) (cd_cost c) (wrap32 (Z.of_nat index + 1)) evidence
      (MkProvenance (pv_planning_generation (cd_provenance c)) (cs_id constraints)
         (cs_generation constraints) (pp_generation (rq_policy request)) source
         kPlanningRuleVersion kPathEncodingVersion)
      (cd_authority c)
      (if provisional then Currentness.kRevalidationRequired else Currentness.kCurrent)
      (cd_notes c) in
  if provisional then add_note kNonCurrentCandidate c else c.

(** *** Path Authority *)

(** The loop over the candidates: those kept, and whether any was rejected. *)
Fixpoint validate_all (authority : IPathAuthority) (evidence : EvidenceVector) (best_effort : bool)
    (call : nat) (l : list Candidate) : list Candidate * bool :=
  match l with
  | [] => ([], false)
  | c :: l =>
      let verdict := (authority call (cd_path c) evidence).1 in
      let c := set_authority verdict c in
      let '(validated, rejected_any) := validate_all authority evidence best_effort (S call) l in
      match verdict with
      | AuthorityValidation.kValidated => (c :: validated, rejected_any)
      | AuthorityValidation.kRejected => (validated, true)
      | AuthorityValidation.kUnavailable | AuthorityValidation.kNotRequested =>
          (if best_effort then add_note kAuthorityValidationUnavailable c :: validated
           else validated, rejected_any)
      end
  end.

Inductive AuthorityOutcome :=
  | Proceed (candidates : list Candidate)
  | PortMissing
  | AllRejected.

Definition authority_stage (authority : option IPathAuthority) (mode : AuthorityValidationMode.t)
    (evidence : EvidenceVector) (candidates : list Candidate) : AuthorityOutcome :=
  early Proceed candidates
    when (enum_eqb mode AuthorityValidationMode.kNone || (length candidates =? 0)%nat) ;;
  match authority with
  | None =>
      early PortMissing when enum_eqb mode AuthorityValidationMode.kRequired ;;
      Proceed (map (λ c, add_note kAuthorityValidationUnavailable
                           (set_authority AuthorityValidation.kUnavailable c)) candidates)
  | Some authority =>
      let best_effort := enum_eqb mode AuthorityValidationMode.kBestEffort in
      let '(validated, rejected_any) := validate_all authority evidence best_effort 0 candidates in
      early AllRejected when ((length validated =? 0)%nat && rejected_any) ;;
      Proceed (imap set_rank validated)
  end.

(** *** The outcome *)

(** No candidate is left: the primary failure, its status, the explanations. *)
Definition conclude_empty (s : FabricSnapshot) (request : PlanningRequest)
    (source destination : NodeId) (v : PlanningView) (e : Enumerated) (result : PlanningResult) :
  PlanningResult :=
  let structural_distance := StructuralHopDistance s source destination request in
  let structural := match structural_distance with Some _ => true | None => false end in
  (* a bare "no path" of the enumeration is not a cause *)
  let cause :=
    match em_failure e with
    | Some code => if enum_eqb code kNoStructuralPath then None else Some code
    | None => None
    end in
  let hop_bound_exceeded :=
    match structural_distance, cs_max_hops (rq_constraints request) with
    | Some distance, Some max_hops => if distance >? max_hops then Some (distance, max_hops) else None
    | _, _ => None
    end in
  let '(primary, result) :=
    match cause, hop_bound_exceeded with
    | Some code, _ => (code, result)
    | None, Some (distance, max_hops) =>
        (kMaxHopsExceeded,
         explain kMaxHopsExceeded
           ("the shortest structural path needs " +:+ UIntToString distance +:+
            " hops, which exceeds max_hops=" +:+ UIntToString max_hops) result)
    | None, None => (PrimaryFailure v structural, result)
    end in
  let status :=
    if em_resource_limit e then PlanStatus.kResourceLimit else StatusForFailure primary in
  let result := set_failure (Some primary) (set_status status result) in
  if String.eqb (em_detail e) "" then result else explain primary (em_detail e) result.

Definition conclude_planned (v : PlanningView) (truncated : bool) (result : PlanningResult) :
  PlanningResult :=
  if truncated
  then explain kTruncatedByLimit
         "candidate enumeration stopped at the configured enumeration ceiling"
         (set_status PlanStatus.kTruncatedByLimit result)
  else set_status (if v_provisional v then PlanStatus.kRevalidationRequired else PlanStatus.kPlanned)
         result.

(** The lock-free part of [Plan]: an early return, or the result to be published
    with the statistics of the search. *)
Inductive Outcome :=
  | Returned (result : PlanningResult)
  | Computed (s : FabricSnapshot) (result : PlanningResult) (stats : PlannerStatistics).

Definition compute_in_view (capture : Capture) (s : FabricSnapshot) (request : PlanningRequest)
    (source destination : NodeId) (build : PlanningViewBuild) (result : PlanningResult) : Outcome :=
  let v := vb_view build in
  (* a view built without error has both indices *)
  let e := enumerate v request (cp_limits capture) (default 0%nat (vb_source build))
             (default 0%nat (vb_destination build)) in
  let candidates :=
    imap (annotate request (s_source s) (rs_evidence result) (v_provisional v))
      (rank_candidates (rq_max_candidates request) (em_candidates e)) in
  match authority_stage (cp_authority capture) (pp_authority_validation (rq_policy request))
          (rs_evidence result) candidates with
  | PortMissing =>
      Returned (refuse PlanStatus.kUnsupported kAuthorityValidationUnavailable
        "authority validation is required but no Path Authority port is configured" result)
  | AllRejected =>
      Returned (refuse PlanStatus.kRevalidationRequired kAuthorityValidationRejected
        "Path Authority rejected every computed candidate path" result
        |> set_rejections (RenderLog (v_rejections v)) |> set_truncated (em_truncated e))
  | Proceed candidates =>
      let result := set_truncated (em_truncated e) result in
      let result :=
        if (length candidates =? 0)%nat
        then conclude_empty s request source destination v e result
        else conclude_planned v (em_truncated e) result in
      Computed s (result |> set_rejections (RenderLog (v_rejections v)) |> set_candidates candidates)
        (em_stats e)
  end.

Definition compute (capture : Capture) (request : PlanningRequest) : Outcome :=
  match admit_request capture request with
  | inl refusal =>
      Returned (refuse (rf_status refusal) (rf_code refusal) (rf_detail refusal) empty_result)
  | inr s =>
      match resolve_endpoints s request with
      | inl refusal =>
          Returned (refuse (rf_status refusal) (rf_code refusal) (rf_detail refusal) empty_result)
      | inr (source, destination) =>
          let result := resolved_result s (cp_sequence capture) request source destination in
          let source_node := n_id source.2 in
          let destination_node := n_id destination.2 in
          let build := BuildPlanningView s request (cp_limits capture) source_node destination_node in
          let result := explain_all (vb_explanations build) result in
          match vb_fatal build with
          | Some fatal =>
              Returned (refuse PlanStatus.kConstraintUnsatisfied fatal (vb_detail build) result)
          | None => compute_in_view capture s request source_node destination_node build result
          end
      end
  end.

(** *** Publication *)

(** The compare-before-publish, against the state at that time. *)
Definition watermark_moved (capture : Capture) (s : FabricSnapshot) (r : Runtime) : bool :=
  negb (rn_publish_sequence r =? cp_sequence capture) ||
  match rn_snapshot r with
  | Some current => negb (eqb (SnapshotIdOf current) (SnapshotIdOf s))
  | None => false
  end.

Definition mark_stale (result : PlanningResult) : PlanningResult :=
  result |> set_candidates (map (set_currentness Currentness.kRevalidationRequired)
                              (rs_candidates result))
    |> set_status PlanStatus.kRevalidationRequired
    |> explain kInvalidationWatermarkChanged
         "the publication watermark changed while the plan was being computed; the result is not CURRENT".

(** The result and the local statistics after the comparison. *)
Definition checked (moved : bool) (result : PlanningResult) (stats : PlannerStatistics) :
  PlanningResult * PlannerStatistics :=
  if moved then (mark_stale result, count_rejected_stale stats) else (result, stats).

Definition set_generation (generation : Z) (c : Candidate) : Candidate :=
  let p := cd_provenance c in
  MkCandidate (cd_id c) (cd_path c) (cd_cost c) (cd_rank c) (cd_evidence c)
    (MkProvenance generation (pv_constraint_set p) (pv_constraint_generation p)
       (pv_policy_generation p) (pv_source p) (pv_planning_rule_version p)
       (pv_path_encoding_version p))
    (cd_authority c) (cd_currentness c) (cd_notes c).

(** The last critical section. *)
Definition publish (capture : Capture) (request : PlanningRequest) (result : PlanningResult)
    (stats : PlannerStatistics) (r : Runtime) : Runtime * PlanningResult :=
  let provisional := MakePathPlan request result (cp_sequence capture) in
  let '(r, generation) := NextGeneration (rq_id request) (pl_semantic_digest provisional) r in
  let result :=
    result |> set_identity (pl_id provisional) (pl_semantic_digest provisional) generation
      |> set_candidates (map (set_generation generation) (rs_candidates result)) in
  let stats := count_published (length (rs_candidates result)) stats in
  (update_stats (λ total, MergeStats total stats) r, result).

(** An uninterrupted [Plan]. *)
Definition Plan (request : PlanningRequest) (r : Runtime) : Runtime * PlanningResult :=
  let '(r, capture) := begin_plan r in
  match compute capture request with
  | Returned result => (r, result)
  | Computed s result stats =>
      let '(result, stats) := checked (watermark_moved capture s r) result stats in
      publish capture request result stats r
  end.

(** ** Retention *)

(** [while (retained.size() >= max_retained_plans && !retention_order.empty())];
    [order] is the retention order of [r]. *)
Fixpoint evict (order : list PathPlanId) (r : Runtime) : Runtime :=
  match order with
  | [] => r
  | victim :: rest =>
      early r
        when negb (Z.of_nat (size (rn_retained r)) >=? max_retained_plans (rn_limits r)) ;;
      let r := set_retention_order rest r in
      match rn_retained r !! PlanKey victim with
      | None => evict rest r
      | Some entry =>
          let r := UnindexPlan (rt_plan entry) r in
          let r := set_retained (delete (PlanKey victim) (rn_retained r)) r in
          evict rest (update_stats count_retired r)
      end
  end.

Definition Retain (plan : PathPlan) (r : Runtime) : Runtime * bool :=
  early (r, false) when negb (IsValid (pl_id plan)) ;;
  let key := PlanKey (pl_id plan) in
  let entry := MkRetained plan (if pl_currentness_proven plan then Currentness.kCurrent
                                else Currentness.kRevalidationRequired) in
  match rn_retained r !! key with
  | Some _ => (set_retained (<[key := entry]> (rn_retained r)) r, true)
  | None =>
      let r := evict (rn_retention_order r) r in
      let r := IndexPlan plan r in
      (* [emplace]: the key is absent *)
      let r := set_retained (<[key := entry]> (rn_retained r)) r in
      (set_retention_order (rn_retention_order r ++ [pl_id plan]) r, true)
  end.

Definition FindPlan (id : PathPlanId) (r : Runtime) : option PathPlan :=
  rt_plan <$> rn_retained r !! PlanKey id.

Definition RetainedPlanCount (r : Runtime) : nat := size (rn_retained r).

(** ** Invalidation *)

Definition SubjectStillPresent (s : FabricSnapshot) (subject : SubjectKey) : bool :=
  match AsNode subject with
  | Some node => match FindNode s node with Some _ => true | None => false end
  | None =>
      match AsLink subject with
      | Some link => match FindEdge s link with Some _ => true | None => false end
      | None =>
          match AsPort subject with
          | Some port => existsb (λ node, binary_search (n_ports node) port) (s_nodes s)
          | None => false
          end
      end
  end.

Record InvalidationNotice := MkNotice {
  in_nodes : list NodeId; in_links : list LinkId; in_ports : list PortId;
  in_capabilities : list CapabilityId; in_failure_domains : list FailureDomainId;
  in_conservative_all : bool
}.

Record InvalidationReport := MkInvalidation {
  ir_affected : list PathPlanId; ir_marked_revalidation_required : list PathPlanId;
  ir_retired : list PathPlanId; ir_conservative : bool; ir_retained_plans : nat
}.

(** The subjects a notice names, in the order they are looked up. *)
Definition notice_subjects (notice : InvalidationNotice) : list SubjectKey :=
  map ForNode (in_nodes notice) ++ map ForLink (in_links notice) ++ map ForPort (in_ports notice).

Definition is_conservative (notice : InvalidationNotice) (r : Runtime) : bool :=
  in_conservative_all notice || negb (length (in_capabilities notice) =? 0)%nat ||
  negb (length (in_failure_domains notice) =? 0)%nat || negb (rn_reverse_index_complete r).

Definition affected_keys (notice : InvalidationNotice) (r : Runtime) : list string :=
  let keys :=
    if is_conservative notice r
    then map fst (map_to_list (rn_retained r))
    else flat_map (λ subject, default [] (rn_subject_index r !! SubjectToString subject))
           (notice_subjects notice) in
  unique_ids (sort_ids keys).

(** A subject the plan depends on is gone from the current snapshot. *)
Definition dependency_lost (r : Runtime) (plan : PathPlan) : bool :=
  match rn_snapshot r with
  | None => false
  | Some s => existsb (λ subject, negb (SubjectStillPresent s subject)) (subjects_of plan)
  end.

(** One iteration of the loop over the affected keys. *)
Definition invalidate (st : Runtime * InvalidationReport) (key : string) :
  Runtime * InvalidationReport :=
  let '(r, report) := st in
  match rn_retained r !! key with
  | None => (r, report)
  | Some entry =>
      let plan := rt_plan entry in
      let retired := dependency_lost r plan in
      let r :=
        set_retained
          (<[key := MkRetained plan (if retired then Currentness.kRetired
                                     else Currentness.kRevalidationRequired)]> (rn_retained r)) r in
      let affected := ir_affected report ++ [pl_id plan] in
      if retired
      then (update_stats count_retired r,
            MkInvalidation affected (ir_marked_revalidation_required report)
              (ir_retired report ++ [pl_id plan]) (ir_conservative report)
              (ir_retained_plans report))
      else (r,
            MkInvalidation affected (ir_marked_revalidation_required report ++ [pl_id plan])
              (ir_retired report) (ir_conservative report) (ir_retained_plans report))
  end.

Definition ApplyInvalidation (notice : InvalidationNotice) (r : Runtime) :
  Runtime * InvalidationReport :=
  let r := update_stats count_invalidation r |> advance_watermark in
  let report :=
    MkInvalidation [] [] [] (in_conservative_all notice || is_conservative notice r) 0 in
  let '(r, report) := fold_left invalidate (affected_keys notice r) (r, report) in
  (r, MkInvalidation (ir_affected report) (ir_marked_revalidation_required report)
        (ir_retired report) (ir_conservative report) (size (rn_retained r))).

Definition AdvanceEpoch (epoch : Z) (conservative_recovery : bool) (r : Runtime) :
  Runtime * bool * string :=
  early (r, false, ("epoch " +:+ UIntToString epoch +:+ " is not greater than the current epoch " +:+
                    UIntToString (rn_epoch r))%string)
    when (epoch <=? rn_epoch r) ;;
  let r := set_epoch epoch r |> advance_watermark |> update_stats count_epoch in
  if conservative_recovery
  then
    (set_retained ((λ entry, MkRetained (rt_plan entry) Currentness.kRevalidationRequired) <$>
                   rn_retained r) r, true,
     ("epoch advanced to " +:+ UIntToString epoch +:+
      " with conservative recovery: every retained plan requires revalidation")%string)
  else (r, true, ("epoch advanced to " +:+ UIntToString epoch)%string).

(** ** Currentness *)

(** The evidence a runtime would capture now. *)
Definition current_evidence (r : Runtime) : EvidenceVector :=
  let evidence := match rn_snapshot r with Some s => Evidence s | None => zero_evidence end in
  MkEvidence (ev_snapshot evidence) (ev_generations evidence) (ev_source evidence)
    (rn_publish_sequence r).

(** The subjects are looked up until one is missing. *)
Definition missing_subject (s : FabricSnapshot) (plan : PathPlan) : option SubjectKey :=
  List.find (λ subject, negb (SubjectStillPresent s subject)) (subjects_of plan).

Definition CheckCurrentness (plan : PathPlan) (r : Runtime) : PlanCurrentnessReport :=
  let retained_currentness := rt_currentness <$> rn_retained r !! PlanKey (pl_id plan) in
  let current := current_evidence r in
  let report currentness changes :=
    MkCurrentness currentness changes (pl_evidence plan) current in
  let '(currentness, changes) :=
    if pl_diagnostic_mode plan
    then (Currentness.kRevalidationRequired,
          [MkExplanation kNonCurrentCandidate
             "the plan was computed in diagnostic mode and is not CURRENT"])
    else (Currentness.kCurrent, []) in
  match rn_snapshot r with
  | None =>
      report (MoreSevere currentness Currentness.kRevalidationRequired)
        (changes ++ [MkExplanation kSnapshotNotAvailable "no fabric snapshot is currently published"])
  | Some s =>
      match missing_subject s plan with
      | Some subject =>
          report Currentness.kRetired
            (changes ++ [MkExplanation kPlanRetired
               ("dependency no longer exists: " +:+ SubjectToString subject)])
      | None =>
          early report Currentness.kRetired
                  (changes ++ [MkExplanation kPlanRetired
                     "the retained plan was invalidated by subject removal"])
            when bool_decide (retained_currentness = Some Currentness.kRetired) ;;
          let '(currentness, changes) :=
            if bool_decide (retained_currentness = Some Currentness.kRevalidationRequired)
            then (MoreSevere currentness Currentness.kRevalidationRequired,
                  changes ++ [MkExplanation kStaleEvidence
                    "the retained plan was invalidated by a targeted notice"])
            else (currentness, changes) in
          let changes := changes ++ DiffEvidence (pl_evidence plan) current in
          let classified := ClassifyEvidence (pl_evidence plan) current in
          if negb (enum_eqb classified Currentness.kCurrent)
          then report (MoreSevere currentness classified) changes
          else if negb (ev_publish_sequence (pl_evidence plan) =? ev_publish_sequence current) &&
                  enum_eqb currentness Currentness.kCurrent
          then report Currentness.kRevalidationRequired changes
          else report currentness changes
      end
  end.

(** ** Replanning *)

(** The classification of the new result against the prior plan: the outcome and
    what [Replan] returns. *)
Definition classify_replan (prior : PathPlan) (result : PlanningResult) : ReplanOutcome.t * bool :=
  let same_semantic_plan :=
    negb (IsZero (pl_semantic_digest prior)) &&
    eqb (pl_semantic_digest prior) (rs_semantic_digest result) in
  let status := rs_status result in
  early (ReplanOutcome.kNoPath, false)
    when (enum_eqb status PlanStatus.kMalformedRequest ||
          enum_eqb status PlanStatus.kUnauthorized) ;;
  early (ReplanOutcome.kRevalidationRequired, true)
    when enum_eqb status PlanStatus.kRevalidationRequired ;;
  early (ReplanOutcome.kNoPath, true) when (length (rs_candidates result) =? 0)%nat ;;
  early (ReplanOutcome.kUnchanged, true) when same_semantic_plan ;;
  let prior_ids := map cd_id (pl_candidates prior) in
  let current_ids := map cd_id (rs_candidates result) in
  early (ReplanOutcome.kUnchanged, true) when eqb prior_ids current_ids ;;
  (if eqb (sort_ids prior_ids) (sort_ids current_ids)
   then ReplanOutcome.kOrderingChanged else ReplanOutcome.kCandidateSetChanged, true).

Definition Replan (prior : PathPlan) (request : PlanningRequest) (r : Runtime) :
  Runtime * PlanningResult * ReplanReport * bool :=
  let '(r, result) := Plan request r in
  let '(outcome, answered) := classify_replan prior result in
  (r, result,
   MkReplan outcome (DiffEvidence (pl_evidence prior) (rs_evidence result))
     (pl_semantic_digest prior) (rs_semantic_digest result)
     (negb (IsZero (pl_semantic_digest prior)) &&
      eqb (pl_semantic_digest prior) (rs_semantic_digest result)),
   answered).
