(* ===== verification/Concurrent.v ===== *)
(** Interleaved use of the planner runtime. Every member of [PlannerRuntime] may be
    called concurrently; each critical section of planner.cpp is one atomic step of
    a transition system, and an in-flight [Plan] is a call that has captured its
    inputs, then compared the watermark, then published. The theorem is the promise
    of planner.hpp: an in-flight plan cannot become CURRENT after its inputs
    changed. *)

From S2P Require Import Prelude Canonical Status Ids Codec Limits Graph Builder Path Request View ViewFacts Result Planner.

(** A call of [Plan]. [began] and [compared] are ghost: how many changes of the
    planning inputs had been made when the call captured them and when it compared
    the watermark; [at_comparison] is the state at that comparison. *)
Inductive Call :=
  | Searching (began : Z) (capture : Capture) (request : PlanningRequest)
  | Compared (began compared : Z) (at_comparison : Runtime) (capture : Capture)
      (request : PlanningRequest) (result : PlanningResult) (stats : PlannerStatistics)
  | Published (began compared : Z) (at_comparison : Runtime) (request : PlanningRequest)
      (result : PlanningResult)
  | Refused (request : PlanningRequest) (result : PlanningResult).

Record System := MkSystem {
  sy_runtime : Runtime; sy_calls : gmap nat Call; sy_changes : Z
}.

(** One critical section of one thread. *)
Inductive step : System → System → Prop :=
  | step_snapshot r calls changes s :
      step (MkSystem r calls changes) (MkSystem (PublishSnapshot s r) calls (changes + 1))
  | step_invalidation r calls changes notice :
      step (MkSystem r calls changes)
        (MkSystem (ApplyInvalidation notice r).1 calls (changes + 1))
  | step_epoch r calls changes epoch recovery :
      step (MkSystem r calls changes)
        (MkSystem (AdvanceEpoch epoch recovery r).1.1 calls
           (if (AdvanceEpoch epoch recovery r).1.2 then changes + 1 else changes))
  | step_retain r calls changes plan :
      step (MkSystem r calls changes) (MkSystem (Retain plan r).1 calls changes)
  | step_reset r calls changes :
      step (MkSystem r calls changes) (MkSystem (ResetStats r) calls changes)
  | step_begin r calls changes i request :
      calls !! i = None →
      step (MkSystem r calls changes)
        (MkSystem (begin_plan r).1
           (<[i := Searching changes (begin_plan r).2 request]> calls) changes)
  | step_refuse r calls changes i began capture request result :
      calls !! i = Some (Searching began capture request) →
      compute capture request = Returned result →
      step (MkSystem r calls changes) (MkSystem r (<[i := Refused request result]> calls) changes)
  | step_compare r calls changes i began capture request s result stats :
      calls !! i = Some (Searching began capture request) →
      compute capture request = Computed s result stats →
      let moved := watermark_moved capture s r in
      step (MkSystem r calls changes)
        (MkSystem r
           (<[i := Compared began changes r capture request (checked moved result stats).1
                     (checked moved result stats).2]> calls) changes)
  | step_publish r calls changes i began compared at_comparison capture request result stats :
      calls !! i = Some (Compared began compared at_comparison capture request result stats) →
      let out := publish capture request result stats r in
      step (MkSystem r calls changes)
        (MkSystem out.1 (<[i := Published began compared at_comparison request out.2]> calls) changes).

Definition start (config : PlannerConfig) : System := MkSystem (new_PlannerRuntime config) ∅ 0.
Definition reachable (config : PlannerConfig) : System → Prop := rtc step (start config).

(** ** What the sections leave alone *)

(** The inputs of planning. *)
Definition inputs (r : Runtime) : Capture := (begin_plan r).2.

Lemma unindex_inputs key l r : inputs (fold_left (unindex_subject key) l r) = inputs r.
Proof.
  apply (fold_left_invariant_eq inputs). intros r' k. unfold unindex_subject.
  by destruct (rn_subject_index r' !! _).
Qed.

Lemma index_inputs key l r : inputs (for_each (index_subject key) l r).1 = inputs r.
Proof.
  revert r. induction l as [|k l IH]; intros r; [done|]. cbn [for_each]. unfold index_subject at 1.
  destruct (_ >=? _); [done|]. cbn [fst snd]. by rewrite IH.
Qed.

Lemma evict_inputs order r : inputs (evict order r) = inputs r.
Proof.
  revert r. induction order as [|victim rest IH]; intros r; [done|]. cbn [evict].
  destruct (negb _); [done|]. cbv zeta. destruct (rn_retained _ !! _) as [entry|]; rewrite IH; [|done].
  exact (unindex_inputs _ _ (set_retention_order rest r)).
Qed.

Lemma Retain_inputs plan r : inputs (Retain plan r).1 = inputs r.
Proof.
  unfold Retain. destruct (negb _); [done|]. destruct (rn_retained r !! _); [done|]. cbv zeta.
  transitivity (inputs (IndexPlan plan (evict (rn_retention_order r) r))); [done|].
  unfold IndexPlan. by rewrite index_inputs, evict_inputs.
Qed.

Lemma NextGeneration_inputs request digest r : inputs (NextGeneration request digest r).1 = inputs r.
Proof.
  unfold NextGeneration. destruct (rn_request_generations r !! _) as [existing|].
  - by destruct (eqb _ _).
  - by destruct (trim_generations _ _ _).
Qed.

Lemma publish_inputs capture request result stats r :
  inputs (publish capture request result stats r).1 = inputs r.
Proof.
  unfold publish. pose proof (NextGeneration_inputs (rq_id request)
    (pl_semantic_digest (MakePathPlan request result (cp_sequence capture))) r) as H.
  by destruct (NextGeneration _ _ r) as [r' generation].
Qed.

Lemma ApplyInvalidation_inputs notice r :
  cp_sequence (inputs (ApplyInvalidation notice r).1) = wrap64 (rn_publish_sequence r + 1).
Proof.
  unfold ApplyInvalidation. cbv zeta. set (r1 := advance_watermark _).
  assert (H : ∀ l st, cp_sequence (inputs (fold_left invalidate l st).1) = cp_sequence (inputs st.1)).
  { intros l st. apply (fold_left_invariant_eq (λ st, cp_sequence (inputs st.1))). intros [r' report] key.
    unfold invalidate. destruct (rn_retained r' !! key) as [entry|]; [|done].
    by destruct (dependency_lost r' _). }
  match goal with |- context [fold_left invalidate ?l ?st] => specialize (H l st); destruct (fold_left _ l st) end.
  exact H.
Qed.

Lemma AdvanceEpoch_inputs epoch recovery r :
  if (AdvanceEpoch epoch recovery r).1.2
  then cp_sequence (inputs (AdvanceEpoch epoch recovery r).1.1) = wrap64 (rn_publish_sequence r + 1)
  else inputs (AdvanceEpoch epoch recovery r).1.1 = inputs r.
Proof. unfold AdvanceEpoch. destruct (_ <=? _); [done|]. by destruct recovery. Qed.

Lemma compute_snapshot capture request s result stats :
  compute capture request = Computed s result stats → cp_snapshot capture = Some s.
Proof.
  unfold compute, admit_request. destruct (ValidateRequest _ _) as [[? ?]|]; [done|].
  destruct (_ && _); [done|]. destruct (_ && _); [done|].
  destruct (cp_snapshot capture) as [s'|]; [|done]. cbv zeta.
  destruct (_ && _); [done|]. destruct (_ && _); [done|]. destruct (_ && _); [done|].
  destruct (resolve_endpoints s' request) as [?|[source destination]]; [done|]. cbv zeta.
  destruct (vb_fatal _); [done|]. unfold compute_in_view. cbv zeta.
  destruct (authority_stage _ _ _ _); [|done|done]. by intros [= -> _ _].
Qed.

(** ** The invariant *)

(** Giving a result its identity. *)
Definition identify (id : PathPlanId) (digest : bytes) (generation : Z) (result : PlanningResult) :
  PlanningResult :=
  result |> set_identity id digest generation
    |> set_candidates (map (set_generation generation) (rs_candidates result)).

Lemma publish_identify capture request result stats r :
  ∃ id digest generation,
    (publish capture request result stats r).2 = identify id digest generation result.
Proof.
  unfold publish. destruct (NextGeneration _ _ r) as [r' generation]. by repeat eexists.
Qed.

(** The computation a compared call stands for, run on the inputs it captured;
    these are the inputs at the comparison when nothing changed in between. *)
Definition compared_from (began compared : Z) (at_comparison : Runtime) (capture : Capture)
    (request : PlanningRequest) (result : PlanningResult) : Prop :=
  ∃ s computed stats,
    compute capture request = Computed s computed stats ∧
    (began = compared → capture = inputs at_comparison) ∧
    result = (checked (negb (began =? compared)) computed stats).1.

Definition call_ok (r : Runtime) (changes : Z) (call : Call) : Prop :=
  match call with
  | Searching began capture request =>
      0 <= began <= changes ∧ cp_sequence capture = wrap64 began ∧
      (began = changes → capture = inputs r)
  | Compared began compared at_comparison capture request result _ =>
      0 <= began <= compared ∧ compared <= changes ∧
      (changes <= u64_max → compared_from began compared at_comparison capture request result)
  | Published began compared at_comparison request result =>
      0 <= began <= compared ∧ compared <= changes ∧
      (changes <= u64_max → ∃ capture answer id digest generation,
         compared_from began compared at_comparison capture request answer ∧
         result = identify id digest generation answer)
  | Refused _ _ => True
  end.

Record SystemInv (sys : System) : Prop := {
  si_changes : 0 <= sy_changes sys;
  si_sequence : cp_sequence (inputs (sy_runtime sys)) = wrap64 (sy_changes sys);
  si_calls : ∀ i call, sy_calls sys !! i = Some call → call_ok (sy_runtime sys) (sy_changes sys) call
}.

Lemma call_ok_same r r' changes call :
  inputs r' = inputs r → call_ok r changes call → call_ok r' changes call.
Proof. intros Heq. destruct call; cbn [call_ok]; rewrite ?Heq; done. Qed.

Lemma call_ok_changed r r' changes call :
  0 <= changes → call_ok r changes call → call_ok r' (changes + 1) call.
Proof.
  intros H0. destruct call as [began capture request|began compared ac capture request result stats
    |began compared ac request result|request result]; simpl.
  - intros (? & ? & ?). split_and!; [lia|lia|done|intros ->; lia].
  - intros (? & ? & H). split_and!; [lia|lia|lia|]. intros ?. apply H. lia.
  - intros (? & ? & H). split_and!; [lia|lia|lia|]. intros ?. apply H. lia.
  - done.
Qed.

(** A section that leaves the inputs alone, perhaps updating one call. *)
Lemma SystemInv_same r r' calls changes :
  inputs r' = inputs r → SystemInv (MkSystem r calls changes) → SystemInv (MkSystem r' calls changes).
Proof.
  intros Heq [H0 Hs Hc]. constructor; cbn [sy_runtime sy_calls sy_changes] in *; [done|by rewrite Heq|].
  intros i call Hi. eapply call_ok_same; [done|by apply (Hc i)].
Qed.

Lemma SystemInv_call r calls changes i call :
  call_ok r changes call → SystemInv (MkSystem r calls changes) →
  SystemInv (MkSystem r (<[i := call]> calls) changes).
Proof.
  intros Hcall [H0 Hs Hc]. constructor; cbn [sy_runtime sy_calls sy_changes] in *; [done|done|].
  intros j call' [[<- <-]|[? Hj]]%lookup_insert_Some; [done|by apply (Hc j)].
Qed.

Lemma SystemInv_changed r r' calls changes :
  cp_sequence (inputs r') = wrap64 (rn_publish_sequence r + 1) →
  SystemInv (MkSystem r calls changes) → SystemInv (MkSystem r' calls (changes + 1)).
Proof.
  intros Heq [H0 Hs Hc]. constructor; cbn [sy_runtime sy_calls sy_changes] in *; [lia| |].
  - change (cp_sequence (inputs r)) with (rn_publish_sequence r) in Hs. rewrite Heq, Hs.
    unfold wrap64. by rewrite Zplus_mod_idemp_l.
  - intros i call Hi. eapply call_ok_changed; [done|by apply (Hc i)].
Qed.

(** The comparison tells precisely whether an input changed, as long as the 64-bit
    watermark has not wrapped around. *)
Lemma watermark_moved_exact r changes began capture request s result stats :
  changes <= u64_max → cp_sequence (inputs r) = wrap64 changes →
  call_ok r changes (Searching began capture request) →
  compute capture request = Computed s result stats →
  watermark_moved capture s r = negb (began =? changes).
Proof.
  intros Hmax Hs (Hb & Hseq & Hsame) Hc. apply compute_snapshot in Hc. unfold watermark_moved.
  rewrite Hseq. change (cp_sequence (inputs r)) with (rn_publish_sequence r) in Hs. rewrite Hs.
  destruct (Z.eqb_spec began changes) as [->|Hne].
  - rewrite Z.eqb_refl. simpl. rewrite (Hsame eq_refl) in Hc. simpl in Hc. rewrite Hc.
    by rewrite eqb_refl.
  - rewrite !wrap64_small by lia. rewrite (proj2 (Z.eqb_neq _ _)) by lia. done.
Qed.

Lemma step_inv sys sys' : step sys sys' → SystemInv sys → SystemInv sys'.
Proof.
  destruct 1 as [r calls changes s|r calls changes notice|r calls changes epoch recovery
    |r calls changes plan|r calls changes|r calls changes i request Hi
    |r calls changes i began capture request result Hi Hc
    |r calls changes i began capture request s result stats Hi Hc moved
    |r calls changes i began compared ac capture request result stats Hi out]; intros Hinv.
  - apply (SystemInv_changed r); [|done]. by destruct s.
  - apply (SystemInv_changed r); [|done]. apply ApplyInvalidation_inputs.
  - pose proof (AdvanceEpoch_inputs epoch recovery r) as H.
    destruct (AdvanceEpoch epoch recovery r).1.2.
    + by apply (SystemInv_changed r).
    + by apply (SystemInv_same r).
  - apply (SystemInv_same r); [apply Retain_inputs|done].
  - by apply (SystemInv_same r).
  - apply SystemInv_call; [|by apply (SystemInv_same r)]. simpl.
    split_and!; [apply Hinv|lia|apply Hinv|done].
  - by apply SystemInv_call.
  - apply SystemInv_call; [|done]. pose proof (si_calls _ Hinv _ _ Hi) as Hok. simpl in Hok.
    pose proof Hok as (Hb & _ & _). simpl. split_and!; [lia|lia|lia|]. intros Hmax. exists s, result, stats.
    split_and!; [done|by apply Hok|]. unfold moved.
    by rewrite (watermark_moved_exact r changes began capture request s result stats Hmax (si_sequence _ Hinv) Hok Hc).
  - apply SystemInv_call; [|apply (SystemInv_same r); [apply publish_inputs|done]].
    pose proof (si_calls _ Hinv _ _ Hi) as (Hb & Hc & Hok). cbn [sy_changes] in Hc, Hok. simpl.
    split_and!; [lia|lia|lia|]. intros Hmax. destruct (publish_identify capture request result stats r)
      as (id & digest & generation & Heq). exists capture, result, id, digest, generation.
    split; [by apply Hok|done].
Qed.

Lemma steps_inv sys sys' : rtc step sys sys' → SystemInv sys → SystemInv sys'.
Proof. induction 1; eauto using step_inv. Qed.

Lemma reachable_inv config sys : reachable config sys → SystemInv sys.
Proof.
  intros Hr. apply (steps_inv (start config)); [done|]. constructor; [done|done|].
  intros i call Hi. simpl in Hi. by rewrite lookup_empty in Hi.
Qed.

(** C3: an in-flight plan cannot become CURRENT after its inputs changed. In every
    interleaving of the runtime's operations in which fewer than 2^64 input changes
    are made, a published plan either saw no change between the capture of its
    inputs and the compare-before-publish, and then is, up to its identity, exactly
    what an uninterrupted computation on the runtime's inputs at the comparison
    gives; or it saw one, and then its status and every candidate it carries are
    REVALIDATION_REQUIRED. *)
Theorem publication_safe config sys i began compared at_comparison request result :
  reachable config sys → sy_changes sys <= u64_max →
  sy_calls sys !! i = Some (Published began compared at_comparison request result) →
  (began = compared ∧ ∃ s computed stats id digest generation,
     compute (inputs at_comparison) request = Computed s computed stats ∧
     rn_snapshot at_comparison = Some s ∧
     result = identify id digest generation computed) ∨
  (began < compared ∧ rs_status result = PlanStatus.kRevalidationRequired ∧
   ∀ c, c ∈ rs_candidates result → cd_currentness c = Currentness.kRevalidationRequired).
Proof.
  intros Hr Hmax Hi. apply reachable_inv in Hr. destruct (si_calls _ Hr _ _ Hi) as (Hb & Hc & Hok).
  destruct (Hok Hmax) as (capture & answer & id & digest & generation & Hfrom & ->).
  destruct Hfrom as (s & computed & stats & Hcomp & Hsame & ->).
  destruct (Z.eqb_spec began compared) as [Heq|Hne]; [left|right]; cbn [negb checked fst].
  - split; [done|]. rewrite (Hsame Heq) in Hcomp. exists s, computed, stats, id, digest, generation.
    split_and!; [done| |done]. exact (compute_snapshot _ _ _ _ _ Hcomp).
  - split_and!; [lia|done|]. intros c (c1 & -> & (c2 & -> & _)%list_elem_of_fmap)%list_elem_of_fmap. done.
Qed.

(** On the demo fabric: a plan, during which the snapshot is published again. *)
Definition demo_config : PlannerConfig :=
  MkPlannerConfig default_limits (Some Demo.snapshot) None.
Definition demo_runtime : Runtime := new_PlannerRuntime demo_config.
Definition demo_capture : Capture := (begin_plan demo_runtime).2.
Definition demo_outcome : Outcome := compute demo_capture demo_request.

Definition overtaken : Runtime := PublishSnapshot (Some Demo.snapshot) (begin_plan demo_runtime).1.

Definition demo_answer : FabricSnapshot * PlanningResult * PlannerStatistics :=
  match demo_outcome with
  | Computed s result stats => (s, result, stats)
  | Returned result => (Demo.snapshot, result, zero_stats)
  end.

Lemma demo_computed : demo_outcome = Computed demo_answer.1.1 demo_answer.1.2 demo_answer.2.
Proof.
  assert (H : match demo_outcome with Returned _ => false | Computed _ _ _ => true end = true)
    by (vm_compute; reflexivity).
  unfold demo_answer. by destruct demo_outcome.
Qed.

Definition demo_checked : PlanningResult * PlannerStatistics :=
  checked (watermark_moved demo_capture demo_answer.1.1 overtaken) demo_answer.1.2 demo_answer.2.
Definition overtaken_result : PlanningResult :=
  (publish demo_capture demo_request demo_checked.1 demo_checked.2 overtaken).2.

Lemma publication_safe_witness :
  rs_status demo_answer.1.2 = PlanStatus.kPlanned ∧ length (rs_candidates overtaken_result) = 2%nat ∧
  rs_status overtaken_result = PlanStatus.kRevalidationRequired.
Proof.
  split; [vm_compute; reflexivity|]. split; [vm_compute; reflexivity|].
  pose (sys := MkSystem (publish demo_capture demo_request demo_checked.1 demo_checked.2 overtaken).1
    (<[0%nat := Published 0 1 overtaken demo_request overtaken_result]>
       (<[0%nat := Compared 0 1 overtaken demo_capture demo_request demo_checked.1 demo_checked.2]>
          (<[0%nat := Searching 0 demo_capture demo_request]> ∅))) 1).
  assert (Hr : reachable demo_config sys).
  { unfold reachable, start.
    eapply rtc_l; [exact (step_begin demo_runtime ∅ 0 0 demo_request (lookup_empty 0%nat))|].
    eapply rtc_l; [exact (step_snapshot (begin_plan demo_runtime).1 _ 0 (Some Demo.snapshot))|].
    eapply rtc_l; [eapply (step_compare overtaken); [apply lookup_insert_eq|exact demo_computed]|].
    eapply rtc_l; [eapply (step_publish overtaken); apply lookup_insert_eq|]. apply rtc_refl. }
  destruct (publication_safe demo_config sys 0 0 1 overtaken demo_request overtaken_result Hr)
    as [[Heq _]|[_ [Hs _]]]; [vm_compute; congruence|apply lookup_insert_eq|discriminate|exact Hs].
Defined.
