(* ===== verification/Retention.v ===== *)
(** Plan retention and the reverse dependency index of the planner runtime: the
    invariant every operation keeps, and the exact effect of a targeted
    invalidation. *)

From S2P Require Import Prelude Canonical Status Ids Codec Limits Graph Builder Path Request View ViewFacts Result Planner Concurrent.

(** ** The text of a subject *)

(** The value of the C++ type: sixteen bytes. *)
Definition subject_wf (k : SubjectKey) : Prop :=
  length (sk_bytes k) = 16%nat ∧ Forall is_byte (sk_bytes k).

Lemma SubjectToString_inj k1 k2 :
  subject_wf k1 → subject_wf k2 → SubjectToString k1 = SubjectToString k2 → k1 = k2.
Proof.
  intros [H1 B1] [H2 B2] Heq. destruct k1 as [t1 b1], k2 as [t2 b2]. simpl in *.
  assert (Hdec : ∀ b, length b = 16%nat → Forall is_byte b → HexDecodeStrict (HexEncode b) 16 = Some b)
    by (intros b ? ?; by apply HexDecodeStrict_spec).
  unfold SubjectToString in Heq. simpl in Heq.
  specialize (Hdec b1 H1 B1) as Hb1. specialize (Hdec b2 H2 B2) as Hb2.
  destruct t1, t2; try discriminate; injection Heq as Heq;
    change (HexEncode b1 = HexEncode b2) in Heq; rewrite Heq in Hb1; congruence.
Qed.

Definition texts (plan : PathPlan) : list string := map SubjectToString (subjects_of plan).

(** ** The index alone *)

Definition indexed_under (r : Runtime) (text key : string) : Prop :=
  key ∈ default [] (rn_subject_index r !! text).

(** The number of entries, over all subjects. *)
Definition total (index : gmap string (list string)) : Z :=
  map_fold (λ _ keys n, Z.of_nat (length keys) + n) 0 index.

Record IndexWf (r : Runtime) : Prop := {
  iw_nonempty : ∀ text, rn_subject_index r !! text ≠ Some [];
  iw_total : rn_reverse_entries r = total (rn_subject_index r);
  iw_bound : rn_reverse_entries r <= Z.max 0 (max_reverse_dependency_entries (rn_limits r))
}.

Lemma total_delete index text :
  total (delete text index) = total index - Z.of_nat (length (default [] (index !! text))).
Proof.
  destruct (index !! text) as [keys|] eqn:E; simpl.
  - unfold total. rewrite (map_fold_delete_L _ 0 text keys index); [lia|intros; lia|done].
  - rewrite delete_id by done. lia.
Qed.

Lemma total_insert index text keys :
  total (<[text := keys]> index) =
  total index - Z.of_nat (length (default [] (index !! text))) + Z.of_nat (length keys).
Proof.
  rewrite <- insert_delete_eq, <- total_delete. unfold total.
  rewrite map_fold_insert_L; [lia|intros; lia|]. apply lookup_delete_eq.
Qed.

Lemma total_nonneg index : 0 <= total index.
Proof.
  unfold total. apply (map_fold_weak_ind (λ n _, 0 <= n)); [lia|]. intros text keys m n _ Hn. lia.
Qed.

(** What index maintenance does not touch. *)
Definition frame (r : Runtime) :=
  (inputs r, rn_retained r, rn_retention_order r, rn_request_generations r, rn_stats r).

Lemma index_subject_spec key subject r :
  IndexWf r →
  let '(r', stop) := index_subject key subject r in
  IndexWf r' ∧ frame r' = frame r ∧
  (rn_reverse_index_complete r' = true → rn_reverse_index_complete r = true ∧ stop = false) ∧
  (∀ text k, indexed_under r' text k ↔
     indexed_under r text k ∨ (stop = false ∧ text = SubjectToString subject ∧ k = key)).
Proof.
  intros [Hne Ht Hb]. unfold index_subject. destruct (_ >=? _) eqn:Elim.
  { split_and!; [by constructor|done|done|naive_solver]. }
  cbv zeta. split_and!; [constructor; simpl|done|done|].
  - intros text Heq. apply lookup_insert_Some in Heq as [[_ Heq]|[_ Heq]]; [|by apply (Hne text)].
    by apply app_nil in Heq as [_ ?].
  - rewrite total_insert, length_app, Ht. simpl. lia.
  - bool_to_prop. lia.
  - intros text k. unfold indexed_under. simpl. destruct (decide (text = SubjectToString subject)) as [->|Hn].
    + rewrite lookup_insert_eq. simpl. rewrite elem_of_app, list_elem_of_singleton. naive_solver.
    + rewrite lookup_insert_ne by done. naive_solver.
Qed.

Lemma index_subjects_spec key l r :
  IndexWf r →
  let r' := (for_each (index_subject key) l r).1 in
  IndexWf r' ∧ frame r' = frame r ∧
  (rn_reverse_index_complete r' = true → rn_reverse_index_complete r = true ∧
     ∀ s, s ∈ l → indexed_under r' (SubjectToString s) key) ∧
  (∀ text k, indexed_under r text k → indexed_under r' text k) ∧
  (∀ text k, indexed_under r' text k →
     indexed_under r text k ∨ (text ∈ map SubjectToString l ∧ k = key)).
Proof.
  revert r. induction l as [|s l IH]; intros r Hwf; cbn [for_each fst].
  { split_and!; try done; [|naive_solver]. intros ?. split; [done|]. by intros s ?%not_elem_of_nil. }
  pose proof (index_subject_spec key s r Hwf) as Hstep.
  destruct (index_subject key s r) as [r1 stop]. destruct Hstep as (Hwf1 & Hf1 & Hc1 & Hi1).
  destruct stop; cbn [fst].
  { split_and!; try done; [intros Hc; by apply Hc1 in Hc as [_ ?]| |]; intros text k; rewrite Hi1; naive_solver. }
  destruct (IH r1 Hwf1) as (Hwf2 & Hf2 & Hc2 & Hm2 & Hs2). split_and!; [done|congruence| | |].
  - intros Hc. destruct (Hc2 Hc) as [Hr1 Hall]. destruct (Hc1 Hr1) as [Hr _]. split; [done|].
    intros s' [->|Hs']%elem_of_cons; [|by apply Hall]. apply Hm2, Hi1. by right.
  - intros text k Hk. apply Hm2, Hi1. by left.
  - intros text k [Hk|[Hin ->]]%Hs2; [|right; split; [by right|done]].
    apply Hi1 in Hk as [Hk|(_ & -> & ->)]; [by left|right; split; [by left|done]].
Qed.

Lemma unindex_subject_spec key r subject :
  IndexWf r →
  let r' := unindex_subject key r subject in
  IndexWf r' ∧ frame r' = frame r ∧
  rn_reverse_index_complete r' = rn_reverse_index_complete r ∧
  (∀ text k, indexed_under r' text k ↔
     indexed_under r text k ∧ ¬ (text = SubjectToString subject ∧ k = key)).
Proof.
  intros [Hne Ht Hb]. unfold unindex_subject. cbv zeta.
  destruct (rn_subject_index r !! SubjectToString subject) as [keys|] eqn:E.
  2: { split_and!; [by constructor|done|done|]. intros text k. split; [|naive_solver]. intros Hk.
       split; [done|]. intros [-> ->]. unfold indexed_under in Hk. rewrite E in Hk.
       by apply not_elem_of_nil in Hk. }
  set (kept := List.filter _ keys).
  assert (Hkept : ∀ k, k ∈ kept ↔ k ∈ keys ∧ k ≠ key).
  { intros k. unfold kept. rewrite !list_elem_of_In, filter_In, negb_true_iff, String.eqb_neq. done. }
  assert (Hlen : Z.of_nat (length kept) <= Z.of_nat (length keys)).
  { unfold kept. clear. induction keys as [|k l IH]; [done|]. simpl.
    destruct (negb _); simpl; lia. }
  assert (Hsome : length (default [] (rn_subject_index r !! SubjectToString subject)) = length keys)
    by (by rewrite E).
  assert (Htot : Z.of_nat (length keys) <= rn_reverse_entries r).
  { rewrite Ht. pose proof (total_delete (rn_subject_index r) (SubjectToString subject)) as Hd.
    rewrite Hsome in Hd. pose proof (total_nonneg (delete (SubjectToString subject) (rn_subject_index r))). lia. }
  assert (Hle : (Z.of_nat (length keys) - Z.of_nat (length kept) >? rn_reverse_entries r) = false).
  { rewrite Z.gtb_ltb. apply Z.ltb_ge. lia. }
  rewrite Hle. split_and!; [constructor; simpl|done|done|].
  - intros text. destruct (Nat.eqb_spec (length kept) 0) as [E0|E0].
    + rewrite lookup_delete_Some. intros [_ H]. by apply (Hne text).
    + rewrite lookup_insert_Some. intros [[_ H]|[_ H]]; [by rewrite H in E0|by apply (Hne text)].
  - destruct (Nat.eqb_spec (length kept) 0) as [E0|E0].
    + rewrite total_delete, Hsome, Ht. lia.
    + rewrite total_insert, Hsome, Ht. lia.
  - lia.
  - intros text k. unfold indexed_under. simpl.
    destruct (decide (text = SubjectToString subject)) as [->|Hn].
    + rewrite E. simpl. destruct (Nat.eqb_spec (length kept) 0) as [E0|E0].
      * apply length_zero_iff_nil in E0. rewrite lookup_delete_eq. simpl.
        specialize (Hkept k). rewrite E0 in Hkept. naive_solver.
      * rewrite lookup_insert_eq. simpl. rewrite Hkept. naive_solver.
    + destruct (Nat.eqb_spec (length kept) 0) as [E0|E0];
        [rewrite lookup_delete_ne by done|rewrite lookup_insert_ne by done]; naive_solver.
Qed.

Lemma unindex_subjects_spec key l r :
  IndexWf r →
  let r' := fold_left (unindex_subject key) l r in
  IndexWf r' ∧ frame r' = frame r ∧
  rn_reverse_index_complete r' = rn_reverse_index_complete r ∧
  (∀ text k, indexed_under r' text k ↔
     indexed_under r text k ∧ ¬ (text ∈ map SubjectToString l ∧ k = key)).
Proof.
  revert r. induction l as [|s l IH]; intros r Hwf; cbn [fold_left map].
  { split_and!; try done. intros text k. split; [|naive_solver]. intros ?. split; [done|].
    by intros [?%not_elem_of_nil _]. }
  destruct (unindex_subject_spec key r s Hwf) as (Hwf1 & Hf1 & Hc1 & Hi1).
  destruct (IH _ Hwf1) as (Hwf2 & Hf2 & Hc2 & Hi2). split_and!; [done|congruence|congruence|].
  intros text k. rewrite Hi2, Hi1, elem_of_cons. naive_solver.
Qed.

(** ** The retained plans *)

Record RetentionInv (r : Runtime) : Prop := {
  rv_index : IndexWf r;
  rv_key : ∀ k e, rn_retained r !! k = Some e → PlanKey (pl_id (rt_plan e)) = k;
  rv_typed : ∀ k e, rn_retained r !! k = Some e → Forall subject_wf (subjects_of (rt_plan e));
  rv_order : NoDup (map PlanKey (rn_retention_order r));
  rv_order_keys : ∀ k, k ∈ map PlanKey (rn_retention_order r) ↔ is_Some (rn_retained r !! k);
  rv_sound : ∀ text k, indexed_under r text k →
    ∃ e, rn_retained r !! k = Some e ∧ text ∈ texts (rt_plan e);
  rv_complete : rn_reverse_index_complete r = true → ∀ k e, rn_retained r !! k = Some e →
    ∀ text, text ∈ texts (rt_plan e) → indexed_under r text k;
  rv_bound : Z.of_nat (size (rn_retained r)) <= Z.max 1 (max_retained_plans (rn_limits r))
}.

(** Two states that agree on what the invariant reads. *)
Definition retention_view (r : Runtime) :=
  (rn_limits r, rn_retention_order r, rn_subject_index r, rn_reverse_entries r,
   rn_reverse_index_complete r).

(** An operation that keeps every retained plan, perhaps with another currentness. *)
Lemma RetentionInv_same_plans r r' :
  retention_view r' = retention_view r →
  (∀ k, rt_plan <$> rn_retained r' !! k = rt_plan <$> rn_retained r !! k) →
  RetentionInv r → RetentionInv r'.
Proof.
  intros Hview Hret [[Hne Ht Hb] Hkey Htyped Horder Hkeys Hsound Hcomplete Hbound].
  unfold retention_view in Hview. injection Hview as Hl Ho Hi Hn Hc.
  assert (Hto : ∀ k e', rn_retained r' !! k = Some e' →
    ∃ e, rn_retained r !! k = Some e ∧ rt_plan e = rt_plan e').
  { intros k e' He'. specialize (Hret k). rewrite He' in Hret. simpl in Hret.
    symmetry in Hret. apply fmap_Some in Hret as (e & He & Hp). by exists e. }
  assert (Hfrom : ∀ k e, rn_retained r !! k = Some e →
    ∃ e', rn_retained r' !! k = Some e' ∧ rt_plan e' = rt_plan e).
  { intros k e He. specialize (Hret k). rewrite He in Hret. simpl in Hret.
    apply fmap_Some in Hret as (e' & He' & Hp). by exists e'. }
  assert (Hsize : size (rn_retained r') = size (rn_retained r)).
  { rewrite <- !size_dom. f_equal. apply set_eq. intros k. rewrite !elem_of_dom.
    split; intros [e He]; [destruct (Hto k e He) as (? & ? & _)|destruct (Hfrom k e He) as (? & ? & _)]; eauto. }
  constructor; [constructor; by rewrite ?Hi, ?Hn, ?Hl| |..].
  - intros k e' He'. destruct (Hto k e' He') as (e & He & <-). by apply Hkey.
  - intros k e' He'. destruct (Hto k e' He') as (e & He & <-). by apply (Htyped k).
  - by rewrite Ho.
  - intros k. rewrite Ho, Hkeys. split; intros [e He].
    + destruct (Hfrom k e He) as (e' & ? & _). by exists e'.
    + destruct (Hto k e He) as (e' & ? & _). by exists e'.
  - intros text k Hk. unfold indexed_under in *. rewrite Hi in Hk.
    destruct (Hsound text k Hk) as (e & He & Htext). destruct (Hfrom k e He) as (e' & He' & Hp).
    exists e'. by rewrite Hp.
  - rewrite Hc. intros Hcomp k e' He' text Htext. destruct (Hto k e' He') as (e & He & Hp).
    unfold indexed_under. rewrite Hi. apply (Hcomplete Hcomp k e He). by rewrite Hp.
  - by rewrite Hsize, Hl.
Qed.

Lemma new_PlannerRuntime_inv config : RetentionInv (new_PlannerRuntime config).
Proof.
  constructor; simpl; try done; [constructor; simpl; [done|done|lia]|constructor|..].
  - intros k. rewrite lookup_empty. split; [by intros ?%not_elem_of_nil|by intros [? ?]].
  - intros text k Hk. unfold indexed_under in Hk. simpl in Hk. rewrite lookup_empty in Hk.
    by apply not_elem_of_nil in Hk.
  - rewrite map_size_empty. lia.
Qed.

(** *** Eviction *)

Lemma frame_limits r r' : frame r' = frame r → rn_limits r' = rn_limits r.
Proof. unfold frame, inputs, begin_plan. simpl. by intros [= ? ? ? ? ? ? ?]. Qed.
Lemma frame_retained r r' : frame r' = frame r → rn_retained r' = rn_retained r.
Proof. unfold frame. by intros [= _ _ _ _ _ ? _ _ _]. Qed.
Lemma frame_order r r' : frame r' = frame r → rn_retention_order r' = rn_retention_order r.
Proof. unfold frame. by intros [= _ _ _ _ _ _ ? _ _]. Qed.

(** Forgetting the oldest plan. *)
Definition forget (victim : PathPlanId) (entry : RetainedPlan) (rest : list PathPlanId) (r : Runtime) :
  Runtime :=
  let r := UnindexPlan (rt_plan entry) (set_retention_order rest r) in
  update_stats count_retired (set_retained (delete (PlanKey victim) (rn_retained r)) r).

Lemma forget_inv victim entry rest r :
  RetentionInv r → rn_retention_order r = victim :: rest →
  rn_retained r !! PlanKey victim = Some entry →
  RetentionInv (forget victim entry rest r) ∧
  rn_limits (forget victim entry rest r) = rn_limits r ∧
  rn_retention_order (forget victim entry rest r) = rest ∧
  rn_retained (forget victim entry rest r) = delete (PlanKey victim) (rn_retained r).
Proof.
  intros Hinv Ho He. unfold forget, UnindexPlan. rewrite (rv_key _ Hinv _ _ He).
  assert (Hwf0 : IndexWf (set_retention_order rest r)) by (destruct (rv_index _ Hinv); by constructor).
  destruct (unindex_subjects_spec (PlanKey victim) (subjects_of (rt_plan entry)) _ Hwf0)
    as (Hwf & Hframe & Hc & Hi). cbv zeta in *.
  set (r1 := fold_left _ _ _) in *.
  pose proof (frame_retained _ _ Hframe) as Hret. pose proof (frame_order _ _ Hframe) as Hord.
  pose proof (frame_limits _ _ Hframe) as Hlim. simpl in Hret, Hord, Hlim.
  destruct Hinv as [_ Hkey Htyped Horder Hkeys Hsound Hcomplete Hbound].
  rewrite Ho in Horder, Hkeys. apply NoDup_cons in Horder as [Hfresh Hnd].
  split_and!; simpl; rewrite ?Hret; [|done|done|done]. constructor; simpl; rewrite ?Hret, ?Hord, ?Hlim.
  - destruct Hwf; by constructor.
  - intros k e [_ Hk]%lookup_delete_Some. by apply Hkey.
  - intros k e [_ Hk]%lookup_delete_Some. by apply (Htyped k).
  - done.
  - intros k. rewrite lookup_delete_is_Some, <- Hkeys. cbn [map]. rewrite elem_of_cons. split.
    + intros Hk. split; [intros <-; done|by right].
    + intros [Hne [->|Hk]]; done.
  - intros text k Hk. apply Hi in Hk as [Hk Hnot]. destruct (Hsound text k Hk) as (e & Hke & Htext).
    exists e. split; [|done]. apply lookup_delete_Some. split; [|done]. intros <-.
    rewrite He in Hke. injection Hke as <-. by apply Hnot.
  - intros Hcomp k e [Hne Hk]%lookup_delete_Some text Htext. apply Hi.
    rewrite Hc in Hcomp. split; [by apply (Hcomplete Hcomp k e)|]. intros [_ ->]. done.
  - pose proof (map_size_delete (PlanKey victim) (rn_retained r)) as Hs. rewrite He in Hs. lia.
Qed.

Lemma evict_inv order r :
  RetentionInv r → rn_retention_order r = order →
  let r' := evict order r in
  RetentionInv r' ∧ rn_limits r' = rn_limits r ∧ rn_retained r' ⊆ rn_retained r ∧
  (Z.of_nat (size (rn_retained r')) < max_retained_plans (rn_limits r) ∨ rn_retained r' = ∅).
Proof.
  revert r. induction order as [|victim rest IH]; intros r Hinv Ho; cbn [evict].
  - split_and!; [done|done|done|right]. apply map_empty. intros k. apply eq_None_not_Some.
    rewrite <- (rv_order_keys _ Hinv), Ho. by intros ?%not_elem_of_nil.
  - destruct (_ >=? _) eqn:E; cbn [negb].
    2: { split_and!; [done|done|done|left]. bool_to_prop. lia. }
    cbv zeta. assert (Hv : is_Some (rn_retained r !! PlanKey victim)).
    { apply (rv_order_keys _ Hinv). rewrite Ho. left. }
    destruct Hv as [entry He]. cbn [rn_retained set_retention_order]. rewrite He.
    destruct (forget_inv victim entry rest r Hinv Ho He) as (Hinv' & Hl & Ho' & Hret).
    change (update_stats _ _) with (forget victim entry rest r).
    destruct (IH _ Hinv' Ho') as (? & Hl' & Hsub & Hend). cbv zeta in *.
    split_and!; [done|congruence| |by rewrite Hl in Hend].
    etransitivity; [exact Hsub|]. rewrite Hret. apply delete_subseteq.
Qed.

(** *** Retaining *)

(** A plan is retained under its own identity with the subjects of the plan it
    replaces, if any: true of genuine plans, whose identity is a digest of their
    candidates. *)
Definition retainable (plan : PathPlan) (r : Runtime) : Prop :=
  Forall subject_wf (subjects_of plan) ∧
  ∀ e, rn_retained r !! PlanKey (pl_id plan) = Some e → subjects_of plan = subjects_of (rt_plan e).

Definition retained_entry (plan : PathPlan) : RetainedPlan :=
  MkRetained plan (if pl_currentness_proven plan then Currentness.kCurrent
                   else Currentness.kRevalidationRequired).

Lemma replace_inv plan e r :
  RetentionInv r → retainable plan r → rn_retained r !! PlanKey (pl_id plan) = Some e →
  RetentionInv (set_retained (<[PlanKey (pl_id plan) := retained_entry plan]> (rn_retained r)) r).
Proof.
  intros [[Hne Ht Hb] Hkey Htyped Horder Hkeys Hsound Hcomplete Hbound] [Hty Hsame] He.
  specialize (Hsame e He).
  assert (Htexts : texts plan = texts (rt_plan e)) by (unfold texts; by rewrite Hsame).
  constructor; simpl; [by constructor| | |done|..].
  - intros k e' [[<- <-]|[_ Hk]]%lookup_insert_Some; [done|by apply Hkey].
  - intros k e' [[<- <-]|[_ Hk]]%lookup_insert_Some; [done|by apply (Htyped k)].
  - intros k. rewrite Hkeys, lookup_insert_is_Some'. split; [by right|]. intros [<-|?]; [by exists e|done].
  - intros text k Hk. destruct (Hsound text k Hk) as (e' & He' & Htext).
    destruct (decide (k = PlanKey (pl_id plan))) as [->|Hn].
    + exists (retained_entry plan). rewrite lookup_insert_eq. split; [done|]. simpl.
      rewrite Htexts. congruence.
    + exists e'. by rewrite lookup_insert_ne.
  - intros Hcomp k e' [[<- <-]|[Hn Hk]]%lookup_insert_Some text Htext; [|by apply (Hcomplete Hcomp k e')].
    apply (Hcomplete Hcomp _ e He). simpl in Htext. by rewrite <- Htexts.
  - rewrite map_size_insert_Some; [done|by exists e].
Qed.

Lemma insert_inv plan r :
  RetentionInv r → Forall subject_wf (subjects_of plan) →
  rn_retained r !! PlanKey (pl_id plan) = None →
  (Z.of_nat (size (rn_retained r)) < max_retained_plans (rn_limits r) ∨ rn_retained r = ∅) →
  let r1 := IndexPlan plan r in
  let r2 := set_retained (<[PlanKey (pl_id plan) := retained_entry plan]> (rn_retained r1)) r1 in
  RetentionInv (set_retention_order (rn_retention_order r2 ++ [pl_id plan]) r2).
Proof.
  intros Hinv Hty Hnone Hroom r1 r2.
  destruct (index_subjects_spec (PlanKey (pl_id plan)) (subjects_of plan) r (rv_index _ Hinv))
    as (Hwf & Hframe & Hc & Hmono & Hsound'). fold (IndexPlan plan r) in *. fold r1 in Hwf, Hframe, Hc, Hmono, Hsound'.
  pose proof (frame_retained _ _ Hframe) as Hret. pose proof (frame_order _ _ Hframe) as Hord.
  pose proof (frame_limits _ _ Hframe) as Hlim.
  destruct Hinv as [_ Hkey Htyped Horder Hkeys Hsound Hcomplete Hbound].
  unfold r2. constructor; simpl; rewrite ?Hret, ?Hord, ?Hlim.
  - destruct Hwf; by constructor.
  - intros k e [[<- <-]|[_ Hk]]%lookup_insert_Some; [done|by apply Hkey].
  - intros k e [[<- <-]|[_ Hk]]%lookup_insert_Some; [done|by apply (Htyped k)].
  - rewrite map_app. apply NoDup_app. split_and!; [done| |apply NoDup_singleton].
    intros k Hk Hin. apply Hkeys in Hk as [e Hk]. simpl in Hin.
    apply list_elem_of_singleton in Hin as ->. congruence.
  - intros k. rewrite map_app, elem_of_app, Hkeys, lookup_insert_is_Some'. simpl.
    rewrite list_elem_of_singleton. naive_solver.
  - intros text k [Hk|[Htext ->]]%Hsound'.
    + destruct (Hsound text k Hk) as (e & He & Htext). exists e.
      rewrite lookup_insert_ne; [done|congruence].
    + exists (retained_entry plan). by rewrite lookup_insert_eq.
  - intros Hcomp. destruct (Hc Hcomp) as [Hr Hall].
    intros k e [[<- <-]|[Hn Hk]]%lookup_insert_Some text Htext.
    + apply list_elem_of_fmap in Htext as (s & -> & Hs). by apply Hall.
    + apply Hmono. by apply (Hcomplete Hr k e).
  - rewrite map_size_insert_None by done. destruct Hroom as [Hroom|Hroom]; [lia|].
    rewrite Hroom, map_size_empty. lia.
Qed.

Lemma Retain_inv plan r : RetentionInv r → retainable plan r → RetentionInv (Retain plan r).1.
Proof.
  intros Hinv Hok. unfold Retain. destruct (negb _); [done|]. cbv zeta.
  destruct (rn_retained r !! PlanKey (pl_id plan)) as [e|] eqn:E; cbn [fst].
  - by apply (replace_inv plan e).
  - destruct (evict_inv _ r Hinv eq_refl) as (Hinv' & Hl & Hsub & Hroom). cbv zeta in *.
    apply insert_inv; [done|by apply Hok| |by rewrite Hl].
    apply eq_None_not_Some. intros [e He]. pose proof (lookup_weaken _ _ _ _ He Hsub). congruence.
Qed.

(** *** Invalidation *)

Definition verdict_of (r : Runtime) (e : RetainedPlan) : Currentness.t :=
  if dependency_lost r (rt_plan e) then Currentness.kRetired else Currentness.kRevalidationRequired.
Definition invalidated (r : Runtime) (e : RetainedPlan) : RetainedPlan :=
  MkRetained (rt_plan e) (verdict_of r e).

(** The identities of the retained plans with the given keys that satisfy [f]. *)
Definition ids_where (r : Runtime) (f : RetainedPlan → bool) (keys : list string) : list PathPlanId :=
  omap (λ k, e ← rn_retained r !! k; if f e then Some (pl_id (rt_plan e)) else None) keys.
Definition loses (r : Runtime) (e : RetainedPlan) : bool := dependency_lost r (rt_plan e).

(** The loop over distinct keys, from a state that differs from [r0] only in the
    statistics and in entries of other keys. *)
Lemma invalidate_fold r0 keys r report :
  NoDup keys → rn_snapshot r = rn_snapshot r0 →
  (∀ k, k ∈ keys → rn_retained r !! k = rn_retained r0 !! k) →
  let st := fold_left invalidate keys (r, report) in
  retention_view st.1 = retention_view r ∧ inputs st.1 = inputs r ∧
  (∀ k, rn_retained st.1 !! k =
     if decide (k ∈ keys) then invalidated r0 <$> rn_retained r0 !! k else rn_retained r !! k) ∧
  ir_affected st.2 = ir_affected report ++ ids_where r0 (λ _, true) keys ∧
  ir_retired st.2 = ir_retired report ++ ids_where r0 (loses r0) keys ∧
  ir_marked_revalidation_required st.2 =
    ir_marked_revalidation_required report ++ ids_where r0 (λ e, negb (loses r0 e)) keys ∧
  ir_conservative st.2 = ir_conservative report.
Proof.
  revert r report. induction keys as [|key keys IH]; intros r report Hnd Hs Hsame; cbn [fold_left].
  { split_and!; try done; by rewrite ?app_nil_r. }
  apply NoDup_cons in Hnd as [Hfresh Hnd].
  remember (invalidate (r, report) key) as st1 eqn:Est. unfold invalidate in Est.
  pose proof (Hsame key (list_elem_of_here _ _)) as Hkey.
  destruct (rn_retained r !! key) as [e|] eqn:E; cbv zeta in Est.
  2: { subst st1. destruct (IH r report Hnd Hs) as (? & ? & Hret & Ha & Hr & Hm & ?);
         [intros k Hk; apply Hsame; by right|]. cbv zeta in *.
       split_and!; try done.
       - intros k. rewrite Hret. destruct (decide (k ∈ keys)) as [Hk|Hk].
         + rewrite decide_True by by right. done.
         + destruct (decide (k ∈ key :: keys)) as [Hin|]; [|done].
           apply elem_of_cons in Hin as [->|?]; [|done]. rewrite E. by rewrite <- Hkey.
       - rewrite Ha. unfold ids_where. simpl. by rewrite <- Hkey.
       - rewrite Hr. unfold ids_where. simpl. by rewrite <- Hkey.
       - rewrite Hm. unfold ids_where. simpl. by rewrite <- Hkey. }
  assert (Hlost : dependency_lost r (rt_plan e) = loses r0 e)
    by (unfold loses, dependency_lost; by rewrite Hs).
  rewrite Hlost in Est.
  set (r1 := set_retained (<[key := invalidated r0 e]> (rn_retained r)) r).
  assert (Hr1 : ∀ k, rn_retained r1 !! k = if decide (k = key) then Some (invalidated r0 e) else rn_retained r !! k).
  { intros k. simpl.
    destruct (decide (k = key)) as [->|Hn]; [by rewrite lookup_insert_eq|by rewrite lookup_insert_ne]. }
  assert (Hst1 : retention_view st1.1 = retention_view r ∧ inputs st1.1 = inputs r ∧
    rn_snapshot st1.1 = rn_snapshot r0 ∧
    (∀ k, rn_retained st1.1 !! k = rn_retained r1 !! k) ∧
    ir_affected st1.2 = ir_affected report ++ [pl_id (rt_plan e)] ∧
    ir_retired st1.2 = ir_retired report ++ (if loses r0 e then [pl_id (rt_plan e)] else []) ∧
    ir_marked_revalidation_required st1.2 = ir_marked_revalidation_required report ++
      (if loses r0 e then [] else [pl_id (rt_plan e)]) ∧
    ir_conservative st1.2 = ir_conservative report).
  { assert (Hv : verdict_of r0 e = if loses r0 e then Currentness.kRetired
      else Currentness.kRevalidationRequired) by done.
    unfold r1, invalidated. rewrite Est, Hv.
    destruct (loses r0 e); simpl; rewrite ?app_nil_r; by split_and!. }
  clear Est. destruct st1 as [r2 report2]. cbn [fst snd] in Hst1.
  destruct Hst1 as (Hv2 & Hi2 & Hs2 & Hret2 & Ha2 & Hl2 & Hm2 & Hc2).
  assert (Hsame2 : ∀ k, k ∈ keys → rn_retained r2 !! k = rn_retained r0 !! k).
  { intros k Hk. rewrite Hret2, Hr1, decide_False by (by intros ->). apply Hsame. by right. }
  destruct (IH r2 report2 Hnd Hs2 Hsame2) as (Hv & Hi & Hret & Ha & Hl & Hm & Hc). cbv zeta in *.
  assert (Hids : ∀ f, ids_where r0 f (key :: keys) =
    (if f e then [pl_id (rt_plan e)] else []) ++ ids_where r0 f keys).
  { intros f. unfold ids_where. simpl. rewrite <- Hkey. simpl. by destruct (f e). }
  split_and!; [congruence|congruence| |rewrite Ha, Ha2|rewrite Hl, Hl2|rewrite Hm, Hm2|congruence].
  - intros k. rewrite Hret, Hret2, Hr1. destruct (decide (k ∈ keys)) as [Hk|Hk].
    + rewrite decide_True by by right. done.
    + destruct (decide (k = key)) as [->|Hn].
      * rewrite decide_True by left. by rewrite <- Hkey.
      * rewrite decide_False; [done|]. by intros [?|?]%elem_of_cons.
  - rewrite Hids, <- app_assoc. done.
  - rewrite Hids, <- app_assoc. done.
  - rewrite Hids, <- app_assoc. by destruct (loses r0 e).
Qed.

(** The plans a notice concerns. *)
Definition concerned (notice : InvalidationNotice) (r : Runtime) (e : RetainedPlan) : Prop :=
  is_conservative notice r = true ∨
  ∃ s, s ∈ notice_subjects notice ∧ s ∈ subjects_of (rt_plan e).

Lemma affected_keys_NoDup notice r : NoDup (affected_keys notice r).
Proof.
  unfold affected_keys. cbv zeta. set (l := sort_ids _).
  assert (Hs : strictly_sorted id (unique_ids l)) by apply unique_ids_sorted, sort_by_sorted.
  apply strictly_sorted_NoDup in Hs. by rewrite map_id in Hs.
Qed.

Lemma affected_keys_spec notice r k :
  RetentionInv r → Forall subject_wf (notice_subjects notice) →
  k ∈ affected_keys notice r ↔ ∃ e, rn_retained r !! k = Some e ∧ concerned notice r e.
Proof.
  intros Hinv Hty. unfold affected_keys. cbv zeta. rewrite elem_of_unique_ids.
  unfold sort_ids. rewrite elem_of_sort_by. unfold concerned.
  destruct (is_conservative notice r) eqn:Hcons.
  - rewrite list_elem_of_fmap. split.
    + intros ([k' e] & -> & Hk%elem_of_map_to_list). exists e. auto.
    + intros (e & He & _). exists (k, e). split; [done|]. by apply elem_of_map_to_list.
  - rewrite list_elem_of_In, in_flat_map. setoid_rewrite <- list_elem_of_In. rewrite Forall_forall in Hty. split.
    + intros (s & Hs & Hk). destruct (rv_sound _ Hinv _ _ Hk) as (e & He & Htext).
      exists e. split; [done|right]. exists s. split; [done|].
      apply list_elem_of_fmap in Htext as (s' & Heq & Hs').
      apply SubjectToString_inj in Heq as ->; [done|by apply Hty|].
      pose proof (rv_typed _ Hinv _ _ He) as Hall. rewrite Forall_forall in Hall. by apply Hall.
    + intros (e & He & [?|(s & Hs & Hs')]); [done|]. exists s. split; [done|].
      unfold is_conservative in Hcons. bool_to_prop.
      apply (rv_complete _ Hinv ltac:(done) k e He). by apply list_elem_of_fmap_2.
Qed.

Lemma ApplyInvalidation_spec notice r :
  let keys := affected_keys notice r in
  let '(r', report) := ApplyInvalidation notice r in
  retention_view r' = retention_view r ∧
  (∀ k, rn_retained r' !! k =
     if decide (k ∈ keys) then invalidated r <$> rn_retained r !! k else rn_retained r !! k) ∧
  ir_affected report = ids_where r (λ _, true) keys ∧
  ir_retired report = ids_where r (loses r) keys ∧
  ir_marked_revalidation_required report = ids_where r (λ e, negb (loses r e)) keys ∧
  ir_conservative report = is_conservative notice r.
Proof.
  intros keys. unfold ApplyInvalidation. cbv zeta.
  set (r1 := advance_watermark _). set (report := MkInvalidation [] [] [] _ _).
  change (affected_keys notice r1) with keys.
  destruct (invalidate_fold r keys r1 report (affected_keys_NoDup notice r) eq_refl (λ _ _, eq_refl))
    as (Hv & _ & Hret & Ha & Hl & Hm & Hc). cbv zeta in *.
  destruct (fold_left invalidate keys (r1, report)) as [r' report']. cbn [fst snd] in *.
  split_and!; [done|done|done|done|done|]. cbn [ir_conservative]. rewrite Hc. simpl.
  unfold is_conservative at 2. unfold is_conservative. simpl.
  by destruct (in_conservative_all notice).
Qed.

Lemma elem_of_ids_where r f keys id :
  id ∈ ids_where r f keys ↔
  ∃ k e, k ∈ keys ∧ rn_retained r !! k = Some e ∧ f e = true ∧ pl_id (rt_plan e) = id.
Proof.
  unfold ids_where. rewrite list_elem_of_omap. split.
  - intros (k & Hk & Hid). exists k. destruct (rn_retained r !! k) as [e|]; [|done]. simpl in Hid.
    destruct (f e) eqn:Ef; [|done]. injection Hid as <-. eauto.
  - intros (k & e & Hk & He & Ef & <-). exists k. rewrite He. simpl. by rewrite Ef.
Qed.

(** *** What a notice means *)

(** [k] is a node, link or port of a candidate of the plan. *)
Definition depends (plan : PathPlan) (k : SubjectKey) : Prop :=
  ∃ c, c ∈ pl_candidates plan ∧ k ∈ candidate_subjects c.

Lemma elem_of_subjects_of plan k : k ∈ subjects_of plan ↔ depends plan k.
Proof.
  unfold subjects_of, CollectPlanDependencies, depends, sort_ids. cbn [dp_subjects].
  rewrite elem_of_unique_ids, elem_of_sort_by, list_elem_of_In, in_flat_map.
  by setoid_rewrite list_elem_of_In.
Qed.

(** The snapshot publishes the element [k] names. *)
Definition present (s : FabricSnapshot) (k : SubjectKey) : Prop :=
  match sk_kind k with
  | SubjectKind.kNode => ∃ n, n ∈ s_nodes s ∧ n_id n = FromBytes (sk_bytes k)
  | SubjectKind.kLink => ∃ e, e ∈ s_edges s ∧ e_id e = FromBytes (sk_bytes k)
  | SubjectKind.kPort => ∃ n, n ∈ s_nodes s ∧ FromBytes (sk_bytes k) ∈ n_ports n
  end.

Lemma found_iff {A K} `{Ordered K} (key : A → K) l x :
  strictly_sorted key l →
  match find_sorted key l x with Some _ => true | None => false end = true ↔ ∃ y, y ∈ l ∧ key y = x.
Proof.
  intros Hs. destruct (find_sorted key l x) as [y|] eqn:E; split; try done.
  - intros _. exists y. by apply find_sorted_Some in E.
  - intros (y & Hy & Hk). by destruct (proj1 (find_sorted_None key l x Hs) E y Hy).
Qed.

Lemma SubjectStillPresent_spec s k : snapshot_wf s → SubjectStillPresent s k = true ↔ present s k.
Proof.
  intros Hs. destruct k as [[] bs]; unfold present; cbn [sk_kind sk_bytes].
  - exact (found_iff n_id (s_nodes s) (FromBytes bs) (sw_nodes s Hs)).
  - exact (found_iff e_id (s_edges s) (FromBytes bs) (sw_edges s Hs)).
  - change (SubjectStillPresent s _) with
      (existsb (λ node, binary_search (n_ports node) (FromBytes (tag := PortIdTag) bs)) (s_nodes s)).
    rewrite existsb_exists. setoid_rewrite <- list_elem_of_In. pose proof (sw_node_ok s Hs) as Hok.
    rewrite Forall_forall in Hok. split; intros (n & Hn & Hp); exists n; (split; [done|]);
      pose proof (found_iff id (n_ports n) (FromBytes bs) (no_sorted _ _ (Hok n Hn))) as Hf.
    + apply Hf in Hp as (y & Hy & <-). done.
    + apply Hf. by eexists.
Qed.

(** The notice names the subject [k]. *)
Definition named (notice : InvalidationNotice) (k : SubjectKey) : Prop :=
  (∃ x, k = ForNode x ∧ x ∈ in_nodes notice) ∨ (∃ x, k = ForLink x ∧ x ∈ in_links notice) ∨
  (∃ x, k = ForPort x ∧ x ∈ in_ports notice).

(** What makes an invalidation conservative: it is asked for, the notice names a
    capability or a failure domain, or the reverse index is incomplete. *)
Definition concerns_all (notice : InvalidationNotice) (r : Runtime) : Prop :=
  in_conservative_all notice = true ∨ in_capabilities notice ≠ [] ∨
  in_failure_domains notice ≠ [] ∨ rn_reverse_index_complete r = false.

(** The plan is concerned: it rests on a named subject, or every plan is concerned. *)
Definition touched (notice : InvalidationNotice) (r : Runtime) (plan : PathPlan) : Prop :=
  concerns_all notice r ∨ ∃ k, named notice k ∧ depends plan k.

(** An element the plan rests on is not in the current snapshot. *)
Definition lost (r : Runtime) (plan : PathPlan) : Prop :=
  ∃ s k, rn_snapshot r = Some s ∧ depends plan k ∧ ¬ present s k.

Lemma elem_of_notice_subjects notice k : k ∈ notice_subjects notice ↔ named notice k.
Proof. unfold notice_subjects, named. rewrite !elem_of_app, !list_elem_of_fmap. done. Qed.

Lemma is_conservative_iff notice r : is_conservative notice r = true ↔ concerns_all notice r.
Proof.
  assert (Hlen : ∀ A (l : list A), negb (length l =? 0)%nat = true ↔ l ≠ []) by (intros A [|]; done).
  unfold is_conservative, concerns_all. rewrite !orb_true_iff, !Hlen, negb_true_iff. tauto.
Qed.

Lemma concerned_iff notice r e : concerned notice r e ↔ touched notice r (rt_plan e).
Proof.
  unfold concerned, touched. rewrite is_conservative_iff.
  by setoid_rewrite elem_of_notice_subjects; setoid_rewrite elem_of_subjects_of.
Qed.

(** The current snapshot, if there is one, is coherent. *)
Definition coherent (r : Runtime) : Prop := ∀ s, rn_snapshot r = Some s → snapshot_wf s.

Lemma dependency_lost_iff r plan : coherent r → dependency_lost r plan = true ↔ lost r plan.
Proof.
  intros Hwf. unfold dependency_lost, lost. destruct (rn_snapshot r) as [s|] eqn:Es.
  2: { split; [done|]. by intros (? & ? & ? & _). }
  rewrite existsb_exists. setoid_rewrite <- list_elem_of_In. setoid_rewrite elem_of_subjects_of.
  setoid_rewrite negb_true_iff. setoid_rewrite <- not_true_iff_false.
  setoid_rewrite (λ k, SubjectStillPresent_spec s k (Hwf s Es)). naive_solver.
Qed.

(** Every retained plan after an invalidation. *)
Lemma ApplyInvalidation_plans notice r :
  RetentionInv r → coherent r → Forall subject_wf (notice_subjects notice) →
  let r' := (ApplyInvalidation notice r).1 in
  ∀ k e, rn_retained r !! k = Some e →
    (¬ touched notice r (rt_plan e) → rn_retained r' !! k = Some e) ∧
    (touched notice r (rt_plan e) → lost r (rt_plan e) →
       rn_retained r' !! k = Some (MkRetained (rt_plan e) Currentness.kRetired)) ∧
    (touched notice r (rt_plan e) → ¬ lost r (rt_plan e) →
       rn_retained r' !! k = Some (MkRetained (rt_plan e) Currentness.kRevalidationRequired)).
Proof.
  intros Hinv Hwf Hty r' k e He. unfold r'. pose proof (ApplyInvalidation_spec notice r) as H. cbv zeta in H.
  destruct (ApplyInvalidation notice r) as [r1 report]. cbn [fst]. destruct H as (_ & -> & _).
  rewrite He. rewrite <- concerned_iff, <- dependency_lost_iff by done.
  assert (k ∈ affected_keys notice r ↔ concerned notice r e) as Hk.
  { rewrite affected_keys_spec by done. split; [intros (? & ? & ?); by simplify_eq|by exists e]. }
  split_and!.
  - intros Hn. by rewrite decide_False by (by rewrite Hk).
  - intros Hc Hl. rewrite decide_True by (by apply Hk). cbn. unfold invalidated, verdict_of. by rewrite Hl.
  - intros Hc Hl%not_true_iff_false. rewrite decide_True by (by apply Hk). cbn.
    unfold invalidated, verdict_of. by rewrite Hl.
Qed.

(** *** Every history *)

Inductive RuntimeOp :=
  | OpPublishSnapshot (s : option FabricSnapshot)
  | OpBeginPlan
  | OpPublishPlan (capture : Capture) (request : PlanningRequest) (result : PlanningResult)
      (stats : PlannerStatistics)
  | OpRetain (plan : PathPlan)
  | OpApplyInvalidation (notice : InvalidationNotice)
  | OpAdvanceEpoch (epoch : Z) (conservative_recovery : bool)
  | OpResetStats.

Definition apply_op (op : RuntimeOp) (r : Runtime) : Runtime :=
  match op with
  | OpPublishSnapshot s => PublishSnapshot s r
  | OpBeginPlan => (begin_plan r).1
  | OpPublishPlan capture request result stats => (publish capture request result stats r).1
  | OpRetain plan => (Retain plan r).1
  | OpApplyInvalidation notice => (ApplyInvalidation notice r).1
  | OpAdvanceEpoch epoch recovery => (AdvanceEpoch epoch recovery r).1.1
  | OpResetStats => ResetStats r
  end.

(** Every plan retained along the way is retainable when it is. *)
Fixpoint consistent (ops : list RuntimeOp) (r : Runtime) : Prop :=
  match ops with
  | [] => True
  | op :: ops =>
      match op with OpRetain plan => retainable plan r | _ => True end ∧
      consistent ops (apply_op op r)
  end.

Definition history (ops : list RuntimeOp) (r : Runtime) : Runtime :=
  fold_left (λ r op, apply_op op r) ops r.

Lemma NextGeneration_frame request digest r :
  let r' := (NextGeneration request digest r).1 in
  retention_view r' = retention_view r ∧ rn_retained r' = rn_retained r.
Proof.
  unfold NextGeneration. destruct (rn_request_generations r !! _) as [existing|].
  - by destruct (eqb _ _).
  - by destruct (trim_generations _ _ _).
Qed.

Lemma apply_op_inv op r :
  RetentionInv r → match op with OpRetain plan => retainable plan r | _ => True end →
  RetentionInv (apply_op op r).
Proof.
  intros Hinv Hok. destruct op as [s| |capture request result stats|plan|notice|epoch recovery|]; simpl.
  - apply (RetentionInv_same_plans r); [by destruct s|by destruct s|done].
  - by apply (RetentionInv_same_plans r).
  - unfold publish. destruct (NextGeneration_frame (rq_id request)
      (pl_semantic_digest (MakePathPlan request result (cp_sequence capture))) r) as [Hv Hr].
    destruct (NextGeneration _ _ r) as [r' generation]. cbv zeta in *. simpl in *.
    apply (RetentionInv_same_plans r); [done|intros k; simpl; by rewrite Hr|done].
  - by apply Retain_inv.
  - pose proof (ApplyInvalidation_spec notice r) as H. cbv zeta in H.
    destruct (ApplyInvalidation notice r) as [r' report]. destruct H as (Hv & Hret & _).
    apply (RetentionInv_same_plans r); [done| |done]. intros k. simpl. rewrite Hret.
    destruct (decide _); [|done]. by destruct (rn_retained r !! k).
  - unfold AdvanceEpoch. destruct (_ <=? _); [done|]. destruct recovery; simpl.
    + apply (RetentionInv_same_plans r); [done| |done]. intros k. simpl. rewrite lookup_fmap.
      by destruct (rn_retained r !! k).
    + by apply (RetentionInv_same_plans r).
  - by apply (RetentionInv_same_plans r).
Qed.

Lemma history_inv ops r : RetentionInv r → consistent ops r → RetentionInv (history ops r).
Proof.
  revert r. induction ops as [|op ops IH]; intros r Hinv; [done|]. intros [Hok Hops]. simpl.
  apply IH; [|done]. by apply apply_op_inv.
Qed.

(** C9: in every history of the runtime that retains genuine plans, the retained
    plans are filed under their own identity, the retention order lists each once
    and at most [max_retained_plans] (at least one) are kept; and the reverse index
    is sound, counted exactly, within its ceiling, and unless the ceiling was hit
    complete: a plan is filed under every subject it depends on and under no other. *)
Theorem retention_invariant config ops :
  let r := history ops (new_PlannerRuntime config) in
  consistent ops (new_PlannerRuntime config) →
  (∀ k e, rn_retained r !! k = Some e → PlanKey (pl_id (rt_plan e)) = k) ∧
  NoDup (map PlanKey (rn_retention_order r)) ∧
  (∀ k, k ∈ map PlanKey (rn_retention_order r) ↔ is_Some (rn_retained r !! k)) ∧
  Z.of_nat (RetainedPlanCount r) <= Z.max 1 (max_retained_plans (rn_limits r)) ∧
  rn_reverse_entries r = total (rn_subject_index r) ∧
  rn_reverse_entries r <= Z.max 0 (max_reverse_dependency_entries (rn_limits r)) ∧
  (∀ text k, indexed_under r text k →
     ∃ e, rn_retained r !! k = Some e ∧ text ∈ texts (rt_plan e)) ∧
  (rn_reverse_index_complete r = true → ∀ k e, rn_retained r !! k = Some e →
     ∀ text, text ∈ texts (rt_plan e) → indexed_under r text k).
Proof.
  intros r Hops. assert (Hinv : RetentionInv r).
  { apply history_inv; [apply new_PlannerRuntime_inv|done]. }
  destruct Hinv as [[_ ? ?] ? _ ? ? ? ? ?]. by split_and!.
Qed.

(** C10: [ApplyInvalidation] is exact. It concerns every retained plan when it is asked
    to be conservative, when capabilities or failure domains are named or when the
    reverse index is incomplete, and otherwise exactly the plans that rest on a named
    node, link or port; a concerned plan becomes RETIRED if an element it rests on is
    not in the current (coherent) snapshot and REVALIDATION_REQUIRED if all are or if
    there is no snapshot, and is reported accordingly; every other plan is untouched. *)
Theorem invalidation_exact config ops notice :
  let r := history ops (new_PlannerRuntime config) in
  consistent ops (new_PlannerRuntime config) → Forall subject_wf (notice_subjects notice) →
  (∀ s, rn_snapshot r = Some s → snapshot_wf s) →
  let r' := (ApplyInvalidation notice r).1 in
  let report := (ApplyInvalidation notice r).2 in
  (∀ k e, rn_retained r !! k = Some e →
     (¬ touched notice r (rt_plan e) → rn_retained r' !! k = Some e) ∧
     (touched notice r (rt_plan e) → lost r (rt_plan e) →
        rn_retained r' !! k = Some (MkRetained (rt_plan e) Currentness.kRetired)) ∧
     (touched notice r (rt_plan e) → ¬ lost r (rt_plan e) →
        rn_retained r' !! k = Some (MkRetained (rt_plan e) Currentness.kRevalidationRequired))) ∧
  (∀ k, rn_retained r !! k = None → rn_retained r' !! k = None) ∧
  (∀ id, id ∈ ir_affected report ↔
     ∃ k e, rn_retained r !! k = Some e ∧ pl_id (rt_plan e) = id ∧ touched notice r (rt_plan e)) ∧
  (∀ id, id ∈ ir_retired report ↔
     ∃ k e, rn_retained r !! k = Some e ∧ pl_id (rt_plan e) = id ∧ touched notice r (rt_plan e) ∧
       lost r (rt_plan e)) ∧
  (∀ id, id ∈ ir_marked_revalidation_required report ↔
     ∃ k e, rn_retained r !! k = Some e ∧ pl_id (rt_plan e) = id ∧ touched notice r (rt_plan e) ∧
       ¬ lost r (rt_plan e)) ∧
  (ir_conservative report = true ↔ concerns_all notice r).
Proof.
  intros r Hops Hty Hwf. assert (Hinv : RetentionInv r).
  { apply history_inv; [apply new_PlannerRuntime_inv|done]. }
  pose proof (λ k, affected_keys_spec notice r k Hinv Hty) as Hkeys.
  split; [by apply ApplyInvalidation_plans|].
  pose proof (ApplyInvalidation_spec notice r) as H. cbv zeta in H.
  destruct (ApplyInvalidation notice r) as [r' report]. cbn [fst snd].
  destruct H as (_ & Hret & Ha & Hl & Hm & Hc).
  setoid_rewrite <- concerned_iff. setoid_rewrite <- (λ p, dependency_lost_iff r p Hwf).
  split_and!.
  - intros k Hk. rewrite Hret, Hk. by destruct (decide _).
  - intros id. rewrite Ha, elem_of_ids_where. setoid_rewrite Hkeys. naive_solver.
  - intros id. rewrite Hl, elem_of_ids_where. setoid_rewrite Hkeys. unfold loses. naive_solver.
  - intros id. rewrite Hm, elem_of_ids_where. setoid_rewrite Hkeys. unfold loses.
    setoid_rewrite negb_true_iff. setoid_rewrite not_true_iff_false. naive_solver.
  - rewrite Hc. apply is_conservative_iff.
Qed.

(** *** The demo plan, retained *)

Definition demo_plan :=
  Eval vm_compute in MakePathPlan demo_request (Plan demo_request demo_runtime).2 0.
Definition demo_history : list RuntimeOp := [OpBeginPlan; OpRetain demo_plan].
Definition demo_retained : Runtime := history demo_history demo_runtime.
Definition demo_notice (k : Z) : InvalidationNotice := MkNotice [] [Demo.link k] [] [] [] false.

Definition subject_test (k : SubjectKey) : bool :=
  (length (sk_bytes k) =? 16)%nat && forallb (λ b, (0 <=? b) && (b <? 256)) (sk_bytes k).
Lemma subject_test_spec l : forallb subject_test l = true → Forall subject_wf l.
Proof.
  rewrite forallb_forall, Forall_forall. intros Hall k Hk%list_elem_of_In. specialize (Hall k Hk).
  unfold subject_test in Hall. apply andb_true_iff in Hall as [Hl Hb]. bool_to_prop. split; [done|].
  rewrite forallb_forall in Hb. apply Forall_forall. intros b Hin%list_elem_of_In.
  specialize (Hb b Hin). unfold is_byte. bool_to_prop. lia.
Qed.

Lemma demo_consistent : consistent demo_history demo_runtime.
Proof.
  split; [done|]. split; [|done]. split; [apply subject_test_spec; vm_compute; reflexivity|].
  intros e He. simpl in He. by rewrite lookup_empty in He.
Qed.

Lemma demo_retained_plans :
  rn_retained (history demo_history (new_PlannerRuntime demo_config)) =
  {[PlanKey (pl_id demo_plan) := retained_entry demo_plan]}.
Proof. vm_compute. reflexivity. Qed.

Lemma retention_invariant_witness :
  RetainedPlanCount demo_retained = 1%nat ∧ rn_reverse_entries demo_retained = 14 ∧
  indexed_under demo_retained (SubjectToString (ForLink (Demo.link 3))) (PlanKey (pl_id demo_plan)).
Proof.
  split; [vm_compute; reflexivity|]. split; [vm_compute; reflexivity|].
  destruct (retention_invariant demo_config demo_history demo_consistent)
    as (_ & _ & _ & _ & _ & _ & _ & Hcomplete).
  refine (Hcomplete _ (PlanKey (pl_id demo_plan)) (retained_entry demo_plan) _ _ _);
    [vm_compute; reflexivity|vm_compute; reflexivity|].
  apply list_elem_of_In. vm_compute. tauto.
Defined.

Lemma demo_depends k : bool_decide (k ∈ subjects_of demo_plan) = true → depends demo_plan k.
Proof. intros Hk%bool_decide_eq_true_1. by apply elem_of_subjects_of. Qed.

Lemma demo_not_depends k : bool_decide (k ∈ subjects_of demo_plan) = false → ¬ depends demo_plan k.
Proof. intros Hk%bool_decide_eq_false_1 Hd. by apply Hk, elem_of_subjects_of. Qed.

Lemma demo_history_coherent : coherent (history demo_history (new_PlannerRuntime demo_config)).
Proof. intros s Hs. vm_compute in Hs. injection Hs as <-. exact demo_snapshot_wf. Qed.

(** The same plan after a snapshot without any element. *)
Definition bare_builder : FabricSnapshotBuilder :=
  run_ops [OpSetGenerations Demo.generations] (new_builder default_limits).
Definition bare_snapshot : FabricSnapshot := built_snapshot bare_builder.
Definition bare_history : list RuntimeOp := demo_history ++ [OpPublishSnapshot (Some bare_snapshot)].

Lemma bare_consistent : consistent bare_history demo_runtime.
Proof.
  split; [done|]. split; [|by split]. split; [apply subject_test_spec; vm_compute; reflexivity|].
  intros e He. simpl in He. by rewrite lookup_empty in He.
Qed.

Lemma bare_history_coherent : coherent (history bare_history (new_PlannerRuntime demo_config)).
Proof.
  assert (Hwf : snapshot_wf bare_snapshot).
  { apply (published_wf bare_builder); [apply run_ops_wf|]. vm_compute. reflexivity. }
  intros s Hs. change (Some bare_snapshot = Some s) in Hs. injection Hs as <-. exact Hwf.
Qed.

Lemma demo_notice_wf k : (k =? 1) || (k =? 3) = true → Forall subject_wf (notice_subjects (demo_notice k)).
Proof.
  intros Hk%orb_true_iff. apply subject_test_spec.
  destruct Hk as [->%Z.eqb_eq| ->%Z.eqb_eq]; vm_compute; reflexivity.
Qed.

Lemma demo_not_touched e :
  rn_retained demo_retained !! PlanKey (pl_id demo_plan) = Some e →
  ¬ touched (demo_notice 1) demo_retained (rt_plan e).
Proof.
  intros He. assert (rt_plan e = demo_plan) as ->.
  { change demo_retained with (history demo_history (new_PlannerRuntime demo_config)) in He.
    rewrite demo_retained_plans in He. apply lookup_singleton_Some in He as [_ <-]. done. }
  intros [Hc%is_conservative_iff|(k & Hk%elem_of_notice_subjects & Hd)]; [vm_compute in Hc; discriminate|].
  apply list_elem_of_singleton in Hk as ->. revert Hd. apply demo_not_depends. vm_compute. reflexivity.
Qed.

(** Naming link 3 marks the plan; naming link 1, which it does not use, leaves it; and
    once the elements are gone from the snapshot, naming link 3 retires it. *)
Lemma invalidation_exact_witness :
  pl_id demo_plan ∈ ir_marked_revalidation_required (ApplyInvalidation (demo_notice 3) demo_retained).2 ∧
  rn_retained (ApplyInvalidation (demo_notice 1) demo_retained).1 !! PlanKey (pl_id demo_plan) =
    Some (retained_entry demo_plan) ∧
  rn_retained (ApplyInvalidation (demo_notice 3) (history bare_history demo_runtime)).1
    !! PlanKey (pl_id demo_plan) = Some (MkRetained demo_plan Currentness.kRetired).
Proof.
  assert (Ht : ∀ r, touched (demo_notice 3) r demo_plan).
  { intros r. right. exists (ForLink (Demo.link 3)). split.
    - right. left. exists (Demo.link 3). split; [reflexivity|left].
    - apply demo_depends. vm_compute. reflexivity. }
  split; [|split].
  - refine (proj2 (proj1 (proj2 (proj2 (proj2 (proj2 (invalidation_exact demo_config demo_history
      (demo_notice 3) demo_consistent (demo_notice_wf 3 eq_refl) demo_history_coherent))))) _) _).
    exists (PlanKey (pl_id demo_plan)), (retained_entry demo_plan).
    split; [vm_compute; reflexivity|]. split; [reflexivity|]. split; [apply Ht|].
    intros Hl%(dependency_lost_iff _ _ demo_history_coherent). vm_compute in Hl. discriminate.
  - refine (proj1 (proj1 (invalidation_exact demo_config demo_history (demo_notice 1) demo_consistent
      (demo_notice_wf 1 eq_refl) demo_history_coherent) _ (retained_entry demo_plan) _) _);
      [vm_compute; reflexivity|]. apply (demo_not_touched (retained_entry demo_plan)). vm_compute. reflexivity.
  - refine (proj1 (proj2 (proj1 (invalidation_exact demo_config bare_history (demo_notice 3) bare_consistent
      (demo_notice_wf 3 eq_refl) bare_history_coherent) _ (retained_entry demo_plan) _)) _ _);
      [vm_compute; reflexivity|apply Ht|].
    apply (dependency_lost_iff _ _ bare_history_coherent). vm_compute. reflexivity.
Defined.
