(* ===== verification/PlanFacts.v ===== *)
(** [Plan] end to end: what the candidates of a computed plan are, and that they are
    the best ones. The view, search and path theorems are put together with the
    ranking, annotation and authority stages of planner.cpp. *)

From S2P Require Import Prelude Canonical Status Ids Codec Limits Graph Builder Path Request View ViewFacts Result Reach PathSearch Dijkstra SearchFacts PlainFacts ExpandedFacts RouteFacts BudgetFacts SpurFacts YenFacts TransitFacts Planner Concurrent.

(** ** The stages of [compute] *)

(** Everything but the explanations. *)
Definition core (r : PlanningResult) :=
  (rs_status r, rs_primary_failure r, (rs_source_endpoint r, rs_destination_endpoint r),
   (rs_source_node r, rs_destination_node r), (rs_candidates r, rs_rejections r), rs_evidence r,
   (rs_requested_candidates r, rs_truncated r, rs_diagnostic_mode r)).

Lemma explain_all_core l r : core (explain_all l r) = core r.
Proof. unfold explain_all. by apply (fold_left_invariant_eq core). Qed.

(** The inputs of the search of one plan. *)
Record PlanInputs := MkPlanInputs {
  pi_snapshot : FabricSnapshot; pi_source : EndpointRecord * NodeRecord;
  pi_destination : EndpointRecord * NodeRecord; pi_source_view : nat; pi_destination_view : nat
}.

Definition pi_build (capture : Capture) (request : PlanningRequest) (i : PlanInputs) :
  PlanningViewBuild :=
  BuildPlanningView (pi_snapshot i) request (cp_limits capture) (n_id (pi_source i).2)
    (n_id (pi_destination i).2).
Definition pi_view (capture : Capture) (request : PlanningRequest) (i : PlanInputs) : PlanningView :=
  vb_view (pi_build capture request i).
Definition pi_options (capture : Capture) (request : PlanningRequest) (i : PlanInputs) :
  EnumerationOptions :=
  enumeration_options request (cp_limits capture) (pi_source_view i) (pi_destination_view i).
Definition pi_enumerated (capture : Capture) (request : PlanningRequest) (i : PlanInputs) :
  Enumerated :=
  enumerate (pi_view capture request i) request (cp_limits capture) (pi_source_view i)
    (pi_destination_view i).
Definition pi_evidence (capture : Capture) (i : PlanInputs) : EvidenceVector :=
  captured_evidence (pi_snapshot i) (cp_sequence capture).
Definition pi_ranked (capture : Capture) (request : PlanningRequest) (i : PlanInputs) :
  list Candidate :=
  let e := pi_enumerated capture request i in
  imap (annotate request (s_source (pi_snapshot i)) (pi_evidence capture i)
          (v_provisional (pi_view capture request i)))
    (rank_candidates (rq_max_candidates request) (em_candidates e)).

(** A computed result comes from admitted inputs, through every stage. *)
Record computed_from (capture : Capture) (request : PlanningRequest) (i : PlanInputs)
    (result : PlanningResult) : Prop := {
  cf_admitted : admit_request capture request = inr (pi_snapshot i);
  cf_resolved : resolve_endpoints (pi_snapshot i) request = inr (pi_source i, pi_destination i);
  cf_built : vb_fatal (pi_build capture request i) = None;
  cf_source : vb_source (pi_build capture request i) = Some (pi_source_view i);
  cf_destination : vb_destination (pi_build capture request i) = Some (pi_destination_view i);
  cf_authority :
    authority_stage (cp_authority capture) (pp_authority_validation (rq_policy request))
      (pi_evidence capture i) (pi_ranked capture request i) = Proceed (rs_candidates result);
  cf_nodes : rs_source_node result = n_id (pi_source i).2 ∧
             rs_destination_node result = n_id (pi_destination i).2;
  cf_evidence : rs_evidence result = pi_evidence capture i;
  cf_truncated : rs_truncated result = em_truncated (pi_enumerated capture request i);
  cf_status_planned : rs_candidates result ≠ [] →
    rs_status result =
      if rs_truncated result then PlanStatus.kTruncatedByLimit
      else if v_provisional (pi_view capture request i) then PlanStatus.kRevalidationRequired
      else PlanStatus.kPlanned;
  cf_status_empty : rs_candidates result = [] →
    ∃ primary, rs_primary_failure result = Some primary ∧
      rs_status result =
        if em_resource_limit (pi_enumerated capture request i) then PlanStatus.kResourceLimit
        else StatusForFailure primary
}.

Lemma conclude_empty_core s request source destination v e result :
  let result' := conclude_empty s request source destination v e result in
  ∃ primary, rs_primary_failure result' = Some primary ∧
    rs_status result' = (if em_resource_limit e then PlanStatus.kResourceLimit
                         else StatusForFailure primary) ∧
    rs_source_node result' = rs_source_node result ∧
    rs_destination_node result' = rs_destination_node result ∧
    rs_evidence result' = rs_evidence result ∧ rs_truncated result' = rs_truncated result.
Proof.
  cbv zeta. unfold conclude_empty. cbv zeta.
  set (chosen := match _ with Some _ => _ | None => _ end).
  assert (Hc : core chosen.2 = core result).
  { unfold chosen. destruct (match em_failure e with Some _ => _ | None => _ end); [done|].
    by destruct (match StructuralHopDistance _ _ _ _ with Some _ => _ | None => _ end) as [[? ?]|]. }
  destruct chosen as [primary r1]. exists primary. injection Hc as _ _ _ _ Hs Hd _ _ He _ Ht _.
  destruct (String.eqb _ _); by split_and!.
Qed.

Lemma compute_inv capture request s result stats :
  compute capture request = Computed s result stats →
  ∃ i, pi_snapshot i = s ∧ computed_from capture request i result.
Proof.
  unfold compute. destruct (admit_request capture request) as [?|s'] eqn:Ea; [done|].
  destruct (resolve_endpoints s' request) as [?|[source destination]] eqn:Er; [done|]. cbv zeta.
  set (build := BuildPlanningView _ _ _ _ _).
  destruct (vb_fatal build) eqn:Ef; [done|].
  destruct (built_indices s' request (cp_limits capture) _ _ Ef) as (si & di & Hsi & Hdi & _).
  fold build in Hsi, Hdi. unfold compute_in_view. cbv zeta. rewrite Hsi, Hdi. cbn [default].
  set (i := MkPlanInputs s' source destination si di).
  set (r0 := explain_all _ _).
  pose proof (explain_all_core (vb_explanations build)
    (resolved_result s' (cp_sequence capture) request source destination)) as Hcore. fold r0 in Hcore.
  injection Hcore as _ _ _ _ Hsn Hdn _ _ Hev _ _ _. rewrite Hev.
  change (vb_view build) with (pi_view capture request i).
  change (enumerate _ _ _ _ _) with (pi_enumerated capture request i).
  change (imap _ _) with (pi_ranked capture request i).
  destruct (authority_stage _ _ _ _) as [candidates| |] eqn:Eauth; [|done|done].
  intros [= <- <- <-]. exists i. split; [done|].
  destruct candidates as [|c candidates]; cbn [length Nat.eqb].
  - destruct (conclude_empty_core s' request (n_id source.2) (n_id destination.2)
      (pi_view capture request i) (pi_enumerated capture request i)
      (set_truncated (em_truncated (pi_enumerated capture request i)) r0))
      as (primary & Hp & Hst & H1 & H2 & H3 & H4).
    constructor; try done; [split| |intros _; by exists primary].
    + etransitivity; [exact H1|done].
    + etransitivity; [exact H2|done].
    + etransitivity; [exact H3|done].
  - unfold conclude_planned. destruct (em_truncated (pi_enumerated capture request i)) eqn:Et;
      constructor; try done; simpl; by rewrite ?Et.
Qed.

(** ** The candidates *)

(** A resource limit leaves no path. *)
Lemma enumerate_yen_limit v options request w :
  let r := (enumerate_yen v options request w).1 in
  en_resource_limit r = true → en_ok r = false ∧ en_paths r = [].
Proof.
  cbv zeta. unfold enumerate_yen. cbv zeta. destruct (ShortestPath _ _ _ _ _ _) as [first w1].
  destruct (so_resource_limit first); [done|]. destruct (negb _); [done|].
  destruct (ComputeRawPathCost v (so_path first)); [|done].
  destruct (yen_loop _ _ _ _ _) as [[accepted w2] [detail|]]; [done|]. cbn [fst].
  unfold finish_enumeration. cbv zeta. destruct (match _ with Some _ => _ | None => _ end). done.
Qed.

Lemma unique_by_sublist {A K} `{Ordered K} (key : A → K) l : unique_by key l `sublist_of` l.
Proof.
  induction l as [|x l IH]; [constructor|]. simpl. destruct (unique_by key l) as [|y r].
  - apply sublist_skip, sublist_nil_l.
  - destruct (eqb _ _); apply sublist_skip; [|done]. etransitivity; [|exact IH].
    by apply sublist_cons.
Qed.

Lemma unique_by_NoDup {A K} `{Ordered K} (key : A → K) l : NoDup (map key l) → unique_by key l = l.
Proof.
  induction l as [|x l IH]; [done|]. simpl. intros [Hx Hnd]%NoDup_cons. rewrite IH by done.
  destruct l as [|y l]; [done|]. destruct (eqb (key x) (key y)) eqn:E; [|done].
  apply eqb_eq in E. destruct Hx. rewrite E. left.
Qed.

Lemma filter_sublist {A} (f : A → bool) l : List.filter f l `sublist_of` l.
Proof. induction l as [|x l IH]; cbn [List.filter]; [done|]. by destruct (f x); constructor. Qed.

Lemma StronglySorted_sublist {A} (R : A → A → Prop) l1 l2 :
  l1 `sublist_of` l2 → StronglySorted R l2 → StronglySorted R l1.
Proof.
  induction 1 as [|x l1 l2 Hl IH|x l1 l2 Hl IH]; [done| |].
  - intros [Hs Hall]%StronglySorted_inv. constructor; [by apply IH|].
    rewrite Forall_forall in *. intros y Hy. apply Hall. by apply (elem_of_sublist l1).
  - intros [Hs _]%StronglySorted_inv. by apply IH.
Qed.

(** What a plan works on: a published snapshot with typed records, a typed cost
    model, and a view within the bounds the searches are exact for. *)
Record plan_inputs_ok (capture : Capture) (request : PlanningRequest) (i : PlanInputs) : Prop := {
  po_snapshot : snapshot_wf (pi_snapshot i);
  po_edges : Forall edge_typed (s_edges (pi_snapshot i));
  po_model : model_typed (pp_cost_model (rq_policy request));
  po_size : Z.of_nat (length (s_nodes (pi_snapshot i))) < u32_max;
  po_candidates : 0 < rq_max_candidates request <= u32_max;
  po_hops : ∀ m, cs_max_hops (rq_constraints request) = Some m → m <= kMaxHopCount;
  po_budget : budget_ok (initial_work (cp_limits capture));
  po_options : options_ok (pi_view capture request i) (pi_options capture request i)
}.

Section candidates.
Context (capture : Capture) (request : PlanningRequest) (i : PlanInputs) (result : PlanningResult).
Context (Hfrom : computed_from capture request i result).
Context (Hok : plan_inputs_ok capture request i).

Local Notation v := (pi_view capture request i).
Local Notation options := (pi_options capture request i).
Local Notation source := (pi_source_view i).
Local Notation destination := (pi_destination_view i).
Local Notation stages := (cs_required_transit (rq_constraints request)).

#[local] Instance plan_searchable : Searchable v.
Proof.
  apply built_searchable; try apply Hok. exact (cf_built _ _ _ _ Hfrom).
Qed.

(** A route between the endpoints that every path constraint allows. *)
Record plan_route (l : list nat) : Prop := {
  pr_walk : walk v no_bans source l destination;
  pr_simple : NoDup (walk_nodes v source l);
  pr_within : within (op_max_hops options) l;
  pr_stages : stages ≠ [] → visits (map (node_id v) (walk_nodes v source l)) stages;
  pr_compliant : stages = [] → l = [] ∨ compliant v options request l = true
}.

(** A candidate that stands for the route [l]. *)
Record stands_for (l : list nat) (c : Candidate) : Prop := {
  sf_path : cd_path c = BuildCandidatePath v (walk_raw v source l);
  sf_cost : cd_cost c = route_cost v l;
  sf_id : cd_id c = PathId (cd_path c)
}.

Lemma raw_candidate_walk l c :
  walk v no_bans source l destination →
  raw_candidate v (walk_raw v source l) = Some c → stands_for l c.
Proof.
  intros Hw. unfold raw_candidate. cbv zeta.
  pose proof (walk_indices v no_bans source l destination Hw (oo_source _ _ (po_options _ _ _ Hok))) as Hi.
  rewrite (ComputeRawPathCost_spec v (walk_raw v source l) Hi). cbn [rp_adjacency walk_raw].
  destruct (_ && _); [|done]. destruct (_ || _); [done|]. by intros [= <-].
Qed.

(** A route whose cost is below the sentinel becomes a candidate. *)
Lemma raw_candidate_route l :
  route v options l →
  raw_candidate v (walk_raw v source l) =
    Some (new_candidate (BuildCandidatePath v (walk_raw v source l)) (route_cost v l)).
Proof.
  intros Hr. unfold raw_candidate. cbv zeta.
  pose proof (route_cost_Some v options (po_options _ _ _ Hok) l Hr) as Hc. cbn [op_source_view] in Hc.
  change (op_source_view options) with source in Hc. rewrite Hc. pose proof (oo_source _ _ (po_options _ _ _ Hok)) as Hs.
  destruct (candidate_wf v no_bans source l destination (rt_walk _ _ _ Hr) Hs) as (Hwf & _).
  rewrite (proj2 (IsWellFormed_spec _) Hwf).
  rewrite (proj2 (IsSimple_spec _)); [done|].
  apply (candidate_simple v no_bans source l destination); [apply Hr|done|apply Hr].
Qed.

Lemma walk_simple_cost_nil : walk v no_bans source [] source.
Proof. constructor. Qed.

Lemma zero_hop_sound :
  source = destination → stages = [] →
  let zero_hop := MkRaw [source] [] in
  let c := new_candidate (BuildCandidatePath v zero_hop)
             (default zero_cost (ComputeRawPathCost v zero_hop)) in
  plan_route [] ∧ stands_for [] c.
Proof.
  intros Heq Hst zero_hop c. split.
  - constructor; [rewrite <- Heq; constructor|apply NoDup_singleton| |by rewrite Hst|by left].
    destruct (oo_max_hops _ _ (po_options _ _ _ Hok)). right. cbn [length]. lia.
  - constructor; [done| |done]. change (cd_cost c) with (default zero_cost (ComputeRawPathCost v zero_hop)).
    by rewrite (ComputeRawPathCost_spec v zero_hop (Forall_nil_2 _)).
Qed.

Lemma ceiling_nonneg : 0 <= op_enumeration_ceiling options.
Proof.
  pose proof (po_candidates _ _ _ Hok). unfold pi_options, enumeration_options.
  cbn [op_enumeration_ceiling]. destruct (cs_max_members_per_failure_domain _); lia.
Qed.

(** Without required transit, the routes the enumeration considers and reports. *)
Lemma search_reports :
  stages = [] →
  let e := EnumerateCandidatePaths v request options (initial_work (cp_limits capture)) in
  if en_resource_limit e.1 then en_ok e.1 = false ∧ en_paths e.1 = []
  else ∃ l, first_routes v options (Z.to_nat (wanted options)) l ∧ reports v options request l e.1.
Proof.
  intros Hst. unfold EnumerateCandidatePaths. rewrite Hst. cbn [length Nat.eqb negb]. cbv zeta.
  pose proof (enumerate_yen_spec v options (po_options _ _ _ Hok) request
    (initial_work (cp_limits capture))) as Hyen.
  pose proof (enumerate_yen_limit v options request (initial_work (cp_limits capture))) as Hlim.
  destruct (enumerate_yen v options request _) as [e w]. cbn [fst] in *.
  destruct (en_resource_limit e); [by apply Hlim|].
  apply Hyen; [apply Hok|apply ceiling_nonneg|done].
Qed.

Lemma enumerated_sound c :
  c ∈ em_candidates (pi_enumerated capture request i) →
  ∃ l, plan_route l ∧ stands_for l c.
Proof.
  unfold pi_enumerated, enumerate. cbv zeta.
  destruct (Nat.eqb_spec (length stages) 0) as [Hst|Hst]; cbn [negb andb].
  - apply length_zero_iff_nil in Hst. rewrite !andb_true_r.
    destruct (Nat.eqb_spec source destination) as [Heq|Hne]; cbn [andb].
    + destruct (pp_allow_zero_hop_self_path _); cbn [em_candidates].
      * intros ->%list_elem_of_singleton. exists []. by apply zero_hop_sound.
      * by intros ?%not_elem_of_nil.
    + pose proof (search_reports Hst) as Hrep. cbv zeta in Hrep. unfold search_candidates.
      change (enumeration_options _ _ _ _) with options.
      destruct (EnumerateCandidatePaths v request options _) as [e w]. cbn [fst em_candidates] in *.
      destruct (_ || _); [|by intros ?%not_elem_of_nil].
      intros (raw & Hraw & Hcand)%list_elem_of_omap. destruct (en_resource_limit e).
      { rewrite (proj2 Hrep) in Hraw. by apply not_elem_of_nil in Hraw. }
      destruct Hrep as (l & Hl & Hrep). rewrite (rp_paths _ _ _ _ _ Hrep) in Hraw.
      apply list_elem_of_fmap in Hraw as (a & -> & Ha).
      assert (Hin : a ∈ List.filter (compliant v options request) l)
        by (eapply elem_of_sublist; [exact Ha|apply sublist_take]).
      apply list_elem_of_In, filter_In in Hin as [Hin Hcomp]. apply list_elem_of_In in Hin.
      pose proof (fs_routes _ _ _ _ Hl) as Hall. rewrite Forall_forall in Hall.
      destruct (Hall a Hin) as [Hw Hwithin Hsimple _]. exists a.
      split; [|by apply raw_candidate_walk]. constructor; try done; by right.
  - rewrite !andb_false_r. unfold search_candidates. change (enumeration_options _ _ _ _) with options.
    assert (Hne : stages ≠ []) by (intros E; by rewrite E in Hst).
    pose proof (enumerate_transit_spec v options (oo_source _ _ (po_options _ _ _ Hok))
      (oo_destination _ _ (po_options _ _ _ Hok)) (oo_max_hops _ _ (po_options _ _ _ Hok)) stages
      (initial_work (cp_limits capture))) as Htr. cbv zeta in Htr.
    unfold EnumerateCandidatePaths. cbv zeta. rewrite (proj2 (Nat.eqb_neq _ _) Hst). cbn [negb].
    destruct (enumerate_transit _ _ _ _) as [e w]. cbn [fst em_candidates] in *.
    destruct (_ || _); [|by intros ?%not_elem_of_nil].
    intros (raw & Hraw & Hcand)%list_elem_of_omap. destruct (en_ok e).
    + destruct Htr as (raw' & Heq & l & -> & Hw & Hnd & Hwithin & Hvis). rewrite Heq in Hraw.
      apply list_elem_of_singleton in Hraw as ->. exists l. split; [|by apply raw_candidate_walk].
      by constructor.
    + rewrite Htr in Hraw. by apply not_elem_of_nil in Hraw.
Qed.

(** *** What a route means in the fabric *)

Local Notation config := (view_config (pi_snapshot i) request (cp_limits capture)).

Lemma shown_node u :
  (u < NodeCount v)%nat → NodeAt v u ∈ s_nodes (pi_snapshot i) ∧ node_eligible config request (NodeAt v u).
Proof.
  intros Hu. destruct (BuildPlanningView_built _ _ _ _ _ (cf_built _ _ _ _ Hfrom)) as (vts & stv & HB).
  pose proof (built_NodeCount _ _ _ _ _ _ vts stv HB) as Hc.
  destruct (built_NodeAt _ _ _ _ _ _ vts stv HB u) as (j & n & _ & Hn & Heq & Hacc & _); [by rewrite <- Hc|].
  change (NodeAt v u = n) in Heq. rewrite Heq. split; [by eapply list_elem_of_lookup_2|]. by apply node_accepted_spec.
Qed.

Lemma shown_edge u j :
  (u < NodeCount v)%nat → j ∈ row v u →
  edge_of v j ∈ s_edges (pi_snapshot i) ∧
  edge_eligible config request (edge_of v j) (a_degraded (AdjacencyAt v j)).
Proof.
  intros Hu Hj. destruct (BuildPlanningView_built _ _ _ _ _ (cf_built _ _ _ _ Hfrom)) as (vts & stv & HB).
  pose proof (built_snapshot_eq _ _ _ _ _ _ vts stv HB) as Hs.
  pose proof (edge_published v j (row_index v u j Hu Hj)) as He.
  change (v_snapshot v = pi_snapshot i) in Hs. rewrite Hs in He.
  split; [done|].
  destruct (proj1 (built_row _ _ _ _ _ _ vts stv (po_snapshot _ _ _ Hok) (po_edges _ _ _ Hok)
    (po_model _ _ _ Hok) HB u (edge_of v j) (a_degraded (AdjacencyAt v j)) Hu He)) as (_ & _ & ? & _); [|done].
  by exists j.
Qed.

(** A candidate that keeps every promise of the request. *)
Record candidate_ok (c : Candidate) : Prop := {
  ck_wellformed : IsWellFormed (cd_path c) = true;
  ck_simple : IsSimple (cd_path c) = true;
  ck_source : p_source (cd_path c) = rs_source_node result;
  ck_destination : p_destination (cd_path c) = rs_destination_node result;
  ck_nodes : ∀ x, x ∈ p_nodes (cd_path c) →
    ∃ n, n ∈ s_nodes (pi_snapshot i) ∧ n_id n = x ∧ node_eligible config request n;
  ck_hops : ∀ h, h ∈ p_hops (cd_path c) →
    ∃ e, e ∈ s_edges (pi_snapshot i) ∧ h_link h = e_id e ∧ h_from h = e_from e ∧
      h_to h = e_to e ∧ h_from_port h = e_from_port e ∧ h_to_port h = e_to_port e ∧
      edge_eligible config request e (h_degraded h);
  ck_bound : ∀ m, cs_max_hops (rq_constraints request) = Some m →
    Z.of_nat (length (p_hops (cd_path c))) <= m;
  ck_stages : stages ≠ [] → visits (p_nodes (cd_path c)) stages;
  ck_id : cd_id c = PathId (cd_path c);
  ck_cost : ∃ l, plan_route l ∧ stands_for l c
}.

Lemma walk_member_row u l w j :
  walk v no_bans u l w → (u < NodeCount v)%nat → j ∈ l → ∃ x, (x < NodeCount v)%nat ∧ j ∈ row v x.
Proof.
  intros Hw Hu Hj. destruct (walk_row v no_bans u l w j Hw Hj) as (x & Hx & Hr). exists x.
  split; [|done]. pose proof (walk_nodes_bound v no_bans u l w Hw Hu) as Hall.
  rewrite Forall_forall in Hall. by apply Hall.
Qed.

Lemma route_candidate_ok l c : plan_route l → stands_for l c → candidate_ok c.
Proof.
  intros Hr Hs. pose proof Hr as [Hw Hnd Hwithin Hst _]. pose proof Hs as [Hp Hc Hid].
  pose proof (oo_source _ _ (po_options _ _ _ Hok)) as Hsrc.
  change (source < NodeCount v)%nat in Hsrc.
  destruct (candidate_wf v no_bans source l destination Hw Hsrc) as (Hwf & Hps & Hpd).
  pose proof (candidate_simple v no_bans source l destination Hw Hsrc Hnd) as Hsim.
  destruct (built_indices _ _ _ _ _ (cf_built _ _ _ _ Hfrom)) as (si & di & Hsi & Hdi & _ & _ & Hns & Hnd').
  pose proof (cf_source _ _ _ _ Hfrom) as Es. pose proof (cf_destination _ _ _ _ Hfrom) as Ed.
  unfold pi_build in Es, Ed. rewrite Hsi in Es. rewrite Hdi in Ed. injection Es as ->. injection Ed as ->.
  pose proof (BuildCandidatePath_walk v no_bans source l destination Hw) as Hbuild.
  constructor; try done; rewrite ?Hp.
  - by apply IsWellFormed_spec.
  - by apply IsSimple_spec.
  - rewrite Hps. etransitivity; [exact Hns|]. symmetry. apply Hfrom.
  - rewrite Hpd. etransitivity; [exact Hnd'|]. symmetry. apply Hfrom.
  - rewrite Hbuild. cbn [p_nodes]. intros x (u & -> & Hu)%list_elem_of_fmap.
    pose proof (walk_nodes_bound v no_bans source l destination Hw Hsrc) as Hall.
    rewrite Forall_forall in Hall. destruct (shown_node u (Hall u Hu)). by exists (NodeAt v u).
  - rewrite Hbuild. cbn [p_hops]. intros h (j & -> & Hj)%list_elem_of_fmap.
    destruct (walk_member_row source l destination j Hw Hsrc Hj) as (x & Hx & Hr').
    destruct (shown_edge x j Hx Hr'). by exists (edge_of v j).
  - rewrite Hbuild. cbn [p_hops]. intros m Hm. rewrite length_map.
    pose proof (po_hops _ _ _ Hok m Hm) as Hmax. unfold within in Hwithin.
    change (op_max_hops options) with (default kNoHopBound (cs_max_hops (rq_constraints request))) in Hwithin.
    rewrite Hm in Hwithin. simpl in Hwithin. unfold kMaxHopCount, kNoHopBound in *. lia.
  - rewrite Hbuild. exact Hst.
  - by exists l.
Qed.

(** *** The pipeline keeps routes, costs and identities *)

Definition route_of (c : Candidate) : CandidatePath * PathCost * CandidatePathId :=
  (cd_path c, cd_cost c, cd_id c).

Lemma map_imap_route {f : nat → Candidate → Candidate} l :
  (∀ k c, route_of (f k c) = route_of c) → map route_of (imap f l) = map route_of l.
Proof.
  revert f. induction l as [|c l IH]; intros f Hf; [done|]. rewrite imap_cons. cbn [map].
  rewrite Hf. f_equal. apply IH. intros k c'. apply (Hf (S k)).
Qed.

Lemma ranked_routes :
  map route_of (pi_ranked capture request i) =
  map route_of (rank_candidates (rq_max_candidates request)
                  (em_candidates (pi_enumerated capture request i))).
Proof.
  unfold pi_ranked. apply map_imap_route. intros k c. unfold annotate. cbv zeta.
  by destruct (v_provisional v).
Qed.

Lemma validate_all_sublist authority evidence best_effort call l :
  map route_of (validate_all authority evidence best_effort call l).1 `sublist_of` map route_of l.
Proof.
  revert call. induction l as [|c l IH]; intros call; [constructor|]. cbn [validate_all]. cbv zeta.
  specialize (IH (S call)). destruct (validate_all _ _ _ _ l) as [validated rejected_any].
  cbn [fst] in IH.
  destruct (authority call (cd_path c) evidence).1, best_effort; cbn [fst map]; first [by apply (sublist_skip (route_of c))|by apply sublist_cons].
Qed.

Lemma authority_kept authority mode evidence l kept :
  authority_stage authority mode evidence l = Proceed kept →
  map route_of kept `sublist_of` map route_of l ∧
  (mode = AuthorityValidationMode.kNone → kept = l) ∧
  ((∀ k c, l !! k = Some c → cd_rank c = wrap32 (Z.of_nat k + 1)) →
   ∀ k c, kept !! k = Some c → cd_rank c = wrap32 (Z.of_nat k + 1)).
Proof.
  unfold authority_stage. destruct (_ || _) eqn:E.
  { intros [= <-]. by split_and!. }
  assert (Hmode : mode ≠ AuthorityValidationMode.kNone).
  { bool_to_prop. intros ->. done. }
  destruct authority as [authority|].
  - cbv zeta. set (best_effort := enum_eqb mode _).
    pose proof (validate_all_sublist authority evidence best_effort 0 l) as Hsub.
    destruct (validate_all _ _ _ _ _) as [validated rejected_any]. cbn [fst] in Hsub.
    destruct ((length validated =? 0)%nat && rejected_any); [done|]. intros [= <-].
    split_and!; [|done|].
    + by rewrite map_imap_route.
    + intros _ k c. rewrite list_lookup_imap. destruct (validated !! k); simpl; [|done]. by intros [= <-].
  - destruct (enum_eqb mode AuthorityValidationMode.kRequired); [done|]. intros [= <-].
    split_and!; [|done|].
    + rewrite map_map. reflexivity.
    + intros Hr k c Hk. change (map ?f l) with (f <$> l) in Hk. rewrite list_lookup_fmap in Hk.
      destruct (l !! k) as [c'|] eqn:Ek; [|done]. injection Hk as <-. exact (Hr k c' Ek).
Qed.

Lemma rank_candidates_sublist max l :
  rank_candidates max l `sublist_of` merge_sort ranks_no_later l.
Proof.
  unfold rank_candidates. etransitivity; [apply sublist_take|]. apply unique_by_sublist.
Qed.
End candidates.

#[export] Instance ranks_no_later_trans : Transitive ranks_no_later.
Proof.
  intros a b c. unfold ranks_no_later. rewrite !RanksBefore_ltb.
  exact (transitivity (R := ole) (x := rank_key a) (y := rank_key b) (z := rank_key c)).
Qed.
#[export] Instance ranks_no_later_total : Total ranks_no_later.
Proof.
  intros a b. unfold ranks_no_later. rewrite !RanksBefore_ltb.
  exact (total ole (rank_key a) (rank_key b)).
Qed.

(** The order is read off the routes and costs. *)
Lemma sorted_by_routes l1 l2 :
  map route_of l1 `sublist_of` map route_of l2 →
  StronglySorted ranks_no_later l2 → StronglySorted ranks_no_later l1.
Proof.
  set (R := λ x y : CandidatePath * PathCost * CandidatePathId,
    ltb (c_total y.1.2, (c_hops y.1.2, Path.path_key y.1.1))
        (c_total x.1.2, (c_hops x.1.2, Path.path_key x.1.1)) = false).
  assert (HR : ∀ l, StronglySorted ranks_no_later l ↔ StronglySorted R (map route_of l)).
  { intros l. induction l as [|c l IH]; [by split; constructor|]. cbn [map].
    split; intros [Hs Hall]%StronglySorted_inv; constructor; [by apply IH| |by apply IH|].
    - rewrite Forall_map. eapply Forall_impl; [exact Hall|]. intros c'. unfold ranks_no_later.
      by rewrite RanksBefore_ltb.
    - rewrite Forall_map in Hall. eapply Forall_impl; [exact Hall|]. intros c'. unfold ranks_no_later.
      by rewrite RanksBefore_ltb. }
  rewrite !HR. apply StronglySorted_sublist.
Qed.

(** ** Soundness *)

(** C1: every candidate of a computed plan keeps the promises of the request, end
    to end, with one exception: it is a well-formed simple path between the resolved
    endpoints; every node and every hop is a published, eligible element of the
    captured snapshot (layer, forbidden elements, link and port state, capabilities,
    failure domains); the hop bound holds; without required transit the
    failure-domain member limit holds, and with required transit the stages are
    visited in order but the member limit is not looked at (that exception is
    [MemberLimit.transit_ignores_member_limit]); cost and identity are exact. The
    candidates are ranked 1, 2, ... in canonical order and no more than requested.
    The inputs are those of a published snapshot, with values in their types and a
    view within the bounds the searches are exact for ([plan_inputs_ok]). *)
Theorem plan_sound capture request s result stats :
  compute capture request = Computed s result stats →
  ∃ i, pi_snapshot i = s ∧ computed_from capture request i result ∧
    (plan_inputs_ok capture request i →
     (∀ c, c ∈ rs_candidates result → candidate_ok capture request i result c) ∧
     (∀ k c, rs_candidates result !! k = Some c → cd_rank c = Z.of_nat k + 1) ∧
     StronglySorted ranks_no_later (rs_candidates result) ∧
     Z.of_nat (length (rs_candidates result)) <= rq_max_candidates request).
Proof.
  intros (i & Hs & Hfrom)%compute_inv. exists i. split; [done|]. split; [done|]. intros Hok.
  destruct (authority_kept _ _ _ _ _ (cf_authority _ _ _ _ Hfrom)) as (Hsub & _ & Hrank).
  rewrite ranked_routes in Hsub.
  set (em := em_candidates (pi_enumerated capture request i)) in Hsub.
  set (ranked := rank_candidates (rq_max_candidates request) em) in Hsub.
  pose proof (po_candidates _ _ _ Hok) as Hmax.
  assert (Hlen : Z.of_nat (length ranked) <= rq_max_candidates request).
  { unfold ranked, rank_candidates. rewrite length_take. lia. }
  assert (Hle : (length (rs_candidates result) <= length ranked)%nat).
  { apply sublist_length in Hsub. by rewrite !length_map in Hsub. }
  split_and!; [| | |lia].
  - intros c Hc. assert (Hin : route_of c ∈ map route_of ranked)
      by (eapply elem_of_sublist; [|exact Hsub]; by apply list_elem_of_fmap_2).
    apply list_elem_of_fmap in Hin as (c' & Heq & Hc').
    pose proof (elem_of_sublist _ _ _ Hc' (rank_candidates_sublist (rq_max_candidates request) em)) as Hm.
    rewrite (merge_sort_Permutation ranks_no_later em) in Hm.
    destruct (enumerated_sound capture request i result Hfrom Hok c' Hm) as (l & Hr & [Hp Hcost Hid]).
    injection Heq as H1 H2 H3. apply (route_candidate_ok capture request i result Hfrom Hok l c Hr).
    constructor; congruence.
  - intros k c Hk. rewrite (Hrank) with (k := k); [|clear k c Hk|done].
    + apply wrap32_small. apply lookup_lt_Some in Hk. unfold u32_max in *. lia.
    + intros k c. unfold pi_ranked. rewrite list_lookup_imap. destruct (_ !! k) as [c0|]; [|done].
      simpl. intros [= <-]. unfold annotate. cbv zeta. by destruct (v_provisional _).
  - eapply sorted_by_routes; [exact Hsub|].
    eapply StronglySorted_sublist; [apply rank_candidates_sublist|].
    apply StronglySorted_merge_sort; apply _.
Qed.

(** ** Completeness *)

Section best.
Context (capture : Capture) (request : PlanningRequest) (i : PlanInputs) (result : PlanningResult).
Context (Hfrom : computed_from capture request i result).
Context (Hok : plan_inputs_ok capture request i).
Context (Hstages : cs_required_transit (rq_constraints request) = []).
Context (Hdistinct : pi_source_view i ≠ pi_destination_view i).

Local Notation v := (pi_view capture request i).
Local Notation options := (pi_options capture request i).
Local Notation source := (pi_source_view i).
Local Notation em := (pi_enumerated capture request i).

#[local] Instance best_searchable : Searchable v := plan_searchable capture request i result Hfrom Hok.

(** The candidate of a route. *)
Definition route_candidate (a : list nat) : Candidate :=
  new_candidate (BuildCandidatePath v (walk_raw v source a)) (route_cost v a).

Lemma em_search : em = search_candidates v request (cp_limits capture) source (pi_destination_view i).
Proof.
  unfold pi_enumerated, enumerate. cbv zeta. by rewrite (proj2 (Nat.eqb_neq _ _) Hdistinct).
Qed.

Lemma raw_candidates_routes l :
  Forall (route v options) l →
  omap (raw_candidate v) (map (walk_raw v source) l) = map route_candidate l.
Proof.
  induction 1 as [|a l Ha _ IH]; [done|]. cbn [map].
  change (omap ?f (?x :: ?l)) with (match f x with Some y => y :: omap f l | None => omap f l end).
  rewrite (raw_candidate_route capture request i result Hfrom Hok a Ha). by f_equal.
Qed.

(** The enumeration either hit a limit, and left nothing, or is Yen's. *)
Lemma em_routes :
  if em_resource_limit em then em_candidates em = []
  else ∃ l, first_routes v options (Z.to_nat (wanted options)) l ∧
    em_candidates em =
      map route_candidate
        (take (Z.to_nat (rq_max_candidates request)) (List.filter (compliant v options request) l)).
Proof.
  rewrite em_search. pose proof (search_reports capture request i result Hfrom Hok Hstages) as Hrep.
  cbv zeta in Hrep. unfold search_candidates. change (enumeration_options _ _ _ _) with options.
  pose proof (enumerate_yen_ledger (initial_work (cp_limits capture)) v options request _
    (ledger_refl _ (po_budget _ _ _ Hok))) as Hled.
  cbv zeta in Hled. unfold EnumerateCandidatePaths in *. rewrite Hstages in *. cbn [length Nat.eqb negb] in *.
  destruct (enumerate_yen v options request _) as [e w]. cbn [fst snd em_resource_limit em_candidates] in *.
  pose proof (lg_flagged _ _ _ Hled) as Hflag. unfold flagged, exhausted_result in Hflag.
  destruct (en_resource_limit e) eqn:Elim.
  { destruct Hrep as [-> ->]. cbn [orb]. done. }
  cbn [andb] in Hflag. apply orb_false_iff in Hflag as [Hex _]. rewrite Hex.
  destruct Hrep as (l & Hl & Hrep). pose proof (rp_ok _ _ _ _ _ Hrep) as Hlen.
  rewrite (rp_paths _ _ _ _ _ Hrep), length_map in Hlen.
  rewrite (rp_paths _ _ _ _ _ Hrep). change (op_source_view options) with source.
  change (op_max_candidates options) with (rq_max_candidates request) in *.
  set (reported := take _ _) in *.
  assert (Hroutes : omap (raw_candidate v) (map (walk_raw v source) reported) = map route_candidate reported).
  { apply raw_candidates_routes. apply Forall_take, Forall_forall. intros a Ha%list_elem_of_In%filter_In. pose proof (fs_routes _ _ _ _ Hl) as Hall.
    rewrite Forall_forall in Hall. apply Hall, list_elem_of_In, Ha. }
  destruct (en_ok e); cbn [orb]; exists l; (split; [done|]); [done|].
  symmetry in Hlen. apply negb_false_iff, Nat.eqb_eq, length_zero_iff_nil in Hlen.
  fold reported. by rewrite Hlen.
Qed.
(** The ranking stage leaves routes that come in canonical order as they are. *)
Context (Hids : ∀ a b, route v options a → route v options b →
  cd_id (route_candidate a) = cd_id (route_candidate b) → a = b).

Lemma route_candidate_key a : route v options a → rank_key (route_candidate a) = walk_rank v source a.
Proof.
  intros Ha. pose proof (oo_source _ _ (po_options _ _ _ Hok)) as Hs.
  pose proof (rt_walk _ _ _ Ha) as Hw. change (op_source_view options) with source in *.
  exact (rank_key_walk v no_bans source a _ (route_candidate a) Hw
    (walk_indices v no_bans source a _ Hw Hs) eq_refl eq_refl).
Qed.

Lemma rank_routes max l :
  Forall (route v options) l →
  StronglySorted (λ a b, ltb (walk_rank v source a) (walk_rank v source b) = true) l →
  rank_candidates max (map route_candidate l) = take (Z.to_nat max) (map route_candidate l).
Proof.
  intros Hr Hs. assert (Hnd : NoDup l).
  { clear -Hs. induction Hs as [|a l _ IH Hall]; [constructor|]. constructor; [|done]. intros Ha.
    rewrite Forall_forall in Hall. specialize (Hall a Ha). by rewrite ltb_irrefl in Hall. }
  assert (Hsorted : StronglySorted ranks_no_later (map route_candidate l)).
  { clear Hnd. induction Hs as [|a l Hs IH Hall]; [constructor|]. apply Forall_cons in Hr as [Ha Hr].
    cbn [map]. constructor; [by apply IH|]. rewrite Forall_map. rewrite Forall_forall in *. intros b Hb.
    unfold compose, ranks_no_later. rewrite RanksBefore_ltb, !route_candidate_key by auto.
    apply ltb_asym. by apply Hall. }
  unfold rank_candidates. f_equal.
  replace (merge_sort ranks_no_later (map route_candidate l)) with (map route_candidate l).
  - apply unique_by_NoDup. rewrite map_map. apply NoDup_fmap_2_strong; [|done].
    intros a b Ha Hb. rewrite Forall_forall in Hr. by apply Hids; apply Hr.
  - symmetry. apply (StronglySorted_unique_strong ranks_no_later).
    + intros x y Hx Hy. rewrite (merge_sort_Permutation ranks_no_later) in Hx.
      apply list_elem_of_fmap in Hx as (a & -> & Ha). apply list_elem_of_fmap in Hy as (b & -> & Hb).
      rewrite Forall_forall in Hr. unfold ranks_no_later.
      rewrite !RanksBefore_ltb, !route_candidate_key by auto. intros H1 H2. f_equal.
      apply (walk_rank_inj v no_bans source a b _ _ (oo_source _ _ (po_options _ _ _ Hok))
        (rt_walk _ _ _ (Hr a Ha)) (rt_walk _ _ _ (Hr b Hb))).
      destruct (ltb_trichotomy (walk_rank v source a) (walk_rank v source b)) as [E|[E|E]];
        [by rewrite E in H2|done|by rewrite E in H1].
    + apply StronglySorted_merge_sort; apply _.
    + done.
    + apply merge_sort_Permutation.
Qed.
(** The routes a plan reports out of the first routes [l]. *)
Definition reported (l : list (list nat)) : list (list nat) :=
  take (Z.to_nat (rq_max_candidates request)) (List.filter (compliant v options request) l).

Lemma reported_sorted n l :
  first_routes v options n l →
  Forall (route v options) (reported l) ∧
  StronglySorted (λ a b, ltb (walk_rank v source a) (walk_rank v source b) = true) (reported l).
Proof.
  intros Hl. assert (Hsub : reported l `sublist_of` l).
  { etransitivity; [apply sublist_take|apply filter_sublist]. }
  split; [|eapply StronglySorted_sublist; [exact Hsub|apply Hl]].
  pose proof (fs_routes _ _ _ _ Hl) as Hr. rewrite Forall_forall in *. intros a Ha. apply Hr.
  by apply (elem_of_sublist (reported l)).
Qed.

Lemma best_candidates l :
  first_routes v options (Z.to_nat (wanted options)) l →
  em_candidates em = map route_candidate (reported l) →
  pp_authority_validation (rq_policy request) = AuthorityValidationMode.kNone →
  Forall2 (stands_for capture request i) (reported l) (rs_candidates result).
Proof.
  intros Hl Hem Hmode. destruct (reported_sorted _ _ Hl) as [Hr Hs].
  destruct (authority_kept _ _ _ _ _ (cf_authority _ _ _ _ Hfrom)) as (_ & Hk & _).
  assert (Heq : map route_of (rs_candidates result) = map route_of (map route_candidate (reported l))).
  { rewrite (Hk Hmode), ranked_routes, Hem, (rank_routes _ _ Hr Hs). f_equal.
    apply take_ge. rewrite length_map. unfold reported. rewrite length_take. lia. }
  clear -Heq. revert Heq. generalize (rs_candidates result) as cs.
  induction (reported l) as [|a r IH]; intros [|c cs] Heq; try done.
  injection Heq as H1 H2 H3 Heq. constructor; [|by apply IH].
  constructor; [done..|]. rewrite H3, H1. done.
Qed.
End best.

(** C2: a plan reports the best routes, under four conditions: the request requires no
    transit, its authority validation mode is NONE, its endpoints are two different nodes
    of the view, and no two routes of the view have paths of one identity (a SHA-256
    collision). Then, unless a work limit was hit (the plan has no candidates and says
    RESOURCE_LIMIT), its candidates stand, in order, for the first [max_candidates]
    member-limit compliant routes of Yen's enumeration ([first_routes]: the cheapest route
    of all first and, without parallel links, none missed); and if the request has no
    member limit, an empty answer means that no route exists. Without these conditions
    it need not: [AuthorityUnavailable.unavailable_reported_as_no_path]. *)
Theorem plan_best capture request s result stats :
  compute capture request = Computed s result stats →
  ∃ i, pi_snapshot i = s ∧ computed_from capture request i result ∧
    (plan_inputs_ok capture request i →
     cs_required_transit (rq_constraints request) = [] →
     pi_source_view i ≠ pi_destination_view i →
     pp_authority_validation (rq_policy request) = AuthorityValidationMode.kNone →
     let v := pi_view capture request i in
     let options := pi_options capture request i in
     (∀ a b, route v options a → route v options b →
       PathId (BuildCandidatePath v (walk_raw v (pi_source_view i) a)) =
       PathId (BuildCandidatePath v (walk_raw v (pi_source_view i) b)) → a = b) →
     (rs_candidates result = [] ∧ rs_status result = PlanStatus.kResourceLimit) ∨
     ∃ l, first_routes v options (Z.to_nat (wanted options)) l ∧
       Forall2 (stands_for capture request i)
         (take (Z.to_nat (rq_max_candidates request)) (List.filter (compliant v options request) l))
         (rs_candidates result) ∧
       (cs_max_members_per_failure_domain (rq_constraints request) = None →
        rs_candidates result = [] → ∀ a, ¬ route v options a)).
Proof.
  intros (i & Hs & Hfrom)%compute_inv. exists i. split; [done|]. split; [done|].
  intros Hok Hst Hne Hmode v options Hids.
  pose proof (em_routes capture request i result Hfrom Hok Hst Hne) as Hem.
  destruct (em_resource_limit (pi_enumerated capture request i)) eqn:Elim.
  - left. assert (Hc : rs_candidates result = []).
    { destruct (authority_kept _ _ _ _ _ (cf_authority _ _ _ _ Hfrom)) as (_ & Hk & _).
      rewrite (Hk Hmode). apply length_zero_iff_nil.
      rewrite <- (length_map route_of), ranked_routes, Hem, length_map.
      change (rank_candidates _ []) with (take (Z.to_nat (rq_max_candidates request)) (@nil Candidate)).
      by rewrite take_nil. }
    split; [done|]. destruct (cf_status_empty _ _ _ _ Hfrom Hc) as (primary & _ & ->). by rewrite Elim.
  - right. destruct Hem as (l & Hl & Hem). exists l. split; [done|].
    pose proof (best_candidates capture request i result Hfrom Hok Hne Hids l Hl Hem Hmode) as Hbest.
    split; [done|]. intros Hlim Hnil a Ha. rewrite Hnil in Hbest. apply Forall2_nil_inv_r in Hbest.
    destruct (fs_least _ _ _ _ Hl a Ha) as (b & Hb & _). unfold reported in Hbest.
    rewrite filter_true in Hbest by (intros x; unfold compliant; by rewrite Hlim).
    pose proof (po_candidates _ _ _ Hok). destruct l as [|b' l]; [done|].
    destruct (Z.to_nat (rq_max_candidates request)) eqn:E; [lia|done].
Qed.

(** ** On the demo fabric *)

Definition demo_inputs : PlanInputs :=
  MkPlanInputs Demo.snapshot (Demo.endpoint 1 1, nth 0 (s_nodes Demo.snapshot) null_node)
    (Demo.endpoint 2 4, nth 3 (s_nodes Demo.snapshot) null_node) 0 3.

Lemma demo_resolved :
  resolve_endpoints Demo.snapshot demo_request = inr (pi_source demo_inputs, pi_destination demo_inputs).
Proof. vm_compute. reflexivity. Qed.
Lemma demo_view_eq : pi_build demo_capture demo_request demo_inputs = demo_view.
Proof. vm_compute. reflexivity. Qed.
Lemma demo_view_indices : (vb_source demo_view, vb_destination demo_view) = (Some 0%nat, Some 3%nat).
Proof. vm_compute. reflexivity. Qed.

Lemma demo_computed_inputs i r :
  pi_snapshot i = Demo.snapshot → computed_from demo_capture demo_request i r → i = demo_inputs.
Proof.
  intros Hs [_ Hr _ Hsi Hdi _ _ _ _ _ _]. destruct i as [s src dst si di]. cbn [pi_snapshot] in Hs. subst s.
  cbn [pi_snapshot pi_source pi_destination] in Hr. rewrite demo_resolved in Hr. injection Hr as <- <-.
  change (pi_build _ _ _) with (pi_build demo_capture demo_request demo_inputs) in Hsi, Hdi.
  rewrite demo_view_eq in Hsi, Hdi. pose proof demo_view_indices as E. rewrite Hsi, Hdi in E.
  cbn [pi_source_view pi_destination_view] in E. by injection E as -> ->.
Qed.

Lemma demo_plan_view : pi_view demo_capture demo_request demo_inputs = demo_built.
Proof. unfold pi_view. by rewrite demo_view_eq. Qed.
Lemma demo_plan_options : pi_options demo_capture demo_request demo_inputs = demo_options.
Proof. reflexivity. Qed.

Lemma demo_inputs_ok : plan_inputs_ok demo_capture demo_request demo_inputs.
Proof.
  constructor; [exact demo_snapshot_wf|exact demo_edges_typed|..].
  - repeat split; vm_compute; congruence.
  - vm_compute. reflexivity.
  - vm_compute. split; congruence.
  - done.
  - constructor; vm_compute; congruence.
  - rewrite demo_plan_view, demo_plan_options. exact demo_options_ok.
Qed.

Lemma demo_walks l : walk demo_built no_bans 0 l 3 → l = [0%nat; 2%nat] ∨ l = [1%nat; 3%nat].
Proof.
  assert (R0 : row demo_built 0 = [0%nat; 1%nat]) by (vm_compute; reflexivity).
  assert (R1 : row demo_built 1 = [2%nat]) by (vm_compute; reflexivity).
  assert (R2 : row demo_built 2 = [3%nat]) by (vm_compute; reflexivity).
  assert (R3 : row demo_built 3 = []) by (vm_compute; reflexivity).
  assert (T : ∀ j, (j < 4)%nat → a_to (AdjacencyAt demo_built j) = nth j [1%nat; 2%nat; 3%nat; 3%nat] 0%nat)
    by (intros [|[|[|[|j]]]] Hj; [vm_compute; reflexivity..|lia]).
  assert (Hend : ∀ l, walk demo_built no_bans 3 l 3 → l = []).
  { intros l'. inversion 1 as [|? j ? ? Hj]; [done|]. rewrite R3 in Hj. by apply not_elem_of_nil in Hj. }
  assert (H1 : ∀ l, walk demo_built no_bans 1 l 3 → l = [2%nat]).
  { intros l'. inversion 1 as [|? j l'' ? Hj _ Hw]; subst. rewrite R1 in Hj.
    apply list_elem_of_singleton in Hj as ->. rewrite T in Hw by lia. cbn [nth] in Hw. by apply Hend in Hw as ->. }
  assert (H2 : ∀ l, walk demo_built no_bans 2 l 3 → l = [3%nat]).
  { intros l'. inversion 1 as [|? j l'' ? Hj _ Hw]; subst. rewrite R2 in Hj.
    apply list_elem_of_singleton in Hj as ->. rewrite T in Hw by lia. cbn [nth] in Hw. by apply Hend in Hw as ->. }
  inversion 1 as [|? j l' ? Hj _ Hw]; subst. rewrite R0 in Hj.
  apply elem_of_cons in Hj as [->|Hj%list_elem_of_singleton].
  - rewrite T in Hw by lia. cbn [nth] in Hw. apply H1 in Hw as ->. by left.
  - subst j. rewrite T in Hw by lia. cbn [nth] in Hw. apply H2 in Hw as ->. by right.
Qed.

Lemma plan_sound_witness :
  length (rs_candidates demo_answer.1.2) = 2%nat ∧
  ∀ c, c ∈ rs_candidates demo_answer.1.2 →
    candidate_ok demo_capture demo_request demo_inputs demo_answer.1.2 c.
Proof.
  split; [vm_compute; reflexivity|].
  destruct (plan_sound _ _ _ _ _ demo_computed) as (i & Hs & Hfrom & Hall).
  rewrite (demo_computed_inputs i _ Hs Hfrom) in Hall. apply Hall. exact demo_inputs_ok.
Defined.

Lemma demo_route_ids :
  PathId (BuildCandidatePath demo_built (walk_raw demo_built 0 [0%nat; 2%nat])) ≠
  PathId (BuildCandidatePath demo_built (walk_raw demo_built 0 [1%nat; 3%nat])).
Proof. apply eqb_neq. vm_compute. reflexivity. Qed.

Lemma plan_best_witness :
  ∃ l, Forall2 (stands_for demo_capture demo_request demo_inputs)
         (take 3 (List.filter (compliant demo_built demo_options demo_request) l))
         (rs_candidates demo_answer.1.2) ∧ first_routes demo_built demo_options 3 l.
Proof.
  destruct (plan_best _ _ _ _ _ demo_computed) as (i & Hs & Hfrom & Hall).
  rewrite (demo_computed_inputs i _ Hs Hfrom) in Hall. cbv zeta in Hall.
  rewrite demo_plan_view, demo_plan_options in Hall.
  destruct Hall as [[_ Hlim]|(l & Hl & Hc & _)]; [exact demo_inputs_ok|done|done|done| | |].
  - intros a b Ha Hb Hid.
    pose proof (rt_walk _ _ _ Ha) as [-> | ->]%demo_walks; pose proof (rt_walk _ _ _ Hb) as [-> | ->]%demo_walks;
      [reflexivity| | |reflexivity]; exfalso; [|symmetry in Hid]; exact (demo_route_ids Hid).
  - exfalso. vm_compute in Hlim. discriminate Hlim.
  - by exists l.
Defined.

(** ** Required transit ignores the failure-domain member limit *)

(** The demo fabric with both links of the path through node 3 in one domain, and
    a request through node 3 that allows at most one member of a domain. *)
Module MemberLimit.
Definition builder : FabricSnapshotBuilder :=
  run_ops (Demo.ops [1; 2; 3; 4] Demo.links ++
           [OpSetFailureDomains [Demo.domain 1 [ForLink (Demo.link 4); ForLink (Demo.link 5)]] true])
    (new_builder default_limits).
Definition snapshot : option FabricSnapshot :=
  match (Build builder).1 with inr s => Some s | inl _ => None end.
Definition request : PlanningRequest :=
  MkRequest (rq_id demo_request) (rq_source demo_request) (rq_destination demo_request)
    (MkConstraints (Demo.tail_id ConstraintSetIdTag 1) 1 PathLayer.kPhysical
       [] [] [] [] [] [MkStage TransitKind.kExact [Demo.node 3]] [] None (Some 1) false)
    (rq_policy demo_request) 1 PlanningMode.kStandard (rq_authority demo_request)
    false 0 false 0 false (nil_id _).
Definition capture : Capture :=
  (begin_plan (new_PlannerRuntime (MkPlannerConfig default_limits snapshot None))).2.
Definition result : PlanningResult :=
  match compute capture request with Computed _ result _ | Returned result => result end.

(** The only candidate uses two links of the domain, and the plan is PLANNED. *)
Lemma transit_ignores_member_limit :
  rs_status result = PlanStatus.kPlanned ∧
  map (λ c, map h_link (p_hops (cd_path c))) (rs_candidates result) = [[Demo.link 4; Demo.link 5]] ∧
  match snapshot with
  | None => False
  | Some s => map fd_members (fdv_domains (s_failure_domains s)) =
                [[ForLink (Demo.link 4); ForLink (Demo.link 5)]]
  end.
Proof. split_and!; vm_compute; reflexivity. Qed.
End MemberLimit.

(** ** A required authority that is unavailable *)

(** The demo request with required validation, and an authority that can never answer. *)
Module AuthorityUnavailable.
Definition policy : PlanningPolicy :=
  let p := rq_policy demo_request in
  MkPolicy (pp_generation p) (pp_cost_model p) (pp_allow_degraded_links p)
    (pp_allow_draining_ports p) (pp_allow_maintenance_ports p) (pp_require_operational_proof p)
    (pp_allow_zero_hop_self_path p) (pp_locality_scope p) AuthorityValidationMode.kRequired.
Definition request : PlanningRequest :=
  MkRequest (rq_id demo_request) (rq_source demo_request) (rq_destination demo_request)
    (rq_constraints demo_request) policy 3 PlanningMode.kStandard (rq_authority demo_request)
    false 0 false 0 false (nil_id _).
Definition never : IPathAuthority :=
  λ _ _ _, (AuthorityValidation.kUnavailable, "authority offline"%string).
Definition capture : Capture :=
  (begin_plan (new_PlannerRuntime (MkPlannerConfig default_limits (Some Demo.snapshot) (Some never)))).2.
Definition result : PlanningResult :=
  match compute capture request with Computed _ result _ | Returned result => result end.

(** The demo fabric has two paths; the answer says there is none, and blames a
    constraint that did not stop them. *)
Lemma unavailable_reported_as_no_path :
  rs_status result = PlanStatus.kNoPath ∧
  rs_primary_failure result = Some DiagnosticCode.kForbiddenLink.
Proof. split; vm_compute; reflexivity. Qed.
End AuthorityUnavailable.
