(* ===== verification/Identity.v ===== *)
(** result.cpp, the identity of a plan: [EncodeSemantic] and [ComputeSemanticDigest].
    The ceiling of the encoder is never reached, and the digest identifies exactly
    the fields the encoding covers. *)

From S2P Require Import Prelude Canonical Sha256 Status Ids Codec Limits Graph Builder Path Request View ViewFacts Result Planner Concurrent.

(** The part of a candidate that the encoding covers. *)
Record CandidateContent := MkContent {
  cc_id : CandidatePathId; cc_total : Z; cc_hops : Z; cc_static : Z; cc_degraded : Z;
  cc_locality : Z; cc_rank : Z
}.
Definition candidate_content (c : Candidate) : CandidateContent :=
  MkContent (cd_id c) (c_total (cd_cost c)) (c_hops (cd_cost c)) (c_static_cost (cd_cost c))
    (c_degraded_penalty (cd_cost c)) (c_locality_penalty (cd_cost c)) (cd_rank c).

Definition content_bytes (c : CandidateContent) : bytes :=
  id_bytes (cc_id c) ++ le_bytes 8 (cc_total c) ++ le_bytes 4 (cc_hops c) ++
  le_bytes 8 (cc_static c) ++ le_bytes 8 (cc_degraded c) ++ le_bytes 8 (cc_locality c) ++
  le_bytes 4 (cc_rank c).
Definition content_typed (c : CandidateContent) : Prop :=
  id_wf (cc_id c) ∧ u64_fits (cc_total c) ∧ u32_fits (cc_hops c) ∧ u64_fits (cc_static c) ∧
  u64_fits (cc_degraded c) ∧ u64_fits (cc_locality c) ∧ u32_fits (cc_rank c).

Lemma PrefixFree_content : PrefixFree content_typed content_bytes.
Proof. prefix_free_record unfold content_typed, content_bytes in *. Qed.
#[export] Hint Resolve PrefixFree_content : prefix_free.

Definition candidate_bytes (c : Candidate) : bytes := content_bytes (candidate_content c).
Definition semantic_bytes (p : PathPlan) : bytes :=
  le_bytes 4 kPlanningRuleVersion ++ le_bytes 4 kPlanDigestSchemeVersion ++
  id_bytes (pl_request p) ++ id_bytes (pl_source p) ++ id_bytes (pl_destination p) ++
  enum_bytes (pl_layer p) ++ enum_bytes (pl_status p) ++ bool_bytes (pl_diagnostic_mode p) ++
  evidence_bytes (pl_evidence p) ++ le_bytes 8 (pl_policy_generation p) ++
  id_bytes (pl_constraint_set p) ++ le_bytes 8 (pl_constraint_generation p) ++
  list_bytes candidate_bytes (pl_candidates p).

Lemma Writes_candidate c : Writes (EncodeCandidate c) (candidate_bytes c).
Proof. unfold EncodeCandidate, candidate_bytes, content_bytes. writes_pipeline. Qed.
#[export] Hint Resolve Writes_candidate : writes.
Lemma Writes_semantic p : Writes (EncodeSemantic p) (semantic_bytes p).
Proof. unfold EncodeSemantic, semantic_bytes. writes_pipeline. Qed.

(** What identifies a plan: everything but its identities, generation, publish
    sequence field and currentness flag. *)
Definition plan_content (p : PathPlan) :=
  (pl_request p, pl_source p, pl_destination p, pl_layer p, pl_status p, pl_diagnostic_mode p,
   pl_evidence p, pl_policy_generation p, pl_constraint_set p, pl_constraint_generation p,
   map candidate_content (pl_candidates p)).

(** The values of a plan fit their C++ types. *)
Record plan_typed (p : PathPlan) : Prop := {
  pt_request : id_wf (pl_request p);
  pt_source : id_wf (pl_source p);
  pt_destination : id_wf (pl_destination p);
  pt_evidence : evidence_typed (pl_evidence p);
  pt_policy : u64_fits (pl_policy_generation p);
  pt_constraint_set : id_wf (pl_constraint_set p);
  pt_constraints : u64_fits (pl_constraint_generation p);
  pt_candidates : list_fits content_typed (map candidate_content (pl_candidates p))
}.

Lemma semantic_bytes_inj p q :
  plan_typed p → plan_typed q → semantic_bytes p = semantic_bytes q ↔ plan_content p = plan_content q.
Proof.
  intros [] []. unfold semantic_bytes, candidate_bytes. rewrite <- !(list_bytes_map candidate_content content_bytes).
  split.
  - intros Heq. do 2 apply app_inv_head in Heq. do 10 peel Heq.
    apply (PrefixFree_inj _ _ _ _ (PrefixFree_list _ _ PrefixFree_content)) in Heq; [|done..].
    unfold plan_content. congruence.
  - unfold plan_content. intros [= -> -> -> -> -> -> -> -> -> -> ->]. done.
Qed.

Lemma length_flat_map_const {A} (f : A → bytes) n l :
  Forall (λ x, length (f x) = n) l → length (flat_map f l) = (n * length l)%nat.
Proof.
  induction 1 as [|x l Hx _ IH]; [simpl; lia|]. cbn [flat_map length]. rewrite length_app, IH, Hx. lia.
Qed.

Lemma length_evidence_bytes e : evidence_typed e → length (evidence_bytes e) = 92%nat.
Proof.
  intros ([L _] & _). unfold evidence_bytes, generations_bytes, enum_bytes.
  by rewrite !length_app, !length_le_bytes, L.
Qed.

Lemma length_semantic_bytes p :
  plan_typed p → (length (semantic_bytes p) <= 400 + 80 * length (pl_candidates p))%nat.
Proof.
  intros [[L1 _] [L2 _] [L3 _] He _ [L4 _] _ [_ Hc]]. unfold semantic_bytes, enum_bytes, list_bytes, bool_bytes.
  rewrite !length_app, !length_le_bytes, L1, L2, L3, L4, (length_evidence_bytes _ He).
  rewrite (length_flat_map_const candidate_bytes 56).
  - pose proof (length_varint 9 (Z.of_nat (length (pl_candidates p)))) as Hv. unfold varint_bytes.
    cbn [kByteCount length]. lia.
  - rewrite Forall_map in Hc. eapply Forall_impl; [exact Hc|]. intros c ([L _] & _).
    unfold candidate_bytes, content_bytes. by rewrite !length_app, !length_le_bytes, L.
Qed.

(** The ceiling of [ComputeSemanticDigest] is never reached. *)
Lemma ComputeSemanticDigest_spec p : plan_typed p → ComputeSemanticDigest p = Hash (semantic_bytes p).
Proof.
  intros Ht. unfold ComputeSemanticDigest.
  destruct (Writes_new_writer _ _ (4096 + Z.of_nat (length (pl_candidates p)) * 256) (Writes_semantic p))
    as [Hov Hdata]; [lia|].
  apply length_semantic_bytes in Ht. cbv zeta in *. destruct (overflowed_ _).
  - destruct Hov as [_ Hov]. discriminate Hov. lia.
  - by rewrite Hdata.
Qed.

(** The identity is computed from the plan it is stored in. *)
Lemma MakePathPlan_identity request result sequence :
  let p := MakePathPlan request result sequence in
  pl_semantic_digest p = ComputeSemanticDigest p ∧ pl_id p = ComputePlanId p.
Proof. done. Qed.

(** C12: the semantic digest identifies a plan: the encoding never overflows its
    ceiling, so the digest is the SHA-256 of the canonical encoding; two plans have
    one digest exactly when they agree on request, endpoints, layer, status, mode,
    evidence, policy and constraint generations and on the identity, costs and rank
    of every candidate, in order, unless their encodings are a SHA-256 collision;
    and a made plan stores the digest and the identity of its own content. *)
Theorem plan_digest_identity p q :
  plan_typed p → plan_typed q →
  (Hash (semantic_bytes p) = Hash (semantic_bytes q) → semantic_bytes p = semantic_bytes q) →
  ComputeSemanticDigest p = Hash (semantic_bytes p) ∧
  (ComputeSemanticDigest p = ComputeSemanticDigest q ↔ plan_content p = plan_content q) ∧
  ∀ request result sequence,
    let made := MakePathPlan request result sequence in
    plan_content made = plan_content p →
    pl_semantic_digest made = ComputeSemanticDigest p ∧ pl_id made = ComputePlanId p.
Proof.
  intros Hp Hq Hcoll. split; [by apply ComputeSemanticDigest_spec|]. split.
  - rewrite !ComputeSemanticDigest_spec by done. rewrite <- semantic_bytes_inj by done.
    split; [done|]. by intros ->.
  - intros request result sequence made Hsame.
    assert (Ht : plan_typed made).
    { unfold plan_content in Hsame. destruct Hp. constructor; congruence. }
    assert (Hd : ComputeSemanticDigest made = ComputeSemanticDigest p).
    { rewrite !ComputeSemanticDigest_spec by done. f_equal. by apply semantic_bytes_inj. }
    destruct (MakePathPlan_identity request result sequence) as [H1 H2].
    fold made in H1, H2. rewrite H1, H2. unfold ComputePlanId. by rewrite Hd.
Qed.

(** The plan of the demo fabric, and the same plan published later. *)
Definition demo_made (sequence : Z) : PathPlan :=
  let r := demo_answer.1.2 in
  MakePathPlan demo_request
    (MkResult (rs_status r) None (nil_id _) (nil_id _) (rs_source_node r) (rs_destination_node r)
       (rs_candidates r) [] []
       (MkEvidence (ev_snapshot (rs_evidence r)) (ev_generations (rs_evidence r))
          (ev_source (rs_evidence r)) sequence)
       (nil_id _) 0 zero_digest 3 false false) sequence.

Definition demo_made_1 := Eval vm_compute in demo_made 1.
Definition demo_made_2 := Eval vm_compute in demo_made 2.

Ltac plan_typed_tac :=
  constructor;
  repeat first
    [ progress unfold evidence_typed, generations_typed, content_typed, list_fits, id_wf, u64_fits, u32_fits, is_byte
    | split | apply Forall_cons | apply Forall_nil | exact I ];
  try (vm_compute; first [reflexivity|congruence]).

Lemma demo_made_1_typed : plan_typed demo_made_1.
Proof. plan_typed_tac. Qed.
Lemma demo_made_2_typed : plan_typed demo_made_2.
Proof. plan_typed_tac. Qed.
Lemma demo_made_digests :
  bool_decide (Hash (semantic_bytes demo_made_1) = Hash (semantic_bytes demo_made_2)) = false.
Proof. vm_compute. reflexivity. Qed.

(** The two differ only in the watermark of their evidence, and so in their digest. *)
Lemma plan_digest_identity_witness :
  ComputeSemanticDigest demo_made_1 = ComputeSemanticDigest demo_made_2 ↔
  plan_content demo_made_1 = plan_content demo_made_2.
Proof.
  refine (proj1 (proj2 (plan_digest_identity demo_made_1 demo_made_2 demo_made_1_typed demo_made_2_typed _))).
  intros Heq. destruct (proj1 (bool_decide_eq_false _) demo_made_digests Heq).
Defined.

(** Publishing the same plan again later changes its identity. *)
Lemma digest_covers_watermark :
  pl_candidates demo_made_1 = pl_candidates demo_made_2 ∧
  pl_semantic_digest demo_made_1 ≠ pl_semantic_digest demo_made_2.
Proof. split; [reflexivity|apply (bool_decide_unpack _); vm_compute; exact I]. Qed.
