(* ===== verification/Lifecycle.v ===== *)
(** planner.cpp, [CheckCurrentness] and [Replan]: when a plan still holds, and how a
    new plan compares with an old one. *)

From S2P Require Import Prelude Canonical Sha256 Status Ids Codec Limits Graph Builder Path Request View ViewFacts Result Planner Concurrent Retention Identity.

(** ** What a plan rests on *)

Lemma missing_subject_spec s plan :
  snapshot_wf s →
  match missing_subject s plan with
  | Some k => depends plan k ∧ ¬ present s k
  | None => ∀ k, depends plan k → present s k
  end.
Proof.
  intros Hs. unfold missing_subject. destruct (List.find _ _) as [k|] eqn:E.
  - apply List.find_some in E as [Hk Hm]. apply list_elem_of_In, elem_of_subjects_of in Hk.
    split; [done|]. rewrite <- SubjectStillPresent_spec by done. cbn beta in Hm. by destruct (SubjectStillPresent s k).
  - intros k Hk%elem_of_subjects_of%list_elem_of_In. apply SubjectStillPresent_spec; [done|].
    pose proof (List.find_none _ _ E k Hk) as Hm. cbn beta in Hm. by destruct (SubjectStillPresent s k).
Qed.

(** ** Currentness *)

Definition retained_verdict (plan : PathPlan) (r : Runtime) : option Currentness.t :=
  rt_currentness <$> rn_retained r !! PlanKey (pl_id plan).

Lemma stale_severity p c v : StaleBy p c v → 1 <= CurrentnessSeverity v <= 7.
Proof. by destruct 1. Qed.

Lemma MoreSevere_stale p c v base :
  StaleBy p c v → CurrentnessSeverity base >= 8 → MoreSevere base v = v.
Proof.
  intros Hs%stale_severity Hb. unfold MoreSevere. destruct (Z.leb_spec (CurrentnessSeverity base) (CurrentnessSeverity v)); [lia|done].
Qed.

(** The verdict before the evidence is compared: never more severe than a stale
    generation. *)
Definition standing (plan : PathPlan) (r : Runtime) : Currentness.t :=
  if pl_diagnostic_mode plan || bool_decide (retained_verdict plan r = Some Currentness.kRevalidationRequired)
  then Currentness.kRevalidationRequired else Currentness.kCurrent.

Lemma CheckCurrentness_evidence plan r s :
  rn_snapshot r = Some s → missing_subject s plan = None →
  retained_verdict plan r ≠ Some Currentness.kRetired →
  let classified := ClassifyEvidence (pl_evidence plan) (current_evidence r) in
  cr_currentness (CheckCurrentness plan r) =
    if negb (enum_eqb classified Currentness.kCurrent) then MoreSevere (standing plan r) classified
    else if ev_publish_sequence (pl_evidence plan) =? rn_publish_sequence r then standing plan r
    else Currentness.kRevalidationRequired.
Proof.
  intros Hs Hm Hr. unfold CheckCurrentness, standing. cbv zeta. rewrite Hs, Hm.
  fold (retained_verdict plan r). rewrite (bool_decide_eq_false_2 (_ = Some Currentness.kRetired)) by done.
  change (ev_publish_sequence (current_evidence r)) with (rn_publish_sequence r).
  destruct (pl_diagnostic_mode plan), (bool_decide (retained_verdict plan r = _)); cbn [orb];
    destruct (enum_eqb (ClassifyEvidence _ _) Currentness.kCurrent); cbn [negb andb]; try done;
    by destruct (_ =? _).
Qed.

(** The report of a plan whose elements are all published and that is not retired. *)
Lemma report_of_standing plan r s :
  rn_snapshot r = Some s → missing_subject s plan = None →
  retained_verdict plan r ≠ Some Currentness.kRetired →
  let verdict := cr_currentness (CheckCurrentness plan r) in
  let stale := StaleBy (ev_generations (pl_evidence plan)) (s_generations s) in
  verdict ≠ Currentness.kRetired ∧
  (verdict = Currentness.kCurrent ↔
    pl_diagnostic_mode plan = false ∧
    retained_verdict plan r ≠ Some Currentness.kRevalidationRequired ∧
    (∀ v, ¬ stale v) ∧ ev_publish_sequence (pl_evidence plan) = rn_publish_sequence r) ∧
  (∀ v, stale v → stale verdict ∧ CurrentnessSeverity verdict <= CurrentnessSeverity v).
Proof.
  intros Hs Hm Hr. cbv zeta. rewrite (CheckCurrentness_evidence plan r s Hs Hm Hr).
  pose proof (ClassifyEvidence_spec (pl_evidence plan) (current_evidence r)) as Hc. cbv zeta in Hc.
  replace (ev_generations (current_evidence r)) with (s_generations s) in Hc
    by (unfold current_evidence; by rewrite Hs).
  assert (Hbase : CurrentnessSeverity (standing plan r) >= 8)
    by (unfold standing; destruct (_ || _); vm_compute; congruence).
  assert (Hstanding : standing plan r = Currentness.kCurrent ↔ pl_diagnostic_mode plan = false ∧
    retained_verdict plan r ≠ Some Currentness.kRevalidationRequired).
  { unfold standing. destruct (pl_diagnostic_mode plan); cbn [orb]; [naive_solver|].
    case_bool_decide; naive_solver. }
  destruct Hc as [[-> Hno]|[Hstale Hleast]].
  - change (enum_eqb Currentness.kCurrent Currentness.kCurrent) with true. cbn [negb].
    destruct (Z.eqb_spec (ev_publish_sequence (pl_evidence plan)) (rn_publish_sequence r)) as [He|He].
    + split; [intros E; by rewrite E in Hbase|]. split; [|naive_solver]. rewrite Hstanding. naive_solver.
    + split; [done|]. split; [|naive_solver]. split; [done|naive_solver].
  - pose proof (stale_severity _ _ _ Hstale) as Hsev.
    rewrite (MoreSevere_stale _ _ _ _ Hstale Hbase).
    destruct (ClassifyEvidence (pl_evidence plan) (current_evidence r)); try (exfalso; simpl in Hsev; lia);
      (split; [done|]); (split; [split; [done|naive_solver]|by auto]).
Qed.

(** C11: a currentness report is exact. Without a published snapshot no plan is
    CURRENT. Otherwise the report is RETIRED exactly when an element of a candidate
    is no longer published or the retained plan was retired; CURRENT exactly when
    every element is still published, no notice invalidated the retained plan, the
    plan is not diagnostic, no consumed generation moved and the watermark is the
    plan's; and when a generation moved (and the plan is not retired) it is the most
    severe of the stale verdicts. *)
Theorem currentness_exact plan r :
  let report := CheckCurrentness plan r in
  cr_prior_evidence report = pl_evidence plan ∧ cr_current_evidence report = current_evidence r ∧
  match rn_snapshot r with
  | None => cr_currentness report = Currentness.kRevalidationRequired
  | Some s => snapshot_wf s →
      let lost := ∃ k, depends plan k ∧ ¬ present s k in
      let retired := lost ∨ retained_verdict plan r = Some Currentness.kRetired in
      let stale := StaleBy (ev_generations (pl_evidence plan)) (s_generations s) in
      (cr_currentness report = Currentness.kRetired ↔ retired) ∧
      (cr_currentness report = Currentness.kCurrent ↔
        ¬ retired ∧ pl_diagnostic_mode plan = false ∧
        retained_verdict plan r ≠ Some Currentness.kRevalidationRequired ∧
        (∀ v, ¬ stale v) ∧ ev_publish_sequence (pl_evidence plan) = rn_publish_sequence r) ∧
      (¬ retired → ∀ v, stale v →
        stale (cr_currentness report) ∧
        CurrentnessSeverity (cr_currentness report) <= CurrentnessSeverity v)
  end.
Proof.
  cbv zeta.
  assert (Hev : cr_prior_evidence (CheckCurrentness plan r) = pl_evidence plan ∧
    cr_current_evidence (CheckCurrentness plan r) = current_evidence r).
  { unfold CheckCurrentness. cbv zeta. destruct (pl_diagnostic_mode plan), (rn_snapshot r) as [s|]; try done;
      destruct (missing_subject s plan); try done; repeat (case_bool_decide || case_match; simplify_eq); done. }
  split; [apply Hev|]. split; [apply Hev|]. clear Hev.
  destruct (rn_snapshot r) as [s|] eqn:Hs.
  2:{ unfold CheckCurrentness. cbv zeta. rewrite Hs. by destruct (pl_diagnostic_mode plan). }
  intros Hwf. pose proof (missing_subject_spec s plan Hwf) as Hm.
  destruct (missing_subject s plan) as [k|] eqn:Emiss.
  { assert (Hret : cr_currentness (CheckCurrentness plan r) = Currentness.kRetired).
    { unfold CheckCurrentness. cbv zeta. rewrite Hs, Emiss. by destruct (pl_diagnostic_mode plan). }
    rewrite Hret. split; [|split; [|naive_solver]]; split; try done; naive_solver. }
  destruct (decide (retained_verdict plan r = Some Currentness.kRetired)) as [Hr|Hr].
  { assert (Hret : cr_currentness (CheckCurrentness plan r) = Currentness.kRetired).
    { unfold CheckCurrentness. cbv zeta. rewrite Hs, Emiss. fold (retained_verdict plan r).
      rewrite (bool_decide_eq_true_2 (_ = Some Currentness.kRetired)) by done. by destruct (pl_diagnostic_mode plan). }
    rewrite Hret. split; [|split; [|naive_solver]]; split; try done; naive_solver. }
  destruct (report_of_standing plan r s Hs Emiss Hr) as (H1 & H2 & H3).
  assert (Hno : ¬ ((∃ k, depends plan k ∧ ¬ present s k) ∨
    retained_verdict plan r = Some Currentness.kRetired)) by naive_solver.
  split; [naive_solver|]. split; [|auto]. rewrite H2. naive_solver.
Qed.

(** The demo plan is current right after it was retained, and is not once its
    retained copy was invalidated by a notice. *)
Lemma currentness_exact_witness :
  cr_currentness (CheckCurrentness demo_plan demo_retained) = Currentness.kCurrent ∧
  cr_currentness (CheckCurrentness demo_plan (ApplyInvalidation (demo_notice 3) demo_retained).1) ≠
    Currentness.kCurrent.
Proof.
  split; [vm_compute; reflexivity|].
  destruct (currentness_exact demo_plan (ApplyInvalidation (demo_notice 3) demo_retained).1) as (_ & _ & H).
  assert (Hs : rn_snapshot (ApplyInvalidation (demo_notice 3) demo_retained).1 = Some Demo.snapshot)
    by (vm_compute; reflexivity).
  rewrite Hs in H. destruct (H demo_snapshot_wf) as (_ & Hc & _). rewrite Hc.
  intros (_ & _ & Hv & _). apply Hv. vm_compute. reflexivity.
Defined.

(** ** Replanning *)

Definition candidate_ids (l : list Candidate) : list CandidatePathId := map cd_id l.

Lemma classify_replan_spec prior result outcome answered :
  classify_replan prior result = (outcome, answered) →
  let status := rs_status result in
  let refused := status = PlanStatus.kMalformedRequest ∨ status = PlanStatus.kUnauthorized in
  let before := candidate_ids (pl_candidates prior) in
  let after := candidate_ids (rs_candidates result) in
  let same_plan := pl_semantic_digest prior = rs_semantic_digest result ∧
                   IsZero (pl_semantic_digest prior) = false in
  let compared := ¬ refused ∧ status ≠ PlanStatus.kRevalidationRequired ∧ after ≠ [] in
  (answered = false ↔ refused) ∧
  (outcome = ReplanOutcome.kRevalidationRequired ↔
    status = PlanStatus.kRevalidationRequired) ∧
  (outcome = ReplanOutcome.kNoPath ↔
    refused ∨ status ≠ PlanStatus.kRevalidationRequired ∧ after = []) ∧
  (outcome = ReplanOutcome.kUnchanged ↔ compared ∧ (same_plan ∨ before = after)) ∧
  (outcome = ReplanOutcome.kOrderingChanged ↔
    compared ∧ ¬ same_plan ∧ before ≠ after ∧ Permutation before after) ∧
  (outcome = ReplanOutcome.kCandidateSetChanged ↔
    compared ∧ ¬ same_plan ∧ ¬ Permutation before after).
Proof.
  cbv zeta. unfold classify_replan. cbv zeta.
  fold (candidate_ids (pl_candidates prior)) (candidate_ids (rs_candidates result)).
  set (before := candidate_ids _). set (after := candidate_ids (rs_candidates result)).
  assert (Hlen : (length (rs_candidates result) =? 0)%nat = true ↔ after = []).
  { rewrite Nat.eqb_eq. unfold after, candidate_ids. by destruct (rs_candidates result). }
  assert (Hsame : negb (IsZero (pl_semantic_digest prior)) &&
    eqb (pl_semantic_digest prior) (rs_semantic_digest result) = true ↔
    pl_semantic_digest prior = rs_semantic_digest result ∧ IsZero (pl_semantic_digest prior) = false)
    by (rewrite andb_true_iff, negb_true_iff, eqb_eq; tauto).
  set (same_plan := _ ∧ IsZero _ = false) in *.
  assert (Href : enum_eqb (rs_status result) PlanStatus.kMalformedRequest ||
    enum_eqb (rs_status result) PlanStatus.kUnauthorized = true ↔
    rs_status result = PlanStatus.kMalformedRequest ∨ rs_status result = PlanStatus.kUnauthorized)
    by (by destruct (rs_status result); vm_compute; intuition).
  assert (Hrev : enum_eqb (rs_status result) PlanStatus.kRevalidationRequired = true ↔
    rs_status result = PlanStatus.kRevalidationRequired) by (by destruct (rs_status result)).
  assert (Hdisj : rs_status result = PlanStatus.kRevalidationRequired →
    ¬ (rs_status result = PlanStatus.kMalformedRequest ∨ rs_status result = PlanStatus.kUnauthorized))
    by (intros ->; naive_solver).
  set (refused := rs_status result = _ ∨ _) in *. set (revalidate := rs_status result = _) in *.
  assert (Hids : eqb before after = true ↔ before = after) by apply eqb_eq.
  assert (Hperm : eqb (sort_ids before) (sort_ids after) = true ↔ Permutation before after)
    by (rewrite eqb_eq; apply sort_ids_perm).
  assert (Hsub : before = after → Permutation before after) by (by intros ->).
  set (ids := before = after) in *. set (perm := Permutation before after) in *.
  set (none := after = []) in *. clearbody same_plan refused revalidate ids perm none.
  destruct (_ || _); [|destruct (enum_eqb (rs_status result) PlanStatus.kRevalidationRequired);
    [|destruct (_ =? 0)%nat; [|destruct (_ && _); [|destruct (eqb before after);
      [|destruct (eqb (sort_ids before) (sort_ids after))]]]]];
    intros [= <- <-]; split_and!; split; intros ?; first [discriminate|tauto|exfalso; tauto|reflexivity].
Qed.

(** [Replan] is exactly a [Plan] followed by a comparison with the prior plan: the
    answer is refused (false) exactly for malformed or unauthorized requests;
    REVALIDATION_REQUIRED, NO_PATH and UNCHANGED are reported in this order, UNCHANGED
    exactly when a digest proves the same plan or the candidates are the same in the same
    order; ORDERING_CHANGED exactly when they are the same candidates in another
    order; CANDIDATE_SET_CHANGED exactly when they are not the same. *)
Theorem replan_exact prior request r :
  let '(r', result, report, answered) := Replan prior request r in
  let status := rs_status result in
  let refused := status = PlanStatus.kMalformedRequest ∨ status = PlanStatus.kUnauthorized in
  let before := candidate_ids (pl_candidates prior) in
  let after := candidate_ids (rs_candidates result) in
  let same_plan := pl_semantic_digest prior = rs_semantic_digest result ∧
                   IsZero (pl_semantic_digest prior) = false in
  let compared := ¬ refused ∧ status ≠ PlanStatus.kRevalidationRequired ∧ after ≠ [] in
  Plan request r = (r', result) ∧
  rr_prior_digest report = pl_semantic_digest prior ∧
  rr_current_digest report = rs_semantic_digest result ∧
  (rr_same_semantic_plan report = true ↔ same_plan) ∧
  (answered = false ↔ refused) ∧
  (rr_outcome report = ReplanOutcome.kRevalidationRequired ↔
    status = PlanStatus.kRevalidationRequired) ∧
  (rr_outcome report = ReplanOutcome.kNoPath ↔
    refused ∨ status ≠ PlanStatus.kRevalidationRequired ∧ after = []) ∧
  (rr_outcome report = ReplanOutcome.kUnchanged ↔ compared ∧ (same_plan ∨ before = after)) ∧
  (rr_outcome report = ReplanOutcome.kOrderingChanged ↔
    compared ∧ ¬ same_plan ∧ before ≠ after ∧ Permutation before after) ∧
  (rr_outcome report = ReplanOutcome.kCandidateSetChanged ↔
    compared ∧ ¬ same_plan ∧ ¬ Permutation before after).
Proof.
  unfold Replan. destruct (Plan request r) as [r' result].
  destruct (classify_replan prior result) as [outcome answered] eqn:E.
  apply classify_replan_spec in E. cbv zeta. cbn [rr_outcome rr_prior_digest rr_current_digest rr_same_semantic_plan].
  split; [done|]. split; [done|]. split; [done|]. split; [|exact E].
  rewrite andb_true_iff, negb_true_iff, eqb_eq. tauto.
Qed.
