(* ===== verification/Sources.v ===== *)
(** sources.hpp / sources.cpp: the producers of evidence. A synthetic fabric is drafted
    by one of fourteen families, then materialised with one stream of pseudo-random
    numbers through the snapshot builder; the local host is a single node with its
    adapters as ports. The enumeration of the adapters is the operating system's and
    an argument here. *)

From S2P Require Import Prelude Canonical Sha256 Status Ids Codec Limits Graph Builder.
Import DiagnosticCode.

Open Scope string_scope.
Open Scope list_scope.
Open Scope Z_scope.

Module SyntheticFamily.
Inductive t : Set :=
  | kChain | kRing | kDiamond | kLeafSpine | kFatTree | kMesh | kDisconnected | kOneWay
  | kParallelEqualCost | kTieStorm | kHighDegreeHub | kDeepChain | kSparseLarge | kDenseBounded.

Definition all : list t :=
  [kChain; kRing; kDiamond; kLeafSpine; kFatTree; kMesh; kDisconnected; kOneWay;
  kParallelEqualCost; kTieStorm; kHighDegreeHub; kDeepChain; kSparseLarge; kDenseBounded].

Definition value (x : t) : Z :=
  match x with
  | kChain => 1 | kRing => 2 | kDiamond => 3 | kLeafSpine => 4 | kFatTree => 5 | kMesh => 6
  | kDisconnected => 7 | kOneWay => 8 | kParallelEqualCost => 9 | kTieStorm => 10
  | kHighDegreeHub => 11 | kDeepChain => 12 | kSparseLarge => 13 | kDenseBounded => 14
  end.

Definition names : list EnumEntry := entries
  [("CHAIN"%string, 1); ("RING"%string, 2); ("DIAMOND"%string, 3); ("LEAF_SPINE"%string, 4);
  ("FAT_TREE"%string, 5); ("MESH"%string, 6); ("DISCONNECTED"%string, 7); ("ONE_WAY"%string, 8);
  ("PARALLEL_EQUAL_COST"%string, 9); ("TIE_STORM"%string, 10); ("HIGH_DEGREE_HUB"%string, 11);
  ("DEEP_CHAIN"%string, 12); ("SPARSE_LARGE"%string, 13); ("DENSE_BOUNDED"%string, 14)].

#[export] Instance enum : CppEnum t.
Proof. enum_instance value all names. Defined.
End SyntheticFamily.
#[export] Existing Instance SyntheticFamily.enum.

Record SyntheticOptions := MkOptions {
  so_family : SyntheticFamily.t; so_seed : Z; so_nodes : Z; so_extra_edges : Z; so_layers : Z;
  so_layer : PathLayer.t; so_static_cost_base : Z; so_static_cost_spread : Z;
  so_percent_down : Z; so_percent_degraded : Z; so_percent_unknown : Z;
  so_percent_port_disabled : Z; so_percent_without_link_state_record : Z;
  so_capability_bindings : Z; so_failure_domains : Z; so_membership_complete : bool;
  so_limits : ResourceLimits
}.

(** ** Deterministic primitives *)

(** splitmix64; the state of the generator is the 64-bit counter. *)
Definition kGamma : Z := 11400714819323198485.
Definition mix (value : Z) : Z :=
  let value := wrap64 (Z.lxor value (Z.shiftr value 30) * 13787848793156543929) in
  let value := wrap64 (Z.lxor value (Z.shiftr value 27) * 10723151780598845931) in
  Z.lxor value (Z.shiftr value 31).
Definition Next (state : Z) : Z * Z :=
  let state := wrap64 (state + kGamma) in (mix state, state).

(** [for (;;)] with at most [2 ^ doublings] rounds: a value below [accept_below], or the
    state after them. *)
Fixpoint attempt (doublings : nat) (accept_below state : Z) : Z + Z * Z :=
  match doublings with
  | O =>
      let '(value, state) := Next state in
      if value <? accept_below then inr (value, state) else inl state
  | S doublings =>
      match attempt doublings accept_below state with
      | inl state => attempt doublings accept_below state
      | accepted => accepted
      end
  end.

(** The counter visits every 64-bit value within 2^64 rounds, and 0 is mixed to 0: the
    last alternative does not occur ([Below_accepts] in SourcesFacts.v). *)
Definition Below (bound state : Z) : Z * Z :=
  early (0, state) when (bound <=? 1) ;;
  let accept_below := u64_max - u64_max mod bound in
  match attempt 64 accept_below state with
  | inr (value, state) => (value mod bound, state)
  | inl state => (0, state)
  end.

Definition Percent (percent state : Z) : bool * Z :=
  let '(value, state) := Below 100 state in (value <? percent, state).

Definition FabricLabel (kind : string) (family seed first second : Z) : string :=
  (kind ++ ":" ++ UIntToString family ++ ":" ++ UIntToString seed ++ ":" ++ UIntToString first ++
   ":" ++ UIntToString second)%string.
Definition IdFromLabel (tag : IdTag) (label : string) : FixedId tag :=
  FromDigest tag (Hash (text_bytes label)).

Definition NormalizeNodeCount (requested : Z) : Z := if requested <? 2 then 2 else requested.

Definition RelationshipForLayer (layer : PathLayer.t) : RelationshipType.t :=
  match layer with
  | PathLayer.kPhysical => RelationshipType.kDirectLink
  | PathLayer.kLogical => RelationshipType.kLogicalAdjacency
  | PathLayer.kTunnel | PathLayer.kOverlay => RelationshipType.kTunnelEncapsulation
  end.

(** ** Topologies *)

Definition Failure : Type := DiagnosticCode.t * string.

Record EdgeDraft := MkDraft { dr_from : Z; dr_to : Z }.
Record Topology := MkTopology {
  tp_node_count : Z; tp_source : Z; tp_destination : Z; tp_uniform_cost : bool;
  tp_edges : list EdgeDraft; tp_degree : list Z
}.

Definition at_index {A} (default : A) (l : list A) (i : Z) : A := nth (Z.to_nat i) l default.
Definition bump_degree (l : list Z) (i : Z) : list Z := <[Z.to_nat i := at_index 0 l i + 1]> l.

Definition PushEdge (limits : ResourceLimits) (t : Topology) (e : EdgeDraft) : Failure + Topology :=
  early inl (kTooManyEdges, "synthetic fabric exceeds max_edges")
    when (Z.of_nat (length (tp_edges t)) >=? max_edges limits) ;;
  early inl (kGraphTooLarge, "synthetic fabric exceeds max_ports_per_node")
    when ((at_index 0 (tp_degree t) (dr_from e) + 1 >? max_ports_per_node limits) ||
          (at_index 0 (tp_degree t) (dr_to e) + 1 >? max_ports_per_node limits)) ;;
  inr (MkTopology (tp_node_count t) (tp_source t) (tp_destination t) (tp_uniform_cost t)
         (tp_edges t ++ [e]) (bump_degree (bump_degree (tp_degree t) (dr_from e)) (dr_to e))).

(** The pushes of a family in order; the first that is refused refuses the topology. *)
Fixpoint push_edges (limits : ResourceLimits) (drafts : list EdgeDraft) (t : Topology) :
  Failure + Topology :=
  match drafts with
  | [] => inr t
  | e :: drafts =>
      match PushEdge limits t e with
      | inl failure => inl failure
      | inr t => push_edges limits drafts t
      end
  end.

(** [for (i = first; i < last; ++i)]. *)
Definition range (first last : Z) : list Z :=
  map (λ i, first + Z.of_nat i) (seq 0 (Z.to_nat (last - first))).

(** What a family drafts: its ends, its edges in the order they are pushed, and whether
    its links all cost the same. *)
Record Draft := MkFamily {
  fm_source : Z; fm_destination : Z; fm_uniform_cost : bool; fm_edges : list EdgeDraft
}.

Definition chain_edges (first last : Z) : list EdgeDraft :=
  map (λ i, MkDraft i (i + 1)) (range first (last - 1)).

(** Every node of one tier to every node of the next. *)
Definition bipartite (base size next_base next_size : Z) : list EdgeDraft :=
  flat_map (λ i, map (λ j, MkDraft (base + i) (next_base + j)) (range 0 next_size)) (range 0 size).

(** One route of the diamond, through the nodes from [first] to [last - 1]. *)
Definition diamond_route (n first last : Z) : list EdgeDraft :=
  let nodes := range first last in
  zip_with MkDraft (0 :: nodes) (nodes ++ [n - 1]).

Definition circulant (n distance : Z) : list EdgeDraft :=
  flat_map (λ i, map (λ step, MkDraft i (wrap32 (i + step) mod n)) (range 1 (distance + 1))) (range 0 n).

(** The components of DISCONNECTED: where each starts, and how long it is. *)
Fixpoint component_layout (count : nat) (component start base remainder : Z) : list (Z * Z) :=
  match count with
  | O => []
  | S count =>
      let size := base + (if component <? remainder then 1 else 0) in
      (start, size) :: component_layout count (component + 1) (start + size) base remainder
  end.

(** [std::swap(order[i], order[j])]. *)
Definition swap (l : list Z) (i j : Z) : list Z :=
  <[Z.to_nat j := at_index 0 l i]> (<[Z.to_nat i := at_index 0 l j]> l).

(** [for (i = size - 1; i > 0; --i)]. *)
Fixpoint shuffle_loop (i : nat) (random : Z) (order : list Z) : list Z :=
  match i with
  | O => order
  | S k =>
      let '(j, random) := Below (Z.of_nat i + 1) random in
      shuffle_loop k random (swap order (Z.of_nat i) j)
  end.
Definition kShuffleSeed : Z := 25214903917.
Definition shuffled (seed n : Z) : list Z :=
  shuffle_loop (Z.to_nat n - 1) (Z.lxor seed kShuffleSeed) (range 0 n).

Definition clamp (low high value : Z) : Z := Z.min (Z.max value low) high.

Definition chain_draft (n destination : Z) : Draft :=
  MkFamily 0 destination false (chain_edges 0 n).

Definition ring_draft (n : Z) : Draft :=
  MkFamily 0 (n / 2) false (map (λ i, MkDraft i (if i + 1 =? n then 0 else i + 1)) (range 0 n)).

Definition diamond_draft (n : Z) : Draft :=
  early chain_draft n (n - 1) when (n <? 4) ;;
  let middle := n - 2 in
  let split := 1 + (middle + 1) / 2 in
  MkFamily 0 (n - 1) false (diamond_route n 1 split ++ diamond_route n split (n - 1)).

Definition leaf_spine_draft (n layers : Z) : Draft :=
  let tiers := clamp 2 8 layers in
  let spines := Z.max 1 (n / tiers) in
  let leaves := n - spines in
  MkFamily 0 leaves false (bipartite 0 leaves leaves spines).

Definition fat_tree_draft (n layers : Z) : Draft :=
  early chain_draft n (n - 1) when (n <? 4) ;;
  let core_tier := layers >=? 4 in
  let leaves := Z.max 1 (n / 4) in
  let aggregates := Z.max 1 (n / 4) in
  let spines := if core_tier then Z.max 1 (n / 4) else n - leaves - aggregates in
  let cores := if core_tier then n - leaves - aggregates - spines else 0 in
  let spine_base := leaves + aggregates in
  MkFamily 0 (n - 1) false
    (bipartite 0 leaves leaves aggregates ++ bipartite leaves aggregates spine_base spines ++
     bipartite spine_base spines (spine_base + spines) cores).

(** MESH with chords of up to [2 + extra_edges] steps, DENSE_BOUNDED of [8 + extra_edges]. *)
Definition circulant_draft (n requested : Z) : Draft :=
  early chain_draft n (n / 2) when (n <? 4) ;;
  MkFamily 0 (n / 2) false (circulant n (Z.min requested ((n - 1) / 2))).

Definition disconnected_draft (n : Z) : Draft :=
  let components := Z.min n (Z.max 2 (n / 4)) in
  let layout :=
    component_layout (Z.to_nat components) 0 0 (n / components) (n mod components) in
  MkFamily 0 (fst (nth 1 layout (0, 0))) false (flat_map (λ c, chain_edges c.1 (c.1 + c.2)) layout).

Definition parallel_draft (n : Z) : Draft :=
  let parallel := if n =? 2 then 2 else Z.min 8 (Z.max 2 (n / 4)) in
  MkFamily 0 (n - 1) true (replicate (Z.to_nat parallel) (MkDraft 0 1) ++ chain_edges 1 n).

Definition tie_storm_draft (n : Z) : Draft :=
  early MkFamily 0 (n - 1) true [MkDraft 0 1] when (n =? 2) ;;
  MkFamily 0 (n - 1) true
    (flat_map (λ middle, [MkDraft 0 middle; MkDraft middle (n - 1)]) (range 1 (n - 1))).

Definition hub_draft (n : Z) : Draft := MkFamily 0 (n - 1) false (map (MkDraft 0) (range 1 n)).

Definition deep_chain_draft (n seed : Z) : Draft :=
  let order := shuffled seed n in
  MkFamily (default 0 (head order)) (default 0 (last order)) false
    (zip_with MkDraft order (drop 1 order)).

Definition sparse_draft (n : Z) : Draft :=
  MkFamily 0 (n - 1) false (map (λ i, MkDraft ((i - 1) / 2) i) (range 1 n)).

Definition family_draft (options : SyntheticOptions) (n : Z) : Draft :=
  match so_family options with
  | SyntheticFamily.kChain | SyntheticFamily.kOneWay => chain_draft n (n - 1)
  | SyntheticFamily.kRing => ring_draft n
  | SyntheticFamily.kDiamond => diamond_draft n
  | SyntheticFamily.kLeafSpine => leaf_spine_draft n (so_layers options)
  | SyntheticFamily.kFatTree => fat_tree_draft n (so_layers options)
  | SyntheticFamily.kMesh => circulant_draft n (2 + so_extra_edges options)
  | SyntheticFamily.kDisconnected => disconnected_draft n
  | SyntheticFamily.kParallelEqualCost => parallel_draft n
  | SyntheticFamily.kTieStorm => tie_storm_draft n
  | SyntheticFamily.kHighDegreeHub => hub_draft n
  | SyntheticFamily.kDeepChain => deep_chain_draft n (so_seed options)
  | SyntheticFamily.kSparseLarge => sparse_draft n
  | SyntheticFamily.kDenseBounded => circulant_draft n (8 + so_extra_edges options)
  end.

Definition BuildTopology (options : SyntheticOptions) : Failure + Topology :=
  let limits := so_limits options in
  let n := NormalizeNodeCount (so_nodes options) in
  early inl (kGraphTooLarge,
             ("synthetic fabric requires " ++ UIntToString n ++ " nodes but max_nodes is " ++
              UIntToString (max_nodes limits))%string)
    when (n >? max_nodes limits) ;;
  let d := family_draft options n in
  push_edges limits (fm_edges d)
    (MkTopology n (fm_source d) (fm_destination d) (fm_uniform_cost d) [] (replicate (Z.to_nat n) 0)).

(** ** Materialisation *)

Definition NextStaticCost (options : SyntheticOptions) (uniform : bool) (random : Z) : Z * Z :=
  early (so_static_cost_base options, random)
    when ((so_static_cost_spread options =? 0) || uniform) ;;
  let '(delta, random) := Below (so_static_cost_spread options) random in
  let base := so_static_cost_base options in
  let room := u32_max - base in
  (if delta >? room then u32_max else wrap32 (base + delta), random).

Definition PickLinkState (down degraded unknown : bool) : LinkState.t :=
  early LinkState.kDown when down ;;
  early LinkState.kDegraded when degraded ;;
  if unknown then LinkState.kUnknown else LinkState.kUp.

(** A refused fabric: the diagnostic and the detail text; [None] for the texts [Build]
    composes. *)
Definition FabricRefusal : Type := DiagnosticCode.t * option string.
Definition FabricFail (code : DiagnosticCode.t) (detail : string) : FabricRefusal := (code, Some detail).
Definition BuilderFailure (b : FabricSnapshotBuilder) : FabricRefusal :=
  FabricFail (default kGraphTooLarge (last (b_diagnostics b)))
    "synthetic fabric record was rejected by the snapshot builder".

(** The calls of one adding method in order; the first that is refused refuses the fabric. *)
Fixpoint add_all {R} (add : R → FabricSnapshotBuilder → bool * FabricSnapshotBuilder)
  (records : list R) (b : FabricSnapshotBuilder) : FabricRefusal + FabricSnapshotBuilder :=
  match records with
  | [] => inr b
  | r :: records =>
      match add r b with
      | (true, b) => add_all add records b
      | (false, b) => inl (BuilderFailure b)
      end
  end.

(** The generation of everything a source publishes is 1. *)
Definition first_generations : SnapshotGenerations := MkGenerations 1 1 1 1 1 1 1 1.

(** What the loop over the edges keeps: the stream, the next free port of each node, the
    links and the link states so far. *)
Record EdgeLoop := MkEdgeLoop {
  el_random : Z; el_used_ports : list Z; el_link_ids : list LinkId;
  el_link_states : list LinkStateRecord
}.

Section Materialisation.
Context (options : SyntheticOptions) (topology : Topology).

Let family := enum_value (so_family options).
Let seed := so_seed options.
Let limits := so_limits options.

Definition edge_count : Z := Z.of_nat (length (tp_edges topology)).
Definition port_count : Z := 2 * edge_count + tp_node_count topology.
Definition capability_count : Z := Z.max 1 (so_capability_bindings options).
Definition domain_count : Z := Z.max 1 (so_failure_domains options).

(** The ceilings checked before anything is materialised. *)
Definition check_ceilings : option FabricRefusal :=
  early Some (FabricFail kGraphTooLarge "synthetic fabric exceeds max_endpoints")
    when (tp_node_count topology >? max_endpoints limits) ;;
  early Some (FabricFail kGraphTooLarge "synthetic fabric exceeds max_port_state_records")
    when (port_count >? max_port_state_records limits) ;;
  early Some (FabricFail kGraphTooLarge "synthetic fabric exceeds max_capability_bindings")
    when (wrap64 ((tp_node_count topology + edge_count) * capability_count) >?
          max_capability_bindings limits) ;;
  early Some (FabricFail kGraphTooLarge "synthetic fabric exceeds max_failure_domains")
    when (domain_count >? max_failure_domains limits) ;;
  None.

Definition fabric_node (i : Z) : NodeId := IdFromLabel NodeIdTag (FabricLabel "n" family seed i 0).
Definition node_ports (i : Z) : list PortId :=
  map (λ port, IdFromLabel PortIdTag (FabricLabel "p" family seed i port))
    (range 0 (wrap32 (at_index 0 (tp_degree topology) i + 1))).
Definition fabric_link (i : Z) : LinkId := IdFromLabel LinkIdTag (FabricLabel "l" family seed i 0).
Definition fabric_endpoint (i : Z) : EndpointId :=
  IdFromLabel EndpointIdTag (FabricLabel "e" family seed i 0).
Definition nodes : list Z := range 0 (tp_node_count topology).

Definition fabric_node_record (i : Z) : NodeRecord :=
  MkNode (fabric_node i) (IdFromLabel SwitchIdTag (FabricLabel "s" family seed i 0)) 1 1
    (node_ports i).

(** One edge: its cost, four rolls, the next free port of either end. *)
Definition draw_edge (draft : EdgeDraft) (s : EdgeLoop) : EdgeRecord * EdgeLoop :=
  let '(static_cost, random) := NextStaticCost options (tp_uniform_cost topology) (el_random s) in
  let '(absent, random) := Percent (so_percent_without_link_state_record options) random in
  let '(down, random) := Percent (so_percent_down options) random in
  let '(degraded, random) := Percent (so_percent_degraded options) random in
  let '(unknown, random) := Percent (so_percent_unknown options) random in
  let link := fabric_link (Z.of_nat (length (el_link_ids s))) in
  let from_port :=
    at_index (nil_id PortIdTag) (node_ports (dr_from draft))
      (at_index 0 (el_used_ports s) (dr_from draft)) in
  let used := bump_degree (el_used_ports s) (dr_from draft) in
  let to_port :=
    at_index (nil_id PortIdTag) (node_ports (dr_to draft)) (at_index 0 used (dr_to draft)) in
  let used := bump_degree used (dr_to draft) in
  let states :=
    if absent then el_link_states s
    else el_link_states s ++ [MkLinkState link (PickLinkState down degraded unknown)] in
  (MkEdge link (fabric_node (dr_from draft)) (fabric_node (dr_to draft)) from_port to_port
     (so_layer options) (RelationshipForLayer (so_layer options)) static_cost 1 1,
   MkEdgeLoop random used (el_link_ids s ++ [link]) states).

Fixpoint add_edges (drafts : list EdgeDraft) (s : EdgeLoop) (b : FabricSnapshotBuilder) :
  FabricRefusal + (EdgeLoop * FabricSnapshotBuilder) :=
  match drafts with
  | [] => inr (s, b)
  | draft :: drafts =>
      let '(edge, s) := draw_edge draft s in
      match AddEdge edge b with
      | (true, b) => add_edges drafts s b
      | (false, b) => inl (BuilderFailure b)
      end
  end.

Definition start_edges : EdgeLoop :=
  MkEdgeLoop seed (replicate (Z.to_nat (tp_node_count topology)) 0) [] [].

(** Two rolls for every port. *)
Fixpoint draw_port_states (ports : list PortId) (random : Z) : list PortStateRecord :=
  match ports with
  | [] => []
  | port :: ports =>
      let '(disabled, random) := Percent (so_percent_port_disabled options) random in
      let '(unknown, random) := Percent (so_percent_unknown options) random in
      MkPortState port
        (if disabled then PortState.kAdminDisabled
         else if unknown then PortState.kUnknown else PortState.kUp)
      :: draw_port_states ports random
  end.

Definition capability_bindings (subject : SubjectKey) : list CapabilityBinding :=
  map (λ c, MkBinding subject (IdFromLabel CapabilityIdTag (FabricLabel "c" family seed c 0))
              (wrap32 (1 + c)))
    (range 0 capability_count).
Definition bindings (links : list LinkId) : list CapabilityBinding :=
  flat_map (λ i, capability_bindings (ForNode (fabric_node i))) nodes ++
  flat_map (λ link, capability_bindings (ForLink link)) links.

(** [++domain_members[i % domain_count]], over the nodes and the edges. *)
Definition domain_members : list Z :=
  fold_left (λ counts draft, bump_degree counts (dr_from draft mod domain_count)) (tp_edges topology)
    (fold_left (λ counts i, bump_degree counts (i mod domain_count)) nodes
       (replicate (Z.to_nat domain_count) 0)).

Definition push_member (domains : list FailureDomainRecord) (domain : Z) (member : SubjectKey) :
  list FailureDomainRecord :=
  alter (λ d, MkDomain (fd_domain d) (fd_risk_class d) (fd_members d ++ [member]))
    (Z.to_nat domain) domains.

Definition empty_domain (domain : Z) : FailureDomainRecord :=
  MkDomain (IdFromLabel FailureDomainIdTag (FabricLabel "f" family seed domain 0))
    (IdFromLabel FailureDomainClassTag (FabricLabel "fc" family seed (domain mod 2) 0)) [].

Definition domains (links : list LinkId) : list FailureDomainRecord :=
  fold_left
    (λ domains l, push_member domains (dr_from l.1 mod domain_count) (ForLink l.2))
    (zip (tp_edges topology) links)
    (fold_left (λ domains i, push_member domains (i mod domain_count) (ForNode (fabric_node i)))
       nodes (map empty_domain (range 0 domain_count))).

(** The endpoint of a node takes its last port, which no edge uses. *)
Definition fabric_endpoint_record (i : Z) : EndpointRecord :=
  MkEndpoint (fabric_endpoint i) EndpointClass.kEndpoint (fabric_node i)
    (default (nil_id PortIdTag) (last (node_ports i))) 1.

(** The builder after every record, ready for [Build]. *)
Definition materialise : FabricRefusal + FabricSnapshotBuilder :=
  onerror e := check_ceilings give inl e ;;
  let b :=
    SetSource EvidenceSource.kSynthetic (SetGenerations first_generations (new_builder limits)) in
  match add_all AddNode (map fabric_node_record nodes) b with
  | inl e => inl e
  | inr b =>
  match add_edges (tp_edges topology) start_edges b with
  | inl e => inl e
  | inr (s, b) =>
  early inl (FabricFail kGraphTooLarge "synthetic fabric exceeds max_link_state_records")
    when (Z.of_nat (length (el_link_states s)) >? max_link_state_records limits) ;;
  let b := SetLinkStates (el_link_states s) b in
  let b := SetPortStates (draw_port_states (flat_map node_ports nodes) (el_random s)) b in
  let b := SetCapabilities (bindings (el_link_ids s)) b in
  early inl (FabricFail kGraphTooLarge "synthetic fabric exceeds max_members_per_failure_domain")
    when existsb (λ members, members >? lim_max_members_per_failure_domain limits)
           domain_members ;;
  let b := SetFailureDomains (domains (el_link_ids s)) (so_membership_complete options) b in
  add_all AddEndpoint (map fabric_endpoint_record nodes) b
  end
  end.
End Materialisation.

Definition plan_fabric (options : SyntheticOptions) :
  FabricRefusal + (Topology * FabricSnapshotBuilder) :=
  onerror code := ValidateLimits (so_limits options)
    give inl (FabricFail code "resource limits are incoherent") ;;
  match BuildTopology options with
  | inl (code, detail) => inl (FabricFail code detail)
  | inr topology =>
      match materialise options topology with
      | inl e => inl e
      | inr b => inr (topology, b)
      end
  end.

Record SyntheticFabric := MkFabric {
  sf_snapshot : FabricSnapshot; sf_source : EndpointId; sf_destination : EndpointId;
  sf_source_node : NodeId; sf_destination_node : NodeId; sf_source_generation : Z;
  sf_destination_generation : Z; sf_endpoint_class : EndpointClass.t
}.

Definition build_fabric (options : SyntheticOptions) : FabricRefusal + (Topology * FabricSnapshot) :=
  match plan_fabric options with
  | inl e => inl e
  | inr (topology, b) =>
      match (Build b).1 with
      | inl code => inl (code, None)
      | inr s => inr (topology, s)
      end
  end.

(** [BuildSyntheticFabric] with somewhere to report the ends of the fabric. *)
Definition BuildSyntheticFabric (options : SyntheticOptions) : FabricRefusal + SyntheticFabric :=
  match build_fabric options with
  | inl e => inl e
  | inr (topology, s) =>
      match FindEndpoint s (fabric_endpoint options (tp_source topology)),
            FindEndpoint s (fabric_endpoint options (tp_destination topology)) with
      | Some source, Some destination =>
          inr (MkFabric s (ep_id source) (ep_id destination) (ep_node source) (ep_node destination)
                 (ep_entity_generation source) (ep_entity_generation destination) (ep_class source))
      | _, _ => inl (FabricFail kUnknownEndpoint "generated snapshot is missing its reported endpoints")
      end
  end.

Definition GenerateSyntheticFabric (options : SyntheticOptions) : FabricRefusal + FabricSnapshot :=
  match build_fabric options with
  | inl e => inl e
  | inr (_, s) => inr s
  end.

(** The error text, where it is not one [Build] composes. *)
Definition MakeSyntheticFabric (options : SyntheticOptions) : option string + SyntheticFabric :=
  match BuildSyntheticFabric options with
  | inl (code, detail) =>
      inl (if decide (detail = Some ""%string) then Some (EnumName code) else detail)
  | inr fabric => inr fabric
  end.

(** ** The local host *)

Record LocalAdapter := MkAdapter {
  la_name : string; la_description : string; la_mac : string; la_if_index : Z; la_up : bool;
  la_loopback : bool; la_layer : PathLayer.t
}.

(** The order the adapters are sorted by. *)
Definition adapter_key (a : LocalAdapter) : Z * (string * string) :=
  (la_if_index a, (la_name a, la_mac a)).
(** What the platform discovered, if it can, in order. *)
Definition EnumerateLocalAdapters (supported : bool) (discovered : list LocalAdapter) :
  list LocalAdapter :=
  early [] when negb supported ;;
  sort_by adapter_key discovered.

Definition tier_usable (tier : nat) (a : LocalAdapter) : bool :=
  match tier with
  | O => negb (la_loopback a) && la_up a
  | 1%nat => negb (la_loopback a)
  | _ => true
  end.
Definition visit_adapter (tier : nat) (selected : list nat) (ia : nat * LocalAdapter) : list nat :=
  early selected when (2 <=? length selected)%nat ;;
  early selected when bool_decide (ia.1 ∈ selected) ;;
  if tier_usable tier ia.2 then selected ++ [ia.1] else selected.
Definition SelectEndpointAdapters (adapters : list LocalAdapter) : list nat :=
  fold_left
    (λ selected tier, fold_left (visit_adapter tier) (imap pair adapters) selected)
    [0%nat; 1%nat; 2%nat] [].

Definition HostKey (adapters : list LocalAdapter) : string :=
  String.concat ""
    (map (λ a, (la_name a ++ "|" ++ la_mac a ++ "|" ++ UIntToString (la_if_index a) ++ ";")%string)
       adapters).

Section LocalHost.
Context (supported : bool) (adapters : list LocalAdapter) (limits : ResourceLimits).

Let host_key := HostKey adapters.
Let index_text (i : nat) := UIntToString (Z.of_nat i).
Definition host_node : NodeId := IdFromLabel NodeIdTag ("localhost:node:" ++ host_key)%string.
Definition host_port (i : nat) : PortId :=
  IdFromLabel PortIdTag ("localhost:port:" ++ index_text i ++ ":" ++ host_key)%string.
Definition host_endpoint (i : nat) : EndpointId :=
  IdFromLabel EndpointIdTag ("localhost:endpoint:" ++ index_text i ++ ":" ++ host_key)%string.
Definition host_ports : list PortId := map host_port (seq 0 (length adapters)).

Definition host_node_record : NodeRecord :=
  MkNode host_node (nil_id SwitchIdTag) 1 1 host_ports.
Definition host_port_states : list PortStateRecord :=
  imap (λ i a, MkPortState (host_port i) (if la_up a then PortState.kUp else PortState.kUnknown))
    adapters.
Definition host_endpoint_record (i : nat) : EndpointRecord :=
  MkEndpoint (host_endpoint i) EndpointClass.kNic host_node (host_port i) 1.

Definition check_host : option string :=
  early Some "local host discovery is unsupported on this platform" when negb supported ;;
  early Some "no local host adapter was discovered" when (length adapters =? 0)%nat ;;
  onerror code := ValidateLimits limits
    give Some ("resource limits are incoherent: " ++ EnumName code)%string ;;
  early Some "the local host publishes more adapters than max_ports_per_node allows"
    when (Z.of_nat (length adapters) >? max_ports_per_node limits) ;;
  early Some "the local host publishes more adapters than max_port_state_records allows"
    when (Z.of_nat (length adapters) >? max_port_state_records limits) ;;
  let selected := SelectEndpointAdapters adapters in
  early Some "no local host adapter is usable as an endpoint" when (length selected =? 0)%nat ;;
  early Some "the local host view needs more endpoints than max_endpoints allows"
    when (Z.of_nat (Nat.min 2 (length selected)) >? max_endpoints limits) ;;
  None.

Definition host_builder : FabricSnapshotBuilder :=
  SetSource EvidenceSource.kReal (SetGenerations first_generations (new_builder limits)).

(** The refusal text; [None] stands for a text [Build] composes. *)
Definition host_fabric : option string + SyntheticFabric :=
  onerror e := check_host give inl (Some e) ;;
  let slots := take 2 (SelectEndpointAdapters adapters) in
  match add_all AddNode [host_node_record] host_builder with
  | inl _ => inl (Some "the local host node was rejected by the snapshot builder")
  | inr b =>
  let b := SetPortStates host_port_states b in
  let b := SetFailureDomains [] false (SetCapabilities [] (SetLinkStates [] b)) in
  match add_all AddEndpoint (map host_endpoint_record slots) b with
  | inl _ => inl (Some "a local host endpoint was rejected by the snapshot builder")
  | inr b =>
  match (Build b).1 with
  | inl _ => inl None
  | inr s =>
      inr (MkFabric s (host_endpoint (default 0%nat (head slots)))
             (host_endpoint (default 0%nat (last slots))) host_node host_node 1 1
             EndpointClass.kNic)
  end
  end
  end.
End LocalHost.

Definition MakeLocalHostFabric (supported : bool) (discovered : list LocalAdapter)
  (limits : ResourceLimits) : option string + SyntheticFabric :=
  host_fabric supported (EnumerateLocalAdapters supported discovered) limits.
