(* ===== verification/SourcesFacts.v ===== *)
(** What the evidence sources promise: the pseudo-random stream is a permutation of the
    64-bit values and its bounded draws are exact, every family drafts the graph it is
    documented to be, a generated fabric is published whole or refused, and the view of
    the local host names nothing the adapters do not carry. *)

From S2P Require Import Prelude Canonical Sha256 Status Ids Codec Limits Graph Builder Reach Sources.

Open Scope string_scope.
Open Scope list_scope.
Open Scope Z_scope.

(** ** The pseudo-random stream *)

Definition two64 : Z := 18446744073709551616.

Lemma wrap64_lt z : 0 <= wrap64 z < two64.
Proof. pose proof (wrap64_range z). unfold u64_max, two64 in *. lia. Qed.

Lemma shiftr_fixed z k : 0 <= z → 0 < k → z = Z.shiftr z k → z = 0.
Proof.
  intros Hz Hk Heq. rewrite Z.shiftr_div_pow2 in Heq by lia.
  destruct (decide (z = 0)) as [|Hn]; [done|].
  pose proof (Z.pow_gt_1 2 k ltac:(lia)) as Hp.
  pose proof (Z.div_lt z (2 ^ k) ltac:(lia) ltac:(lia)). lia.
Qed.

Lemma lxor_cancel a b c d : Z.lxor a b = Z.lxor c d → Z.lxor a c = Z.lxor b d.
Proof.
  intros H. apply Z.lxor_eq.
  replace (Z.lxor (Z.lxor a c) (Z.lxor b d)) with (Z.lxor (Z.lxor a b) (Z.lxor c d)).
  - rewrite H. apply Z.lxor_nilpotent.
  - apply Z.bits_inj. intros n. rewrite !Z.lxor_spec.
    by destruct (Z.testbit a n), (Z.testbit b n), (Z.testbit c n), (Z.testbit d n).
Qed.

Lemma xorshift_inj k x y :
  0 < k → 0 <= x → 0 <= y →
  Z.lxor x (Z.shiftr x k) = Z.lxor y (Z.shiftr y k) → x = y.
Proof.
  intros Hk Hx Hy Heq. apply lxor_cancel in Heq. rewrite <-Z.shiftr_lxor in Heq.
  apply Z.lxor_eq, (shiftr_fixed _ k); [|done|done]. apply Z.lxor_nonneg. lia.
Qed.

Lemma xorshift_range k x : 0 <= k → 0 <= x < two64 → 0 <= Z.lxor x (Z.shiftr x k) < two64.
Proof.
  intros Hk Hx. assert (0 <= Z.shiftr x k <= x) as Hs.
  { rewrite Z.shiftr_div_pow2 by lia. pose proof (Z.pow_pos_nonneg 2 k ltac:(lia) Hk).
    split; [apply Z.div_pos; lia|]. apply Z.div_le_upper_bound; nia. }
  split; [apply Z.lxor_nonneg; lia|].
  destruct (decide (Z.lxor x (Z.shiftr x k) = 0)) as [->|Hn]; [unfold two64; lia|].
  change two64 with (2 ^ 64). apply Z.log2_lt_pow2.
  { pose proof (Z.lxor_nonneg x (Z.shiftr x k)). lia. }
  eapply Z.le_lt_trans; [apply Z.log2_lxor; lia|].
  assert (∀ z, 0 <= z < two64 → Z.log2 z < 64) as Hl.
  { intros z Hz. destruct (decide (z = 0)) as [->|]; [reflexivity|].
    apply Z.log2_lt_pow2; [lia|]. exact (proj2 Hz). }
  apply Z.max_lub_lt; apply Hl; lia.
Qed.

(** Multiplication by a factor with an inverse permutes the 64-bit values. *)
Lemma odd_mul_inj a inv x y :
  wrap64 (a * inv) = 1 → 0 <= x < two64 → 0 <= y < two64 →
  wrap64 (x * a) = wrap64 (y * a) → x = y.
Proof.
  unfold wrap64. fold two64. intros Hinv Hx Hy Heq.
  assert (∀ z, 0 <= z < two64 → (z * a) mod two64 * inv mod two64 = z) as Hback.
  { intros z Hz. rewrite Z.mul_mod_idemp_l by done.
    rewrite <-Z.mul_assoc, Z.mul_mod, Hinv, Z.mul_1_r, Z.mod_mod by done.
    by apply Z.mod_small. }
  rewrite <-(Hback x Hx), <-(Hback y Hy). by rewrite Heq.
Qed.

Lemma mix_range x : 0 <= x < two64 → 0 <= mix x < two64.
Proof. intros Hx. unfold mix. apply xorshift_range; [lia|]. apply wrap64_lt. Qed.

Lemma mix_inj x y : 0 <= x < two64 → 0 <= y < two64 → mix x = mix y → x = y.
Proof.
  intros Hx Hy Heq. unfold mix in Heq.
  apply xorshift_inj in Heq; [|lia|apply wrap64_lt..].
  apply (odd_mul_inj _ 3573116690164977347) in Heq;
    [|vm_compute; reflexivity|apply xorshift_range; [lia|apply wrap64_lt]..].
  apply xorshift_inj in Heq; [|lia|apply wrap64_lt..].
  apply (odd_mul_inj _ 10871156337175269513) in Heq;
    [|vm_compute; reflexivity|apply xorshift_range; [lia|done]..].
  by apply xorshift_inj in Heq; [| |lia..].
Qed.

(** An injection of an initial segment into itself is onto. *)
Lemma inj_onto (N : Z) (f : Z → Z) (v : Z) :
  (∀ x, 0 <= x < N → 0 <= f x < N) →
  (∀ x y, 0 <= x < N → 0 <= y < N → f x = f y → x = y) →
  0 <= v < N → ∃ x, 0 <= x < N ∧ f x = v.
Proof.
  intros Hr Hinj Hv.
  assert (NoDup (map f (seqZ 0 N))) as Hnd.
  { apply NoDup_fmap_2_strong; [|apply NoDup_seqZ].
    intros x y Hx%elem_of_seqZ Hy%elem_of_seqZ. apply Hinj; lia. }
  assert (map f (seqZ 0 N) ≡ₚ seqZ 0 N) as Hp.
  { apply submseteq_length_Permutation; [|by rewrite length_map].
    apply NoDup_submseteq; [done|].
    intros y (x & -> & Hx%elem_of_seqZ)%list_elem_of_fmap. apply elem_of_seqZ.
    specialize (Hr x). lia. }
  assert (v ∈ map f (seqZ 0 N)) as (x & -> & Hx%elem_of_seqZ)%list_elem_of_fmap.
  { rewrite Hp. apply elem_of_seqZ. lia. }
  exists x. split; [lia|done].
Qed.

(** The state after [k + 1] calls of [Next], and the value of the last of them. *)
Definition stream_state (state k : Z) : Z := wrap64 (state + (k + 1) * kGamma).
Definition stream_value (state k : Z) : Z := mix (stream_state state k).

Lemma wrap64_add_wrap a b : wrap64 (wrap64 a + b) = wrap64 (a + b).
Proof. unfold wrap64. by rewrite Z.add_mod_idemp_l. Qed.

Lemma stream_state_later state n k : stream_state (wrap64 (state + n * kGamma)) k = stream_state state (n + k).
Proof. unfold stream_state. rewrite wrap64_add_wrap. f_equal. lia. Qed.

Lemma stream_inj state x y :
  0 <= x < two64 → 0 <= y < two64 → stream_value state x = stream_value state y → x = y.
Proof.
  intros Hx Hy Heq%mix_inj; [|apply wrap64_lt..].
  apply (odd_mul_inj kGamma 17428512612931826493); [vm_compute; reflexivity|done..|].
  unfold stream_state, wrap64 in *. fold two64 in Heq |- *.
  assert (∀ z, z * kGamma = (state + (z + 1) * kGamma) - (state + kGamma)) as Hz by lia.
  by rewrite (Hz x), (Hz y), Zminus_mod, Heq, <-Zminus_mod.
Qed.

Lemma stream_full_period state v :
  0 <= v < two64 → ∃ k, 0 <= k < two64 ∧ stream_value state k = v.
Proof.
  apply (inj_onto two64 (stream_value state)).
  - intros k _. apply mix_range, wrap64_lt.
  - apply stream_inj.
Qed.

Lemma Next_value state : Next state = (stream_value state 0, stream_state state 0).
Proof. unfold Next, stream_value, stream_state. by rewrite Z.mul_1_l. Qed.

(** Every value of the first [n] rounds is refused. *)
Definition all_refused (accept_below state n : Z) : Prop :=
  ∀ j, 0 <= j < n → accept_below <= stream_value state j.

Lemma all_refused_app ab state n m :
  all_refused ab state n → all_refused ab (wrap64 (state + n * kGamma)) m →
  all_refused ab state (n + m).
Proof.
  intros H1 H2 j Hj. destruct (decide (j < n)) as [|Hge]; [apply H1; lia|].
  specialize (H2 (j - n) ltac:(lia)). unfold stream_value in *.
  rewrite stream_state_later in H2. by replace (n + (j - n)) with j in H2 by lia.
Qed.

Lemma attempt_spec d ab state :
  match attempt d ab state with
  | inl state' =>
      state' = wrap64 (state + 2 ^ Z.of_nat d * kGamma) ∧ all_refused ab state (2 ^ Z.of_nat d)
  | inr (value, state') =>
      ∃ k, 0 <= k < 2 ^ Z.of_nat d ∧ all_refused ab state k ∧
           value = stream_value state k ∧ state' = stream_state state k ∧ value < ab
  end.
Proof.
  revert state. induction d as [|d IH]; intros state.
  - cbn [attempt]. rewrite Next_value. destruct (_ <? ab) eqn:E.
    + exists 0. repeat split; [lia..|by intros j; lia|lia].
    + split; [reflexivity|]. intros j Hj. replace j with 0 by lia. lia.
  - assert (2 ^ Z.of_nat (S d) = 2 ^ Z.of_nat d + 2 ^ Z.of_nat d) as Hp.
    { rewrite Nat2Z.inj_succ, Z.pow_succ_r by lia. lia. }
    rewrite Hp. cbn [attempt]. pose proof (IH state) as H1.
    destruct (attempt d ab state) as [s1|[v s1]].
    + destruct H1 as [-> H1]. pose proof (IH (wrap64 (state + 2 ^ Z.of_nat d * kGamma))) as H2.
      destruct (attempt d ab _) as [s2|[v s2]].
      * destruct H2 as [-> H2]. split; [|by apply all_refused_app].
        rewrite wrap64_add_wrap. f_equal. lia.
      * destruct H2 as (k & Hk & Hr & -> & -> & Hlt). exists (2 ^ Z.of_nat d + k).
        unfold stream_value in *. rewrite stream_state_later in *.
        repeat split; [lia..|by apply all_refused_app|done].
    + destruct H1 as (k & Hk & Hr & -> & -> & Hlt). exists k. repeat split; [lia..|done|done].
Qed.

Lemma Below_accepts bound state :
  2 <= bound <= u64_max →
  ∃ k, 0 <= k < two64 ∧ all_refused (u64_max - u64_max mod bound) state k ∧
       stream_value state k < u64_max - u64_max mod bound ∧
       Below bound state = (stream_value state k mod bound, stream_state state k).
Proof.
  intros Hb. set (ab := u64_max - u64_max mod bound).
  assert (0 < ab) as Hab.
  { subst ab. pose proof (Z.mod_pos_bound u64_max bound ltac:(lia)). unfold u64_max in *. lia. }
  unfold Below. destruct (bound <=? 1) eqn:E; [lia|]. fold ab. cbv zeta.
  pose proof (attempt_spec 64 ab state) as H.
  change (2 ^ Z.of_nat 64) with two64 in H.
  destruct (attempt 64 ab state) as [s|[v s]].
  - exfalso. destruct H as [_ H].
    destruct (stream_full_period state 0) as (k & Hk & Hv); [unfold two64; lia|].
    specialize (H k Hk). lia.
  - destruct H as (k & Hk & Hr & -> & -> & Hlt). by exists k.
Qed.

Lemma Below_range bound state : 1 <= bound <= u64_max → 0 <= (Below bound state).1 < bound.
Proof.
  intros Hb. destruct (decide (bound = 1)) as [->|]; [cbn; lia|].
  destruct (Below_accepts bound state) as (k & _ & _ & _ & ->); [lia|].
  apply Z.mod_pos_bound. lia.
Qed.

(** C34: bounded draws are exact and always answer. The values of the stream run through
    all 64-bit values within one period, each exactly once; a draw below a bound is the
    first value of the stream under the largest multiple of the bound, reduced by the
    bound, so it is in range and no residue is preferred; and a percentage of 0 never
    fires, one of 100 always does. *)
Theorem random_draws_exact (bound state : Z) :
  2 <= bound <= u32_max →
  (∀ v, 0 <= v < two64 → ∃ k, 0 <= k < two64 ∧ stream_value state k = v ∧
     ∀ j, 0 <= j < two64 → stream_value state j = v → j = k) ∧
  (∃ accept_below k, (bound | accept_below) ∧ u64_max - accept_below < bound ∧
     0 <= k < two64 ∧ (∀ j, 0 <= j < k → accept_below <= stream_value state j) ∧
     stream_value state k < accept_below ∧
     Below bound state = (stream_value state k mod bound, stream_state state k)) ∧
  0 <= (Below bound state).1 < bound ∧
  (Percent 0 state).1 = false ∧ (Percent 100 state).1 = true.
Proof.
  intros Hb. assert (u32_max <= u64_max) by (unfold u32_max, u64_max; lia). split_and!.
  - intros v Hv. destruct (stream_full_period state v Hv) as (k & Hk & Hkv). exists k.
    split; [done|]. split; [done|]. intros j Hj Hjv. apply (stream_inj state); [done..|congruence].
  - destruct (Below_accepts bound state) as (k & Hk & Hr & Hlt & Heq); [lia|].
    exists (u64_max - u64_max mod bound), k. split; [|split; [|done]].
    + apply Z.mod_divide; [lia|]. rewrite Zminus_mod_idemp_r, Z.sub_diag. done.
    + pose proof (Z.mod_pos_bound u64_max bound). lia.
  - apply (Below_range bound state). lia.
  - apply (Below_range bound state). lia.
  - unfold Percent. pose proof (Below_range 100 state) as H1. destruct (Below 100 state). cbn in *.
    apply Z.ltb_ge. apply H1. unfold u64_max. lia.
  - unfold Percent. pose proof (Below_range 100 state) as H1. destruct (Below 100 state). cbn in *.
    apply Z.ltb_lt. apply H1. unfold u64_max. lia.
Qed.

Lemma random_draws_exact_witness :
  0 <= (Below 100 7).1 < 100 ∧ Below 100 7 = (87, 11400714819323198492).
Proof.
  split; [|vm_compute; reflexivity].
  apply (random_draws_exact 100 7). unfold u32_max. lia.
Defined.

(** ** Pushing edges *)

Lemma at_index_bump l i j :
  0 <= i < Z.of_nat (length l) → 0 <= j →
  at_index 0 (bump_degree l i) j = at_index 0 l j + (if decide (i = j) then 1 else 0).
Proof.
  intros Hi Hj. unfold bump_degree, at_index. destruct (decide (i = j)) as [->|Hne].
  - rewrite nth_lookup, list_lookup_insert_eq by lia. done.
  - rewrite !nth_lookup, list_lookup_insert_ne by lia. lia.
Qed.

Lemma at_index_bump_other l i j :
  0 <= i → 0 <= j → i ≠ j → at_index 0 (bump_degree l i) j = at_index 0 l j.
Proof.
  intros Hi Hj Hne. unfold bump_degree, at_index. rewrite !nth_lookup, list_lookup_insert_ne by lia. done.
Qed.

Lemma length_bump l i : length (bump_degree l i) = length l.
Proof. apply length_insert. Qed.

(** How often a node is an end of the edges. *)
Definition ends_at (i : Z) (e : EdgeDraft) : Z :=
  (if decide (dr_from e = i) then 1 else 0) + (if decide (dr_to e = i) then 1 else 0).
Definition incidence (drafts : list EdgeDraft) (i : Z) : Z :=
  foldr (λ e total, ends_at i e + total) 0 drafts.

Lemma incidence_cons e drafts i : incidence (e :: drafts) i = ends_at i e + incidence drafts i.
Proof. reflexivity. Qed.

Lemma incidence_nonneg drafts i : 0 <= incidence drafts i.
Proof.
  induction drafts as [|e drafts IH]; [done|]. rewrite incidence_cons.
  unfold ends_at. repeat case_decide; lia.
Qed.

Definition draft_ok (n : Z) (e : EdgeDraft) : Prop :=
  0 <= dr_from e < n ∧ 0 <= dr_to e < n ∧ dr_from e ≠ dr_to e.

(** A topology with more edges. *)
Definition with_drafts (t : Topology) (drafts : list EdgeDraft) : Topology :=
  MkTopology (tp_node_count t) (tp_source t) (tp_destination t) (tp_uniform_cost t)
    (tp_edges t ++ drafts)
    (fold_left (λ degree e, bump_degree (bump_degree degree (dr_from e)) (dr_to e)) drafts (tp_degree t)).

Definition within_ceilings (limits : ResourceLimits) (t : Topology) (drafts : list EdgeDraft) :=
  Z.of_nat (length (tp_edges t ++ drafts)) <= max_edges limits ∧
  ∀ i, 0 < incidence drafts i → at_index 0 (tp_degree t) i + incidence drafts i <= max_ports_per_node limits.

Lemma degree_of_drafts drafts degree i :
  Forall (draft_ok (Z.of_nat (length degree))) drafts → 0 <= i →
  at_index 0 (fold_left (λ degree e, bump_degree (bump_degree degree (dr_from e)) (dr_to e)) drafts degree) i =
  at_index 0 degree i + incidence drafts i.
Proof.
  intros Hok Hi. revert degree Hok. induction drafts as [|e drafts IH]; intros degree Hok; [cbn [fold_left incidence foldr]; lia|].
  apply Forall_cons in Hok as [(Hf & Ht & Hne) Hok]. cbn [fold_left].
  rewrite incidence_cons, IH by (by rewrite !length_bump).
  rewrite !at_index_bump by (rewrite ?length_bump; lia).
  unfold ends_at. lia.
Qed.

Lemma PushEdge_exact limits t e :
  draft_ok (Z.of_nat (length (tp_degree t))) e →
  Z.of_nat (length (tp_edges t)) <= max_edges limits →
  (within_ceilings limits t [e] ∧ PushEdge limits t e = inr (with_drafts t [e])) ∨
  (¬ within_ceilings limits t [e] ∧ ∃ failure, PushEdge limits t e = inl failure).
Proof.
  intros (Hf & Ht & Hne) Hl. unfold PushEdge.
  destruct (_ >=? _) eqn:E1.
  { right. split; [|by eexists]. intros [H _]. rewrite length_app in H. cbn in H. lia. }
  destruct (_ || _) eqn:E2.
  { right. split; [|by eexists]. intros [_ H].
    pose proof (H (dr_from e)) as Hfr. pose proof (H (dr_to e)) as Hto.
    rewrite incidence_cons in Hfr, Hto. cbn [incidence foldr] in Hfr, Hto. unfold ends_at in Hfr, Hto.
    repeat case_decide; try done; lia. }
  left. split; [|reflexivity]. split; [rewrite length_app; cbn; lia|].
  intros i. rewrite incidence_cons. cbn [incidence foldr]. unfold ends_at. repeat case_decide; subst; lia.
Qed.

Lemma push_edges_exact limits drafts t :
  Forall (draft_ok (Z.of_nat (length (tp_degree t)))) drafts →
  Z.of_nat (length (tp_edges t)) <= max_edges limits →
  (within_ceilings limits t drafts ∧ push_edges limits drafts t = inr (with_drafts t drafts)) ∨
  (¬ within_ceilings limits t drafts ∧ ∃ failure, push_edges limits drafts t = inl failure).
Proof.
  revert t. induction drafts as [|e drafts IH]; intros t Hok Hl.
  { left. destruct t as [? ? ? ? edges degree]. unfold with_drafts, within_ceilings. cbn in *.
    rewrite app_nil_r. split; [|done]. split; [done|]. intros i. lia. }
  apply Forall_cons in Hok as [He Hok]. cbn [push_edges].
  assert (within_ceilings limits t (e :: drafts) ↔
          within_ceilings limits t [e] ∧ within_ceilings limits (with_drafts t [e]) drafts) as Hsplit.
  { unfold within_ceilings. cbn [with_drafts tp_edges tp_degree fold_left].
    rewrite <-app_assoc. cbn [app].
    assert (∀ i, 0 <= i → at_index 0 (bump_degree (bump_degree (tp_degree t) (dr_from e)) (dr_to e)) i =
                 at_index 0 (tp_degree t) i + incidence [e] i) as Hd.
    { intros i Hi. by apply (degree_of_drafts [e]); [constructor|]. }
    assert (∀ i, incidence (e :: drafts) i = incidence [e] i + incidence drafts i) as Hi.
    { intros i. rewrite !incidence_cons. cbn [incidence foldr]. lia. }
    assert (∀ l i, Forall (draft_ok (Z.of_nat (length (tp_degree t)))) l → 0 < incidence l i → 0 <= i) as Hr.
    { intros l i. induction 1 as [|x l (Hx & Hy & _) _ IHl]; [done|]. rewrite incidence_cons.
      unfold ends_at. repeat case_decide; lia. }
    pose proof (incidence_nonneg [e]) as Hn1. pose proof (incidence_nonneg drafts) as Hn2.
    split.
    - intros [H1 H2]. rewrite !length_app in *. cbn [length] in *.
      split; split; [lia| |lia|].
      + intros i Hpos. specialize (H2 i). rewrite Hi in H2. specialize (Hn2 i). lia.
      + intros i Hpos. rewrite Hd by (by apply (Hr drafts)).
        specialize (H2 i). rewrite Hi in H2. specialize (Hn1 i). lia.
    - intros [[H1 H2] [H3 H4]]. split; [done|]. intros i. rewrite Hi. intros Hpos.
      specialize (H2 i). specialize (H4 i). specialize (Hn1 i). specialize (Hn2 i).
      destruct (decide (0 < incidence drafts i)) as [Hp|Hz].
      + specialize (H4 Hp). rewrite Hd in H4 by (by apply (Hr drafts)). lia.
      + lia. }
  rewrite Hsplit.
  destruct (PushEdge_exact limits t e He Hl) as [[Hw ->]|[Hw [f ->]]].
  2:{ right. split; [tauto|by exists f]. }
  destruct (IH (with_drafts t [e])) as [[Hw' ->]|[Hw' [f ->]]].
  - cbn. by rewrite !length_bump.
  - exact (proj1 Hw).
  - left. split; [done|]. unfold with_drafts. cbn. by rewrite <-app_assoc.
  - right. split; [tauto|by exists f].
Qed.

(** ** The shapes of the families *)

Lemma elem_of_flat_map {A B} (f : A → list B) l y :
  y ∈ flat_map f l ↔ ∃ x, x ∈ l ∧ y ∈ f x.
Proof. rewrite list_elem_of_In, in_flat_map. by setoid_rewrite list_elem_of_In. Qed.

Lemma elem_of_range i a b : i ∈ range a b ↔ a <= i < b.
Proof.
  unfold range. rewrite list_elem_of_fmap. split.
  - intros (k & -> & Hk%elem_of_seq). lia.
  - intros Hi. exists (Z.to_nat (i - a)). rewrite elem_of_seq. lia.
Qed.

Lemma length_range a b : length (range a b) = Z.to_nat (b - a).
Proof. unfold range. by rewrite length_map, length_seq. Qed.

Lemma range_cons a b : a < b → range a b = a :: range (a + 1) b.
Proof.
  intros H. unfold range. replace (Z.to_nat (b - a)) with (S (Z.to_nat (b - (a + 1)))) by lia.
  cbn [seq map]. rewrite <-(seq_shift _ 0), map_map. f_equal; [lia|].
  apply map_ext. lia.
Qed.

Lemma range_empty a b : b <= a → range a b = [].
Proof. intros H. unfold range. by replace (Z.to_nat (b - a)) with O by lia. Qed.

Lemma NoDup_range a b : NoDup (range a b).
Proof. unfold range. apply NoDup_fmap_2; [intros ???; lia|apply NoDup_seq]. Qed.

Lemma lookup_range a b k : 0 <= k < b - a → range a b !! Z.to_nat k = Some (a + k).
Proof.
  intros Hk. unfold range. rewrite list_lookup_fmap, lookup_seq_lt by lia. cbn. f_equal. lia.
Qed.

#[local] Opaque range.

Lemma elem_of_chain e a b :
  e ∈ chain_edges a b ↔ a <= dr_from e < b - 1 ∧ dr_to e = dr_from e + 1.
Proof.
  unfold chain_edges. rewrite list_elem_of_fmap. setoid_rewrite elem_of_range. split.
  - intros (i & -> & Hi). done.
  - destruct e as [x y]. cbn. intros [Hx ->]. by exists x.
Qed.

Lemma elem_of_bipartite e base size next_base next_size :
  e ∈ bipartite base size next_base next_size ↔
  base <= dr_from e < base + size ∧ next_base <= dr_to e < next_base + next_size.
Proof.
  unfold bipartite. rewrite elem_of_flat_map. setoid_rewrite list_elem_of_fmap.
  setoid_rewrite elem_of_range. split.
  - intros (i & Hi & j & -> & Hj). cbn. lia.
  - destruct e as [x y]. cbn. intros [Hx Hy]. exists (x - base). split; [lia|].
    exists (y - next_base). split; [f_equal; lia|lia].
Qed.

Lemma elem_of_circulant e n distance :
  e ∈ circulant n distance ↔
  0 <= dr_from e < n ∧
  ∃ step, 1 <= step <= distance ∧ dr_to e = wrap32 (dr_from e + step) mod n.
Proof.
  unfold circulant. rewrite elem_of_flat_map. setoid_rewrite list_elem_of_fmap.
  setoid_rewrite elem_of_range. split.
  - intros (i & Hi & step & -> & Hs). cbn. split; [done|]. exists step. split; [lia|done].
  - destruct e as [x y]. cbn. intros (Hx & step & Hs & ->). exists x. split; [done|].
    exists step. split; [done|lia].
Qed.

Lemma route_edges z first last a :
  first <= last →
  zip_with MkDraft (a :: range first last) (range first last ++ [z]) =
  (if decide (first = last) then [MkDraft a z]
   else MkDraft a first :: chain_edges first last ++ [MkDraft (last - 1) z]).
Proof.
  intros Hle. remember (Z.to_nat (last - first)) as k eqn:Hk.
  revert first a Hle Hk. induction k as [|k IH]; intros first a Hle Hk.
  { replace first with last by lia. rewrite range_empty by lia. by rewrite decide_True. }
  rewrite decide_False, range_cons by lia.
  change (zip_with MkDraft (a :: first :: range (first + 1) last)
            ((first :: range (first + 1) last) ++ [z]))
    with (MkDraft a first ::
          zip_with MkDraft (first :: range (first + 1) last) (range (first + 1) last ++ [z])).
  f_equal. rewrite IH by lia. unfold chain_edges. case_decide as Heq.
  - subst last. rewrite range_empty by lia. cbn. do 2 f_equal. lia.
  - rewrite (range_cons first) by lia. done.
Qed.

Lemma elem_of_diamond_route e n first last :
  first < last →
  e ∈ diamond_route n first last ↔
  e = MkDraft 0 first ∨ e ∈ chain_edges first last ∨ e = MkDraft (last - 1) (n - 1).
Proof.
  intros H. unfold diamond_route. rewrite route_edges, decide_False by lia.
  rewrite elem_of_cons, elem_of_app, list_elem_of_singleton. done.
Qed.

(** The components of DISCONNECTED lie one after the other and cover the nodes. *)
Lemma component_layout_bounds count c start base remainder s size :
  1 <= base → 0 <= remainder →
  (s, size) ∈ component_layout count c start base remainder →
  start <= s ∧ 1 <= size ∧
  s + size <= start + Z.of_nat count * base + Z.max 0 (Z.min (Z.of_nat count) (remainder - c)).
Proof.
  intros Hb Hr. revert c start. induction count as [|count IH]; intros c start; cbn [component_layout].
  { by intros ?%elem_of_nil. }
  destruct (c <? remainder) eqn:E; rewrite elem_of_cons; intros [Heq|Hin].
  all: try (injection Heq as -> ->; nia).
  all: apply IH in Hin as (H1 & H2 & H3); nia.
Qed.

Lemma swap_permutation l i j :
  0 <= i < Z.of_nat (length l) → 0 <= j < Z.of_nat (length l) → swap l i j ≡ₚ l.
Proof.
  intros Hi Hj. unfold swap, at_index.
  destruct (lookup_lt_is_Some_2 l (Z.to_nat i)) as [x Hx]; [lia|].
  destruct (lookup_lt_is_Some_2 l (Z.to_nat j)) as [y Hy]; [lia|].
  rewrite !nth_lookup, Hx, Hy. by apply Permutation_insert_swap.
Qed.

Lemma shuffle_permutation i random order :
  (i < length order)%nat → Z.of_nat i < u32_max → shuffle_loop i random order ≡ₚ order.
Proof.
  revert random order. induction i as [|i IH]; intros random order Hi Hu; [done|].
  cbn [shuffle_loop].
  pose proof (Below_range (Z.of_nat (S i) + 1) random) as Hr.
  destruct (Below _ random) as [j random']. cbn [fst] in Hr.
  assert (0 <= j < Z.of_nat (S i) + 1) as Hj by (apply Hr; unfold u32_max, u64_max in *; lia).
  assert (swap order (Z.of_nat (S i)) j ≡ₚ order) as Hs by (apply swap_permutation; lia).
  rewrite IH, Hs; [done|by rewrite (Permutation_length Hs); lia|lia].
Qed.

Lemma shuffled_permutation seed n : 1 <= n <= u32_max → shuffled seed n ≡ₚ range 0 n.
Proof.
  intros Hn. apply shuffle_permutation; [rewrite length_range|]; lia.
Qed.

(** Consecutive elements of a list. *)
Lemma elem_of_consecutive (l : list Z) e :
  e ∈ zip_with MkDraft l (drop 1 l) ↔
  ∃ k, l !! k = Some (dr_from e) ∧ l !! S k = Some (dr_to e).
Proof.
  rewrite list_elem_of_lookup. setoid_rewrite lookup_zip_with_Some. setoid_rewrite lookup_drop.
  split.
  - intros (k & x & y & -> & Hx & Hy). by exists k.
  - intros (k & Hx & Hy). exists k, (dr_from e), (dr_to e). by destruct e.
Qed.

(** The drafts of the families, unfolded. *)
Ltac unfold_families :=
  unfold family_draft, chain_draft, ring_draft, diamond_draft, leaf_spine_draft, fat_tree_draft,
    circulant_draft, disconnected_draft, parallel_draft, tie_storm_draft, hub_draft,
    deep_chain_draft, sparse_draft.

(** What every draft promises: distinct ends in range, no self-loop. *)
Record draft_wf (n : Z) (d : Draft) : Prop := {
  dw_source : 0 <= fm_source d < n;
  dw_destination : 0 <= fm_destination d < n;
  dw_apart : fm_source d ≠ fm_destination d;
  dw_edges : ∀ e, e ∈ fm_edges d → draft_ok n e
}.

Definition options_in_range (options : SyntheticOptions) : Prop :=
  0 <= so_nodes options <= 2147483648 ∧ 0 <= so_extra_edges options.

Section Families.
Context (n : Z) (Hn : 2 <= n <= 2147483648).

Lemma chain_wf destination :
  0 < destination < n → draft_wf n (MkFamily 0 destination false (chain_edges 0 n)).
Proof.
  intros Hd. split; cbn; [lia|lia|lia|].
  intros e [He Ht]%elem_of_chain. unfold draft_ok. lia.
Qed.

Lemma wrap_step i step : 0 <= i < n → 0 <= step < n → wrap32 (i + step) = i + step.
Proof. intros. apply wrap32_small. unfold u32_max. lia. Qed.

Lemma step_mod i step :
  0 <= i < n → 0 <= step < n → (i + step) mod n = if i + step <? n then i + step else i + step - n.
Proof.
  intros Hi Hs. destruct (_ <? n) eqn:E.
  - apply Z.mod_small. lia.
  - symmetry. apply (Z.mod_unique _ n 1); [left|]; lia.
Qed.

Lemma circulant_wf distance destination :
  4 <= n → 0 <= distance <= (n - 1) / 2 → 0 < destination < n →
  draft_wf n (MkFamily 0 destination false (circulant n distance)).
Proof.
  intros H4 Hdist Hd. split; cbn; [lia|lia|lia|].
  intros e (Hf & step & Hs & Ht)%elem_of_circulant. unfold draft_ok.
  assert (2 * ((n - 1) / 2) <= n - 1) by (apply Z.mul_div_le; lia).
  rewrite wrap_step, step_mod in Ht by lia. destruct (_ <? n) eqn:E; lia.
Qed.

Lemma mesh_distance k extra : 1 <= k → 0 <= extra → 4 <= n → 1 <= Z.min (k + extra) ((n - 1) / 2) <= (n - 1) / 2.
Proof. intros. Z.to_euclidean_division_equations. lia. Qed.

Lemma spine_count layers :
  let spines := Z.max 1 (n / clamp 2 8 layers) in 1 <= spines < n.
Proof.
  cbn. assert (2 <= clamp 2 8 layers) by (unfold clamp; lia).
  pose proof (Z.div_le_compat_l n 2 (clamp 2 8 layers)) as H1.
  assert (n / 2 < n) by (apply Z.div_lt; lia). lia.
Qed.

Lemma component_bounds :
  let components := Z.min n (Z.max 2 (n / 4)) in
  2 <= components <= n ∧ 1 <= n / components ∧
  components * (n / components) + n mod components = n ∧ 0 <= n mod components < components.
Proof.
  cbn. assert (2 <= Z.min n (Z.max 2 (n / 4)) <= n) as Hc by lia. split; [done|].
  remember (Z.min _ _) as c. split; [apply Z.div_le_lower_bound; lia|].
  split; [symmetry; apply Z.div_mod; lia|apply Z.mod_pos_bound; lia].
Qed.

(** The components as they are laid out: the first, and those behind it. *)
Lemma disconnected_layout :
  let components := Z.min n (Z.max 2 (n / 4)) in
  ∃ size rest,
    component_layout (Z.to_nat components) 0 0 (n / components) (n mod components) =
      (0, size) :: rest ∧
    1 <= size < n ∧ fst (nth 0 rest (0, 0)) = size ∧
    ∀ s len, (s, len) ∈ rest → size <= s ∧ s + len <= n.
Proof.
  intros c. destruct component_bounds as (Hc & Hb & Heq & Hm). fold c in Hc, Hb, Heq, Hm.
  replace (Z.to_nat c) with (S (S (Z.to_nat (c - 2)))) by lia.
  remember (Z.to_nat (c - 2)) as k eqn:Hk. assert (Z.of_nat (S k) = c - 1) as HS by lia. clear Hk.
  eexists _, (component_layout (S k) (0 + 1) _ (n / c) (n mod c)). split; [reflexivity|].
  split; [destruct (0 <? n mod c) eqn:E0; nia|]. split; [reflexivity|].
  intros s len Hin. apply component_layout_bounds in Hin as (H1 & H2 & H3); [|lia|lia].
  rewrite HS in H3. destruct (0 <? n mod c) eqn:E0; split; nia.
Qed.

(** The tiers of FAT_TREE. *)
Lemma fat_tree_tiers (core_tier : bool) :
  4 <= n →
  let leaves := Z.max 1 (n / 4) in
  let spines := if core_tier then leaves else n - leaves - leaves in
  let cores := if core_tier then n - leaves - leaves - spines else 0 in
  1 <= leaves ∧ 1 <= spines ∧ (if core_tier then 1 <= cores else cores = 0) ∧
  leaves + leaves + spines + cores = n.
Proof. intros H4. Z.to_euclidean_division_equations. destruct core_tier; cbn; lia. Qed.

Lemma diamond_split :
  4 <= n → let split := 1 + (n - 2 + 1) / 2 in 1 < split < n - 1.
Proof. intros H4. Z.to_euclidean_division_equations. cbn. lia. Qed.
End Families.

Lemma hd_last_distinct (l : list Z) :
  NoDup l → (2 <= length l)%nat → default 0 (head l) ≠ default 0 (last l).
Proof.
  intros Hnd Hl. destruct l as [|x l]; [cbn in Hl; lia|]. cbn [head default].
  destruct l as [|y l] using rev_ind; [cbn in Hl; lia|]. clear IHl.
  rewrite app_comm_cons, last_snoc. cbn. apply NoDup_cons in Hnd as [Hx _].
  intros ->. apply Hx. set_solver.
Qed.

Section Drafts.
Context (options : SyntheticOptions) (n : Z).
Context (Hn : 2 <= n <= 2147483648) (Hextra : 0 <= so_extra_edges options).

Let order := shuffled (so_seed options) n.

Lemma order_permutation : order ≡ₚ range 0 n.
Proof. apply shuffled_permutation. unfold u32_max. lia. Qed.

Lemma order_member i : i ∈ order ↔ 0 <= i < n.
Proof. rewrite order_permutation. apply elem_of_range. Qed.

Lemma order_nodup : NoDup order.
Proof. rewrite order_permutation. apply NoDup_range. Qed.

Lemma length_order : length order = Z.to_nat n.
Proof. rewrite (Permutation_length order_permutation), length_range. lia. Qed.

Lemma deep_chain_wf :
  draft_wf n (MkFamily (default 0 (head order)) (default 0 (last order)) false
                (zip_with MkDraft order (drop 1 order))).
Proof.
  pose proof length_order as Hl.
  destruct (head order) as [x|] eqn:Hx; [|by apply head_None in Hx; rewrite Hx in Hl; cbn in Hl; lia].
  destruct (last order) as [y|] eqn:Hy; [|by apply last_None in Hy; rewrite Hy in Hl; cbn in Hl; lia].
  pose proof (hd_last_distinct order order_nodup ltac:(lia)) as Hne. rewrite Hx, Hy in Hne.
  split; cbn; [| |exact Hne|].
  - apply order_member. by apply head_Some_elem_of.
  - apply order_member. by apply last_Some_elem_of.
  - intros e (k & H1 & H2)%elem_of_consecutive. split; [|split].
    1-2: apply order_member; by eapply list_elem_of_lookup_2.
    intros Heq. rewrite Heq in H1. pose proof (NoDup_lookup _ _ _ _ order_nodup H1 H2). lia.
Qed.

Lemma disconnected_wf :
  let components := Z.min n (Z.max 2 (n / 4)) in
  let layout := component_layout (Z.to_nat components) 0 0 (n / components) (n mod components) in
  draft_wf n (MkFamily 0 (fst (nth 1 layout (0, 0))) false
                (flat_map (λ c, chain_edges c.1 (c.1 + c.2)) layout)).
Proof.
  cbv zeta. destruct (disconnected_layout n Hn) as (size & rest & -> & Hs & Hfst & Hrest).
  split; [cbn; lia|cbn [fm_destination nth]; lia|cbn [fm_source fm_destination nth]; lia|].
  intros e ([s len] & [Heq|Hin]%elem_of_cons & [He Ht]%elem_of_chain)%elem_of_flat_map; cbn in *.
  - injection Heq as -> ->. unfold draft_ok. lia.
  - apply Hrest in Hin. unfold draft_ok. lia.
Qed.

Lemma family_draft_wf : draft_wf n (family_draft options n).
Proof.
  pose proof (mesh_distance n) as Hmesh.
  pose proof (spine_count n Hn (so_layers options)) as Hspine.
  pose proof (fat_tree_tiers n (so_layers options >=? 4)) as Hfat.
  pose proof (diamond_split n) as Hdiamond.
  assert (0 < n / 2 < n) as Hhalf by (Z.to_euclidean_division_equations; lia).
  unfold_families. destruct (so_family options); cbv zeta.
  - apply chain_wf; lia.
  - split; cbn; [lia|lia|lia|]. intros e (i & -> & Hi%elem_of_range)%list_elem_of_fmap.
    unfold draft_ok; cbn. destruct (_ =? n) eqn:E; lia.
  - destruct (n <? 4) eqn:E; [apply chain_wf; lia|]. cbv zeta in Hdiamond.
    remember (1 + _) as split eqn:Hsplit. clear Hsplit.
    split; cbn; [lia|lia|lia|]. intros e [He|He]%elem_of_app.
    all: apply elem_of_diamond_route in He as [->|[He%elem_of_chain| ->]]; [..|lia];
      unfold draft_ok; cbn; lia.
  - cbv zeta in Hspine. remember (Z.max 1 (n / clamp 2 8 (so_layers options))) as spines eqn:Hx. clear Hx.
    split; cbn; [lia|lia|lia|]. intros e He%elem_of_bipartite. unfold draft_ok. lia.
  - destruct (n <? 4) eqn:E; [apply chain_wf; lia|]. cbv zeta in Hfat.
    remember (Z.max 1 (n / 4)) as leaves eqn:Hx. clear Hx.
    split; cbn; [lia|lia|lia|].
    intros e [He|[He|He]%elem_of_app]%elem_of_app; apply elem_of_bipartite in He;
      unfold draft_ok; destruct (so_layers options >=? 4); lia.
  - destruct (n <? 4) eqn:E; [apply chain_wf; lia|]. apply circulant_wf; [done|lia| |lia].
    specialize (Hmesh 2 (so_extra_edges options)). lia.
  - apply disconnected_wf.
  - apply chain_wf; lia.
  - split; cbn; [lia|lia|lia|]. intros e [[-> _]%elem_of_replicate|He%elem_of_chain]%elem_of_app;
      unfold draft_ok; cbn in *; lia.
  - destruct (n =? 2) eqn:E.
    + split; cbn; [lia|lia|lia|]. intros e ->%list_elem_of_singleton. unfold draft_ok; cbn. lia.
    + split; cbn; [lia|lia|lia|].
      intros e (m & Hm%elem_of_range & He)%elem_of_flat_map. unfold draft_ok.
      apply elem_of_cons in He as [->| ->%list_elem_of_singleton]; cbn; lia.
  - split; cbn; [lia|lia|lia|]. intros e (i & -> & Hi%elem_of_range)%list_elem_of_fmap.
    unfold draft_ok; cbn. lia.
  - apply deep_chain_wf.
  - split; cbn; [lia|lia|lia|]. intros e (i & -> & Hi%elem_of_range)%list_elem_of_fmap.
    unfold draft_ok; cbn. Z.to_euclidean_division_equations. lia.
  - destruct (n <? 4) eqn:E; [apply chain_wf; lia|]. apply circulant_wf; [done|lia| |lia].
    specialize (Hmesh 8 (so_extra_edges options)). lia.
Qed.
End Drafts.

(** ** Routes *)

Definition linked (edges : list EdgeDraft) (i j : Z) : Prop := MkDraft i j ∈ edges.

Lemma climb (R : Z → Z → Prop) a b :
  a <= b → (∀ i, a <= i < b → R i (i + 1)) → rtc R a b.
Proof.
  intros Hab. replace b with (a + Z.of_nat (Z.to_nat (b - a))) by lia.
  generalize (Z.to_nat (b - a)) as k. clear Hab. intros k. induction k as [|k IH]; intros HR.
  - rewrite Z.add_0_r. constructor.
  - replace (a + Z.of_nat (S k)) with (a + Z.of_nat k + 1) by lia.
    apply (rtc_r _ (a + Z.of_nat k)); [apply IH; intros; apply HR; lia|]. apply HR. lia.
Qed.

Lemma along (R : Z → Z → Prop) (l : list Z) x :
  (∀ k i j, (x :: l) !! k = Some i → (x :: l) !! S k = Some j → R i j) →
  rtc R x (default 0 (last (x :: l))).
Proof.
  revert x. induction l as [|y l IH]; intros x HR; [constructor|].
  apply (rtc_l _ _ y); [by apply (HR 0%nat)|].
  change (last (x :: y :: l)) with (last (y :: l)). apply IH.
  intros k i j Hi Hj. by apply (HR (S k)).
Qed.

Section Routes.
Context (options : SyntheticOptions) (n : Z).
Context (Hn : 2 <= n <= 2147483648) (Hextra : 0 <= so_extra_edges options).

Lemma chain_route destination edges :
  0 <= destination < n → (∀ e, e ∈ chain_edges 0 n → e ∈ edges) → rtc (linked edges) 0 destination.
Proof.
  intros Hd Hsub. apply climb; [lia|]. intros i Hi. apply Hsub, elem_of_chain. cbn. lia.
Qed.

Lemma circulant_route distance :
  4 <= n → 1 <= distance <= (n - 1) / 2 → rtc (linked (circulant n distance)) 0 (n / 2).
Proof.
  intros H4 Hd. apply climb; [apply Z.div_pos; lia|].
  intros i Hi. assert (n / 2 < n) by (apply Z.div_lt; lia).
  apply elem_of_circulant. cbn. split; [lia|]. exists 1. split; [lia|].
  rewrite (wrap_step n Hn), step_mod by lia. destruct (_ <? n) eqn:E; lia.
Qed.

Lemma diamond_route_links first last rest :
  first < last → rtc (linked (diamond_route n first last ++ rest)) 0 (n - 1).
Proof.
  intros H. apply (rtc_l _ _ first).
  { apply elem_of_app. left. apply elem_of_diamond_route; [done|]. by left. }
  apply (rtc_r _ (last - 1)).
  - apply climb; [lia|]. intros i Hi. apply elem_of_app. left.
    apply elem_of_diamond_route; [done|]. right. left. apply elem_of_chain. cbn. lia.
  - apply elem_of_app. left. apply elem_of_diamond_route; [done|]. by do 2 right.
Qed.

Lemma tree_route edges i :
  (∀ j, 1 <= j < n → linked edges ((j - 1) / 2) j) → 0 <= i < n → rtc (linked edges) 0 i.
Proof.
  intros He Hi. pose proof (proj1 Hi) as H0. revert i H0 Hi.
  apply (Z_lt_induction (λ i, 0 <= i < n → rtc (linked edges) 0 i)). intros i IH Hi.
  destruct (decide (i = 0)) as [->|]; [constructor|].
  apply (rtc_r _ ((i - 1) / 2)); [|by apply He; lia].
  apply IH; Z.to_euclidean_division_equations; lia.
Qed.

(** Nothing leads out of the first component. *)
Lemma component_closed edges cut i j :
  (∀ e, e ∈ edges → dr_from e < cut → dr_to e < cut) →
  rtc (linked edges) i j → i < cut → j < cut.
Proof.
  intros He. induction 1 as [|i k j Hik _ IH]; [done|]. intros Hi. apply IH.
  by apply (He (MkDraft i k)).
Qed.

Lemma disconnected_apart :
  let components := Z.min n (Z.max 2 (n / 4)) in
  let layout := component_layout (Z.to_nat components) 0 0 (n / components) (n mod components) in
  ¬ rtc (linked (flat_map (λ c, chain_edges c.1 (c.1 + c.2)) layout)) 0 (fst (nth 1 layout (0, 0))).
Proof.
  cbv zeta. destruct (disconnected_layout n Hn) as (size & rest & -> & Hs & Hfst & Hrest).
  cbn [nth]. rewrite Hfst. intros Hr%(component_closed _ size); [lia| |lia].
  intros e ([s len] & [Heq|Hin]%elem_of_cons & [He Ht]%elem_of_chain)%elem_of_flat_map; cbn in *.
  - injection Heq as -> ->. lia.
  - apply Hrest in Hin. lia.
Qed.

Lemma deep_chain_route (order : list Z) :
  order ≠ [] →
  rtc (linked (zip_with MkDraft order (drop 1 order))) (default 0 (head order)) (default 0 (last order)).
Proof.
  destruct order as [|x l]; [done|]. intros _. cbn [head default]. apply along.
  intros k i j Hi Hj. apply elem_of_consecutive. by exists k.
Qed.

Lemma family_route :
  let d := family_draft options n in
  rtc (linked (fm_edges d)) (fm_source d) (fm_destination d) ↔
  so_family options ≠ SyntheticFamily.kDisconnected.
Proof.
  pose proof (mesh_distance n) as Hmesh.
  pose proof (spine_count n Hn (so_layers options)) as Hspine.
  pose proof (fat_tree_tiers n (so_layers options >=? 4)) as Hfat.
  pose proof (diamond_split n) as Hdiamond.
  assert (0 < n / 2 < n) as Hhalf by (Z.to_euclidean_division_equations; lia).
  unfold_families. destruct (so_family options) eqn:Hfam; cbv zeta.
  7: { split; [intros H; exfalso; by apply disconnected_apart in H|done]. }
  all: split; [done|intros _].
  - apply chain_route; [cbn; lia|done].
  - apply climb; cbn; [lia|]. intros i Hi. apply list_elem_of_fmap. exists i.
    rewrite elem_of_range. split; [f_equal; destruct (_ =? _) eqn:E; lia|lia].
  - destruct (n <? 4) eqn:E; [apply chain_route; [cbn; lia|done]|].
    apply diamond_route_links. cbv zeta in Hdiamond. lia.
  - cbv zeta in Hspine. remember (Z.max 1 (n / clamp 2 8 (so_layers options))) as spines eqn:Hx. clear Hx.
    apply rtc_once, elem_of_bipartite. cbn. lia.
  - destruct (n <? 4) eqn:E; [apply chain_route; [cbn; lia|done]|]. cbv zeta in Hfat.
    remember (Z.max 1 (n / 4)) as leaves eqn:Hx. clear Hx. cbn.
    apply (rtc_l _ _ leaves).
    { apply elem_of_app. left. apply elem_of_bipartite. cbn. lia. }
    destruct (so_layers options >=? 4) eqn:Ec.
    + apply (rtc_l _ _ (leaves + leaves)).
      { apply elem_of_app. right. apply elem_of_app. left. apply elem_of_bipartite. cbn. lia. }
      apply rtc_once, elem_of_app. right. apply elem_of_app. right.
      apply elem_of_bipartite. cbn. lia.
    + apply rtc_once, elem_of_app. right. apply elem_of_app. left.
      apply elem_of_bipartite. cbn. lia.
  - destruct (n <? 4) eqn:E; [apply chain_route; [cbn; lia|done]|].
    apply circulant_route; [lia|apply Hmesh; lia].
  - apply chain_route; [cbn; lia|done].
  - cbn [fm_edges fm_source fm_destination]. apply (rtc_l _ _ 1).
    { apply elem_of_app. left. apply elem_of_replicate. split; [done|].
      destruct (n =? 2); lia. }
    apply climb; [lia|]. intros i Hi. apply elem_of_app. right. apply elem_of_chain. cbn. lia.
  - destruct (n =? 2) eqn:E.
    + replace n with 2 by lia. apply rtc_once. by apply list_elem_of_singleton.
    + cbn. apply (rtc_l _ _ 1); [|apply rtc_once].
      all: apply elem_of_flat_map; exists 1; rewrite elem_of_range; split; [lia|set_solver].
  - apply rtc_once, list_elem_of_fmap. exists (n - 1). rewrite elem_of_range. split; [done|lia].
  - apply deep_chain_route. intros Hnil.
    pose proof (length_order options n Hn) as Hl. rewrite Hnil in Hl. cbn in Hl. lia.
  - apply tree_route; [|cbn; lia]. intros j Hj. apply list_elem_of_fmap. exists j.
    by rewrite elem_of_range.
  - destruct (n <? 4) eqn:E; [apply chain_route; [cbn; lia|done]|].
    apply circulant_route; [lia|apply Hmesh; lia].
Qed.
End Routes.

(** ** The topology of a fabric *)

Lemma normalized_bounds requested :
  0 <= requested <= 2147483648 → 2 <= NormalizeNodeCount requested <= 2147483648.
Proof. unfold NormalizeNodeCount. intros H. destruct (requested <? 2) eqn:E; lia. Qed.

(** The topology the family drafts, before any ceiling is looked at. *)
Definition drafted (options : SyntheticOptions) : Topology :=
  let n := NormalizeNodeCount (so_nodes options) in
  let d := family_draft options n in
  with_drafts
    (MkTopology n (fm_source d) (fm_destination d) (fm_uniform_cost d) [] (replicate (Z.to_nat n) 0))
    (fm_edges d).

Definition fits_ceilings (limits : ResourceLimits) (t : Topology) : Prop :=
  tp_node_count t <= max_nodes limits ∧
  Z.of_nat (length (tp_edges t)) <= max_edges limits ∧
  Forall (λ degree, degree <= max_ports_per_node limits) (tp_degree t).

Section DraftedTopology.
Context (options : SyntheticOptions) (Hrange : options_in_range options).

Let n := NormalizeNodeCount (so_nodes options).
Let d := family_draft options n.
Let empty := MkTopology n (fm_source d) (fm_destination d) (fm_uniform_cost d) []
               (replicate (Z.to_nat n) 0).

Lemma node_count_bounds : 2 <= n <= 2147483648.
Proof. apply normalized_bounds, Hrange. Qed.

Lemma drafted_wf : draft_wf n d.
Proof. apply family_draft_wf; [apply node_count_bounds|apply Hrange]. Qed.

Lemma drafted_edges : tp_edges (drafted options) = fm_edges d.
Proof. reflexivity. Qed.

Lemma drafted_ok : Forall (draft_ok (Z.of_nat (length (replicate (Z.to_nat n) 0)))) (fm_edges d).
Proof.
  pose proof node_count_bounds. rewrite length_replicate, Z2Nat.id by lia.
  apply Forall_forall, drafted_wf.
Qed.

Lemma length_drafted_degree : length (tp_degree (drafted options)) = Z.to_nat n.
Proof.
  cbn [drafted with_drafts tp_degree]. fold n d.
  assert (∀ l degree, length (fold_left (λ degree e, bump_degree (bump_degree degree (dr_from e)) (dr_to e)) l degree) =
                      length degree) as H.
  { induction l as [|e l IH]; intros degree; [done|]. cbn [fold_left]. by rewrite IH, !length_bump. }
  rewrite H. apply length_replicate.
Qed.

Lemma drafted_degree i :
  0 <= i < n → at_index 0 (tp_degree (drafted options)) i = incidence (fm_edges d) i.
Proof.
  intros Hi. cbn [drafted with_drafts tp_degree]. fold n d.
  rewrite (degree_of_drafts _ _ _ drafted_ok) by lia.
  unfold at_index. by rewrite nth_replicate.
Qed.

Lemma drafted_fits limits :
  0 <= max_ports_per_node limits →
  n <= max_nodes limits →
  within_ceilings limits empty (fm_edges d) ↔ fits_ceilings limits (drafted options).
Proof.
  intros Hports Hn. pose proof node_count_bounds as Hb.
  unfold within_ceilings, fits_ceilings. rewrite drafted_edges. cbn [empty tp_edges app tp_degree].
  assert (∀ i, at_index 0 (replicate (Z.to_nat n) 0) i = 0) as H0.
  { intros i. unfold at_index. by rewrite nth_replicate. }
  rewrite Forall_forall. split.
  - intros [H1 H2]. split; [done|]. split; [done|].
    intros k (j & Hj)%list_elem_of_lookup.
    assert (j < Z.to_nat n)%nat as Hjn by (rewrite <-length_drafted_degree; by eapply lookup_lt_Some).
    assert (k = incidence (fm_edges d) (Z.of_nat j)) as ->.
    { rewrite <-drafted_degree by lia. unfold at_index.
      by rewrite nth_lookup, Nat2Z.id, Hj. }
    specialize (H2 (Z.of_nat j)). rewrite H0 in H2.
    destruct (decide (0 < incidence (fm_edges d) (Z.of_nat j))); [|lia].
    specialize (H2 l). lia.
  - intros (_ & H1 & H2). split; [done|]. intros i Hi. rewrite H0.
    assert (0 <= i < n) as Hin.
    { pose proof drafted_ok as Hok. rewrite length_replicate, Z2Nat.id in Hok by lia.
      clear -Hok Hi. induction Hok as [|e l (Hx & Hy & _) _ IH]; [done|].
      rewrite incidence_cons in Hi. unfold ends_at in Hi. repeat case_decide; subst; try done.
      apply IH. lia. }
    rewrite <-drafted_degree by done. apply H2. unfold at_index.
    apply list_elem_of_lookup. exists (Z.to_nat i).
    rewrite nth_lookup.
    destruct (lookup_lt_is_Some_2 (tp_degree (drafted options)) (Z.to_nat i)) as [k ->]; [|done].
    rewrite length_drafted_degree. lia.
Qed.

Lemma BuildTopology_exact :
  0 <= max_edges (so_limits options) → 0 <= max_ports_per_node (so_limits options) →
  (fits_ceilings (so_limits options) (drafted options) ∧
   BuildTopology options = inr (drafted options)) ∨
  (¬ fits_ceilings (so_limits options) (drafted options) ∧
   ∃ failure, BuildTopology options = inl failure).
Proof.
  intros He Hp. unfold BuildTopology. fold n. fold d.
  destruct (n >? max_nodes (so_limits options)) eqn:E.
  { right. split; [intros [H _]; cbn in H; fold n in H; lia|by eexists]. }
  rewrite <-drafted_fits by lia.
  destruct (push_edges_exact (so_limits options) (fm_edges d) empty) as [[H1 H2]|[H1 H2]].
  - exact drafted_ok.
  - done.
  - left. done.
  - right. done.
Qed.
End DraftedTopology.

(** C32: a topology is drafted whole or refused. Drafting succeeds exactly when the number
    of nodes, the number of edges and every node's number of links are within the
    configured ceilings, and then it gives the draft of the family: edges between distinct
    nodes in range, degrees that count them, distinct source and destination, and a
    directed route from the one to the other for every family but DISCONNECTED, for which
    there is none. *)
Theorem topology_exact (options : SyntheticOptions) (t : Topology) :
  options_in_range options →
  0 <= max_edges (so_limits options) → 0 <= max_ports_per_node (so_limits options) →
  (BuildTopology options = inr t ↔ t = drafted options ∧ fits_ceilings (so_limits options) t) ∧
  (BuildTopology options = inr t →
   tp_node_count t = NormalizeNodeCount (so_nodes options) ∧
   (∀ e, e ∈ tp_edges t → draft_ok (tp_node_count t) e) ∧
   (∀ i, 0 <= i < tp_node_count t → at_index 0 (tp_degree t) i = incidence (tp_edges t) i) ∧
   0 <= tp_source t < tp_node_count t ∧ 0 <= tp_destination t < tp_node_count t ∧
   tp_source t ≠ tp_destination t ∧
   (rtc (linked (tp_edges t)) (tp_source t) (tp_destination t) ↔
    so_family options ≠ SyntheticFamily.kDisconnected)).
Proof.
  intros Hr He Hp. pose proof (BuildTopology_exact options Hr He Hp) as Hexact.
  assert (BuildTopology options = inr t ↔ t = drafted options ∧ fits_ceilings (so_limits options) t)
    as Hiff.
  { destruct Hexact as [[Hf ->]|[Hf [failure ->]]].
    - split; [intros [= <-]; done|by intros [-> _]].
    - split; [done|]. intros [-> H]. done. }
  split; [exact Hiff|]. intros [-> _]%Hiff.
  pose proof (drafted_wf options Hr) as [H1 H2 H3 H4].
  split; [done|]. split; [exact H4|]. split; [by apply drafted_degree|].
  split; [exact H1|]. split; [exact H2|]. split; [exact H3|].
  apply family_route; [by apply node_count_bounds|apply Hr].
Qed.

(** ** What sources.hpp says of the families *)

(** The next node in index order. *)
Definition successor (n i j : Z) : Prop := 0 <= i ∧ j = i + 1 ∧ j < n.

(** Links to the next [reach] nodes around the circle. *)
Definition around (n reach i j : Z) : Prop :=
  0 <= i < n ∧ ∃ step, 1 <= step <= reach ∧ j = (i + step) mod n.

(** The tier of a node of FAT_TREE: leaves, aggregates, spines and, from four layers on,
    cores. *)
Definition clos_tier (n layers x : Z) : Z :=
  let quarter := n / 4 in
  if x <? quarter then 0 else if x <? 2 * quarter then 1
  else if (layers <? 4) || (x <? 3 * quarter) then 2 else 3.

(** Where component [k] of DISCONNECTED starts, of [count] components as equal as they
    can be, the longer ones first. *)
Definition block_start (n count k : Z) : Z := k * (n / count) + Z.min k (n mod count).
Definition block_count (n : Z) : Z := Z.min n (Z.max 2 (n / 4)).

(** There is a link from [i] to [j] in the family, of [n] nodes; DEEP_CHAIN is described
    apart, by its order. *)
Definition family_link (family : SyntheticFamily.t) (layers extra n i j : Z) : Prop :=
  let small_or (link : Prop) := (n < 4 ∧ successor n i j) ∨ (4 <= n ∧ link) in
  match family with
  | SyntheticFamily.kChain | SyntheticFamily.kOneWay => successor n i j
  | SyntheticFamily.kRing => 0 <= i < n ∧ j = (i + 1) mod n
  | SyntheticFamily.kDiamond =>
      let split := 1 + (n - 1) / 2 in
      small_or ((i = 0 ∧ (j = 1 ∨ j = split)) ∨ (1 <= i ∧ j = i + 1 ∧ j < n - 1 ∧ j ≠ split) ∨
                ((i = split - 1 ∨ i = n - 2) ∧ j = n - 1))
  | SyntheticFamily.kLeafSpine =>
      let leaves := n - Z.max 1 (n / Z.min (Z.max layers 2) 8) in
      0 <= i < leaves ∧ leaves <= j < n
  | SyntheticFamily.kFatTree =>
      small_or (0 <= i < n ∧ 0 <= j < n ∧ clos_tier n layers j = clos_tier n layers i + 1)
  | SyntheticFamily.kMesh => small_or (around n (Z.min (2 + extra) ((n - 1) / 2)) i j)
  | SyntheticFamily.kDenseBounded => small_or (around n (Z.min (8 + extra) ((n - 1) / 2)) i j)
  | SyntheticFamily.kDisconnected =>
      successor n i j ∧ ¬ ∃ k, 0 <= k < block_count n ∧ j = block_start n (block_count n) k
  | SyntheticFamily.kParallelEqualCost => successor n i j
  | SyntheticFamily.kTieStorm =>
      (n = 2 ∧ i = 0 ∧ j = 1) ∨ (i = 0 ∧ 0 < j < n - 1) ∨ (0 < i < n - 1 ∧ j = n - 1)
  | SyntheticFamily.kHighDegreeHub => i = 0 ∧ 0 < j < n
  | SyntheticFamily.kDeepChain => False
  | SyntheticFamily.kSparseLarge => 0 < j < n ∧ i = (j - 1) / 2
  end.

(** The reported destination; the source is node 0. *)
Definition family_destination (family : SyntheticFamily.t) (layers n : Z) : Z :=
  match family with
  | SyntheticFamily.kRing => n / 2
  | SyntheticFamily.kMesh | SyntheticFamily.kDenseBounded => n / 2
  | SyntheticFamily.kLeafSpine => n - Z.max 1 (n / Z.min (Z.max layers 2) 8)
  | SyntheticFamily.kDisconnected => block_start n (block_count n) 1
  | _ => n - 1
  end.

(** The edges of a topology against the description of its family: which links there are,
    how often each is drafted, the reported ends, and whether all cost the same. *)
Definition as_documented (options : SyntheticOptions) (t : Topology) : Prop :=
  let n := tp_node_count t in
  let edges := tp_edges t in
  let family := so_family options in
  (tp_uniform_cost t = true ↔
     family = SyntheticFamily.kParallelEqualCost ∨ family = SyntheticFamily.kTieStorm) ∧
  (family = SyntheticFamily.kDeepChain →
     ∃ order, NoDup order ∧ (∀ x, x ∈ order ↔ 0 <= x < n) ∧ NoDup edges ∧
       head order = Some (tp_source t) ∧ last order = Some (tp_destination t) ∧
       ∀ i j, linked edges i j ↔ ∃ k, order !! k = Some i ∧ order !! S k = Some j) ∧
  (family ≠ SyntheticFamily.kDeepChain →
     tp_source t = 0 ∧ tp_destination t = family_destination family (so_layers options) n ∧
     ∀ i j, linked edges i j ↔ family_link family (so_layers options) (so_extra_edges options) n i j) ∧
  (family ≠ SyntheticFamily.kParallelEqualCost → NoDup edges) ∧
  (family = SyntheticFamily.kParallelEqualCost →
     ∃ copies rest, copies = (if n =? 2 then 2 else Z.min 8 (Z.max 2 (n / 4))) ∧
       edges = replicate (Z.to_nat copies) (MkDraft 0 1) ++ rest ∧
       MkDraft 0 1 ∉ rest ∧ NoDup rest).

(** What the descriptions say beyond the links, which follows from them: no way back in a
    ONE_WAY chain, no link twice between a pair in either direction of the circulants, no
    route between the components, the degree of the hub, the size of the tree, and one
    way out of every node of a ring. *)
Definition family_promise (family : SyntheticFamily.t) (t : Topology) : Prop :=
  let n := tp_node_count t in
  let edges := tp_edges t in
  match family with
  | SyntheticFamily.kRing => ∀ i j j', linked edges i j → linked edges i j' → j = j'
  | SyntheticFamily.kOneWay => ∀ i j, linked edges i j → ¬ rtc (linked edges) j i
  | SyntheticFamily.kMesh | SyntheticFamily.kDenseBounded => ∀ i j, linked edges i j → ¬ linked edges j i
  | SyntheticFamily.kDisconnected => ¬ rtc (linked edges) (tp_source t) (tp_destination t)
  | SyntheticFamily.kHighDegreeHub => incidence edges 0 = n - 1
  | SyntheticFamily.kSparseLarge =>
      Z.of_nat (length edges) = n - 1 ∧ ∀ i, 0 <= i < n → rtc (linked edges) (tp_source t) i
  | _ => True
  end.

Lemma NoDup_from (edges : list EdgeDraft) : NoDup (map dr_from edges) → NoDup edges.
Proof. apply NoDup_fmap_1. Qed.
Lemma NoDup_to (edges : list EdgeDraft) : NoDup (map dr_to edges) → NoDup edges.
Proof. apply NoDup_fmap_1. Qed.

Lemma NoDup_chain a b : NoDup (chain_edges a b).
Proof. apply NoDup_fmap_2; [by intros x y [= ->]|apply NoDup_range]. Qed.

Lemma NoDup_flat_map {A B} (f : A → list B) l :
  NoDup l → (∀ x, x ∈ l → NoDup (f x)) →
  (∀ x1 x2 y, x1 ∈ l → x2 ∈ l → y ∈ f x1 → y ∈ f x2 → x1 = x2) → NoDup (flat_map f l).
Proof.
  intros Hl Hf Hd. change (@flat_map A B) with (@mbind list _ A B). by apply NoDup_bind.
Qed.

Lemma NoDup_bipartite base size next_base next_size : NoDup (bipartite base size next_base next_size).
Proof.
  apply NoDup_flat_map; [apply NoDup_range| |].
  - intros i _. apply NoDup_fmap_2; [intros ? ? [= ?]; lia|apply NoDup_range].
  - intros i1 i2 e _ _ (j1 & -> & _)%list_elem_of_fmap (j2 & Heq & _)%list_elem_of_fmap.
    injection Heq as Heq _. lia.
Qed.

Lemma NoDup_app_from (l1 l2 : list EdgeDraft) bound :
  NoDup l1 → NoDup l2 → (∀ e, e ∈ l1 → dr_from e < bound) → (∀ e, e ∈ l2 → bound <= dr_from e) →
  NoDup (l1 ++ l2).
Proof.
  intros H1 H2 Hlt Hge. apply NoDup_app. split; [exact H1|]. split; [|exact H2].
  intros e He1 He2. apply Hlt in He1. apply Hge in He2. lia.
Qed.

(** Every node lies in one component. *)
Lemma block_start_succ n count k :
  0 <= k → block_start n count (k + 1) =
  block_start n count k + (n / count + if k <? n mod count then 1 else 0).
Proof. intros Hk. unfold block_start. destruct (k <? n mod count) eqn:E; lia. Qed.

Lemma elem_of_component_layout count c start base remainder s size :
  0 <= c →
  (s, size) ∈ component_layout count c start base remainder ↔
  ∃ k, c <= k < c + Z.of_nat count ∧
    s = start + (k - c) * base + (Z.min k remainder - Z.min c remainder) ∧
    size = base + (if k <? remainder then 1 else 0).
Proof.
  revert c start. induction count as [|count IH]; intros c start Hc; cbn [component_layout].
  { split; [by intros ?%elem_of_nil|]. intros (k & Hk & _). lia. }
  rewrite elem_of_cons, IH by lia. split.
  - intros [[= -> ->]|(k & Hk & -> & ->)].
    + exists c. split; [lia|]. split; [lia|done].
    + exists k. split; [lia|]. split; [|done]. destruct (c <? remainder) eqn:E; lia.
  - intros (k & Hk & -> & ->). destruct (decide (k = c)) as [->|Hne]; [left|right].
    + f_equal. lia.
    + exists k. split; [lia|]. split; [|done]. destruct (c <? remainder) eqn:E; lia.
Qed.

Lemma block_of n count (m : nat) x :
  0 <= x < block_start n count (Z.of_nat m) → 
  ∃ k, 0 <= k < Z.of_nat m ∧ block_start n count k <= x < block_start n count (k + 1).
Proof.
  induction m as [|m IH]; intros Hx.
  { unfold block_start in Hx. pose proof (Z.min_l 0 (n mod count)). lia. }
  destruct (decide (x < block_start n count (Z.of_nat m))) as [Hlt|Hge].
  - destruct IH as (k & Hk & Hb); [lia|]. exists k. split; [lia|exact Hb].
  - exists (Z.of_nat m). split; [lia|]. replace (Z.of_nat m + 1) with (Z.of_nat (S m)) by lia. lia.
Qed.

Section Documented.
Context (n : Z) (Hn : 2 <= n <= 2147483648).

Lemma circulant_simple distance :
  0 <= distance <= (n - 1) / 2 →
  NoDup (circulant n distance) ∧
  ∀ i j, linked (circulant n distance) i j → ¬ linked (circulant n distance) j i.
Proof.
  intros Hd. assert (2 * ((n - 1) / 2) <= n - 1) as Hhalf by (apply Z.mul_div_le; lia). split.
  - unfold circulant. change (@flat_map Z EdgeDraft) with (@mbind list _ Z EdgeDraft). apply NoDup_bind.
    + intros x1 x2 y _ _ (s1 & -> & _)%list_elem_of_fmap (s2 & Heq & _)%list_elem_of_fmap. congruence.
    + intros i Hi%elem_of_range. apply NoDup_fmap_2_strong; [|apply NoDup_range].
      intros s1 s2 H1%elem_of_range H2%elem_of_range [= Heq].
      rewrite !(wrap_step n Hn), !step_mod in Heq by lia.
      destruct (i + s1 <? n) eqn:E1, (i + s2 <? n) eqn:E2; lia.
    + apply NoDup_range.
  - intros i j (Hi & s1 & H1 & Hj)%elem_of_circulant (Hj' & s2 & H2 & Hi')%elem_of_circulant.
    cbn in *. rewrite !(wrap_step n Hn), step_mod in Hj, Hi' by lia.
    destruct (i + s1 <? n) eqn:E1, (j + s2 <? n) eqn:E2; lia.
Qed.

Lemma chain_simple :
  NoDup (chain_edges 0 n) ∧ ∀ i j, linked (chain_edges 0 n) i j → ¬ linked (chain_edges 0 n) j i.
Proof.
  split.
  - apply NoDup_fmap_2; [by intros x y [= ->]|apply NoDup_range].
  - intros i j [_ H1]%elem_of_chain [_ H2]%elem_of_chain. cbn in *. lia.
Qed.

Lemma chain_one_way i j : linked (chain_edges 0 n) i j → ¬ rtc (linked (chain_edges 0 n)) j i.
Proof.
  intros [_ H1]%elem_of_chain Hr. cbn in H1.
  assert (∀ x y, rtc (linked (chain_edges 0 n)) x y → x <= y) as Hle.
  { induction 1 as [|x z y [_ Hz]%elem_of_chain _ IH]; cbn in *; lia. }
  apply Hle in Hr. lia.
Qed.

Lemma fat_tree_edges leaves spines cores i j :
  let tier x := if x <? leaves then 0 else if x <? leaves + leaves then 1
                else if x <? leaves + leaves + spines then 2 else 3 in
  1 <= leaves → 1 <= spines → 0 <= cores → leaves + leaves + spines + cores = n →
  linked (bipartite 0 leaves leaves leaves ++ bipartite leaves leaves (leaves + leaves) spines ++
          bipartite (leaves + leaves) spines (leaves + leaves + spines) cores) i j ↔
  0 <= i < n ∧ 0 <= j < n ∧ tier j = tier i + 1.
Proof.
  intros tier H1 H2 H3 H4. unfold linked. rewrite !elem_of_app, !elem_of_bipartite. cbn [dr_from dr_to].
  subst tier. cbv beta.
  destruct (i <? leaves) eqn:I1, (i <? leaves + leaves) eqn:I2,
    (i <? leaves + leaves + spines) eqn:I3, (j <? leaves) eqn:J1, (j <? leaves + leaves) eqn:J2,
    (j <? leaves + leaves + spines) eqn:J3; try lia.
Qed.

Lemma hub_incidence k :
  0 <= k → incidence (map (MkDraft 0) (range 1 (1 + k))) 0 = k.
Proof.
  intros Hk. replace k with (Z.of_nat (Z.to_nat k)) by lia. generalize (Z.to_nat k) as m.
  assert (∀ m a, 1 <= a → incidence (map (MkDraft 0) (range a (a + Z.of_nat m))) 0 = Z.of_nat m) as H.
  { induction m as [|m IH]; intros a Ha; [by rewrite range_empty by lia|].
    rewrite range_cons by lia. cbn [map]. rewrite incidence_cons.
    replace (a + Z.of_nat (S m)) with (a + 1 + Z.of_nat m) by lia. rewrite IH by lia.
    unfold ends_at. cbn [dr_from dr_to]. rewrite decide_True, decide_False by lia. lia. }
  intros m. by apply H.
Qed.
(** *** The links *)

Lemma linked_chain i j : linked (chain_edges 0 n) i j ↔ successor n i j.
Proof. unfold linked, successor. rewrite elem_of_chain. cbn. lia. Qed.

Lemma linked_ring i j :
  linked (fm_edges (ring_draft n)) i j ↔ 0 <= i < n ∧ j = (i + 1) mod n.
Proof.
  unfold linked, ring_draft. cbn [fm_edges]. rewrite list_elem_of_fmap. setoid_rewrite elem_of_range.
  assert (∀ x, 0 <= x < n → (x + 1) mod n = if x + 1 =? n then 0 else x + 1) as Hmod.
  { intros x Hx. destruct (x + 1 =? n) eqn:E; [replace (x + 1) with n by lia; apply Z.mod_same; lia|].
    apply Z.mod_small. lia. }
  split.
  - intros (x & [= -> ->] & Hx). split; [done|]. by rewrite Hmod.
  - intros [Hi ->]. exists i. by rewrite Hmod.
Qed.

Lemma linked_diamond i j :
  4 <= n → let split := 1 + (n - 1) / 2 in
  linked (diamond_route n 1 split ++ diamond_route n split (n - 1)) i j ↔
  (i = 0 ∧ (j = 1 ∨ j = split)) ∨ (1 <= i ∧ j = i + 1 ∧ j < n - 1 ∧ j ≠ split) ∨
  ((i = split - 1 ∨ i = n - 2) ∧ j = n - 1).
Proof.
  intros H4 split. assert (1 < split < n - 1) as Hs.
  { pose proof (diamond_split n H4) as Hs. cbv zeta in Hs.
    replace (n - 2 + 1) with (n - 1) in Hs by lia. exact Hs. }
  clearbody split. unfold linked.
  rewrite elem_of_app, !elem_of_diamond_route, !elem_of_chain by lia. cbn [dr_from dr_to].
  split.
  - intros [[[= -> ->]|[?|[= -> ->]]]|[[= -> ->]|[?|[= -> ->]]]]; lia.
  - intros [[-> [-> | ->]]|[(H1 & H2 & H3 & H5)|[[-> | ->] ->]]].
    + left. by left.
    + right. by left.
    + destruct (decide (j < split)); [left|right]; right; left; lia.
    + left. right. by right.
    + right. right. right. f_equal. lia.
Qed.

Lemma linked_leaf_spine i j layers :
  linked (fm_edges (leaf_spine_draft n layers)) i j ↔
  0 <= i < n - Z.max 1 (n / Z.min (Z.max layers 2) 8) ∧
  n - Z.max 1 (n / Z.min (Z.max layers 2) 8) <= j < n.
Proof.
  unfold linked, leaf_spine_draft, clamp. cbn [fm_edges]. rewrite elem_of_bipartite. cbn [dr_from dr_to]. lia.
Qed.

Lemma linked_fat_tree i j layers :
  4 <= n →
  linked (fm_edges (fat_tree_draft n layers)) i j ↔
  0 <= i < n ∧ 0 <= j < n ∧ clos_tier n layers j = clos_tier n layers i + 1.
Proof.
  intros H4. unfold fat_tree_draft. rewrite (proj2 (Z.ltb_ge n 4)) by lia. cbv zeta. cbn [fm_edges].
  pose proof (fat_tree_tiers n (layers >=? 4) H4) as Hfat. cbv zeta in Hfat.
  assert (1 <= n / 4) as Hq by (apply Z.div_le_lower_bound; lia).
  assert (4 * (n / 4) <= n) as Hq4 by (apply Z.mul_div_le; lia).
  rewrite Z.max_r in * by lia. unfold clos_tier. cbv zeta. remember (n / 4) as q eqn:E. clear E.
  destruct (layers >=? 4) eqn:E; rewrite fat_tree_edges by lia.
  - replace (layers <? 4) with false by lia. cbn [orb]. cbv zeta.
    replace (q + q) with (2 * q) by lia. replace (2 * q + q) with (3 * q) by lia. done.
  - replace (layers <? 4) with true by lia. cbn [orb]. cbv zeta.
    replace (q + q) with (2 * q) by lia. replace (2 * q + (n - q - q)) with n by lia.
    split; intros (Hi & Hj & Ht); (split; [done|]); (split; [done|]); revert Ht;
      rewrite (proj2 (Z.ltb_lt i n)), (proj2 (Z.ltb_lt j n)) by lia; done.
Qed.

Lemma linked_circulant i j distance :
  0 <= distance <= (n - 1) / 2 → linked (circulant n distance) i j ↔ around n distance i j.
Proof.
  intros Hd. assert (2 * ((n - 1) / 2) <= n - 1) by (apply Z.mul_div_le; lia).
  unfold linked, around. rewrite elem_of_circulant. cbn [dr_from dr_to].
  split; intros [Hi (s & Hs & ->)]; (split; [done|]); exists s; (split; [done|]);
    by rewrite (wrap_step n Hn) by lia.
Qed.

Lemma linked_circulant_draft i j k extra :
  1 <= k → 0 <= extra →
  linked (fm_edges (circulant_draft n (k + extra))) i j ↔
  (n < 4 ∧ successor n i j) ∨ (4 <= n ∧ around n (Z.min (k + extra) ((n - 1) / 2)) i j).
Proof.
  intros Hk He. unfold circulant_draft. destruct (n <? 4) eqn:E; cbn [fm_edges chain_draft].
  - rewrite linked_chain. split; [intros H; left; split; [lia|done]|intros [[_ H]|[H _]]; [done|lia]].
  - pose proof (mesh_distance n k extra Hk He ltac:(lia)). rewrite linked_circulant by lia.
    split; [intros H1; right; split; [lia|done]|intros [[H1 _]|[_ H1]]; [lia|done]].
Qed.

Lemma block_bounds :
  2 <= block_count n <= n ∧ 1 <= n / block_count n ∧ 0 <= n mod block_count n < block_count n ∧
  block_start n (block_count n) (block_count n) = n.
Proof.
  pose proof (component_bounds n Hn) as (Hc & Hb & Heq & Hm). cbv zeta in *.
  unfold block_count, block_start. remember (Z.min n _) as c eqn:E. clear E. lia.
Qed.

Lemma elem_of_blocks s size :
  let c := block_count n in
  (s, size) ∈ component_layout (Z.to_nat c) 0 0 (n / c) (n mod c) ↔
  ∃ k, 0 <= k < c ∧ s = block_start n c k ∧ s + size = block_start n c (k + 1).
Proof.
  intros c. pose proof block_bounds as (Hc & Hb & Hm & _). fold c in Hc, Hb, Hm.
  rewrite elem_of_component_layout by lia. unfold block_start. split.
  - intros (k & Hk & -> & ->). exists k. split; [lia|]. destruct (k <? n mod c) eqn:E; lia.
  - intros (k & Hk & -> & Hs). exists k. split; [lia|]. destruct (k <? n mod c) eqn:E; lia.
Qed.

Lemma block_start_mono k1 k2 :
  0 <= k1 <= k2 → block_start n (block_count n) k1 <= block_start n (block_count n) k2.
Proof.
  intros Hk. pose proof block_bounds as (_ & Hb & _ & _). unfold block_start.
  assert (k1 * (n / block_count n) <= k2 * (n / block_count n)) by (apply Z.mul_le_mono_nonneg_r; lia). lia.
Qed.

Lemma linked_disconnected i j :
  linked (fm_edges (disconnected_draft n)) i j ↔
  successor n i j ∧ ¬ ∃ k, 0 <= k < block_count n ∧ j = block_start n (block_count n) k.
Proof.
  pose proof block_bounds as (Hc & Hb & Hm & Hend).
  unfold linked, disconnected_draft. cbv zeta. fold (block_count n). cbn [fm_edges].
  rewrite elem_of_flat_map. split.
  - intros ([s size] & (k & Hk & -> & Hsz)%elem_of_blocks & Hin%elem_of_chain). cbn in Hin.
    pose proof (block_start_mono 0 k ltac:(lia)) as H0.
    assert (block_start n (block_count n) 0 = 0) as Hz by (unfold block_start; lia).
    pose proof (block_start_mono (k + 1) (block_count n) ltac:(lia)) as H1.
    split; [unfold successor; lia|]. intros (m & Hm' & ->).
    destruct (decide (m <= k)).
    + pose proof (block_start_mono m k ltac:(lia)). lia.
    + pose proof (block_start_mono (k + 1) m ltac:(lia)). lia.
  - intros [(Hi & -> & Hj) Hno].
    destruct (block_of n (block_count n) (Z.to_nat (block_count n)) i) as (k & Hk & Hlo & Hhi).
    { rewrite Z2Nat.id, Hend by lia. lia. }
    rewrite Z2Nat.id in Hk by lia.
    exists (block_start n (block_count n) k,
            block_start n (block_count n) (k + 1) - block_start n (block_count n) k).
    split; [apply elem_of_blocks; exists k; split; [lia|split; [done|lia]]|].
    apply elem_of_chain. cbn. split; [|done]. split; [lia|].
    assert (i + 1 ≠ block_start n (block_count n) (k + 1)); [|lia].
    intros Heq. destruct (decide (k + 1 < block_count n)); [apply Hno; exists (k + 1); lia|].
    replace (k + 1) with (block_count n) in Heq by lia. lia.
Qed.

Lemma linked_tie_storm i j :
  linked (fm_edges (tie_storm_draft n)) i j ↔
  (n = 2 ∧ i = 0 ∧ j = 1) ∨ (i = 0 ∧ 0 < j < n - 1) ∨ (0 < i < n - 1 ∧ j = n - 1).
Proof.
  unfold linked, tie_storm_draft. destruct (n =? 2) eqn:E; cbn [fm_edges].
  - rewrite list_elem_of_singleton. split; [intros [= -> ->]; lia|].
    intros [(_ & -> & ->)|?]; [done|lia].
  - rewrite elem_of_flat_map. setoid_rewrite elem_of_range. split.
    + intros (m & Hm & [[= -> ->]|[= -> ->]%list_elem_of_singleton]%elem_of_cons); lia.
    + intros [?|[[-> Hj]|[Hi ->]]]; [lia|exists j|exists i]; (split; [lia|]).
      * left.
      * right. left.
Qed.

Lemma linked_hub i j : linked (fm_edges (hub_draft n)) i j ↔ i = 0 ∧ 0 < j < n.
Proof.
  unfold linked, hub_draft. cbn [fm_edges]. rewrite list_elem_of_fmap. setoid_rewrite elem_of_range.
  split; [intros (x & [= -> ->] & Hx); lia|]. intros [-> Hj]. exists j. split; [done|lia].
Qed.

Lemma linked_sparse i j : linked (fm_edges (sparse_draft n)) i j ↔ 0 < j < n ∧ i = (j - 1) / 2.
Proof.
  unfold linked, sparse_draft. cbn [fm_edges]. rewrite list_elem_of_fmap. setoid_rewrite elem_of_range.
  split; [intros (x & [= -> ->] & Hx); split; [lia|done]|]. intros [Hj ->]. exists j. split; [done|lia].
Qed.

Lemma linked_parallel i j : linked (fm_edges (parallel_draft n)) i j ↔ successor n i j.
Proof.
  unfold linked, parallel_draft. cbv zeta. cbn [fm_edges].
  rewrite elem_of_app, elem_of_replicate, elem_of_chain. unfold successor. cbn [dr_from dr_to]. split.
  - intros [[[= -> ->] _]|H]; lia.
  - intros H. destruct (decide (i = 0)) as [->|]; [left|right; lia].
    split; [f_equal; lia|]. destruct (n =? 2); lia.
Qed.

Lemma links_as_documented options i j :
  so_family options ≠ SyntheticFamily.kDeepChain → 0 <= so_extra_edges options →
  linked (fm_edges (family_draft options n)) i j ↔
  family_link (so_family options) (so_layers options) (so_extra_edges options) n i j.
Proof.
  intros Hd He. unfold family_draft. destruct (so_family options); cbv zeta; cbn [family_link];
    try done; try apply linked_chain; try (apply linked_circulant_draft; lia).
  - apply linked_ring.
  - unfold diamond_draft. destruct (n <? 4) eqn:E; cbn [chain_draft fm_edges].
    + rewrite linked_chain. split; [intros H; left; split; [lia|done]|intros [[_ H]|[H _]]; [done|lia]].
    + replace (n - 2 + 1) with (n - 1) by lia. rewrite linked_diamond by lia.
      split; [intros H; right; split; [lia|done]|intros [[H _]|[_ H]]; [lia|done]].
  - apply linked_leaf_spine.
  - destruct (decide (n < 4)) as [H4|H4].
    + unfold fat_tree_draft. rewrite (proj2 (Z.ltb_lt n 4)) by lia. cbn [chain_draft fm_edges].
      rewrite linked_chain. split; [intros H; left; split; [lia|done]|intros [[_ H]|[H _]]; [done|lia]].
    + rewrite linked_fat_tree by lia.
      split; [intros H; right; split; [lia|done]|intros [[H _]|[_ H]]; [lia|done]].
  - apply linked_disconnected.
  - apply linked_parallel.
  - apply linked_tie_storm.
  - apply linked_hub.
  - apply linked_sparse.
Qed.

(** *** Each link once *)

Lemma NoDup_diamond_route first last : 0 < first < last → NoDup (diamond_route n first last).
Proof.
  intros H. apply NoDup_from. unfold diamond_route.
  change (map dr_from) with (fmap (M:=list) dr_from).
  rewrite fmap_zip_with_l by (done || rewrite length_cons, length_app; cbn; lia).
  apply NoDup_cons. split; [|apply NoDup_range]. intros ?%elem_of_range. lia.
Qed.

Lemma NoDup_diamond split :
  1 < split < n - 1 → NoDup (diamond_route n 1 split ++ diamond_route n split (n - 1)).
Proof.
  intros Hs. apply NoDup_app.
  split; [apply NoDup_diamond_route; lia|]. split; [|apply NoDup_diamond_route; lia].
  intros e H1 H2. apply elem_of_diamond_route in H1, H2; [|lia..]. rewrite elem_of_chain in H1, H2.
  destruct H1 as [->|[H1| ->]], H2 as [H2|[H2|H2]]; cbn in *;
    try (injection H2 as H2); try (rewrite H2 in H1; cbn in H1); lia.
Qed.

Lemma NoDup_fat_tree layers : 4 <= n → NoDup (fm_edges (fat_tree_draft n layers)).
Proof.
  intros H4. unfold fat_tree_draft. rewrite (proj2 (Z.ltb_ge n 4)) by lia. cbv zeta. cbn [fm_edges].
  pose proof (fat_tree_tiers n (layers >=? 4) H4) as Hfat. cbv zeta in Hfat.
  remember (Z.max 1 (n / 4)) as leaves eqn:E. clear E.
  apply (NoDup_app_from _ _ leaves); [apply NoDup_bipartite| |..].
  - apply (NoDup_app_from _ _ (leaves + leaves)); [apply NoDup_bipartite..| |];
      intros e He%elem_of_bipartite; lia.
  - intros e He%elem_of_bipartite. lia.
  - intros e [He|He]%elem_of_app; apply elem_of_bipartite in He; lia.
Qed.

Lemma NoDup_components count c start base remainder :
  1 <= base → 0 <= remainder →
  NoDup (flat_map (λ c, chain_edges c.1 (c.1 + c.2)) (component_layout count c start base remainder)).
Proof.
  intros Hb Hr. revert c start. induction count as [|count IH]; intros c start; [constructor|].
  cbn [component_layout flat_map fst snd].
  apply (NoDup_app_from _ _ (start + (base + (if c <? remainder then 1 else 0))));
    [apply NoDup_chain|apply IH| |].
  - intros e He%elem_of_chain. lia.
  - intros e ([s size] & Hin & He%elem_of_chain)%elem_of_flat_map. cbn in He.
    apply component_layout_bounds in Hin; [|done|done]. lia.
Qed.

Lemma NoDup_tie_storm : NoDup (fm_edges (tie_storm_draft n)).
Proof.
  unfold tie_storm_draft. destruct (n =? 2); cbn [fm_edges]; [apply NoDup_singleton|].
  apply NoDup_flat_map; [apply NoDup_range| |].
  - intros m Hm%elem_of_range. apply NoDup_cons. split; [|apply NoDup_singleton].
    intros [= ? ?]%list_elem_of_singleton. lia.
  - intros m1 m2 e H1%elem_of_range H2%elem_of_range He1 He2.
    apply elem_of_cons in He1 as [->| ->%list_elem_of_singleton];
      apply elem_of_cons in He2 as [[=]|[=]%list_elem_of_singleton]; lia.
Qed.

Lemma NoDup_consecutive (l : list Z) : NoDup l → NoDup (zip_with MkDraft l (drop 1 l)).
Proof.
  rewrite !NoDup_alt. intros Hl a b e (x & y & -> & Hx & _)%lookup_zip_with_Some
    (x' & y' & [= <- <-] & Hx' & _)%lookup_zip_with_Some. by apply (Hl _ _ x).
Qed.

Lemma links_once options :
  so_family options ≠ SyntheticFamily.kParallelEqualCost → 0 <= so_extra_edges options →
  NoDup (fm_edges (family_draft options n)).
Proof.
  intros Hp He. pose proof (mesh_distance n) as Hmesh.
  unfold family_draft. destruct (so_family options); cbv zeta; try done;
    unfold circulant_draft, chain_draft; cbn [fm_edges].
  - apply NoDup_chain.
  - apply NoDup_from. unfold ring_draft. cbn [fm_edges]. rewrite map_map. cbn. rewrite map_id. apply NoDup_range.
  - unfold diamond_draft. destruct (n <? 4) eqn:E; [apply NoDup_chain|]. cbn [fm_edges].
    apply NoDup_diamond. apply (diamond_split n). lia.
  - apply NoDup_bipartite.
  - destruct (decide (n < 4)) as [H4|H4]; [|apply NoDup_fat_tree; lia].
    unfold fat_tree_draft. rewrite (proj2 (Z.ltb_lt n 4)) by lia. apply NoDup_chain.
  - destruct (n <? 4) eqn:E; cbn [fm_edges]; [apply NoDup_chain|].
    apply circulant_simple. specialize (Hmesh 2 (so_extra_edges options)). lia.
  - pose proof block_bounds as (_ & Hb & Hm & _). apply NoDup_components; [exact Hb|apply Hm].
  - apply NoDup_chain.
  - apply NoDup_tie_storm.
  - apply NoDup_fmap_2; [by intros ? ? [=]|apply NoDup_range].
  - apply NoDup_consecutive. by apply order_nodup.
  - apply NoDup_to. unfold sparse_draft. cbn [fm_edges]. rewrite map_map. cbn. rewrite map_id. apply NoDup_range.
  - destruct (n <? 4) eqn:E; cbn [fm_edges]; [apply NoDup_chain|].
    apply circulant_simple. specialize (Hmesh 8 (so_extra_edges options)). lia.
Qed.

(** *** The reported ends *)

Lemma ends_as_documented options :
  so_family options ≠ SyntheticFamily.kDeepChain →
  fm_source (family_draft options n) = 0 ∧
  fm_destination (family_draft options n) = family_destination (so_family options) (so_layers options) n.
Proof.
  intros Hd. unfold_families. destruct (so_family options); cbv zeta; try done.
  - by destruct (n <? 4).
  - by destruct (n <? 4).
  - by destruct (n <? 4).
  - split; [done|]. cbn [fm_destination family_destination]. fold (block_count n).
    pose proof block_bounds as (Hc & _ & Hm & _).
    replace (Z.to_nat (block_count n)) with (S (S (Z.to_nat (block_count n - 2)))) by lia.
    cbn [component_layout nth fst]. unfold block_start. destruct (0 <? n mod block_count n) eqn:E; lia.
  - by destruct (n =? 2).
  - by destruct (n <? 4).
Qed.

Lemma deep_chain_as_documented options :
  let d := deep_chain_draft n (so_seed options) in
  ∃ order, NoDup order ∧ (∀ x, x ∈ order ↔ 0 <= x < n) ∧ NoDup (fm_edges d) ∧
    head order = Some (fm_source d) ∧ last order = Some (fm_destination d) ∧
    ∀ i j, linked (fm_edges d) i j ↔ ∃ k, order !! k = Some i ∧ order !! S k = Some j.
Proof.
  intros d. exists (shuffled (so_seed options) n).
  pose proof (order_nodup options n Hn) as Hnd. pose proof (length_order options n Hn) as Hl.
  split; [exact Hnd|]. split; [apply (order_member options n Hn)|].
  split; [by apply NoDup_consecutive|]. unfold d, deep_chain_draft. cbn [fm_source fm_destination fm_edges].
  destruct (head (shuffled _ n)) as [x|] eqn:Hx;
    [|apply head_None in Hx; rewrite Hx in Hl; cbn in Hl; lia].
  destruct (last (shuffled _ n)) as [y|] eqn:Hy;
    [|apply last_None in Hy; rewrite Hy in Hl; cbn in Hl; lia].
  split; [done|]. split; [done|]. intros i j. apply elem_of_consecutive.
Qed.

Lemma parallel_as_documented :
  ∃ copies rest, copies = (if n =? 2 then 2 else Z.min 8 (Z.max 2 (n / 4))) ∧
    fm_edges (parallel_draft n) = replicate (Z.to_nat copies) (MkDraft 0 1) ++ rest ∧
    MkDraft 0 1 ∉ rest ∧ NoDup rest.
Proof.
  eexists _, (chain_edges 1 n). split; [reflexivity|]. split; [reflexivity|].
  split; [|apply NoDup_chain]. intros He%elem_of_chain. cbn in He. lia.
Qed.

(** *** What follows *)

Lemma sparse_promise :
  let edges := fm_edges (sparse_draft n) in
  Z.of_nat (length edges) = n - 1 ∧ ∀ i, 0 <= i < n → rtc (linked edges) 0 i.
Proof.
  cbv zeta. split.
  - unfold sparse_draft. cbn [fm_edges]. rewrite length_map, length_range. lia.
  - intros i Hi. apply (tree_route n Hn); [|exact Hi]. intros j Hj. apply linked_sparse. split; [lia|done].
Qed.

Lemma circulant_promise k extra i j :
  1 <= k → 0 <= extra → let edges := fm_edges (circulant_draft n (k + extra)) in
  linked edges i j → ¬ linked edges j i.
Proof.
  intros Hk He. unfold circulant_draft. destruct (n <? 4) eqn:E; cbn [fm_edges chain_draft].
  - apply chain_simple.
  - pose proof (mesh_distance n k extra Hk He ltac:(lia)). apply circulant_simple. lia.
Qed.
End Documented.

(** C33: every family is the graph sources.hpp describes. For each of the fourteen, at every
    size, the drafted links are exactly those of its description: the chains, the ring, the
    two disjoint routes of the diamond, all leaves to all spines, tier to next tier of the
    Clos, the steps around the circulants, a chain in each component, the copies of the
    first link, the alternatives of the tie storm, the spokes of the hub, the permutation
    of the deep chain, the binary tree. Each link is drafted once, but for the first link
    of PARALLEL_EQUAL_COST, and the reported ends are the described ones. *)
Theorem families_as_documented (options : SyntheticOptions) (t : Topology) :
  options_in_range options →
  0 <= max_edges (so_limits options) → 0 <= max_ports_per_node (so_limits options) →
  BuildTopology options = inr t →
  tp_node_count t = NormalizeNodeCount (so_nodes options) ∧
  as_documented options t ∧ family_promise (so_family options) t.
Proof.
  intros Hr He Hp Hb. pose proof (BuildTopology_exact options Hr He Hp) as [[_ Ht]|[_ [f Ht]]];
    rewrite Ht in Hb; [injection Hb as <-|done].
  pose proof (node_count_bounds options Hr) as Hn. destruct Hr as [_ Hextra].
  unfold drafted, with_drafts, as_documented, family_promise.
  cbn [tp_edges tp_node_count tp_uniform_cost tp_source tp_destination app].
  set (n := NormalizeNodeCount (so_nodes options)) in *. split; [done|]. split.
  - split; [|split; [|split; [|split]]].
    + unfold_families. destruct (so_family options); try destruct (n <? 4); try destruct (n =? 2);
        cbn; naive_solver congruence.
    + intros Hf. pose proof (deep_chain_as_documented n Hn options) as H. unfold family_draft. by rewrite Hf.
    + intros Hf. destruct (ends_as_documented n Hn options Hf) as [H1 H2].
      split; [exact H1|]. split; [exact H2|]. intros i j. by apply links_as_documented.
    + intros Hf. by apply links_once.
    + intros Hf. unfold family_draft. rewrite Hf. apply parallel_as_documented.
  - pose proof (family_route options n Hn Hextra) as Hroute.
    destruct (so_family options) eqn:Hf; try exact I.
    + intros i j j'. unfold family_draft. rewrite Hf, !linked_ring by done. lia.
    + intros i j. unfold family_draft. rewrite Hf. apply circulant_promise; lia.
    + intros H%Hroute. done.
    + unfold family_draft. rewrite Hf. apply chain_one_way.
    + unfold family_draft, hub_draft. rewrite Hf. cbn [fm_edges].
      replace n with (1 + (n - 1)) at 1 by lia. apply hub_incidence. lia.
    + unfold family_draft. rewrite Hf. by apply sparse_promise.
    + intros i j. unfold family_draft. rewrite Hf. apply circulant_promise; lia.
Qed.

(** ** Materialisation *)

#[local] Opaque IdFromLabel FabricLabel.

Lemma AddNode_true node b b' :
  AddNode node b = (true, b') →
  NoDup (n_ports node) ∧
  b' = with_nodes (b_nodes b ++ [with_ports (sort_ids (n_ports node)) node]) b.
Proof.
  unfold AddNode. repeat (case_match; [done|]). intros [= <-]. split; [|done].
  by apply has_adjacent_sort_ids.
Qed.

Lemma AddEdge_true edge b b' : AddEdge edge b = (true, b') → b' = with_edges (b_edges b ++ [edge]) b.
Proof. unfold AddEdge. repeat (case_match; [done|]). by intros [= <-]. Qed.

Lemma AddEndpoint_true ep b b' :
  AddEndpoint ep b = (true, b') → b' = with_endpoints (b_endpoints b ++ [ep]) b.
Proof. unfold AddEndpoint. repeat (case_match; [done|]). by intros [= <-]. Qed.

Definition sealed_node (node : NodeRecord) : NodeRecord := with_ports (sort_ids (n_ports node)) node.

Lemma add_nodes l b b' :
  add_all AddNode l b = inr b' →
  Forall (λ node, NoDup (n_ports node)) l ∧ b' = with_nodes (b_nodes b ++ map sealed_node l) b.
Proof.
  revert b. induction l as [|node l IH]; intros b; cbn [add_all].
  - intros [= <-]. split; [done|]. cbn. rewrite app_nil_r. by destruct b.
  - destruct (AddNode node b) as [[] b1] eqn:E; [|done]. apply AddNode_true in E as [Hnd ->].
    intros (Hl & ->)%IH. split; [by constructor|]. cbn. by rewrite <-app_assoc.
Qed.

Lemma add_endpoints l b b' :
  add_all AddEndpoint l b = inr b' → b' = with_endpoints (b_endpoints b ++ l) b.
Proof.
  revert b. induction l as [|ep l IH]; intros b; cbn [add_all].
  - intros [= <-]. rewrite app_nil_r. by destruct b.
  - destruct (AddEndpoint ep b) as [[] b1] eqn:E; [|done]. apply AddEndpoint_true in E as ->.
    intros ->%IH. cbn. by rewrite <-app_assoc.
Qed.

Lemma add_all_wf {R} (add : R → FabricSnapshotBuilder → bool * FabricSnapshotBuilder) l b b' :
  (∀ r b, builder_wf b → builder_wf (add r b).2) →
  builder_wf b → add_all add l b = inr b' → builder_wf b'.
Proof.
  intros Hadd. revert b. induction l as [|r l IH]; intros b Hb; cbn [add_all]; [by intros [= <-]|].
  specialize (Hadd r b Hb). destruct (add r b) as [[] b1]; [|done]. by apply IH.
Qed.

Section Drawn.
Context (options : SyntheticOptions) (t : Topology).

(** The records of the edges, apart from the builder. *)
Fixpoint draw_edges (drafts : list EdgeDraft) (s : EdgeLoop) : list EdgeRecord * EdgeLoop :=
  match drafts with
  | [] => ([], s)
  | e :: drafts =>
      let '(edge, s) := draw_edge options t e s in
      let '(edges, s) := draw_edges drafts s in (edge :: edges, s)
  end.

Lemma add_edges_drawn drafts s b s' b' :
  add_edges options t drafts s b = inr (s', b') →
  draw_edges drafts s = ((draw_edges drafts s).1, s') ∧
  b' = with_edges (b_edges b ++ (draw_edges drafts s).1) b.
Proof.
  revert s b. induction drafts as [|e drafts IH]; intros s b; cbn [add_edges draw_edges].
  - intros [= <- <-]. split; [done|]. cbn. rewrite app_nil_r. by destruct b.
  - destruct (draw_edge options t e s) as [edge s1].
    destruct (AddEdge edge b) as [[] b1] eqn:E; [|done]. apply AddEdge_true in E as ->.
    intros [Hd ->]%IH. destruct (draw_edges drafts s1) as [edges s2] eqn:Hd2. cbn in *.
    injection Hd as ->. split; [done|]. by rewrite <-app_assoc.
Qed.

Lemma add_edges_wf drafts s b s' b' :
  builder_wf b → add_edges options t drafts s b = inr (s', b') → builder_wf b'.
Proof.
  revert s b. induction drafts as [|e drafts IH]; intros s b Hb; cbn [add_edges]; [by intros [= _ <-]|].
  destruct (draw_edge options t e s) as [edge s1]. pose proof (AddEdge_wf edge b Hb) as H.
  destruct (AddEdge edge b) as [[] b1]; [|done]. by apply IH.
Qed.

(** The record drawn for a draft: its ends, and its ports by the number of links the
    ends had before. *)
Record drawn_for (used : list Z) (e : EdgeDraft) (r : EdgeRecord) : Prop := {
  dn_from : e_from r = fabric_node options (dr_from e);
  dn_to : e_to r = fabric_node options (dr_to e);
  dn_layer : e_layer r = so_layer options;
  dn_from_port : e_from_port r =
    at_index (nil_id PortIdTag) (node_ports options t (dr_from e)) (at_index 0 used (dr_from e));
  dn_to_port : e_to_port r =
    at_index (nil_id PortIdTag) (node_ports options t (dr_to e))
      (at_index 0 (bump_degree used (dr_from e)) (dr_to e))
}.

Lemma draw_edge_drawn e s :
  let '(r, s') := draw_edge options t e s in
  drawn_for (el_used_ports s) e r ∧
  el_used_ports s' = bump_degree (bump_degree (el_used_ports s) (dr_from e)) (dr_to e) ∧
  el_link_ids s' = el_link_ids s ++ [e_id r].
Proof. unfold draw_edge. repeat case_match; simplify_eq; (split; [by constructor|done]). Qed.

Lemma draw_edges_lookup drafts s k e r :
  drafts !! k = Some e → (draw_edges drafts s).1 !! k = Some r →
  drawn_for (fold_left (λ used e, bump_degree (bump_degree used (dr_from e)) (dr_to e)) (take k drafts)
               (el_used_ports s)) e r.
Proof.
  revert s k. induction drafts as [|x drafts IH]; intros s k; [done|]. cbn [draw_edges].
  pose proof (draw_edge_drawn x s) as H. destruct (draw_edge options t x s) as [r1 s1].
  destruct H as (H1 & H2 & _). specialize (IH s1).
  destruct (draw_edges drafts s1) as [edges s2]. cbn [fst] in *.
  destruct k as [|k]; cbn [lookup take fold_left].
  - by intros [= <-] [= <-].
  - intros He Hr. rewrite <-H2. by apply IH.
Qed.

Lemma length_draw_edges drafts s : length (draw_edges drafts s).1 = length drafts.
Proof.
  revert s. induction drafts as [|x drafts IH]; intros s; [done|]. cbn [draw_edges].
  destruct (draw_edge options t x s) as [r1 s1]. specialize (IH s1).
  destruct (draw_edges drafts s1). cbn in *. by rewrite IH.
Qed.
End Drawn.

(** The builder a fabric is built from. *)
Record materialised (options : SyntheticOptions) (t : Topology) (b : FabricSnapshotBuilder) : Prop := {
  ma_wf : builder_wf b;
  ma_source : b_source b = EvidenceSource.kSynthetic;
  ma_generations : b_generations b = first_generations;
  ma_limits : b_limits b = so_limits options;
  ma_nodes : b_nodes b = map sealed_node (map (fabric_node_record options t) (nodes t));
  ma_ports : ∀ i, i ∈ nodes t → NoDup (node_ports options t i);
  ma_edges : b_edges b = (draw_edges options t (tp_edges t) (start_edges options t)).1;
  ma_endpoints : b_endpoints b = map (fabric_endpoint_record options t) (nodes t);
  ma_complete : b_membership_complete b = so_membership_complete options
}.

(** The invariant does not look at the views. *)
Lemma views_wf b b' :
  b_limits b' = b_limits b → b_nodes b' = b_nodes b → b_edges b' = b_edges b →
  b_endpoints b' = b_endpoints b → builder_wf b → builder_wf b'.
Proof. intros H1 H2 H3 H4 []. by constructor; rewrite ?H1, ?H2, ?H3, ?H4. Qed.

Lemma materialise_inr options t b : materialise options t = inr b → materialised options t b.
Proof.
  unfold materialise. destruct (check_ceilings options t); [done|].
  destruct (add_all AddNode _ _) as [|b1] eqn:E1; [done|].
  destruct (add_edges _ _ _ _ b1) as [|[s b2]] eqn:E2; [done|].
  destruct (_ >? _); [done|]. cbv zeta. destruct (existsb _ _); [done|]. intros E3.
  assert (builder_wf b1) as W1.
  { eapply add_all_wf; [exact AddNode_wf| |exact E1].
    by apply (views_wf (new_builder (so_limits options))), new_builder_wf. }
  pose proof (add_edges_wf _ _ _ _ _ _ _ W1 E2) as W2.
  assert (builder_wf b) as W3.
  { eapply add_all_wf; [exact AddEndpoint_wf| |exact E3]. by apply (views_wf b2). }
  apply add_nodes in E1 as [Hports ->]. apply add_edges_drawn in E2 as [_ ->].
  apply add_endpoints in E3 as ->.
  split; try done.
  intros i Hi. rewrite Forall_map, Forall_forall in Hports. by apply (Hports i).
Qed.

Lemma plan_fabric_inr options t b :
  plan_fabric options = inr (t, b) → BuildTopology options = inr t ∧ materialised options t b.
Proof.
  unfold plan_fabric. destruct (ValidateLimits _); [done|].
  destruct (BuildTopology options) as [[code detail]|t'] eqn:E; [done|].
  destruct (materialise options t') as [|b'] eqn:Em; [done|].
  intros [= -> ->]. split; [done|]. by apply materialise_inr.
Qed.

(** A published fabric: the topology, the builder it was sealed from. *)
Lemma build_fabric_inr options t s :
  build_fabric options = inr (t, s) →
  ∃ b, BuildTopology options = inr t ∧ materialised options t b ∧ Buildable b ∧ s = built_snapshot b.
Proof.
  unfold build_fabric. destruct (plan_fabric options) as [|[t' b]] eqn:E; [done|].
  apply plan_fabric_inr in E as [Ht Hb]. destruct (Build b).1 as [|s'] eqn:Eb; [done|].
  intros [= <- <-]. exists b. apply Build_inr in Eb as [Hok ->]; [done|apply Hb].
Qed.

Lemma incidence_app l k i : incidence (l ++ k) i = incidence l i + incidence k i.
Proof. induction l as [|e l IH]; [done|]. cbn [app]. rewrite !incidence_cons, IH. lia. Qed.

Section Fabric.
Context (options : SyntheticOptions) (t : Topology) (b : FabricSnapshotBuilder).
Context (Hrange : options_in_range options).
Context (Hports : 0 <= max_ports_per_node (so_limits options) < u32_max).
Context (Hedges : 0 <= max_edges (so_limits options)).
Context (Ht : BuildTopology options = inr t) (Hb : materialised options t b) (Hok : Buildable b).

Let n := NormalizeNodeCount (so_nodes options).

Lemma fabric_topology : t = drafted options ∧ fits_ceilings (so_limits options) t.
Proof.
  destruct (BuildTopology_exact options Hrange Hedges (proj1 Hports)) as [[Hf H]|[_ [f H]]];
    rewrite H in Ht; [injection Ht as <-; done|done].
Qed.

Lemma fabric_nodes : nodes t = range 0 n.
Proof. by rewrite (proj1 fabric_topology). Qed.

Lemma elem_of_fabric_nodes i : i ∈ nodes t ↔ 0 <= i < n.
Proof. rewrite fabric_nodes. apply elem_of_range. Qed.

Lemma node_ids_distinct i j : i ∈ nodes t → j ∈ nodes t → fabric_node options i = fabric_node options j → i = j.
Proof.
  intros Hi Hj Heq. pose proof (bb_nodes b Hok) as Hnd. rewrite (ma_nodes _ _ _ Hb) in Hnd.
  rewrite !map_map in Hnd. apply list_elem_of_lookup in Hi as [k Hk], Hj as [l Hl].
  assert (k = l) as ->; [|congruence].
  apply (NoDup_lookup _ _ _ (fabric_node options i) Hnd); rewrite list_lookup_fmap, ?Hk, ?Hl; cbn; congruence.
Qed.

Lemma draft_in_range e : e ∈ tp_edges t → draft_ok n e.
Proof.
  rewrite (proj1 fabric_topology), drafted_edges. intros He.
  by apply (drafted_wf options Hrange).
Qed.

Lemma fabric_degree i : 0 <= i < n → at_index 0 (tp_degree t) i = incidence (tp_edges t) i.
Proof. intros Hi. rewrite (proj1 fabric_topology). by apply drafted_degree. Qed.

Lemma degree_bound i : 0 <= i < n → 0 <= at_index 0 (tp_degree t) i < u32_max.
Proof.
  intros Hi. rewrite fabric_degree by done. split; [apply incidence_nonneg|].
  rewrite <-fabric_degree by done.
  destruct fabric_topology as [Heq (_ & _ & Hf)]. rewrite Forall_forall in Hf.
  eapply Z.le_lt_trans; [|exact (proj2 Hports)]. apply Hf. unfold at_index.
  rewrite nth_lookup. apply list_elem_of_lookup. exists (Z.to_nat i).
  destruct (lookup_lt_is_Some_2 (tp_degree t) (Z.to_nat i)) as [k ->]; [|done].
  rewrite Heq. fold n. rewrite length_drafted_degree by done. fold n. lia.
Qed.

Lemma length_node_ports i :
  0 <= i < n → length (node_ports options t i) = S (Z.to_nat (at_index 0 (tp_degree t) i)).
Proof.
  intros Hi. pose proof (degree_bound i Hi) as Hd. unfold node_ports.
  rewrite length_map, length_range, wrap32_small by lia. lia.
Qed.

(** A port an edge takes is none of the last ones. *)
Lemma edge_port_not_last i u :
  0 <= i < n → 0 <= u < at_index 0 (tp_degree t) i →
  at_index (nil_id PortIdTag) (node_ports options t i) u ≠
  default (nil_id PortIdTag) (last (node_ports options t i)).
Proof.
  intros Hi Hu Heq. pose proof (length_node_ports i Hi) as Hl.
  unfold at_index in Heq at 1. rewrite nth_lookup, last_lookup, Hl in Heq. cbn [Nat.pred] in Heq.
  destruct (lookup_lt_is_Some_2 (node_ports options t i) (Z.to_nat u)) as [p Hp]; [lia|].
  destruct (lookup_lt_is_Some_2 (node_ports options t i) (Z.to_nat (at_index 0 (tp_degree t) i)))
    as [q Hq]; [lia|].
  rewrite Hp, Hq in Heq. cbn in Heq. subst q.
  assert (NoDup (node_ports options t i)) as Hnd by (apply (ma_ports _ _ _ Hb); by apply elem_of_fabric_nodes).
  pose proof (NoDup_lookup _ _ _ _ Hnd Hp Hq). lia.
Qed.

(** The links an end had before are counted by its used ports. *)
Lemma used_ports_before k e i :
  tp_edges t !! k = Some e → 0 <= i < n →
  at_index 0 (fold_left (λ used e, bump_degree (bump_degree used (dr_from e)) (dr_to e)) (take k (tp_edges t))
                (replicate (Z.to_nat (tp_node_count t)) 0)) i + ends_at i e <=
  at_index 0 (tp_degree t) i ∧
  0 <= at_index 0 (fold_left (λ used e, bump_degree (bump_degree used (dr_from e)) (dr_to e)) (take k (tp_edges t))
                (replicate (Z.to_nat (tp_node_count t)) 0)) i.
Proof.
  intros Hk Hi. pose proof (node_count_bounds options Hrange) as Hn. fold n in Hn.
  rewrite (degree_of_drafts _ _ i); [| |lia].
  - rewrite fabric_degree by done. rewrite <-(take_drop_middle _ _ _ Hk) at 2.
    rewrite incidence_app, incidence_cons. unfold at_index at 1 2. rewrite nth_replicate.
    pose proof (incidence_nonneg (take k (tp_edges t)) i).
    pose proof (incidence_nonneg (drop (S k) (tp_edges t)) i). lia.
  - apply Forall_forall. intros x Hx%elem_of_take. destruct Hx as (j & Hj & _).
    rewrite length_replicate, Z2Nat.id; rewrite (proj1 fabric_topology); [|cbn; fold n; lia].
    cbn [drafted with_drafts tp_node_count]. fold n. apply draft_in_range.
    by eapply list_elem_of_lookup_2.
Qed.

Lemma edge_avoids_access_ports r i :
  r ∈ b_edges b → 0 <= i < n →
  (e_from r = fabric_node options i → e_from_port r ≠ ep_port (fabric_endpoint_record options t i)) ∧
  (e_to r = fabric_node options i → e_to_port r ≠ ep_port (fabric_endpoint_record options t i)).
Proof.
  rewrite (ma_edges _ _ _ Hb). intros [k Hr]%list_elem_of_lookup Hi.
  destruct (lookup_lt_is_Some_2 (tp_edges t) k) as [e He].
  { rewrite <-(length_draw_edges options t _ (start_edges options t)). by eapply lookup_lt_Some. }
  pose proof (draw_edges_lookup _ _ _ _ _ _ _ He Hr) as [Hf Hto _ Hfp Htp].
  assert (e ∈ tp_edges t) as Hin by by eapply list_elem_of_lookup_2.
  pose proof (draft_in_range e Hin) as (Hfr & Htr & Hne).
  cbn [start_edges el_used_ports] in *. split; intros Heq.
  - assert (dr_from e = i) as <- by (apply node_ids_distinct; [by apply elem_of_fabric_nodes..|congruence]).
    rewrite Hfp. destruct (used_ports_before k e (dr_from e) He Hfr) as [Hu Hu0].
    unfold ends_at in Hu. rewrite decide_True in Hu by done. apply edge_port_not_last; [done|].
    case_decide; lia.
  - assert (dr_to e = i) as <- by (apply node_ids_distinct; [by apply elem_of_fabric_nodes..|congruence]).
    rewrite Htp. destruct (used_ports_before k e (dr_to e) He Htr) as [Hu Hu0].
    unfold ends_at in Hu. rewrite (decide_False (P := dr_from e = dr_to e)) in Hu by done.
    rewrite decide_True in Hu by done. apply edge_port_not_last; [done|].
    rewrite at_index_bump_other by (lia || done). lia.
Qed.

Let s := built_snapshot b.

Lemma elem_of_fabric_edges r : r ∈ s_edges s ↔ r ∈ b_edges b.
Proof. cbn. by rewrite sort_by_perm. Qed.

Lemma elem_of_fabric_endpoints ep : ep ∈ s_endpoints s ↔ ∃ i, 0 <= i < n ∧ ep = fabric_endpoint_record options t i.
Proof.
  cbn. rewrite sort_by_perm, (ma_endpoints _ _ _ Hb), list_elem_of_fmap.
  setoid_rewrite elem_of_fabric_nodes. naive_solver.
Qed.

Lemma find_fabric_endpoint i :
  0 <= i < n → FindEndpoint s (fabric_endpoint options i) = Some (fabric_endpoint_record options t i).
Proof.
  intros Hi. unfold FindEndpoint.
  change (fabric_endpoint options i) with (ep_id (fabric_endpoint_record options t i)).
  apply find_sorted_complete; [|apply elem_of_fabric_endpoints; by exists i].
  apply (sw_endpoints s). apply built_snapshot_wf; [apply Hb|done].
Qed.

(** Links between the nodes of the drafts, and nothing else. *)
Lemma draft_of_edge r :
  r ∈ s_edges s → ∃ e, e ∈ tp_edges t ∧ draft_ok n e ∧
    e_from r = fabric_node options (dr_from e) ∧ e_to r = fabric_node options (dr_to e).
Proof.
  intros Hr. apply elem_of_fabric_edges in Hr.
  rewrite (ma_edges _ _ _ Hb) in Hr. apply list_elem_of_lookup in Hr as [k Hr].
  destruct (lookup_lt_is_Some_2 (tp_edges t) k) as [e He].
  { rewrite <-(length_draw_edges options t _ (start_edges options t)). by eapply lookup_lt_Some. }
  pose proof (draw_edges_lookup _ _ _ _ _ _ _ He Hr) as [Hf' Hto' _ _ _].
  apply list_elem_of_lookup_2 in He as Hin.
  exists e. repeat (split; [first [exact Hin|apply draft_in_range, Hin|exact Hf']|]). exact Hto'.
Qed.

Lemma edge_of_draft i j :
  linked (tp_edges t) i j →
  ∃ r, r ∈ s_edges s ∧ e_from r = fabric_node options i ∧ e_to r = fabric_node options j.
Proof.
  intros [k He]%list_elem_of_lookup.
  destruct (lookup_lt_is_Some_2 (draw_edges options t (tp_edges t) (start_edges options t)).1 k) as [r Hr].
  { rewrite length_draw_edges. by eapply lookup_lt_Some. }
  pose proof (draw_edges_lookup _ _ _ _ _ _ _ He Hr) as [Hf' Hto' _ _ _].
  exists r. split; [|exact (conj Hf' Hto')]. apply elem_of_fabric_edges. rewrite (ma_edges _ _ _ Hb).
  by eapply list_elem_of_lookup_2.
Qed.

Lemma published_route i j :
  0 <= i < n → 0 <= j < n →
  rtc (λ x y, ∃ r, r ∈ s_edges s ∧ e_from r = x ∧ e_to r = y) (fabric_node options i) (fabric_node options j) ↔
  rtc (linked (tp_edges t)) i j.
Proof.
  intros Hi Hj. split.
  - assert (∀ x y, rtc (λ x y, ∃ r, r ∈ s_edges s ∧ e_from r = x ∧ e_to r = y) x y →
      ∀ i, 0 <= i < n → x = fabric_node options i →
      ∃ j, 0 <= j < n ∧ y = fabric_node options j ∧ rtc (linked (tp_edges t)) i j) as H.
    { induction 1 as [x|x y z (r & Hr & Hf & Hto) _ IH]; intros k Hk Hx.
      - exists k. split; [exact Hk|]. split; [exact Hx|constructor].
      - apply draft_of_edge in Hr as (e & He & (Hfr & Htr & _) & Hf' & Hto').
        assert (k = dr_from e) as ->.
        { apply node_ids_distinct; [by apply elem_of_fabric_nodes..|congruence]. }
        destruct (IH (dr_to e) Htr) as (l & Hl & Hz & Hlr); [congruence|].
        exists l. split; [exact Hl|]. split; [exact Hz|].
        apply (rtc_l _ _ (dr_to e)); [|exact Hlr]. unfold linked.
        replace (MkDraft (dr_from e) (dr_to e)) with e by (clear; by destruct e). exact He. }
    intros Hr. destruct (H _ _ Hr i Hi eq_refl) as (l & Hl & Hlj & Hlr).
    replace j with l; [exact Hlr|].
    apply node_ids_distinct; [by apply elem_of_fabric_nodes..|by symmetry].
  - clear Hi Hj. induction 1 as [|i k j Hik _ IH]; [constructor|].
    apply (rtc_l _ _ (fabric_node options k)); [|exact IH]. by apply edge_of_draft.
Qed.
End Fabric.

Lemma built_fabric b :
  s_nodes (built_snapshot b) = sort_by n_id (b_nodes b) ∧
  s_edges (built_snapshot b) = sort_by e_id (b_edges b) ∧
  s_endpoints (built_snapshot b) = sort_by ep_id (b_endpoints b) ∧
  s_source (built_snapshot b) = b_source b.
Proof. done. Qed.

Lemma built_views b :
  ls_records (s_link_states (built_snapshot b)) = sort_by ls_link (b_link_states b) ∧
  ps_records (s_port_states (built_snapshot b)) = sort_by ps_port (b_port_states b) ∧
  cv_bindings (s_capabilities (built_snapshot b)) = sort_by binding_key (b_capabilities b) ∧
  fdv_domains (s_failure_domains (built_snapshot b)) =
    sort_by fd_domain (map seal_domain (b_failure_domains b)).
Proof. done. Qed.

#[local] Opaque built_snapshot fabric_endpoint_record.

(** One published link from a node to another. *)
Definition published_link (s : FabricSnapshot) (x y : NodeId) : Prop :=
  ∃ r, r ∈ s_edges s ∧ e_from r = x ∧ e_to r = y.

Lemma BuildSyntheticFabric_inr options f :
  options_in_range options → 0 <= max_edges (so_limits options) →
  0 <= max_ports_per_node (so_limits options) < u32_max →
  BuildSyntheticFabric options = inr f →
  ∃ t b, BuildTopology options = inr t ∧ materialised options t b ∧ Buildable b ∧
    f = MkFabric (built_snapshot b) (fabric_endpoint options (tp_source t))
          (fabric_endpoint options (tp_destination t)) (fabric_node options (tp_source t))
          (fabric_node options (tp_destination t)) 1 1 EndpointClass.kEndpoint.
Proof.
  intros Hr He Hp. unfold BuildSyntheticFabric.
  destruct (build_fabric options) as [|[t s]] eqn:E; [discriminate|].
  apply build_fabric_inr in E as (b & Ht & Hb & Hok & ->).
  destruct (fabric_topology options t b Hr Hp He Ht Hb) as [Heq _].
  pose proof (drafted_wf options Hr) as [H1 H2 _ _].
  rewrite !(find_fabric_endpoint options t b Hr Hp He Ht Hb Hok)
    by (rewrite Heq; assumption).
  intros Hf. exists t, b. repeat (split; [assumption|]).
  injection Hf as <-. reflexivity.
Qed.

Lemma GenerateSyntheticFabric_same options f :
  BuildSyntheticFabric options = inr f → GenerateSyntheticFabric options = inr (sf_snapshot f).
Proof.
  unfold BuildSyntheticFabric, GenerateSyntheticFabric.
  destruct (build_fabric options) as [|[t s]]; [discriminate|].
  destruct (FindEndpoint s (fabric_endpoint options (tp_source t))); [|discriminate].
  destruct (FindEndpoint s (fabric_endpoint options (tp_destination t))); [|discriminate].
  intros H. injection H as <-. reflexivity.
Qed.

Lemma MakeSyntheticFabric_inr options f :
  MakeSyntheticFabric options = inr f ↔ BuildSyntheticFabric options = inr f.
Proof. unfold MakeSyntheticFabric. destruct (BuildSyntheticFabric options) as [[code detail]|]; [done|split; congruence]. Qed.

(** C31: a generated fabric is published whole. When [MakeSyntheticFabric] answers, the
    snapshot is a coherent synthetic one that holds a node for every node of the drafted
    topology, an edge of the requested layer for every drafted edge, with its ends, and an
    endpoint for every node on a port no edge uses; the reported ends are endpoints of it
    on the drafted source and destination. [GenerateSyntheticFabric] answers exactly then,
    with the same snapshot. *)
Theorem synthetic_fabric_whole (options : SyntheticOptions) (f : SyntheticFabric) :
  options_in_range options → 0 <= max_edges (so_limits options) →
  0 <= max_ports_per_node (so_limits options) < u32_max →
  MakeSyntheticFabric options = inr f →
  let n := NormalizeNodeCount (so_nodes options) in
  let s := sf_snapshot f in
  GenerateSyntheticFabric options = inr s ∧
  ∃ t, BuildTopology options = inr t ∧
  snapshot_wf s ∧ s_source s = EvidenceSource.kSynthetic ∧
  map n_id (s_nodes s) ≡ₚ map (fabric_node options) (range 0 n) ∧
  (∃ edges, s_edges s ≡ₚ edges ∧
     Forall2 (λ e r, e_from r = fabric_node options (dr_from e) ∧ e_to r = fabric_node options (dr_to e) ∧
                     e_layer r = so_layer options) (tp_edges t) edges) ∧
  s_endpoints s ≡ₚ map (fabric_endpoint_record options t) (range 0 n) ∧
  (∀ r ep, r ∈ s_edges s → ep ∈ s_endpoints s →
     (e_from r = ep_node ep → e_from_port r ≠ ep_port ep) ∧
     (e_to r = ep_node ep → e_to_port r ≠ ep_port ep)) ∧
  sf_source f = fabric_endpoint options (tp_source t) ∧
  sf_source_node f = fabric_node options (tp_source t) ∧
  sf_destination f = fabric_endpoint options (tp_destination t) ∧
  sf_destination_node f = fabric_node options (tp_destination t).
Proof.
  intros Hr He Hp Hmake%MakeSyntheticFabric_inr n s.
  pose proof (BuildSyntheticFabric_inr options f Hr He Hp Hmake) as (t & b & Ht & Hb & Hok & Hf).
  assert (s = built_snapshot b) as Hs by (unfold s; rewrite Hf; reflexivity). clearbody s.
  split.
  { rewrite (GenerateSyntheticFabric_same options f Hmake), Hf, Hs. reflexivity. }
  exists t. split; [exact Ht|]. rewrite Hs.
  destruct (built_fabric b) as (Hsn & Hse & Hsp & Hss).
  split; [apply built_snapshot_wf; [apply Hb|exact Hok]|].
  split; [rewrite Hss; exact (ma_source _ _ _ Hb)|].
  pose proof (fabric_nodes options t b Hr Hp He Ht Hb) as Hnodes. fold n in Hnodes.
  split; [|split; [|split; [|split]]].
  - rewrite Hsn, (sort_by_perm n_id), (ma_nodes _ _ _ Hb), !map_map, Hnodes. reflexivity.
  - exists (b_edges b). split; [rewrite Hse; apply sort_by_perm|]. rewrite (ma_edges _ _ _ Hb).
    apply Forall2_same_length_lookup. split; [by rewrite length_draw_edges|].
    intros k e r Hk Hrk. destruct (draw_edges_lookup _ _ _ _ _ _ _ Hk Hrk) as [H1 H2 H3 _ _].
    exact (conj H1 (conj H2 H3)).
  - rewrite Hsp, (sort_by_perm ep_id), (ma_endpoints _ _ _ Hb), Hnodes. reflexivity.
  - intros r ep Hre Hep.
    apply (elem_of_fabric_edges b) in Hre.
    apply (elem_of_fabric_endpoints options t b Hr Hp He Ht Hb) in Hep as (i & Hi & ->).
    exact (edge_avoids_access_ports options t b Hr Hp He Ht Hb Hok r i Hre Hi).
  - rewrite Hf. repeat split.
Qed.

(** The reported ends of a generated fabric are apart, and published links lead from
    the source to the destination for every family but DISCONNECTED, for which none do. *)
Theorem synthetic_fabric_routed (options : SyntheticOptions) (f : SyntheticFabric) :
  options_in_range options → 0 <= max_edges (so_limits options) →
  0 <= max_ports_per_node (so_limits options) < u32_max →
  MakeSyntheticFabric options = inr f →
  sf_source_node f ≠ sf_destination_node f ∧
  (rtc (published_link (sf_snapshot f)) (sf_source_node f) (sf_destination_node f) ↔
   so_family options ≠ SyntheticFamily.kDisconnected).
Proof.
  intros Hr He Hp Hmake%MakeSyntheticFabric_inr.
  pose proof (BuildSyntheticFabric_inr options f Hr He Hp Hmake) as (t & b & Ht & Hb & Hok & ->).
  cbn [sf_source_node sf_destination_node sf_snapshot].
  destruct (fabric_topology options t b Hr Hp He Ht Hb) as [Heq _].
  pose proof (drafted_wf options Hr) as [H1 H2 H3 _].
  rewrite (published_route options t b Hr Hp He Ht Hb Hok); rewrite Heq; [|exact H1|exact H2].
  split.
  - intros Hid. apply H3. apply (node_ids_distinct options t b Hb Hok); [..|exact Hid];
      by apply (elem_of_fabric_nodes options t b Hr Hp He Ht Hb).
  - apply family_route; [apply node_count_bounds|]; apply Hr.
Qed.

(** ** The stream does not shift *)

#[local] Transparent fabric_endpoint_record.

(** The same request but for the percentages. *)
Definition same_but_percentages (o1 o2 : SyntheticOptions) : Prop :=
  so_family o1 = so_family o2 ∧ so_seed o1 = so_seed o2 ∧ so_nodes o1 = so_nodes o2 ∧
  so_extra_edges o1 = so_extra_edges o2 ∧ so_layers o1 = so_layers o2 ∧
  so_layer o1 = so_layer o2 ∧ so_static_cost_base o1 = so_static_cost_base o2 ∧
  so_static_cost_spread o1 = so_static_cost_spread o2 ∧
  so_capability_bindings o1 = so_capability_bindings o2 ∧
  so_failure_domains o1 = so_failure_domains o2 ∧
  so_membership_complete o1 = so_membership_complete o2 ∧ so_limits o1 = so_limits o2.

Section Percentages.
Context (o1 o2 : SyntheticOptions) (t : Topology) (Hsame : same_but_percentages o1 o2).

(** The same state but for the link states drawn so far. *)
Definition same_stream (s1 s2 : EdgeLoop) : Prop :=
  el_random s1 = el_random s2 ∧ el_used_ports s1 = el_used_ports s2 ∧
  el_link_ids s1 = el_link_ids s2.

Lemma Percent_random p q random : (Percent p random).2 = (Percent q random).2.
Proof. unfold Percent. by destruct (Below 100 random). Qed.

Lemma draw_edge_same e s1 s2 :
  same_stream s1 s2 →
  (draw_edge o1 t e s1).1 = (draw_edge o2 t e s2).1 ∧
  same_stream (draw_edge o1 t e s1).2 (draw_edge o2 t e s2).2.
Proof.
  intros (Hr & Hu & Hl). destruct Hsame as (Hf & Hs & _ & _ & _ & Hlay & Hb & Hsp & _).
  unfold draw_edge, NextStaticCost, fabric_node, node_ports, fabric_link. rewrite Hf, Hs, Hlay, Hb, Hsp, Hr, Hu, Hl.
  destruct (if (so_static_cost_spread o2 =? 0) || tp_uniform_cost t then _ else _) as [cost random].
  pose proof (Percent_random (so_percent_without_link_state_record o1)
                (so_percent_without_link_state_record o2) random) as H1.
  destruct (Percent _ random) as [a1 r1], (Percent (so_percent_without_link_state_record o2) random) as [a2 r2].
  cbn in H1. subst r2.
  pose proof (Percent_random (so_percent_down o1) (so_percent_down o2) r1) as H2.
  destruct (Percent (so_percent_down o1) r1) as [d1 r2], (Percent (so_percent_down o2) r1) as [d2 r3].
  cbn in H2. subst r3.
  pose proof (Percent_random (so_percent_degraded o1) (so_percent_degraded o2) r2) as H3.
  destruct (Percent (so_percent_degraded o1) r2) as [g1 r3], (Percent (so_percent_degraded o2) r2) as [g2 r4].
  cbn in H3. subst r4.
  pose proof (Percent_random (so_percent_unknown o1) (so_percent_unknown o2) r3) as H4.
  destruct (Percent (so_percent_unknown o1) r3) as [u1 r4], (Percent (so_percent_unknown o2) r3) as [u2 r5].
  cbn in H4. subst r5. split; [reflexivity|]. repeat split.
Qed.

Lemma draw_edges_same drafts s1 s2 :
  same_stream s1 s2 → (draw_edges o1 t drafts s1).1 = (draw_edges o2 t drafts s2).1.
Proof.
  revert s1 s2. induction drafts as [|e drafts IH]; intros s1 s2 H; [reflexivity|].
  cbn [draw_edges]. pose proof (draw_edge_same e s1 s2 H) as [Hd Hn].
  destruct (draw_edge o1 t e s1) as [r1 n1], (draw_edge o2 t e s2) as [r2 n2].
  specialize (IH n1 n2 Hn). cbn in Hd. subst r2.
  destruct (draw_edges o1 t drafts n1), (draw_edges o2 t drafts n2). cbn in *. congruence.
Qed.
End Percentages.

Lemma BuildTopology_same o1 o2 : same_but_percentages o1 o2 → BuildTopology o1 = BuildTopology o2.
Proof.
  intros (Hf & Hs & Hn & He & Hl & _ & _ & _ & _ & _ & _ & Hlim).
  unfold BuildTopology, family_draft. rewrite Hf, Hs, Hn, He, Hl, Hlim. reflexivity.
Qed.

(** The percentages only touch the states. Two requests that differ in nothing but the
    percentages of links and ports that are down, degraded, unknown, disabled or without a
    record publish the same nodes, the same edges at the same costs and the same
    endpoints: enabling an option does not shift the stream. *)
Theorem percentages_only_touch_states (o1 o2 : SyntheticOptions) (s1 s2 : FabricSnapshot) :
  same_but_percentages o1 o2 →
  GenerateSyntheticFabric o1 = inr s1 → GenerateSyntheticFabric o2 = inr s2 →
  s_nodes s1 = s_nodes s2 ∧ s_edges s1 = s_edges s2 ∧ s_endpoints s1 = s_endpoints s2.
Proof.
  intros Hsame H1 H2. unfold GenerateSyntheticFabric in *.
  destruct (build_fabric o1) as [|[t1 s1']] eqn:E1; [discriminate|]. injection H1 as ->.
  destruct (build_fabric o2) as [|[t2 s2']] eqn:E2; [discriminate|]. injection H2 as ->.
  apply build_fabric_inr in E1 as (b1 & Ht1 & Hb1 & _ & ->).
  apply build_fabric_inr in E2 as (b2 & Ht2 & Hb2 & _ & ->).
  rewrite (BuildTopology_same o1 o2 Hsame) in Ht1.
  assert (t2 = t1) as -> by congruence.
  destruct (built_fabric b1) as (-> & -> & -> & _), (built_fabric b2) as (-> & -> & -> & _).
  rewrite (ma_nodes _ _ _ Hb1), (ma_nodes _ _ _ Hb2), (ma_edges _ _ _ Hb1), (ma_edges _ _ _ Hb2),
    (ma_endpoints _ _ _ Hb1), (ma_endpoints _ _ _ Hb2).
  pose proof Hsame as (Hf & Hs & _).
  assert (∀ i, fabric_node_record o1 t1 i = fabric_node_record o2 t1 i) as Hn.
  { intros i. unfold fabric_node_record, fabric_node, node_ports. rewrite Hf, Hs. reflexivity. }
  assert (∀ i, fabric_endpoint_record o1 t1 i = fabric_endpoint_record o2 t1 i) as He.
  { intros i. unfold fabric_endpoint_record, fabric_endpoint, fabric_node, node_ports. rewrite Hf, Hs. reflexivity. }
  rewrite (map_ext _ _ Hn), (map_ext _ _ He).
  rewrite (draw_edges_same o1 o2 t1 Hsame _ _ (start_edges o2 t1)); [repeat split|].
  split; [exact Hs|split; reflexivity].
Qed.

(** ** The local host *)

(** The indices of the adapters that satisfy a predicate, in order. *)
Definition indices_where (P : LocalAdapter → bool) (l : list (nat * LocalAdapter)) : list nat :=
  map fst (List.filter (λ ia, P ia.2) l).

(** One tier appends its usable adapters that were not selected before, up to two. *)
Lemma tier_selects tier l selected :
  NoDup (map fst l) → (length selected <= 2)%nat →
  fold_left (visit_adapter tier) l selected =
  take 2 (selected ++ map fst (List.filter (λ ia, tier_usable tier ia.2 && negb (bool_decide (ia.1 ∈ selected))) l)).
Proof.
  revert selected. induction l as [|[i a] l IH]; intros selected Hnd Hlen; cbn [fold_left List.filter map fst].
  { rewrite app_nil_r, firstn_all2 by lia. done. }
  apply NoDup_cons in Hnd as [Hi Hnd]. unfold visit_adapter at 2. cbn [fst snd].
  destruct (2 <=? length selected)%nat eqn:E2.
  { apply Nat.leb_le in E2. rewrite IH by done. rewrite !take_app_le by lia. done. }
  apply Nat.leb_gt in E2. rewrite andb_comm. case_bool_decide as Hin; cbn [negb andb].
  { by apply IH. }
  destruct (tier_usable tier a) eqn:Eu; cbn [map]; [|by apply IH].
  rewrite IH by (rewrite ?length_app; cbn; try lia; done).
  rewrite <-app_assoc. cbn [app]. do 4 f_equal.
  apply filter_ext_in. intros [j x] Hj. cbn [fst snd]. f_equal. f_equal.
  apply bool_decide_ext. rewrite elem_of_app, list_elem_of_singleton.
  assert (j ≠ i); [|naive_solver]. intros ->. apply Hi. apply list_elem_of_fmap.
  exists (i, x). split; [done|]. by apply list_elem_of_In.
Qed.

Lemma indices_of_imap (adapters : list LocalAdapter) : map fst (imap pair adapters) = seq 0 (length adapters).
Proof.
  apply list_eq. intros k. rewrite list_lookup_fmap, list_lookup_imap.
  destruct (adapters !! k) as [a|] eqn:E; cbn.
  - symmetry. apply lookup_seq. apply lookup_lt_Some in E. lia.
  - symmetry. apply lookup_seq_ge. apply lookup_ge_None in E. lia.
Qed.

Section Adapters.
Context (adapters : list LocalAdapter).

Let all := imap pair adapters.

Lemma indices_distinct : NoDup (map fst all).
Proof. unfold all. rewrite indices_of_imap. apply NoDup_seq. Qed.

Lemma elem_of_indices P ia :
  ia ∈ all → bool_decide (ia.1 ∈ indices_where P all) = P ia.2.
Proof.
  intros Hia. destruct (P ia.2) eqn:E.
  - apply bool_decide_eq_true. unfold indices_where. apply list_elem_of_fmap.
    exists ia. split; [done|]. apply list_elem_of_In, filter_In. by rewrite <-list_elem_of_In.
  - apply bool_decide_eq_false. unfold indices_where.
    intros (ja & Heq & Hja)%list_elem_of_fmap.
    apply list_elem_of_In, filter_In in Hja as [Hja HP]. apply list_elem_of_In in Hja.
    assert (ia = ja) as ->; [|congruence].
    apply list_elem_of_lookup in Hia as [k Hk], Hja as [l Hl].
    assert (k = l) as ->; [|congruence].
    apply (NoDup_lookup _ _ _ ia.1 indices_distinct); rewrite list_lookup_fmap, ?Hk, ?Hl; cbn; congruence.
Qed.

(** What a tier adds to the adapters that satisfy [P], all of them selected. *)
Lemma tier_adds tier P Q :
  (∀ a, tier_usable tier a && negb (P a) = Q a) →
  map fst (List.filter (λ ia, tier_usable tier ia.2 && negb (bool_decide (ia.1 ∈ indices_where P all))) all) =
  indices_where Q all.
Proof.
  intros HQ. change (indices_where Q all) with (map fst (List.filter (λ ia, Q ia.2) all)).
  f_equal. apply filter_ext_in.
  intros ia Hia. by rewrite elem_of_indices, HQ by (by apply list_elem_of_In).
Qed.
End Adapters.

Lemma take_saturated {A} (l r r' : list A) :
  (2 <= length l)%nat → take 2 (take 2 l ++ r) = take 2 (l ++ r').
Proof.
  intros H. rewrite take_app_le by (rewrite length_take; lia).
  rewrite take_take, take_app_le by lia. done.
Qed.

(** The adapters for the endpoints are the first two in order of preference: those
    that are up and not the loopback, then those that are down, and the loopback last; in
    enumeration order within a tier. *)
Theorem adapter_preference_exact (adapters : list LocalAdapter) :
  let all := imap pair adapters in
  SelectEndpointAdapters adapters =
  take 2 (indices_where (λ a, negb (la_loopback a) && la_up a) all ++
          indices_where (λ a, negb (la_loopback a) && negb (la_up a)) all ++
          indices_where la_loopback all).
Proof.
  intros all.
  pose proof (indices_distinct adapters) as Hnd. fold all in Hnd.
  set (up a := negb (la_loopback a) && la_up a).
  set (down a := negb (la_loopback a) && negb (la_up a)).
  unfold SelectEndpointAdapters. fold all. cbn [fold_left].
  rewrite (tier_selects 0) by (done || (cbn; lia)). cbn [app].
  assert (map fst (List.filter (λ ia : nat * LocalAdapter, tier_usable 0 ia.2 &&
            negb (bool_decide (ia.1 ∈ []))) all) = indices_where up all) as ->.
  { unfold indices_where. f_equal. apply filter_ext_in. intros ia _.
    by rewrite bool_decide_eq_false_2, andb_true_r by apply not_elem_of_nil. }
  rewrite (tier_selects 1) by (done || (rewrite length_take; lia)).
  rewrite (tier_selects 2) by (done || (rewrite length_take; lia)).
  destruct (decide (2 <= length (indices_where up all))%nat) as [H2|H2].
  { rewrite (take_saturated (indices_where up all) _ []) by done.
    rewrite app_nil_r. by apply take_saturated. }
  rewrite (firstn_all2 (indices_where up all)) by lia.
  assert (∀ a, tier_usable 1 a && negb (up a) = down a) as Hdown.
  { intros a. unfold up, down, tier_usable. by destruct (la_loopback a), (la_up a). }
  pose proof (tier_adds adapters 1 up down Hdown) as Ht. fold all in Ht. rewrite Ht. clear Ht.
  destruct (decide (2 <= length (indices_where up all ++ indices_where down all))%nat) as [H3|H3].
  { rewrite app_assoc. by apply take_saturated. }
  rewrite (firstn_all2 (indices_where up all ++ indices_where down all)) by lia. rewrite <-app_assoc. do 3 f_equal.
  change (indices_where la_loopback all) with (map fst (List.filter (λ ia, la_loopback ia.2) all)).
  f_equal. apply filter_ext_in. intros ia Hia%list_elem_of_In.
  cbn [tier_usable andb].
  pose proof (elem_of_indices adapters up ia Hia) as Hu. pose proof (elem_of_indices adapters down ia Hia) as Hd.
  fold all in Hu, Hd.
  assert (bool_decide (ia.1 ∈ indices_where up all ++ indices_where down all) = up ia.2 || down ia.2) as ->.
  { rewrite <-Hu, <-Hd. rewrite <-bool_decide_or. apply bool_decide_ext. apply elem_of_app. }
  unfold up, down. by destruct (la_loopback ia.2), (la_up ia.2).
Qed.

(** The builder of the host's view. *)
Section Host.
Context (supported : bool) (adapters : list LocalAdapter) (limits : ResourceLimits).

Let slots := take 2 (SelectEndpointAdapters adapters).

Record host_built (b : FabricSnapshotBuilder) : Prop := {
  hb_wf : builder_wf b;
  hb_source : b_source b = EvidenceSource.kReal;
  hb_nodes : b_nodes b = [sealed_node (host_node_record adapters)];
  hb_ports : NoDup (host_ports adapters);
  hb_edges : b_edges b = [];
  hb_endpoints : b_endpoints b = map (host_endpoint_record adapters) slots;
  hb_views : b_link_states b = [] ∧ b_port_states b = host_port_states adapters ∧
    b_capabilities b = [] ∧ b_failure_domains b = [] ∧ b_membership_complete b = false
}.

Lemma host_fabric_inr f :
  host_fabric supported adapters limits = inr f →
  check_host supported adapters limits = None ∧
  ∃ b, host_built b ∧ Buildable b ∧
    f = MkFabric (built_snapshot b) (host_endpoint adapters (default 0%nat (head slots)))
          (host_endpoint adapters (default 0%nat (last slots))) (host_node adapters)
          (host_node adapters) 1 1 EndpointClass.kNic.
Proof.
  unfold host_fabric. destruct (check_host supported adapters limits); [discriminate|].
  destruct (add_all AddNode _ _) as [|b1] eqn:E1; [discriminate|].
  destruct (add_all AddEndpoint _ _) as [|b2] eqn:E2; [discriminate|].
  destruct (Build b2).1 as [|s] eqn:Eb; [discriminate|].
  intros H. injection H as <-. split; [reflexivity|].
  assert (builder_wf b1) as W1.
  { eapply add_all_wf; [exact AddNode_wf| |exact E1].
    by apply (views_wf (new_builder limits)), new_builder_wf. }
  assert (builder_wf b2) as W2.
  { eapply add_all_wf; [exact AddEndpoint_wf| |exact E2]. by apply (views_wf b1). }
  apply Build_inr in Eb as [Hok ->]; [|exact W2]. exists b2.
  apply add_nodes in E1 as [Hports ->]. apply add_endpoints in E2 as ->.
  split; [|split; [exact Hok|reflexivity]].
  rewrite Forall_singleton in Hports.
  constructor; [exact W2|reflexivity|reflexivity|exact Hports|reflexivity|reflexivity|].
  repeat split.
Qed.
End Host.

(** The adapters the endpoints belong on: the first two in order of preference, those that
    are up and not the loopback, then those that are down, then the loopback, each in the
    order of the list. *)
Definition preferred_slots (adapters : list LocalAdapter) : list nat :=
  let all := imap pair adapters in
  take 2 (indices_where (λ a, negb (la_loopback a) && la_up a) all ++
          indices_where (λ a, negb (la_loopback a) && negb (la_up a)) all ++
          indices_where la_loopback all).

Lemma length_partition3 {A} (P Q R : A → bool) l :
  (∀ x, Nat.b2n (P x) + Nat.b2n (Q x) + Nat.b2n (R x) = 1)%nat →
  (length (List.filter P l) + length (List.filter Q l) + length (List.filter R l) = length l)%nat.
Proof.
  intros H. induction l as [|x l IH]; [done|]. specialize (H x). cbn.
  destruct (P x), (Q x), (R x); cbn in *; lia.
Qed.

Lemma length_preferred_slots adapters : length (preferred_slots adapters) = Nat.min 2 (length adapters).
Proof.
  unfold preferred_slots, indices_where. rewrite length_take, !length_app, !length_map.
  rewrite Nat.add_assoc, length_partition3; [by rewrite length_imap|].
  intros [i a]. cbn. by destruct (la_loopback a), (la_up a).
Qed.

(** The record of the port of adapter [i] says UP exactly when the adapter is up. *)
Definition port_state_of (adapters : list LocalAdapter) (i : nat) (record : PortStateRecord) : Prop :=
  ∃ a, adapters !! i = Some a ∧ ps_port record = host_port adapters i ∧
    (la_up a = true → ps_state record = PortState.kUp) ∧
    (la_up a = false → ps_state record = PortState.kUnknown).

Lemma elem_of_host_port_states adapters record :
  record ∈ host_port_states adapters ↔ ∃ i, port_state_of adapters i record.
Proof.
  unfold host_port_states, port_state_of. rewrite elem_of_lookup_imap. split.
  - intros (i & a & -> & Ha). exists i, a. cbn. destruct (la_up a); naive_solver.
  - intros (i & a & Ha & Hp & Hu & Hd). exists i, a. split; [|done]. destruct record as [p st].
    cbn in *. subst p. destruct (la_up a); [by rewrite Hu|by rewrite Hd].
Qed.

(** An endpoint on adapter [i]: on the host, at the port of that adapter. *)
Definition endpoint_at (adapters : list LocalAdapter) (i : nat) (e : EndpointRecord) : Prop :=
  ep_id e = host_endpoint adapters i ∧ ep_node e = host_node adapters ∧
  ep_port e = host_port adapters i ∧ ep_class e = EndpointClass.kNic ∧ ep_entity_generation e = 1.

Lemma elem_of_host_endpoints adapters slots e :
  e ∈ map (host_endpoint_record adapters) slots ↔ ∃ i, i ∈ slots ∧ endpoint_at adapters i e.
Proof.
  rewrite list_elem_of_fmap. unfold endpoint_at. split.
  - intros (i & -> & Hi). by exists i.
  - intros (i & Hi & H1 & H2 & H3 & H4 & H5). exists i. split; [|done].
    destruct e. cbn in *. by subst.
Qed.

Lemma elem_of_host_ports adapters p :
  p ∈ host_ports adapters ↔ ∃ i, (i < length adapters)%nat ∧ p = host_port adapters i.
Proof.
  unfold host_ports. rewrite list_elem_of_fmap. setoid_rewrite elem_of_seq.
  split; intros (i & ? & ?); exists i; split; (done || lia).
Qed.

(** What [MakeLocalHostFabric] builds. *)
Lemma MakeLocalHostFabric_inr supported discovered limits f :
  let adapters := sort_by adapter_key discovered in
  MakeLocalHostFabric supported discovered limits = inr f →
  supported = true ∧ discovered ≠ [] ∧ ∃ b, host_built adapters b ∧ Buildable b ∧
    f = MkFabric (built_snapshot b)
          (host_endpoint adapters (default 0%nat (head (preferred_slots adapters))))
          (host_endpoint adapters (default 0%nat (last (preferred_slots adapters))))
          (host_node adapters) (host_node adapters) 1 1 EndpointClass.kNic.
Proof.
  intros adapters Hf. unfold MakeLocalHostFabric, EnumerateLocalAdapters in Hf.
  destruct supported; [|discriminate Hf]. cbn [negb] in Hf. fold adapters in Hf.
  apply host_fabric_inr in Hf as (Hcheck & b & Hb & Hok & Hf).
  split; [reflexivity|]. split.
  { unfold check_host in Hcheck. cbn [negb] in Hcheck. intros ->.
    destruct (length adapters =? 0)%nat eqn:E0; [discriminate|]. apply Nat.eqb_neq in E0.
    by apply E0. }
  exists b. split; [exact Hb|]. split; [exact Hok|].
  rewrite Hf, adapter_preference_exact, take_take. reflexivity.
Qed.

(** The endpoints of the builder are on the preferred slots. *)
Lemma host_built_endpoints adapters b :
  host_built adapters b → b_endpoints b = map (host_endpoint_record adapters) (preferred_slots adapters).
Proof. intros Hb. by rewrite (hb_endpoints _ _ Hb), adapter_preference_exact, take_take. Qed.

Lemma distinct_host_ports adapters b :
  host_built adapters b → NoDup (map ps_port (host_port_states adapters)).
Proof.
  intros Hb. assert (map ps_port (host_port_states adapters) = host_ports adapters) as ->; [|apply Hb].
  unfold host_ports, host_port_states. apply list_eq. intros k.
  rewrite !list_lookup_fmap, list_lookup_imap. destruct (adapters !! k) as [a|] eqn:E; cbn.
  - rewrite lookup_seq_lt by (by apply lookup_lt_Some in E). done.
  - rewrite lookup_seq_ge by (by apply lookup_ge_None in E). done.
Qed.

(** C35: the view of the local host is exactly its adapters. When it is built, discovery is
    supported and found adapters; the coherent snapshot holds real evidence; one node
    whose distinct ports are one per adapter; for each adapter a port state, UP if the
    adapter is up and UNKNOWN if not, and no other; an endpoint at the port of each of
    the (at most two) preferred adapters, and no other, of which the first and the last
    are reported; and nothing else: no links, capabilities or domains. *)
Theorem local_host_exact (supported : bool) (discovered : list LocalAdapter)
  (limits : ResourceLimits) (f : SyntheticFabric) :
  MakeLocalHostFabric supported discovered limits = inr f →
  let s := sf_snapshot f in
  let adapters := sort_by adapter_key discovered in
  let slots := preferred_slots adapters in
  supported = true ∧ discovered ≠ [] ∧
  snapshot_wf s ∧ s_source s = EvidenceSource.kReal ∧
  (∃ node, s_nodes s = [node] ∧ n_id node = host_node adapters ∧
     (∀ p, p ∈ n_ports node ↔ ∃ i, (i < length adapters)%nat ∧ p = host_port adapters i) ∧
     NoDup (n_ports node) ∧ length (n_ports node) = length discovered) ∧
  (∀ record, record ∈ ps_records (s_port_states s) ↔ ∃ i, port_state_of adapters i record) ∧
  NoDup (map ps_port (ps_records (s_port_states s))) ∧
  length (ps_records (s_port_states s)) = length discovered ∧
  s_edges s = [] ∧ ls_records (s_link_states s) = [] ∧ cv_bindings (s_capabilities s) = [] ∧
  fdv_domains (s_failure_domains s) = [] ∧
  length slots = Nat.min 2 (length discovered) ∧ length (s_endpoints s) = length slots ∧
  (∀ e, e ∈ s_endpoints s ↔ ∃ i, i ∈ slots ∧ endpoint_at adapters i e) ∧
  Some (sf_source f) = host_endpoint adapters <$> head slots ∧
  Some (sf_destination f) = host_endpoint adapters <$> last slots ∧
  sf_source_node f = host_node adapters ∧ sf_destination_node f = host_node adapters ∧
  (length slots = 2%nat → sf_source f ≠ sf_destination f).
Proof.
  intros Hf s adapters slots.
  apply MakeLocalHostFabric_inr in Hf as (Hsup & Hne & b & Hb & Hok & Hf). fold adapters slots in Hb, Hf.
  assert (s = built_snapshot b) as Hs by (unfold s; rewrite Hf; reflexivity). clearbody s. subst s.
  destruct (built_fabric b) as (Hsn & Hse & Hsp & Hss).
  destruct (built_views b) as (Hvl & Hvp & Hvc & Hvd).
  destruct (hb_views _ _ Hb) as (Hl & Hp & Hc & Hd & _).
  assert (length adapters = length discovered) as Hlen by apply length_sort_by.
  assert (ps_records (s_port_states (built_snapshot b)) ≡ₚ host_port_states adapters) as Hstates
    by (rewrite Hvp, Hp; apply sort_by_perm).
  pose proof (host_built_endpoints _ _ Hb) as Hep. fold slots in Hep.
  assert (s_endpoints (built_snapshot b) ≡ₚ map (host_endpoint_record adapters) slots) as Hends
    by (rewrite Hsp, Hep; apply sort_by_perm).
  assert (length slots = Nat.min 2 (length discovered)) as Hslots
    by (rewrite <-Hlen; apply length_preferred_slots).
  split; [exact Hsup|]. split; [exact Hne|].
  split; [apply built_snapshot_wf; [apply Hb|exact Hok]|].
  split; [rewrite Hss; apply Hb|]. split.
  { exists (sealed_node (host_node_record adapters)).
    rewrite Hsn, (hb_nodes _ _ Hb). split; [reflexivity|]. split; [reflexivity|].
    assert (n_ports (sealed_node (host_node_record adapters)) ≡ₚ host_ports adapters) as Hports
      by apply (sort_by_perm id).
    split; [intros p; rewrite Hports; apply elem_of_host_ports|]. split; [rewrite Hports; apply Hb|].
    rewrite (Permutation_length Hports). unfold host_ports. by rewrite length_map, length_seq. }
  split; [intros record; rewrite Hstates; apply elem_of_host_port_states|].
  split; [rewrite Hstates; by apply (distinct_host_ports _ b)|].
  split; [rewrite Hstates; unfold host_port_states; by rewrite length_imap|].
  split; [rewrite Hse, (hb_edges _ _ Hb); reflexivity|].
  split; [rewrite Hvl, Hl; reflexivity|]. split; [rewrite Hvc, Hc; reflexivity|].
  split; [rewrite Hvd, Hd; reflexivity|]. split; [exact Hslots|].
  split; [by rewrite Hends, length_map|].
  split; [intros e; rewrite Hends; apply elem_of_host_endpoints|].
  rewrite Hf. cbn [sf_source sf_destination sf_source_node sf_destination_node].
  assert (length discovered ≠ 0%nat) as Hn0 by (intros ?%nil_length_inv; done).
  clearbody slots. destruct slots as [|i rest].
  { change (0%nat = Nat.min 2 (length discovered)) in Hslots. lia. }
  destruct (last (i :: rest)) as [j|] eqn:Hj; [|by apply last_None in Hj].
  do 4 (split; [reflexivity|]).
  intros H2 Heq. destruct rest as [|j' [|]]; [cbn in H2; lia| |cbn in H2; lia].
  cbn in Hj. injection Hj as ->. cbn [head default] in Heq.
  pose proof (bb_endpoints b Hok) as Hnd. rewrite Hep in Hnd. cbn [map] in Hnd.
  apply NoDup_cons in Hnd as [Hnd _]. apply Hnd, list_elem_of_singleton. exact Heq.
Qed.

(** Repeated queries give the same view, in whatever order the platform lists the
    adapters. *)
Lemma discovery_order_irrelevant supported l1 l2 limits :
  NoDup (map adapter_key l1) → l1 ≡ₚ l2 →
  MakeLocalHostFabric supported l1 limits = MakeLocalHostFabric supported l2 limits.
Proof.
  intros Hnd Hp. unfold MakeLocalHostFabric, EnumerateLocalAdapters.
  by rewrite (sort_by_perm_eq adapter_key l1 l2).
Qed.

(** ** Concrete fabrics *)

Module DemoSources.
Definition options family nodes : SyntheticOptions :=
  MkOptions family 7 nodes 0 4 PathLayer.kPhysical 1 1 0 0 0 0 0 1 1 true default_limits.
Definition degraded : SyntheticOptions :=
  MkOptions SyntheticFamily.kChain 7 2 0 4 PathLayer.kPhysical 1 1 50 50 50 50 50 1 1 true default_limits.
Definition chain : SyntheticOptions := options SyntheticFamily.kChain 2.
Definition fabric : SyntheticFabric :=
  MkFabric (built_snapshot (new_builder default_limits)) (nil_id EndpointIdTag) (nil_id EndpointIdTag)
    (nil_id NodeIdTag) (nil_id NodeIdTag) 1 1 EndpointClass.kEndpoint.
Definition adapters : list LocalAdapter :=
  [MkAdapter "lo" "loopback" "" 1 true true PathLayer.kPhysical;
   MkAdapter "eth0" "wired" "001122334455" 2 true false PathLayer.kPhysical;
   MkAdapter "wlan0" "wireless" "66778899aabb" 3 false false PathLayer.kPhysical].

Definition was_answered {E A} (r : E + A) : bool := match r with inl _ => false | inr _ => true end.
Definition value_of {A E} (default : A) (r : E + A) : A := match r with inl _ => default | inr a => a end.

Lemma value_of_answered {A E} (d : A) (r : E + A) : was_answered r = true → r = inr (value_of d r).
Proof. by destruct r. Qed.

Lemma chain_answered : was_answered (MakeSyntheticFabric chain) = true.
Proof. vm_compute. reflexivity. Qed.
Lemma degraded_answered : was_answered (GenerateSyntheticFabric degraded) = true.
Proof. vm_compute. reflexivity. Qed.
Lemma host_answered : was_answered (MakeLocalHostFabric true adapters default_limits) = true.
Proof. vm_compute. reflexivity. Qed.
Lemma options_ok family nodes : 0 <= nodes <= 2147483648 → options_in_range (options family nodes).
Proof. intros H. split; [exact H|cbn; lia]. Qed.
End DemoSources.

#[local] Opaque MakeSyntheticFabric GenerateSyntheticFabric MakeLocalHostFabric.

Lemma topology_exact_witness :
  let options := DemoSources.options SyntheticFamily.kRing 5 in
  rtc (linked (tp_edges (drafted options))) 0 2 ∧
  incidence (tp_edges (drafted options)) 3 = 2.
Proof.
  pose proof (topology_exact (DemoSources.options SyntheticFamily.kRing 5)
    (drafted (DemoSources.options SyntheticFamily.kRing 5))
    (DemoSources.options_ok _ 5 ltac:(lia)) ltac:(vm_compute; congruence) ltac:(vm_compute; congruence))
    as [_ H].
  destruct H as (_ & _ & Hdeg & _ & _ & _ & Hroute); [reflexivity|].
  split; [apply Hroute; discriminate|]. rewrite <-Hdeg; [reflexivity|vm_compute; split; congruence].
Defined.

(** The deep chain of six nodes, and the links of a mesh of seven. *)
Lemma families_as_documented_witness :
  (∃ order, NoDup order ∧
    ∀ i j, linked (tp_edges (drafted (DemoSources.options SyntheticFamily.kDeepChain 6))) i j ↔
      ∃ k, order !! k = Some i ∧ order !! S k = Some j) ∧
  ∀ i j, linked (tp_edges (drafted (DemoSources.options SyntheticFamily.kMesh 7))) i j ↔
    0 <= i < 7 ∧ ∃ step, 1 <= step <= 2 ∧ j = (i + step) mod 7.
Proof.
  assert (∀ family nodes, 0 <= nodes <= 2147483648 → let o := DemoSources.options family nodes in
    BuildTopology o = inr (drafted o) →
    options_in_range o ∧ 0 <= max_edges (so_limits o) ∧ 0 <= max_ports_per_node (so_limits o)) as Hok.
  { intros family nodes Hnodes o _. split; [by apply DemoSources.options_ok|]. split; vm_compute; congruence. }
  split.
  - destruct (Hok SyntheticFamily.kDeepChain 6 ltac:(lia) ltac:(vm_compute; reflexivity)) as (H1 & H2 & H3).
    destruct (families_as_documented (DemoSources.options SyntheticFamily.kDeepChain 6)
      (drafted (DemoSources.options SyntheticFamily.kDeepChain 6)) H1 H2 H3 ltac:(vm_compute; reflexivity))
      as (_ & (_ & Hdeep & _) & _).
    destruct (Hdeep eq_refl) as (order & Hnd & _ & _ & _ & _ & Hlinks). by exists order.
  - destruct (Hok SyntheticFamily.kMesh 7 ltac:(lia) ltac:(vm_compute; reflexivity)) as (H1 & H2 & H3).
    destruct (families_as_documented (DemoSources.options SyntheticFamily.kMesh 7)
      (drafted (DemoSources.options SyntheticFamily.kMesh 7)) H1 H2 H3 ltac:(vm_compute; reflexivity))
      as (_ & (_ & _ & Hmesh & _) & _).
    destruct (Hmesh ltac:(discriminate)) as (_ & _ & Hlinks). intros i j.
    rewrite (Hlinks i j). cbn [so_family DemoSources.options family_link]. 
    change (tp_node_count (drafted (DemoSources.options SyntheticFamily.kMesh 7))) with 7.
    change (Z.min (2 + so_extra_edges (DemoSources.options SyntheticFamily.kMesh 7)) ((7 - 1) / 2)) with 2.
    split; [intros [[? _]|[_ H]]; [lia|exact H]|]. intros H. right. split; [lia|exact H].
Defined.

Lemma synthetic_fabric_whole_witness :
  let f := DemoSources.value_of DemoSources.fabric (MakeSyntheticFabric DemoSources.chain) in
  GenerateSyntheticFabric DemoSources.chain = inr (sf_snapshot f).
Proof.
  apply (synthetic_fabric_whole DemoSources.chain); [apply DemoSources.options_ok; lia|vm_compute; congruence| |].
  - split; [vm_compute; congruence|reflexivity].
  - apply DemoSources.value_of_answered. exact DemoSources.chain_answered.
Defined.

Lemma synthetic_fabric_routed_witness :
  let f := DemoSources.value_of DemoSources.fabric (MakeSyntheticFabric DemoSources.chain) in
  sf_source_node f ≠ sf_destination_node f ∧
  rtc (published_link (sf_snapshot f)) (sf_source_node f) (sf_destination_node f).
Proof.
  assert (options_in_range DemoSources.chain) as H1 by (apply DemoSources.options_ok; lia).
  assert (0 <= max_edges (so_limits DemoSources.chain)) as H2 by (vm_compute; congruence).
  assert (0 <= max_ports_per_node (so_limits DemoSources.chain) < u32_max) as H3
    by (split; [vm_compute; congruence|reflexivity]).
  pose proof (synthetic_fabric_routed DemoSources.chain _ H1 H2 H3
    (DemoSources.value_of_answered DemoSources.fabric _ DemoSources.chain_answered)) as [Hne H].
  split; [exact Hne|]. apply H. discriminate.
Defined.

Lemma percentages_only_touch_states_witness :
  let f := DemoSources.value_of DemoSources.fabric (MakeSyntheticFabric DemoSources.chain) in
  s_edges (sf_snapshot f) =
  s_edges (DemoSources.value_of (sf_snapshot f) (GenerateSyntheticFabric DemoSources.degraded)).
Proof.
  intros f. apply (percentages_only_touch_states DemoSources.chain DemoSources.degraded).
  - repeat split.
  - apply GenerateSyntheticFabric_same, MakeSyntheticFabric_inr, DemoSources.value_of_answered.
    exact DemoSources.chain_answered.
  - apply DemoSources.value_of_answered. exact DemoSources.degraded_answered.
Defined.

(** Of the loopback, a wired adapter that is up and a wireless one that is down, the second
    and the third get the endpoints, and the wireless port is not said to be up. *)
Lemma local_host_exact_witness :
  let f := DemoSources.value_of DemoSources.fabric (MakeLocalHostFabric true DemoSources.adapters default_limits) in
  preferred_slots DemoSources.adapters = [1%nat; 2%nat] ∧
  s_edges (sf_snapshot f) = [] ∧ s_source (sf_snapshot f) = EvidenceSource.kReal ∧
  (∃ e, e ∈ s_endpoints (sf_snapshot f) ∧ ep_port e = host_port DemoSources.adapters 1) ∧
  MkPortState (host_port DemoSources.adapters 2) PortState.kUnknown ∈
    ps_records (s_port_states (sf_snapshot f)).
Proof.
  split; [reflexivity|].
  pose proof (local_host_exact true DemoSources.adapters default_limits _
    (DemoSources.value_of_answered DemoSources.fabric _ DemoSources.host_answered))
    as (_ & _ & _ & H1 & _ & H3 & _ & _ & H2 & _ & _ & _ & _ & _ & H4 & _).
  assert (sort_by adapter_key DemoSources.adapters = DemoSources.adapters) as Hsort by reflexivity.
  rewrite Hsort in H3, H4. split; [exact H2|]. split; [exact H1|]. split.
  - exists (host_endpoint_record DemoSources.adapters 1). split; [|reflexivity].
    apply H4. exists 1%nat. split; [|repeat split]. apply list_elem_of_In. left. reflexivity.
  - apply H3. exists 2%nat, (MkAdapter "wlan0" "wireless" "66778899aabb" 3 false false PathLayer.kPhysical).
    split; [reflexivity|]. split; [reflexivity|]. split; [discriminate|reflexivity].
Defined.
