(* ===== verification/Parse.v ===== *)
(** The decoders of store.cpp and proto.cpp: every read is checked, the first problem
    is reported with a detail text, and nothing else of the input is looked at. A
    parser carries the error of its caller; [Parses p P enc] says what a strict
    decoder promises: it returns [x] exactly when [x] is in its domain [P] and the
    input continues with the canonical encoding [enc x], which it consumes. So a
    decoder inverts its encoder and accepts nothing else. *)

From S2P Require Import Prelude Canonical Status Ids Codec Graph.

(** ** Parsers *)

Definition Parser (E A : Type) : Type := ByteReader → (E + A) * ByteReader.

Definition pret {E A} (x : A) : Parser E A := λ r, (inr x, r).
Definition pfail {E A} (e : E) : Parser E A := λ r, (inl e, r).
Definition pbind {E A B} (p : Parser E A) (k : A → Parser E B) : Parser E B := λ r,
  match p r with
  | (inl e, r') => (inl e, r')
  | (inr x, r') => k x r'
  end.
Notation "'let?' x ':=' p 'in' k" := (pbind p (λ x, k))
  (at level 10, x binder, p at level 99, k at level 200) : pp_scope.

(** [if (!value.has_value()) return failure;]. A failed reader stays failed, so values
    that are read first and tested together afterwards are one read. *)
Definition pread {E A} (m : Reader A) (e : E) : Parser E A := λ r,
  match m r with
  | (Some x, r') => (inr x, r')
  | (None, r') => (inl e, r')
  end.
(** The caller wraps the detail text. *)
Definition with_error {E E' A} (f : E → E') (p : Parser E A) : Parser E' A := λ r,
  match p r with
  | (inl e, r') => (inl (f e), r')
  | (inr x, r') => (inr x, r')
  end.

(** [for (index < n) { element; out.push_back(element); }]: an element may look at the
    elements before it. *)
Fixpoint pvec {E A} (n : nat) (p : list A → Parser E A) (acc : list A) : Parser E (list A) :=
  match n with
  | O => pret acc
  | S n => let? x := p acc in pvec n p (acc ++ [x])
  end.

(** ** What is left to read *)

Definition starts (r : ByteReader) (bs : bytes) : Prop :=
  ∃ rest, drop (position_ r) (rdata_ r) = bs ++ rest.

Record reader_ok (r : ByteReader) : Prop := {
  ro_failed : failed_ r = false;
  ro_bytes : Forall is_byte (rdata_ r);
  ro_position : (position_ r <= length (rdata_ r))%nat
}.

Definition Accepts {A} (m : Reader A) (P : A → Prop) (enc : A → bytes) : Prop :=
  ∀ r, reader_ok r → ∀ x r',
    m r = (Some x, r') ↔ P x ∧ starts r (enc x) ∧ r' = advance (length (enc x)) r.

Definition Parses {E A} (p : Parser E A) (P : A → Prop) (enc : A → bytes) : Prop :=
  ∀ r, reader_ok r → ∀ x r',
    p r = (inr x, r') ↔ P x ∧ starts r (enc x) ∧ r' = advance (length (enc x)) r.

Lemma starts_app r a b :
  starts r (a ++ b) ↔ starts r a ∧ starts (advance (length a) r) b.
Proof.
  unfold starts, advance. cbn [failed_ position_ rdata_]. rewrite <- drop_drop. split.
  - intros [rest Hd]. rewrite <- app_assoc in Hd. split; [by eauto|].
    exists rest. by rewrite Hd, drop_app_length.
  - intros [[rest Hd] [rest' Hd']]. exists rest'.
    rewrite Hd, drop_app_length in Hd'. rewrite Hd, Hd'. by rewrite app_assoc.
Qed.

Lemma starts_length r bs : reader_ok r → starts r bs → (length bs <= Remaining r)%nat.
Proof.
  intros [_ _ Hp] [rest Hd]. apply (f_equal length) in Hd.
  rewrite length_drop, length_app in Hd. unfold Remaining. lia.
Qed.

Lemma reader_ok_advance r bs : reader_ok r → starts r bs → reader_ok (advance (length bs) r).
Proof.
  intros Hok Hs. pose proof (starts_length r bs Hok Hs). destruct Hok.
  constructor; [done..|]. unfold advance, Remaining in *. simpl. lia.
Qed.

Lemma advance_advance a b r : advance b (advance a r) = advance (a + b) r.
Proof. unfold advance. simpl. by rewrite Nat.add_assoc. Qed.
Lemma advance_0 r : advance 0 r = r.
Proof. destruct r. unfold advance. simpl. by rewrite Nat.add_0_r. Qed.

Lemma starts_bytes r bs : reader_ok r → starts r bs → Forall is_byte bs.
Proof.
  intros [_ Hb _] [rest Hd]. apply (Forall_drop _ (position_ r)) in Hb. rewrite Hd in Hb.
  by apply Forall_app in Hb as [? _].
Qed.

(** ** The readers *)

(** A round trip gives one direction of the law. *)
Lemma Reads_Accepts {A} (m : Reader A) (P : A → Prop) enc :
  (∀ x, P x → Reads m (enc x) x) →
  (∀ r x r', reader_ok r → m r = (Some x, r') → P x ∧ starts r (enc x)) →
  Accepts m P enc.
Proof.
  intros Hr Hinv r Hok x r'.
  assert (Hread : P x → starts r (enc x) → m r = (Some x, advance (length (enc x)) r)).
  { intros HP [rest Hd]. pose proof (ro_failed r Hok) as Hf. pose proof (Hr x HP (take (position_ r) (rdata_ r)) rest) as H.
    rewrite <- Hd, take_drop, length_take_le in H by apply Hok. destruct r as [d p f].
    cbn [failed_ position_ rdata_] in *. subst f. exact H. }
  split.
  - intros Hm. destruct (Hinv r x r' Hok Hm) as [HP Hs]. split; [done|]. split; [done|].
    rewrite (Hread HP Hs) in Hm. by injection Hm.
  - intros (HP & Hs & ->). by apply Hread.
Qed.

Lemma Need_inv n r r' :
  Need n r = (true, r') → r' = r ∧ failed_ r = false ∧ (n <= Remaining r)%nat.
Proof.
  unfold Need. destruct (failed_ r); [done|]. destruct (_ <? _)%nat eqn:E; [done|]. bool_to_prop.
  intros [= <-]. done.
Qed.

Definition bytes_of (n : nat) (bs : bytes) : Prop := length bs = n ∧ Forall is_byte bs.

Lemma Accepts_FixedBytes n : Accepts (RFixedBytes n) (bytes_of n) (λ bs, bs).
Proof.
  apply Reads_Accepts; [intros bs [Hl _]; by apply Reads_View|].
  intros r bs r' [_ Hb Hp]. unfold RFixedBytes, View. destruct (Need n r) as [[|] r1] eqn:E; [|done].
  apply Need_inv in E as (-> & Hf & Hn). intros [= <- <-]. unfold Remaining in Hn. split.
  - split; [|by apply Forall_take, Forall_drop]. rewrite length_take, length_drop. lia.
  - exists (drop n (drop (position_ r) (rdata_ r))). by rewrite take_drop.
Qed.

Lemma le_bytes_surj l :
  Forall is_byte l → ∃ v, 0 <= v < 2 ^ (8 * Z.of_nat (length l)) ∧ le_bytes (length l) v = l.
Proof.
  induction 1 as [|b l Hb Hl (v & Hv & IH)]; [by exists 0|]. unfold is_byte in Hb.
  exists (b + 256 * v). cbn [length]. split.
  { replace (8 * Z.of_nat (S (length l))) with (8 + 8 * Z.of_nat (length l)) by lia.
    rewrite Z.pow_add_r by lia. change (2 ^ 8) with 256. lia. }
  assert (Hshift : Z.shiftr (b + 256 * v) 8 = v).
  { rewrite Z.shiftr_div_pow2 by lia. change (2 ^ 8) with 256. symmetry.
    apply (Z.div_unique _ _ _ b); lia. }
  unfold le_bytes in *. cbn [seq map]. f_equal.
  - rewrite Z.mul_0_r, Z.shiftr_0_r, land_255. change (2 ^ 8) with 256. symmetry.
    apply (Z.mod_unique _ _ v); lia.
  - rewrite <- seq_shift, map_map. rewrite <- IH at 2. apply map_ext. intros i. f_equal.
    replace (8 * Z.of_nat (S i)) with (8 + 8 * Z.of_nat i) by lia.
    by rewrite <- Z.shiftr_shiftr, Hshift by lia.
Qed.

Definition uint_of (n : nat) (v : Z) : Prop := 0 <= v < 2 ^ (8 * Z.of_nat n).

Lemma Accepts_UInt n : Accepts (RUint n) (uint_of n) (le_bytes n).
Proof.
  apply Reads_Accepts; [intros v Hv; by apply Reads_UInt|].
  intros r v r' Hok Hr.
  assert (Hn : failed_ r = false ∧ (n <= Remaining r)%nat).
  { unfold RUint in Hr. destruct (Need n r) as [[|] r1] eqn:E; [|done]. by apply Need_inv in E as (_ & ? & ?). }
  destruct Hn as [Hf Hn].
  destruct (le_bytes_surj (take n (drop (position_ r) (rdata_ r)))) as (v' & Hv' & Henc);
    [by apply Forall_take, Forall_drop, Hok|].
  assert (Hlen : length (take n (drop (position_ r) (rdata_ r))) = n)
    by (unfold Remaining in Hn; rewrite length_take, length_drop; lia).
  rewrite Hlen in *.
  assert (Hs : starts r (le_bytes n v')).
  { exists (drop n (drop (position_ r) (rdata_ r))). by rewrite Henc, take_drop. }
  pose proof (Reads_UInt n v' Hv' (take (position_ r) (rdata_ r)) (drop n (drop (position_ r) (rdata_ r)))) as Hread.
  rewrite Henc, take_drop, take_drop, length_take_le in Hread by apply Hok.
  destruct r as [d p f]. cbn [failed_ position_ rdata_] in *. subst f. rewrite Hread in Hr.
  injection Hr as <- _. done.
Qed.

Lemma Accepts_ext {A} (m : Reader A) P P' enc :
  (∀ x, P x ↔ P' x) → Accepts m P enc → Accepts m P' enc.
Proof. intros HP Hm r Hok x r'. by rewrite <- HP, (Hm r Hok x r'). Qed.

Definition u16_fits (v : Z) : Prop := 0 <= v <= 65535.

Lemma Accepts_U16 : Accepts RU16 u16_fits (le_bytes 2).
Proof. eapply Accepts_ext; [|apply Accepts_UInt]. intros x. unfold uint_of, u16_fits. simpl. lia. Qed.
Lemma Accepts_U32 : Accepts RU32 u32_fits (le_bytes 4).
Proof. eapply Accepts_ext; [|apply Accepts_UInt]. intros x. unfold uint_of, u32_fits, u32_max. simpl. lia. Qed.
Lemma Accepts_U64 : Accepts RU64 u64_fits (le_bytes 8).
Proof. eapply Accepts_ext; [|apply Accepts_UInt]. intros x. unfold uint_of, u64_fits, u64_max. simpl. lia. Qed.

Lemma RVarU64_inv r v r' :
  reader_ok r → RVarU64 r = (Some v, r') → u64_fits v ∧ starts r (varint_bytes v).
Proof.
  intros [_ Hb _] HR.
  destruct (RVarU64_loop_inv 10 0 0 r v r' eq_refl Hb ltac:(lia) HR)
    as (x & rest & Hx & _ & -> & Hd & _).
  change (2 ^ (7 * Z.of_nat 0)) with 1. rewrite Z.mul_1_r, Z.add_0_l.
  unfold varint_room in Hx. change (2 ^ (64 - 7 * Z.of_nat 0)) with (u64_max + 1) in Hx.
  split; [unfold u64_fits; lia|]. by exists rest.
Qed.

Lemma Accepts_VarU64 : Accepts RVarU64 u64_fits varint_bytes.
Proof. apply Reads_Accepts; [apply Reads_VarU64|]. intros r v r' Hok. by apply RVarU64_inv. Qed.

Lemma Accepts_Bool : Accepts RBool (λ _, True) bool_bytes.
Proof.
  apply Reads_Accepts; [intros b _; apply Reads_Bool|]. intros r b r' Hok. unfold RBool, rbind, fail_when, rret.
  destruct (RU8 r) as [[v|] r1] eqn:E; [|done]. apply RU8_inv in E as (Hf & _ & Hd).
  destruct (v >? 1) eqn:Ev; [done|]. intros [= <- _]. split; [done|].
  exists (drop (S (position_ r)) (rdata_ r)). rewrite Hd. unfold bool_bytes. simpl. f_equal.
  assert (Hv : is_byte v).
  { destruct Hok as [_ Hb _]. rewrite Forall_forall in Hb. apply Hb.
    rewrite <- (take_drop (position_ r)), Hd, elem_of_app. right. left. }
  unfold is_byte in Hv. rewrite Z.gtb_ltb in Ev. apply Z.ltb_ge in Ev.
  destruct (Z.eqb_spec v 1); lia.
Qed.

(** A text is a byte string with its length in front. *)
Definition text_of_bytes (bs : bytes) : bytes := varint_bytes (Z.of_nat (length bs)) ++ bs.
Definition text_ok (bs : bytes) : Prop := Z.of_nat (length bs) <= u64_max ∧ Forall is_byte bs.

Lemma Accepts_bind {A B} (g : B → A) (m : Reader A) (k : A → Reader B) Pa ea (P : B → Prop) e2 :
  Accepts m Pa ea →
  (∀ a, Pa a → Accepts (k a) (λ b, P b ∧ g b = a) e2) →
  (∀ b, P b → Pa (g b)) →
  Accepts (rbind m k) P (λ b, ea (g b) ++ e2 b).
Proof.
  intros Hm Hk HP r Hok b r'. unfold rbind. rewrite starts_app, length_app. split.
  - destruct (m r) as [[a|] r1] eqn:E; [|done]. apply Hm in E as (Ha & Hs & ->); [|done].
    intros ((Hb & <-) & Hs2 & ->)%Hk; [|done|by apply reader_ok_advance].
    by rewrite advance_advance.
  - intros (Hb & [Hs Hs2] & ->).
    rewrite (proj2 (Hm r Hok (g b) (advance (length (ea (g b))) r))) by (split_and!; auto).
    apply (Hk (g b) (HP b Hb)); [by apply reader_ok_advance|]. by rewrite advance_advance.
Qed.

Lemma Accepts_Text : Accepts RText text_ok text_of_bytes.
Proof.
  unfold RText, text_of_bytes.
  apply (Accepts_bind (λ bs, Z.of_nat (length bs)) RVarU64 _ u64_fits varint_bytes text_ok (λ bs, bs)).
  - apply Accepts_VarU64.
  - intros len Hlen r Hok bs r'. unfold fail_when.
    destruct (len >? Z.of_nat (length (rdata_ r))) eqn:E.
    + split; [done|]. intros ([_ <-] & Hs & _). apply starts_length in Hs; [|done]. unfold Remaining in Hs.
      rewrite Z.gtb_ltb in E. apply Z.ltb_lt in E. lia.
    + change (View (Z.to_nat len) r) with (RFixedBytes (Z.to_nat len) r).
      rewrite (Accepts_FixedBytes (Z.to_nat len) r Hok bs r'). unfold bytes_of, text_ok, u64_fits in *.
      split; (intros (H1 & H2 & ->); split_and!; try done; naive_solver lia).
  - intros bs [Hl _]. unfold u64_fits. lia.
Qed.

(** ** Combinators *)

Lemma Parses_read {E A} (m : Reader A) (e : E) P enc : Accepts m P enc → Parses (pread m e) P enc.
Proof.
  intros Hm r Hok x r'. rewrite <- (Hm r Hok x r'). unfold pread.
  destruct (m r) as [[y|] r1]; split; congruence.
Qed.

Lemma Parses_with_error {E E' A} (f : E → E') (p : Parser E A) P enc :
  Parses p P enc → Parses (with_error f p) P enc.
Proof.
  intros Hp r Hok x r'. rewrite <- (Hp r Hok x r'). unfold with_error.
  destruct (p r) as [[y|y] r1]; split; congruence.
Qed.

Lemma Parses_ext {E A} (p : Parser E A) P P' enc enc' :
  (∀ x, P x ↔ P' x) → (∀ x, P' x → enc x = enc' x) → Parses p P enc → Parses p P' enc'.
Proof.
  intros HP He Hp r Hok x r'. rewrite (Hp r Hok x r'), HP.
  split; intros (Hx & Hs & ->); (split; [done|]); [rewrite <- (He x Hx)|rewrite (He x Hx)]; done.
Qed.


Lemma Parses_ret {E A} (y : A) (P : A → Prop) enc :
  (∀ x, P x ↔ x = y) → enc y = [] → Parses (E := E) (pret y) P enc.
Proof.
  intros HP He r Hok x r'. unfold pret. rewrite HP. split.
  - intros [= <- <-]. rewrite He. split; [done|]. split; [by eexists|by rewrite advance_0].
  - intros (-> & _ & ->). by rewrite He, advance_0.
Qed.

Lemma Parses_fail {E A} (e : E) (P : A → Prop) enc : (∀ x, ¬ P x) → Parses (pfail e) P enc.
Proof. intros HP r Hok x r'. split; [done|]. intros (Hx & _). by apply HP in Hx. Qed.

(** One field: [g] reads it off the result. *)
Lemma Parses_bind {E A B} (g : B → A) (p : Parser E A) (k : A → Parser E B) Pa ea (P : B → Prop) enc e2 :
  Parses p Pa ea →
  (∀ b, P b → Pa (g b)) →
  (∀ b, enc b = ea (g b) ++ e2 b) →
  (∀ a, Pa a → Parses (k a) (λ b, P b ∧ g b = a) e2) →
  Parses (pbind p k) P enc.
Proof.
  intros Hp HP He Hk r Hok b r'. unfold pbind. rewrite He, starts_app, length_app. split.
  - destruct (p r) as [[e|a] r1] eqn:Er; [done|]. apply Hp in Er as (Ha & Hs & ->); [|done].
    intros ((Hb & <-) & Hs2 & ->)%Hk; [|done|by apply reader_ok_advance].
    by rewrite advance_advance.
  - intros (Hb & [Hs Hs2] & ->).
    rewrite (proj2 (Hp r Hok (g b) (advance (length (ea (g b))) r))) by (split_and!; auto).
    apply (Hk (g b) (HP b Hb)); [by apply reader_ok_advance|]. by rewrite advance_advance.
Qed.

(** An early return. *)
Lemma Parses_guard {E A} (c : bool) (e : E) (p : Parser E A) P enc :
  (∀ x, P x → c = false) → (c = false → Parses p P enc) →
  Parses (early pfail e when c ;; p) P enc.
Proof.
  intros Hc Hp. destruct c; [|by apply Hp]. intros r Hok x r'. split; [done|].
  intros (HP & _). by apply Hc in HP.
Qed.

(** The elements [new] read after [acc], each in the domain its predecessors leave. *)
Definition appended {A} (P : list A → A → Prop) (acc new : list A) : Prop :=
  ∀ i x, new !! i = Some x → P (acc ++ take i new) x.

Lemma appended_cons {A} (P : list A → A → Prop) acc x new :
  appended P acc (x :: new) ↔ P acc x ∧ appended P (acc ++ [x]) new.
Proof.
  split.
  - intros H. split; [specialize (H 0%nat x eq_refl); by rewrite app_nil_r in H|].
    intros i y Hy. specialize (H (S i) y Hy). by rewrite <- app_assoc.
  - intros [Hx Hnew] [|i] y Hy; simpl in *; [simplify_eq; by rewrite app_nil_r|].
    specialize (Hnew i y Hy). by rewrite <- app_assoc in Hnew.
Qed.

Lemma appended_Forall {A} (P : A → Prop) acc new : appended (λ _, P) acc new ↔ Forall P new.
Proof. rewrite Forall_lookup. done. Qed.

(** Elements that are good and whose keys are not among the keys before them. *)
Lemma appended_fresh {A B} (P : A → Prop) (f : A → B) acc new :
  appended (λ seen x, P x ∧ f x ∉ map f seen) acc new ↔
  Forall P new ∧ NoDup (map f new) ∧ ∀ y, y ∈ map f new → y ∉ map f acc.
Proof.
  revert acc. induction new as [|x new IH]; intros acc.
  - split; [|by intros _ ???]. intros _. split; [done|]. split; [constructor|]. intros y Hy. by apply elem_of_nil in Hy.
  - rewrite appended_cons, IH, Forall_cons. cbn [map]. rewrite NoDup_cons, map_app. cbn [map].
    setoid_rewrite elem_of_app. setoid_rewrite elem_of_cons. setoid_rewrite elem_of_nil. naive_solver.
Qed.

Lemma Parses_vec {E A} n (p : list A → Parser E A) P enc acc :
  (∀ acc, Parses (p acc) (P acc) enc) →
  Parses (pvec n p acc)
    (λ l, ∃ new, l = acc ++ new ∧ length new = n ∧ appended P acc new)
    (λ l, flat_map enc (drop (length acc) l)).
Proof.
  intros Hp. revert acc. induction n as [|n IH]; intros acc; cbn [pvec].
  - apply Parses_ret; [|by rewrite drop_all]. intros l. split.
    + by intros (new & -> & ->%nil_length_inv & _); rewrite app_nil_r.
    + intros ->. exists []. rewrite app_nil_r. by split_and!; [..|intros ??].
  - intros r Hok l r'. unfold pbind. split.
    + destruct (p acc r) as [[e|x] r1] eqn:Er; [done|]. apply Hp in Er as (Hx & Hs & ->); [|done].
      intros ((new & -> & Hn & Hall) & Hs2 & ->)%IH; [|by apply reader_ok_advance].
      rewrite drop_app_length in *.
      replace (drop (length acc) ((acc ++ [x]) ++ new)) with (x :: new)
        by (by rewrite <- app_assoc, drop_app_length).
      cbn [flat_map]. rewrite starts_app, length_app, advance_advance. split; [|done].
      exists (x :: new). rewrite <- app_assoc. split; [done|]. split; [simpl; lia|]. by apply appended_cons.
    + intros ((new & -> & Hn & Hall) & Hs & ->). destruct new as [|x new]; [done|].
      rewrite drop_app_length in *. cbn [flat_map] in *. rewrite starts_app in Hs. destruct Hs as [Hs Hs2].
      apply appended_cons in Hall as [Hx Hall].
      rewrite (proj2 (Hp acc r Hok x (advance (length (enc x)) r))) by (split_and!; auto).
      apply IH; [by apply reader_ok_advance|]. split.
      * exists new. rewrite <- app_assoc. split; [done|]. split; [simpl in Hn; lia|done].
      * replace (drop (length (acc ++ [x])) (acc ++ x :: new)) with new
          by (change (x :: new) with ([x] ++ new); by rewrite app_assoc, drop_app_length).
        rewrite length_app, advance_advance. done.
Qed.

(** ** Fields *)

(** An identifier that may be nil. *)
Definition pid_any {E} (tag : IdTag) (truncated : E) : Parser E (FixedId tag) :=
  let? bs := pread (RFixedBytes (kByteCount tag)) truncated in pret (FromBytes bs).

Definition pid {E} (tag : IdTag) (truncated nil : E) : Parser E (FixedId tag) :=
  let? x := pid_any tag truncated in
  early pfail nil when negb (IsValid x) ;; pret x.

Definition pstrong {E} (bound : Z) (missing range : E) : Parser E Z :=
  let? raw := pread RU64 missing in
  match TryFrom bound raw with Some value => pret value | None => pfail range end.

Definition penum {E} (T : Type) `{CppEnum T} (missing : E) (unknown : Z → E) : Parser E T :=
  let? raw := pread RU32 missing in
  early pfail (unknown raw) when negb (IsKnownEnumValue enum_names raw) ;;
  match enum_of_value raw with Some x => pret x | None => pfail (unknown raw) end.

Definition valid_id {tag} (x : FixedId tag) : Prop := id_wf x ∧ IsValid x = true.

Create HintDb parses discriminated.
#[export] Hint Resolve Parses_read Parses_with_error Accepts_FixedBytes Accepts_U16 Accepts_U32
  Accepts_U64 Accepts_VarU64 Accepts_Bool Accepts_Text : parses.

Lemma Parses_id_any {E} tag (truncated : E) : Parses (pid_any tag truncated) id_wf id_bytes.
Proof.
  eapply (Parses_bind id_bytes); [eauto with parses| |intros x; symmetry; apply app_nil_r|].
  - by intros [bs].
  - intros bs Hbs. apply Parses_ret; [|done]. intros [bs']. split; [by intros [_ <-]|].
    by intros [= ->].
Qed.

Lemma Parses_id {E} tag (truncated nil : E) : Parses (pid tag truncated nil) valid_id id_bytes.
Proof.
  eapply (Parses_bind id); [apply Parses_id_any|by intros x [? _]|intros x; symmetry; apply app_nil_r|].
  intros x Hx. apply Parses_guard; [intros y [[_ Hy] <-]; unfold id; by rewrite Hy|]. intros Hv%negb_false_iff.
  apply Parses_ret; [|done]. intros y. unfold valid_id, id. naive_solver.
Qed.

Lemma Parses_strong {E} bound (missing range : E) :
  bound <= u64_max → Parses (pstrong bound missing range) (λ v, 0 <= v <= bound) (le_bytes 8).
Proof.
  intros Hb. eapply (Parses_bind id); [eauto with parses| |intros x; symmetry; apply app_nil_r|].
  { intros v Hv. unfold u64_fits, id. lia. }
  intros v Hv r Hok x r'. unfold TryFrom. rewrite Z.gtb_ltb. unfold id, u64_fits in *.
  destruct (Z.ltb_spec bound v).
  - split; [done|]. lia.
  - apply (Parses_ret v (λ y, 0 <= y <= bound ∧ y = v) (λ _, [])); [intros y; lia|done|done].
Qed.

Lemma IsKnownEnumValue_value {E} `{CppEnum E} (x : E) :
  IsKnownEnumValue enum_names (enum_value x) = true.
Proof.
  destruct enum_ok as (_ & Hv & _ & Hn). unfold IsKnownEnumValue. apply negb_true_iff, String.eqb_neq.
  assert (Hin : enum_value x ∈ map entry_value enum_names).
  { rewrite <- Hv. apply list_elem_of_fmap_2, enum_complete. }
  clear Hv. induction enum_names as [|e table IH]; [by apply elem_of_nil in Hin|].
  apply Forall_cons in Hn as [He Hn]. cbn [EnumNameFromValue]. destruct (Z.eqb_spec (entry_value e) (enum_value x)); [done|].
  apply IH; [done|]. apply elem_of_cons in Hin as [Heq|]; [congruence|done].
Qed.

Lemma Parses_enum {E} T `{CppEnum T} (missing : E) unknown :
  Parses (penum T missing unknown) enum_fits enum_bytes.
Proof.
  eapply (Parses_bind enum_value); [eauto with parses|done|intros x; symmetry; apply app_nil_r|].
  intros raw Hraw. apply Parses_guard.
  { intros x [_ <-]. apply negb_false_iff, IsKnownEnumValue_value. }
  intros _. destruct (enum_of_value raw) as [x|] eqn:Ex.
  - apply Parses_ret; [|done]. intros y. apply enum_of_value_Some in Ex as <-. split.
    + intros [_ Heq]. by apply enum_value_inj.
    + by intros ->.
  - intros r Hok x r'. split; [done|]. intros ([_ <-] & _). by rewrite enum_of_value_value in Ex.
Qed.
#[export] Hint Resolve Parses_id_any Parses_id Parses_enum : parses.

Lemma Parses_u64 {E} (missing range : E) : Parses (pstrong u64_max missing range) u64_fits (le_bytes 8).
Proof. by apply Parses_strong. Qed.
#[export] Hint Resolve Parses_u64 : parses.

(** [n] elements that do not look at each other. *)
Definition pmany {E A} (n : Z) (p : Parser E A) : Parser E (list A) := pvec (Z.to_nat n) (λ _, p) [].

Lemma Parses_many {E A} n (p : Parser E A) P enc :
  Parses p P enc → 0 <= n →
  Parses (pmany n p) (λ l, Z.of_nat (length l) = n ∧ Forall P l) (flat_map enc).
Proof.
  intros Hp Hn. eapply Parses_ext; [| |apply (Parses_vec _ (λ _, p) (λ _, P) enc []); intros _; exact Hp].
  - intros l. cbn [app]. setoid_rewrite appended_Forall. split.
    + intros (new & -> & Hl & Hall). split; [lia|done].
    + intros [Hl Hall]. exists l. split; [done|]. split; [lia|done].
  - intros l _. cbn [length]. by rewrite drop_0.
Qed.

(** A 32-bit value with a bound of its own: one error for both problems. *)
Definition prange {E} (bound : Z) (invalid : E) : Parser E Z :=
  let? raw := pread RU32 invalid in
  match TryFrom bound raw with Some value => pret value | None => pfail invalid end.

Lemma Parses_range {E} bound (invalid : E) :
  bound <= u32_max → Parses (prange bound invalid) (λ v, 0 <= v <= bound) (le_bytes 4).
Proof.
  intros Hb. eapply (Parses_bind id); [eauto with parses| |intros x; symmetry; apply app_nil_r|].
  { intros v Hv. unfold u32_fits, id. lia. }
  intros v Hv r Hok x r'. unfold TryFrom. rewrite Z.gtb_ltb. unfold id, u32_fits in *.
  destruct (Z.ltb_spec bound v).
  - split; [done|]. lia.
  - apply (Parses_ret v (λ y, 0 <= y <= bound ∧ y = v) (λ _, [])); [intros y; lia|done|done].
Qed.

(** A text field, as the string its bytes spell. *)
Definition string_of_bytes (bs : bytes) : string :=
  String.string_of_list_ascii (map (λ b, Ascii.ascii_of_N (Z.to_N b)) bs).
Definition string_bytes (s : string) : bytes := text_of_bytes (text_bytes s).
Definition string_fits (s : string) : Prop := Z.of_nat (length (text_bytes s)) <= u64_max.

Definition ptext {E} (truncated : E) : Parser E string :=
  let? bs := pread RText truncated in pret (string_of_bytes bs).

Lemma text_string_bytes bs : Forall is_byte bs → text_bytes (string_of_bytes bs) = bs.
Proof.
  unfold text_bytes, string_of_bytes. rewrite String.list_ascii_of_string_of_list_ascii, map_map.
  induction 1 as [|b l Hb _ IH]; simpl; [done|]. f_equal; [|done]. unfold char_code, is_byte in *.
  rewrite Ascii.N_ascii_embedding by lia. lia.
Qed.

Lemma string_text_bytes s : string_of_bytes (text_bytes s) = s.
Proof.
  unfold text_bytes, string_of_bytes. rewrite map_map.
  rewrite (map_ext _ id), map_id by (intros c; unfold char_code; by rewrite N2Z.id, Ascii.ascii_N_embedding).
  apply String.string_of_list_ascii_of_string.
Qed.

Lemma text_bytes_byte s : Forall is_byte (text_bytes s).
Proof.
  apply Forall_map, Forall_forall. intros c _. unfold char_code, is_byte.
  pose proof (Ascii.N_ascii_bounded c). lia.
Qed.

Lemma Parses_text {E} (truncated : E) : Parses (ptext truncated) string_fits string_bytes.
Proof.
  eapply (Parses_bind text_bytes);
    [eauto with parses|by intros s Hs; split; [|apply text_bytes_byte]|intros s; symmetry; apply app_nil_r|].
  intros bs [Hl Hb]. apply Parses_ret; [|done]. intros s. split.
  - intros [_ <-]. by rewrite string_text_bytes.
  - intros ->. unfold string_fits. by rewrite text_string_bytes.
Qed.

(** A count within a limit, and that many elements. *)
Definition plist {E A} (missing too_many : E) (limit : Z) (p : Parser E A) : Parser E (list A) :=
  let? count := pread RVarU64 missing in
  early pfail too_many when (count >? limit) ;; pmany count p.

Definition at_most {A} (limit : Z) (P : A → Prop) (l : list A) : Prop :=
  Z.of_nat (length l) <= limit ∧ Forall P l.

Lemma Parses_list {E A} (missing too_many : E) limit (p : Parser E A) P enc :
  Parses p P enc → limit <= u64_max →
  Parses (plist missing too_many limit p) (at_most limit P) (list_bytes enc).
Proof.
  intros Hp Hlim. eapply (Parses_bind (λ l, Z.of_nat (length l)));
    [eauto with parses|intros l [? _]; unfold u64_fits; lia|reflexivity|].
  intros count Hcount. apply Parses_guard.
  { intros l [[? _] <-]. rewrite Z.gtb_ltb. by apply Z.ltb_ge. }
  intros Hle. rewrite Z.gtb_ltb, Z.ltb_ge in Hle.
  eapply Parses_ext; [| |apply (Parses_many count p P enc Hp); unfold u64_fits in *; lia].
  - intros l. unfold at_most. naive_solver lia.
  - done.
Qed.

(** A flag, and the value if it is set. *)
Definition poption {E A} (missing : E) (p : Parser E A) : Parser E (option A) :=
  let? has := pread RBool missing in
  if has then let? x := p in pret (Some x) else pret None.

Lemma Parses_option {E A} (missing : E) (p : Parser E A) P enc :
  Parses p P enc → Parses (poption missing p) (option_fits P) (option_bytes enc).
Proof.
  intros Hp. eapply (Parses_bind (λ o, bool_decide (is_Some o))
    _ _ _ _ _ _ (λ o, match o with Some x => enc x | None => [] end)); [eauto with parses|done|by intros [x|]|].
  intros [|] _.
  - intros r Hok o r'. unfold pbind. split.
    + destruct (p r) as [[e|x] r1] eqn:Er; [done|]. intros [= <- <-].
      apply Hp in Er as (Hx & Hs & ->); [|done]. by split_and!.
    + intros ((Ho & Hd) & Hs & ->). destruct o as [x|]; [|done].
      by rewrite (proj2 (Hp r Hok x (advance (length (enc x)) r))).
  - apply Parses_ret; [|done]. intros [x|]; [|done]. split; [intros [_ Hd]|]; done.
Qed.
#[export] Hint Resolve Parses_text Parses_list Parses_option : parses.

(** The whole input: what a decoder that insists on its end accepts. *)
Definition parse_all {E A} (p : Parser E A) (trailing : E) (data : bytes) : E + A :=
  match p (new_reader data) with
  | (inl e, _) => inl e
  | (inr x, r) => early inl trailing when negb (AtEnd r) ;; inr x
  end.

Lemma new_reader_ok data : Forall is_byte data → reader_ok (new_reader data).
Proof. intros Hd. constructor; simpl; [done|done|lia]. Qed.

Lemma parse_all_spec {E A} (p : Parser E A) (trailing : E) P enc data x :
  Parses p P enc → Forall is_byte data →
  parse_all p trailing data = inr x ↔ P x ∧ data = enc x.
Proof.
  intros Hp Hd. unfold parse_all. pose proof (Hp _ (new_reader_ok data Hd) x) as Hx.
  unfold starts in Hx. cbn [position_ rdata_ new_reader] in Hx. rewrite drop_0 in Hx. split.
  - destruct (p (new_reader data)) as [[e|y] r] eqn:Er; [done|].
    destruct (AtEnd r) eqn:Eend; [|done]. intros [= ->].
    destruct (proj1 (Hx r) eq_refl) as (HP & [rest Hrest] & ->). split; [done|].
    unfold AtEnd, advance in Eend. cbn [position_ rdata_ new_reader] in Eend. apply Nat.eqb_eq in Eend.
    rewrite Hrest, length_app in Eend. destruct rest; [by rewrite app_nil_r in Hrest|simpl in Eend; lia].
  - intros [HP Hdata]. rewrite (proj2 (Hx (advance (length (enc x)) (new_reader data)))).
    + unfold AtEnd, advance. cbn [position_ rdata_ new_reader]. rewrite Hdata. simpl. by rewrite Nat.eqb_refl.
    + split; [done|]. split; [|done]. exists []. by rewrite app_nil_r.
Qed.

(** Reads the next field of a record, which [g] projects. *)
Ltac parse_field g :=
  eapply (Parses_bind g);
  [ solve [eauto with parses]
  | let b := fresh "b" in intros b; intros; cbn beta in *; destruct_and?; auto
  | let b := fresh "b" in intros b; cbn beta; first [reflexivity|symmetry; apply app_nil_r]
  | intros ? ? ].

(** A test of what was read. *)
Ltac parse_guard :=
  apply Parses_guard; [let b := fresh "b" in intros b ?; cbn beta in *; destruct_and?|intros ?].

(** The record is built from the fields that were read. *)
Ltac parse_ret :=
  apply Parses_ret;
  [ let b := fresh "b" in intros b; cbn beta; split;
    [ intros; destruct_and?; destruct b; cbn in *; subst; reflexivity
    | intros ->; cbn; split_and?; auto ]
  | reflexivity ].

(** ** Encodings are bytes *)

Lemma varint_range n v : 0 <= v → Forall is_byte (varint n v).
Proof.
  revert v. induction n as [|n IH]; intros v Hv; [constructor|]. cbn [varint]. rewrite Z.geb_leb.
  destruct (Z.leb_spec 128 v).
  - constructor; [|apply IH, Z.shiftr_nonneg; lia]. unfold is_byte.
    assert (Hl : 0 <= Z.land v 127 < 128).
    { change 127 with (Z.ones 7). rewrite Z.land_ones by lia. by apply Z.mod_pos_bound. }
    assert (Hp : 0 < Z.lor (Z.land v 127) 128).
    { assert (0 <= Z.lor (Z.land v 127) 128) by (apply Z.lor_nonneg; lia).
      assert (Z.lor (Z.land v 127) 128 ≠ 0) by (intros [_ ?]%Z.lor_eq_0_iff; lia). lia. }
    split; [lia|]. change 256 with (2 ^ 8). apply Z.log2_lt_pow2; [done|].
    rewrite Z.log2_lor by lia. change (Z.log2 128) with 7.
    destruct (decide (Z.land v 127 = 0)) as [->|]; [done|].
    assert (Z.log2 (Z.land v 127) < 7) by (apply Z.log2_lt_pow2; lia). lia.
  - constructor; [unfold is_byte; lia|constructor].
Qed.

Lemma bool_bytes_range b : Forall is_byte (bool_bytes b).
Proof. unfold bool_bytes, is_byte. repeat constructor; destruct b; lia. Qed.
Lemma enum_bytes_range {E} `{CppEnum E} (x : E) : Forall is_byte (enum_bytes x).
Proof. apply le_bytes_range. Qed.
Lemma id_bytes_range {tag} (x : FixedId tag) : id_wf x → Forall is_byte (id_bytes x).
Proof. by intros [_ ?]. Qed.
Lemma valid_bytes_range {tag} (x : FixedId tag) : valid_id x → Forall is_byte (id_bytes x).
Proof. by intros [[_ ?] _]. Qed.
Lemma list_bytes_range {A} (P : A → Prop) (enc : A → bytes) l :
  Forall P l → (∀ x, P x → Forall is_byte (enc x)) → Forall is_byte (list_bytes enc l).
Proof.
  intros Hl Henc. unfold list_bytes. apply Forall_app. split; [apply varint_range; lia|].
  induction Hl as [|x l Hx _ IH]; [constructor|]. cbn [flat_map]. apply Forall_app. auto.
Qed.

Create HintDb bytes discriminated.
#[export] Hint Resolve le_bytes_range varint_range bool_bytes_range enum_bytes_range id_bytes_range
  valid_bytes_range text_bytes_byte : bytes.
Ltac bytes_range :=
  repeat lazymatch goal with |- Forall is_byte (_ ++ _) => apply Forall_app; split end;
  eauto with bytes.
