(* ===== verification/PlanCodec.v ===== *)
(** The decoders of identifiers, quantities, evidence, paths and costs that store.cpp
    and proto.cpp each define for themselves: the two copies differ in the wording
    of their detail texts only, so they are one definition over a [Wording]. *)

From S2P Require Import Prelude Canonical Sha256 Status Ids Codec Limits Graph Path Request View Result Parse.

Open Scope string_scope.
Open Scope list_scope.
Open Scope Z_scope.

Record Wording := MkWording {
  say_enum_missing : string → string; say_enum_unknown : string → Z → string;
  say_id_truncated : string → string; say_id_nil : string → string;
  say_missing : string → string; say_range : string → string;
  say_path_version : string; say_hop_source : string; say_hop_destination : string;
  say_static_cost : string; say_cost_hops : string; say_cost_overflow : string;
  say_cost_sum : string
}.

(** [name: problem] in proto.cpp, [name problem] in store.cpp. *)
Definition wire_wording : Wording :=
  let say problem name := name +:+ ": " +:+ problem in
  MkWording (say "missing value")
    (λ name raw, name +:+ ": unknown enumeration value " +:+ UIntToString raw)
    (say "truncated identifier") (say "nil identifier rejected")
    (say "missing value") (say "value out of range")
    "path encoding version mismatch" "hop source" "hop destination"
    "hop static cost is missing" "path cost hop count out of range"
    "path cost components overflow"
    "path cost does not equal the sum of its documented components".
Definition store_wording : Wording :=
  let say problem name := name +:+ " " +:+ problem in
  MkWording (say "is truncated")
    (λ name raw, name +:+ " has an unknown enumeration value " +:+ UIntToString raw)
    (say "is truncated") (say "is nil") (say "is truncated") (say "is out of range")
    "path encoding version is unsupported" "hop source node" "hop destination node"
    "hop static cost is truncated" "path cost hop count is out of range"
    "path cost does not equal the sum of its components"
    "path cost does not equal the sum of its components".

(** The counts a decoder compares against its limits; the fields are 32 bits wide. *)
Record limits_fit (limits : ResourceLimits) : Prop := {
  lf_hops : lim_max_hops limits <= u64_max;
  lf_explanations : max_explanation_entries limits <= u64_max;
  lf_forbidden : max_forbidden_ids limits <= u64_max;
  lf_classes : max_forbidden_domain_classes limits <= u64_max;
  lf_required : max_required_ids limits <= u64_max;
  lf_members : max_members_in_any_set limits <= u64_max;
  lf_capabilities : max_capability_requirements limits <= u64_max;
  lf_candidates : max_candidates_per_request limits <= u64_max
}.

Lemma default_limits_fit : limits_fit default_limits.
Proof. constructor; vm_compute; congruence. Qed.

(** [WriteCost] and [EncodeCost]. *)
Definition EncodeCost (cost : PathCost) (w : ByteWriter) : ByteWriter :=
  w |> U64 (c_total cost) |> U64 (c_hops_cost cost) |> U64 (c_static_cost cost)
    |> U64 (c_degraded_penalty cost) |> U64 (c_locality_penalty cost) |> U32 (c_hops cost)
    |> U32 (c_degraded_hops cost) |> U32 (c_locality_breaches cost).

Section decoders.
Context (w : Wording).

Definition decode_enum (T : Type) `{CppEnum T} (name : string) : Parser string T :=
  penum T (say_enum_missing w name) (say_enum_unknown w name).
Definition decode_id {tag} (name : string) : Parser string (FixedId tag) :=
  pid tag (say_id_truncated w name) (say_id_nil w name).
(** Every quantity read this way has the 64-bit bound. *)
Definition decode_strong (name : string) : Parser string Z :=
  pstrong u64_max (say_missing w name) (say_range w name).

Definition decode_generations : Parser string SnapshotGenerations :=
  let? topology := decode_strong "topology generation" in
  let? link_state := decode_strong "link-state generation" in
  let? ports := decode_strong "port generation" in
  let? capabilities := decode_strong "capability generation" in
  let? failure_domains := decode_strong "failure-domain generation" in
  let? epoch := decode_strong "fabric epoch" in
  let? policy := decode_strong "policy generation" in
  let? constraints := decode_strong "constraint generation" in
  pret (MkGenerations topology link_state ports capabilities failure_domains epoch policy
          constraints).

Definition decode_evidence : Parser string EvidenceVector :=
  let? snapshot := decode_id "snapshot identity" in
  let? generations := decode_generations in
  let? source := decode_enum EvidenceSource.t "evidence source" in
  let? publish_sequence := decode_strong "publish sequence" in
  pret (MkEvidence snapshot generations source publish_sequence).

Definition decode_hop : Parser string PathHop :=
  let? link := decode_id "hop link" in
  let? from := decode_id (say_hop_source w) in
  let? to := decode_id (say_hop_destination w) in
  let? from_port := decode_id "hop source port" in
  let? to_port := decode_id "hop destination port" in
  let? layer := decode_enum PathLayer.t "hop layer" in
  let? relationship := decode_enum RelationshipType.t "hop relationship" in
  let? structural_generation := decode_strong "hop structural generation" in
  let? static_cost := pread RU32 (say_static_cost w) in
  pret (MkHop link from to from_port to_port layer relationship structural_generation static_cost
          LinkState.kUnknown false).

Definition decode_path (limits : ResourceLimits) : Parser string CandidatePath :=
  let? version := pread RU32 (say_path_version w) in
  early pfail (say_path_version w) when negb (version =? kPathEncodingVersion) ;;
  let? source := decode_id "path source" in
  let? destination := decode_id "path destination" in
  let? layer := decode_enum PathLayer.t "path layer" in
  let too_long := "path hop count exceeds the configured limit" in
  let? hop_count := pread RVarU64 too_long in
  early pfail too_long when (hop_count >? lim_max_hops limits) ;;
  let? hops := pmany hop_count decode_hop in
  let path := MkPath source destination layer (source :: map h_to hops) hops in
  early pfail "decoded path is not well formed" when negb (IsWellFormed path) ;;
  early pfail "decoded path is not simple" when negb (IsSimple path) ;;
  pret path.

Definition decode_cost : Parser string PathCost :=
  let truncated := "path cost is truncated" in
  let? total := pread RU64 truncated in
  let? hops_cost := pread RU64 truncated in
  let? static_cost := pread RU64 truncated in
  let? degraded := pread RU64 truncated in
  let? locality := pread RU64 truncated in
  let? hops := pread RU32 truncated in
  let? degraded_hops := pread RU32 truncated in
  let? locality_breaches := pread RU32 truncated in
  early pfail (say_cost_hops w) when (hops >? kMaxHopCount) ;;
  let cost := MkCost hops_cost static_cost degraded locality total hops degraded_hops
                locality_breaches in
  match CheckedAdd hops_cost static_cost with
  | None => pfail (say_cost_overflow w)
  | Some accumulated =>
      match CheckedAdd accumulated degraded with
      | None => pfail (say_cost_overflow w)
      | Some accumulated =>
          early pfail (say_cost_sum w)
            when negb (bool_decide (CheckedAdd accumulated locality = Some total)) ;;
          early pfail "path cost penalty counts exceed the hop count"
            when ((degraded_hops >? hops) || (locality_breaches >? hops)) ;;
          pret cost
      end
  end.
End decoders.

(** ** What they accept *)

Definition evidence_ok (e : EvidenceVector) : Prop :=
  valid_id (ev_snapshot e) ∧ generations_typed (ev_generations e) ∧ u64_fits (ev_publish_sequence e).

(** A decoded hop carries no operational evidence. *)
Definition hop_ok (h : PathHop) : Prop :=
  valid_id (h_link h) ∧ valid_id (h_from h) ∧ valid_id (h_to h) ∧ valid_id (h_from_port h) ∧
  valid_id (h_to_port h) ∧ u64_fits (h_structural_generation h) ∧ u32_fits (h_static_cost h) ∧
  h_link_state h = LinkState.kUnknown ∧ h_degraded h = false.

Definition path_ok (limits : ResourceLimits) (p : CandidatePath) : Prop :=
  valid_id (p_source p) ∧ valid_id (p_destination p) ∧
  Z.of_nat (length (p_hops p)) <= lim_max_hops limits ∧ Forall hop_ok (p_hops p) ∧
  p_nodes p = p_source p :: map h_to (p_hops p) ∧ path_wf p ∧ NoDup (p_nodes p).

Definition cost_ok (c : PathCost) : Prop :=
  u64_fits (c_hops_cost c) ∧ u64_fits (c_static_cost c) ∧ u64_fits (c_degraded_penalty c) ∧
  u64_fits (c_locality_penalty c) ∧ u64_fits (c_total c) ∧ 0 <= c_hops c <= kMaxHopCount ∧
  0 <= c_degraded_hops c <= c_hops c ∧ 0 <= c_locality_breaches c <= c_hops c ∧
  c_total c =
    c_hops_cost c + c_static_cost c + c_degraded_penalty c + c_locality_penalty c.

Definition cost_bytes (c : PathCost) : bytes :=
  le_bytes 8 (c_total c) ++ le_bytes 8 (c_hops_cost c) ++ le_bytes 8 (c_static_cost c) ++
  le_bytes 8 (c_degraded_penalty c) ++ le_bytes 8 (c_locality_penalty c) ++
  le_bytes 4 (c_hops c) ++ le_bytes 4 (c_degraded_hops c) ++ le_bytes 4 (c_locality_breaches c).

Lemma Writes_cost c : Writes (EncodeCost c) (cost_bytes c).
Proof. unfold EncodeCost, cost_bytes. writes_pipeline. Qed.
#[export] Hint Resolve Writes_cost : writes.

Section exact.
Context (w : Wording).

Lemma Parses_decode_id tag name : Parses (decode_id w (tag := tag) name) valid_id id_bytes.
Proof. apply Parses_id. Qed.
Lemma Parses_decode_enum T `{CppEnum T} name : Parses (decode_enum w T name) enum_fits enum_bytes.
Proof. apply Parses_enum. Qed.
Lemma Parses_decode_strong name : Parses (decode_strong w name) u64_fits (le_bytes 8).
Proof. apply Parses_u64. Qed.
#[local] Hint Resolve Parses_decode_id Parses_decode_enum Parses_decode_strong : parses.

Lemma Parses_generations : Parses (decode_generations w) generations_typed generations_bytes.
Proof.
  unfold decode_generations, generations_typed, generations_bytes.
  parse_field g_topology. parse_field g_link_state. parse_field g_ports. parse_field g_capabilities.
  parse_field g_failure_domains. parse_field g_epoch. parse_field g_policy. parse_field g_constraints.
  parse_ret.
Qed.
#[local] Hint Resolve Parses_generations : parses.

Lemma Parses_evidence : Parses (decode_evidence w) evidence_ok evidence_bytes.
Proof.
  unfold decode_evidence, evidence_ok, evidence_bytes.
  parse_field ev_snapshot. parse_field ev_generations. parse_field ev_source.
  parse_field ev_publish_sequence. parse_ret.
Qed.

Lemma Parses_hop : Parses (decode_hop w) hop_ok hop_bytes.
Proof.
  unfold decode_hop, hop_ok, hop_bytes.
  parse_field h_link. parse_field h_from. parse_field h_to. parse_field h_from_port.
  parse_field h_to_port. parse_field h_layer. parse_field h_relationship.
  parse_field h_structural_generation. parse_field h_static_cost. parse_ret.
Qed.
#[local] Hint Resolve Parses_hop : parses.

Lemma Parses_path limits :
  lim_max_hops limits <= u64_max → Parses (decode_path w limits) (path_ok limits) path_bytes.
Proof.
  intros Hmax. unfold decode_path, path_ok, path_bytes, list_bytes. cbv zeta.
  parse_field (λ _ : CandidatePath, kPathEncodingVersion); [by split|].
  parse_guard; [subst; by rewrite Z.eqb_refl|].
  parse_field p_source. parse_field p_destination. parse_field p_layer.
  parse_field (λ p, Z.of_nat (length (p_hops p))).
  parse_guard; [subst; rewrite Z.gtb_ltb; by apply Z.ltb_ge|].
  eapply (Parses_bind p_hops);
    [apply Parses_many; [apply Parses_hop|unfold u64_fits in *; lia]
    |intros p ?; cbn beta in *; destruct_and?; by split
    |intros p; symmetry; apply app_nil_r|].
  intros hops [Hlen Hall].
  parse_guard.
  { destruct b; cbn in *; subst. apply negb_false_iff. by apply IsWellFormed_spec. }
  parse_guard.
  { destruct b; cbn in *; subst. apply negb_false_iff. by apply IsSimple_spec. }
  rewrite negb_false_iff in *.
  repeat match goal with
  | H : IsWellFormed _ = true |- _ => apply IsWellFormed_spec in H
  | H : IsSimple _ = true |- _ => apply IsSimple_spec in H
  end.
  bool_to_prop. parse_ret. lia.
Qed.

Lemma Parses_cost : Parses (decode_cost w) cost_ok cost_bytes.
Proof.
  unfold decode_cost, cost_ok, cost_bytes. cbv zeta.
  parse_field c_total. parse_field c_hops_cost. parse_field c_static_cost.
  parse_field c_degraded_penalty. parse_field c_locality_penalty.
  parse_field c_hops; [unfold u32_fits, kMaxHopCount, u32_max in *; lia|].
  parse_field c_degraded_hops; [unfold u32_fits, kMaxHopCount, u32_max in *; lia|].
  parse_field c_locality_breaches; [unfold u32_fits, kMaxHopCount, u32_max in *; lia|].
  parse_guard; [subst; rewrite Z.gtb_ltb; by apply Z.ltb_ge|].
  rewrite CheckedAdd_spec by done. destruct (Z.leb_spec (a0 + a1) u64_max) as [H01|H01].
  2:{ apply Parses_fail. intros b ?. destruct_and?. subst. unfold u64_fits in *. lia. }
  rewrite CheckedAdd_spec by (unfold u64_fits in *; lia).
  destruct (Z.leb_spec (a0 + a1 + a2) u64_max) as [H012|H012].
  2:{ apply Parses_fail. intros b ?. destruct_and?. subst. unfold u64_fits in *. lia. }
  assert (Hsum : CheckedAdd (a0 + a1 + a2) a3 = Some a ↔ a = a0 + a1 + a2 + a3).
  { rewrite CheckedAdd_Some by (unfold u64_fits in *; lia). unfold u64_fits in *. lia. }
  parse_guard; [subst; apply negb_false_iff, bool_decide_eq_true; by apply Hsum|].
  parse_guard; [subst; rewrite !Z.gtb_ltb; apply orb_false_iff; rewrite !Z.ltb_ge; lia|].
  rewrite negb_false_iff, bool_decide_eq_true, Hsum in *. bool_to_prop. unfold u32_fits in *.
  parse_ret; lia.
Qed.
End exact.
#[export] Hint Resolve Parses_decode_id Parses_decode_enum Parses_decode_strong Parses_generations
  Parses_evidence Parses_path Parses_cost : parses.
