(* ===== verification/Wire.v ===== *)
(** proto.hpp / proto.cpp: the framed wire protocol and the payloads of its messages.
    Every decoder is shown to be exact: it accepts an input exactly when the input
    is the canonical encoding of a well-formed value within the limits, and
    returns that value. *)

From S2P Require Import Prelude Canonical Sha256 Status Ids Codec Limits Graph Path Request View Result Parse.

Open Scope string_scope.
Open Scope list_scope.
Open Scope Z_scope.

Module WireMessage.
Inductive t : Set :=
  | kHello | kRegisterWorker | kPlanRequest | kPlanResult | kPlanError | kValidateCurrentness
  | kCurrentnessResult | kSnapshotRequest | kSnapshotResponse | kFenceNotice | kError
  | kShutdownWorker.

Definition all : list t :=
  [kHello; kRegisterWorker; kPlanRequest; kPlanResult; kPlanError; kValidateCurrentness;
  kCurrentnessResult; kSnapshotRequest; kSnapshotResponse; kFenceNotice; kError;
  kShutdownWorker].

Definition value (x : t) : Z :=
  match x with
  | kHello => 1 | kRegisterWorker => 2 | kPlanRequest => 3 | kPlanResult => 4
  | kPlanError => 5 | kValidateCurrentness => 6 | kCurrentnessResult => 7
  | kSnapshotRequest => 8 | kSnapshotResponse => 9 | kFenceNotice => 10 | kError => 11
  | kShutdownWorker => 12
  end.

Definition names : list EnumEntry := entries
  [("HELLO"%string, 1); ("REGISTER_WORKER"%string, 2); ("PLAN_REQUEST"%string, 3);
  ("PLAN_RESULT"%string, 4); ("PLAN_ERROR"%string, 5); ("VALIDATE_CURRENTNESS"%string, 6);
  ("CURRENTNESS_RESULT"%string, 7); ("SNAPSHOT_REQUEST"%string, 8);
  ("SNAPSHOT_RESPONSE"%string, 9); ("FENCE_NOTICE"%string, 10); ("ERROR"%string, 11);
  ("SHUTDOWN_WORKER"%string, 12)].

#[export] Instance enum : CppEnum t.
Proof. enum_instance value all names. Defined.
End WireMessage.

Module WireStatus.
Inductive t : Set :=
  | kOk | kMalformed | kVersionMismatch | kIntegrityMismatch | kUnknownMessage | kTooLarge
  | kTrailingBytes | kEpochStale | kWorkerFenced | kUnknownWorker | kSnapshotMismatch
  | kReceiveBoundExceeded | kSessionLimit | kNoWorkerAvailable | kInternal | kRequestMismatch
  | kUnsupported.

Definition all : list t :=
  [kOk; kMalformed; kVersionMismatch; kIntegrityMismatch; kUnknownMessage; kTooLarge;
  kTrailingBytes; kEpochStale; kWorkerFenced; kUnknownWorker; kSnapshotMismatch;
  kReceiveBoundExceeded; kSessionLimit; kNoWorkerAvailable; kInternal; kRequestMismatch;
  kUnsupported].

Definition value (x : t) : Z :=
  match x with
  | kOk => 1 | kMalformed => 2 | kVersionMismatch => 3 | kIntegrityMismatch => 4
  | kUnknownMessage => 5 | kTooLarge => 6 | kTrailingBytes => 7 | kEpochStale => 8
  | kWorkerFenced => 9 | kUnknownWorker => 10 | kSnapshotMismatch => 11
  | kReceiveBoundExceeded => 12 | kSessionLimit => 13 | kNoWorkerAvailable => 14
  | kInternal => 15 | kRequestMismatch => 16 | kUnsupported => 17
  end.

Definition names : list EnumEntry := entries
  [("OK"%string, 1); ("MALFORMED"%string, 2); ("VERSION_MISMATCH"%string, 3);
  ("INTEGRITY_MISMATCH"%string, 4); ("UNKNOWN_MESSAGE"%string, 5); ("TOO_LARGE"%string, 6);
  ("TRAILING_BYTES"%string, 7); ("EPOCH_STALE"%string, 8); ("WORKER_FENCED"%string, 9);
  ("UNKNOWN_WORKER"%string, 10); ("SNAPSHOT_MISMATCH"%string, 11);
  ("RECEIVE_BOUND_EXCEEDED"%string, 12); ("SESSION_LIMIT"%string, 13);
  ("NO_WORKER_AVAILABLE"%string, 14); ("INTERNAL"%string, 15);
  ("REQUEST_MISMATCH"%string, 16); ("UNSUPPORTED"%string, 17)].

#[export] Instance enum : CppEnum t.
Proof. enum_instance value all names. Defined.
End WireStatus.

#[export] Existing Instances WireMessage.enum WireStatus.enum.

Definition kWireProtocolVersion : Z := 1.
Definition kWireMagicValue : Z := 1313624144.
Definition kWireHeaderBytes : nat := 76.
Definition kWireIntegrityBytes : nat := 16.
Definition kHeaderIntegrityOffset : nat := kWireHeaderBytes - kWireIntegrityBytes.
Definition kWireFlagResponse : Z := 1.
Definition kWireFlagFenced : Z := 2.
Definition kWireKnownFlags : Z := Z.lor kWireFlagResponse kWireFlagFenced.

(** A failed decoding: the status and the detail text. *)
Definition WireError : Type := WireStatus.t * string.
Definition malformed (detail : string) : WireError := (WireStatus.kMalformed, detail).

Definition DiagnosticForWireStatus (status : WireStatus.t) : DiagnosticCode.t :=
  match status with
  | WireStatus.kVersionMismatch => DiagnosticCode.kProtocolVersionMismatch
  | WireStatus.kIntegrityMismatch => DiagnosticCode.kProtocolIntegrityMismatch
  | WireStatus.kUnknownMessage => DiagnosticCode.kProtocolUnknownMessage
  | WireStatus.kTrailingBytes => DiagnosticCode.kProtocolTrailingBytes
  | WireStatus.kTooLarge => DiagnosticCode.kProtocolMalformedFrame
  | WireStatus.kReceiveBoundExceeded => DiagnosticCode.kProtocolReceiveBoundExceeded
  | WireStatus.kSessionLimit => DiagnosticCode.kProtocolSessionLimit
  | WireStatus.kWorkerFenced => DiagnosticCode.kWorkerBootFenced
  | WireStatus.kEpochStale => DiagnosticCode.kCoordinatorEpochStale
  | _ => DiagnosticCode.kProtocolMalformedFrame
  end.

(** ** Frames *)

Record WireFrame := MkFrame {
  wf_type : WireMessage.t; wf_flags : Z; wf_coordinator_epoch : Z; wf_sequence : Z;
  wf_worker_boot : WorkerBootId; wf_request : PlanningRequestId; wf_payload : bytes
}.

Definition frame_header (frame : WireFrame) : ByteWriter :=
  new_writer (Z.of_nat kWireHeaderBytes)
    |> U32 kWireMagicValue |> U16 kWireProtocolVersion |> U16 (wf_flags frame)
    |> U32 (enum_value (wf_type frame)) |> U64 (wf_coordinator_epoch frame)
    |> U64 (wf_sequence frame) |> FixedBytes (id_bytes (wf_worker_boot frame))
    |> FixedBytes (id_bytes (wf_request frame))
    |> U32 (wrap32 (Z.of_nat (length (wf_payload frame)))) |> U32 0.

Definition EncodeFrame (frame : WireFrame) : bytes :=
  let header := frame_header frame in
  let hasher := new_Sha256 |> Update (data_ header) |> Update (wf_payload frame) in
  data_ header ++ take kWireIntegrityBytes (Finish hasher) ++ wf_payload frame.

(** The fields of the header, and the declared payload size. *)
Record WireHeader := MkHeader {
  wh_flags : Z; wh_type : WireMessage.t; wh_epoch : Z; wh_sequence : Z;
  wh_worker_boot : WorkerBootId; wh_request : PlanningRequestId; wh_payload_bytes : Z
}.

Definition DecodeHeader (max_frame_bytes : Z) : Parser WireError WireHeader :=
  let no_magic := malformed "frame magic mismatch" in
  let? magic := pread RU32 no_magic in
  early pfail no_magic when negb (magic =? kWireMagicValue) ;;
  let no_protocol := (WireStatus.kVersionMismatch, "unsupported wire protocol version") in
  let? protocol := pread RU16 no_protocol in
  early pfail no_protocol when negb (protocol =? kWireProtocolVersion) ;;
  let bad_flags := malformed "unknown frame flag bits" in
  let? flags := pread RU16 bad_flags in
  early pfail bad_flags when negb (Z.land flags (Z.lnot kWireKnownFlags) =? 0) ;;
  let unknown := (WireStatus.kUnknownMessage, "unknown message type") in
  let? type := penum WireMessage.t unknown (λ _, unknown) in
  let truncated := malformed "frame epoch or sequence is truncated" in
  let? epoch := pread RU64 truncated in
  let? sequence := pread RU64 truncated in
  let? worker_boot := pid_any _ (malformed "frame worker boot identity is truncated") in
  let? request := pid_any _ (malformed "frame request identity is truncated") in
  let short := malformed "frame length fields are truncated" in
  let? payload_bytes := pread RU32 short in
  let? reserved := pread RU32 short in
  early pfail (malformed "reserved header field must be zero") when negb (reserved =? 0) ;;
  early pfail (WireStatus.kTooLarge, "frame payload exceeds the configured ceiling")
    when (payload_bytes >? max_frame_bytes) ;;
  pret (MkHeader flags type epoch sequence worker_boot request payload_bytes).

Definition DecodeFrame (data : bytes) (max_frame_bytes : Z) : WireError + WireFrame :=
  early inl (malformed "frame shorter than the fixed header")
    when (length data <? kWireHeaderBytes)%nat ;;
  match (DecodeHeader max_frame_bytes (new_reader data)).1 with
  | inl error => inl error
  | inr h =>
      let declared_size := (kWireHeaderBytes + Z.to_nat (wh_payload_bytes h))%nat in
      early inl (malformed "frame is shorter than the declared payload size")
        when (length data <? declared_size)%nat ;;
      early inl (WireStatus.kTrailingBytes, "frame carries trailing bytes")
        when (declared_size <? length data)%nat ;;
      let hasher := new_Sha256 |> Update (take kHeaderIntegrityOffset data)
        |> Update (take (Z.to_nat (wh_payload_bytes h)) (drop kWireHeaderBytes data)) in
      early inl (WireStatus.kIntegrityMismatch, "frame integrity check failed")
        when negb (eqb (take kWireIntegrityBytes (drop kHeaderIntegrityOffset data))
                       (take kWireIntegrityBytes (Finish hasher))) ;;
      inr (MkFrame (wh_type h) (wh_flags h) (wh_epoch h) (wh_sequence h) (wh_worker_boot h)
             (wh_request h) (drop kWireHeaderBytes data))
  end.

(** *** Decoding inverts encoding, and nothing else is accepted *)

Definition header_bytes (h : WireHeader) : bytes :=
  le_bytes 4 kWireMagicValue ++ le_bytes 2 kWireProtocolVersion ++ le_bytes 2 (wh_flags h) ++
  enum_bytes (wh_type h) ++ le_bytes 8 (wh_epoch h) ++ le_bytes 8 (wh_sequence h) ++
  id_bytes (wh_worker_boot h) ++ id_bytes (wh_request h) ++ le_bytes 4 (wh_payload_bytes h) ++
  le_bytes 4 0.

Definition header_ok (max_frame_bytes : Z) (h : WireHeader) : Prop :=
  u16_fits (wh_flags h) ∧ Z.land (wh_flags h) (Z.lnot kWireKnownFlags) = 0 ∧
  u64_fits (wh_epoch h) ∧ u64_fits (wh_sequence h) ∧ id_wf (wh_worker_boot h) ∧
  id_wf (wh_request h) ∧ u32_fits (wh_payload_bytes h) ∧ wh_payload_bytes h <= max_frame_bytes.

Lemma Parses_header max_frame_bytes :
  Parses (DecodeHeader max_frame_bytes) (header_ok max_frame_bytes) header_bytes.
Proof.
  unfold DecodeHeader, header_ok, header_bytes. cbv zeta.
  parse_field (λ _ : WireHeader, kWireMagicValue); [by split|].
  parse_guard; [subst; by rewrite Z.eqb_refl|].
  parse_field (λ _ : WireHeader, kWireProtocolVersion); [by split|].
  parse_guard; [subst; by rewrite Z.eqb_refl|].
  parse_field wh_flags.
  parse_guard; [subst; by apply negb_false_iff, Z.eqb_eq|].
  parse_field wh_type.
  parse_field wh_epoch. parse_field wh_sequence. parse_field wh_worker_boot. parse_field wh_request.
  parse_field wh_payload_bytes.
  parse_field (λ _ : WireHeader, 0); [by split|].
  parse_guard; [subst; by rewrite Z.eqb_refl|].
  parse_guard; [subst; rewrite Z.gtb_ltb; by apply Z.ltb_ge|].
  bool_to_prop. parse_ret.
Qed.

(** What a frame can carry. *)
Record frame_ok (frame : WireFrame) : Prop := {
  fo_flags : u16_fits (wf_flags frame);
  fo_known : Z.land (wf_flags frame) (Z.lnot kWireKnownFlags) = 0;
  fo_epoch : u64_fits (wf_coordinator_epoch frame);
  fo_sequence : u64_fits (wf_sequence frame);
  fo_worker_boot : id_wf (wf_worker_boot frame);
  fo_request : id_wf (wf_request frame);
  fo_payload : Forall is_byte (wf_payload frame);
  fo_length : Z.of_nat (length (wf_payload frame)) <= u32_max
}.

Definition frame_fields (frame : WireFrame) : WireHeader :=
  MkHeader (wf_flags frame) (wf_type frame) (wf_coordinator_epoch frame) (wf_sequence frame)
    (wf_worker_boot frame) (wf_request frame) (Z.of_nat (length (wf_payload frame))).

Lemma length_header_bytes h :
  id_wf (wh_worker_boot h) → id_wf (wh_request h) → length (header_bytes h) = kHeaderIntegrityOffset.
Proof.
  intros [L1 _] [L2 _]. unfold header_bytes, enum_bytes.
  by rewrite !length_app, !length_le_bytes, L1, L2.
Qed.

Lemma EncodeFrame_bytes frame :
  frame_ok frame →
  EncodeFrame frame =
    header_bytes (frame_fields frame) ++
    take kWireIntegrityBytes (Hash (header_bytes (frame_fields frame) ++ wf_payload frame)) ++
    wf_payload frame.
Proof.
  intros Hok. assert (Hh : data_ (frame_header frame) = header_bytes (frame_fields frame)).
  { unfold frame_header. rewrite wrap32_small by (split; [lia|apply Hok]).
    assert (Hw : Writes (λ w, w |> U32 kWireMagicValue |> U16 kWireProtocolVersion |> U16 (wf_flags frame)
      |> U32 (enum_value (wf_type frame)) |> U64 (wf_coordinator_epoch frame)
      |> U64 (wf_sequence frame) |> FixedBytes (id_bytes (wf_worker_boot frame))
      |> FixedBytes (id_bytes (wf_request frame))
      |> U32 (Z.of_nat (length (wf_payload frame))) |> U32 0) (header_bytes (frame_fields frame)))
      by (unfold header_bytes; writes_pipeline).
    destruct (Writes_new_writer _ _ (Z.of_nat kWireHeaderBytes) Hw) as [Hov Hdata]; [lia|].
    apply Hdata, Hov. rewrite length_header_bytes by apply Hok. vm_compute. congruence. }
  unfold EncodeFrame. cbv zeta. by rewrite Hh, Hash_two.
Qed.

Lemma frame_slices (data : bytes) :
  (kWireHeaderBytes <= length data)%nat →
  data = take kHeaderIntegrityOffset data ++
         take kWireIntegrityBytes (drop kHeaderIntegrityOffset data) ++ drop kWireHeaderBytes data.
Proof.
  intros _. change kWireHeaderBytes with (kHeaderIntegrityOffset + kWireIntegrityBytes)%nat.
  by rewrite <- drop_drop, !take_drop.
Qed.

(** The frame codec is exact: an input decodes to a frame exactly when the frame
    is well formed, its payload is within the ceiling, and the input is byte for
    byte the frame's encoding; so every frame round trips and every other input
    (bad magic, version, flags, type, reserved field or length, trailing bytes, any
    change under the integrity check) is refused. *)
Lemma DecodeFrame_spec data max_frame_bytes frame :
  Forall is_byte data → max_frame_bytes <= u32_max →
  DecodeFrame data max_frame_bytes = inr frame ↔
  frame_ok frame ∧ Z.of_nat (length (wf_payload frame)) <= max_frame_bytes ∧
  data = EncodeFrame frame.
Proof.
  intros Hdata Hmax. unfold DecodeFrame.
  pose proof (Parses_header max_frame_bytes (new_reader data) (new_reader_ok data Hdata)) as Hp.
  unfold starts in Hp. cbn [position_ rdata_ new_reader] in Hp. rewrite drop_0 in Hp. split.
  - destruct (Nat.ltb_spec (length data) kWireHeaderBytes) as [|Hlen]; [done|].
    destruct (DecodeHeader max_frame_bytes (new_reader data)) as [[e|h] r'] eqn:Eh; [done|]. cbn [fst].
    destruct (proj1 (Hp h r') eq_refl) as (Hh & [rest Hrest] & _).
    destruct Hh as (Hfl & Hk & He & Hs & Hw & Hr & Hpb & Hle).
    pose proof (length_header_bytes h Hw Hr) as Hlh.
    cbv zeta. destruct (Nat.ltb_spec (length data) (kWireHeaderBytes + Z.to_nat (wh_payload_bytes h))) as [|H1]; [done|].
    destruct (Nat.ltb_spec (kWireHeaderBytes + Z.to_nat (wh_payload_bytes h)) (length data)) as [|H2]; [done|].
    destruct (eqb _ _) eqn:Ed; [|done]. apply eqb_eq in Ed. intros [= <-].
    assert (Hpl : length (drop kWireHeaderBytes data) = Z.to_nat (wh_payload_bytes h))
      by (rewrite length_drop; lia).
    unfold u32_fits in Hpb.
    assert (Htake : take kHeaderIntegrityOffset data = header_bytes h)
      by (rewrite Hrest, <- Hlh; apply take_app_length).
    rewrite Hash_two, Htake, (take_ge (drop kWireHeaderBytes data)) in Ed by lia.
    set (frame := MkFrame _ _ _ _ _ _ _).
    assert (Hfields : frame_fields frame = h).
    { unfold frame_fields, frame. cbn [wf_type wf_flags wf_coordinator_epoch wf_sequence wf_worker_boot
        wf_request wf_payload]. rewrite Hpl. destruct h. cbn in *. f_equal. lia. }
    assert (Hok : frame_ok frame).
    { constructor; try done; cbn [wf_payload frame]; [by apply Forall_drop|]. rewrite Hpl. lia. }
    split; [done|]. split; [cbn [wf_payload frame]; rewrite Hpl; lia|].
    rewrite (EncodeFrame_bytes frame Hok), Hfields. cbn [wf_payload frame]. rewrite <- Ed, <- Htake.
    by apply frame_slices.
  - intros (Hok & Hle & Henc). pose proof Hok as [Hfl Hk He Hs Hw Hr Hb Hl].
    rewrite (EncodeFrame_bytes frame Hok) in Henc.
    set (h := frame_fields frame) in *. set (check := take kWireIntegrityBytes (Hash _)) in *.
    pose proof (length_header_bytes h Hw Hr) as Hlh.
    assert (Hlc : length check = kWireIntegrityBytes)
      by (unfold check; rewrite length_take, length_Hash; done).
    assert (Hlen : length data = (kWireHeaderBytes + length (wf_payload frame))%nat).
    { by rewrite Henc, !length_app, Hlh, Hlc. }
    assert (Hh : header_ok max_frame_bytes h).
    { unfold header_ok, h, frame_fields, u32_fits. cbn. split_and!; try done; lia. }
    rewrite (proj2 (Nat.ltb_ge _ _)) by lia.
    rewrite (proj2 (Hp h (advance (length (header_bytes h)) (new_reader data))))
      by (split; [done|]; split; [by eexists|done]).
    cbn [fst]. cbv zeta. replace (Z.to_nat (wh_payload_bytes h)) with (length (wf_payload frame))
      by (unfold h, frame_fields; cbn [wh_payload_bytes]; lia).
    rewrite !(proj2 (Nat.ltb_ge _ _)) by lia.
    assert (Htake : take kHeaderIntegrityOffset data = header_bytes h)
      by (rewrite Henc, <- Hlh; apply take_app_length).
    assert (Hd1 : drop kHeaderIntegrityOffset data = check ++ wf_payload frame)
      by (rewrite Henc, <- Hlh; apply drop_app_length).
    assert (Hd2 : drop kWireHeaderBytes data = wf_payload frame).
    { change kWireHeaderBytes with (kHeaderIntegrityOffset + kWireIntegrityBytes)%nat.
      rewrite <- drop_drop, Hd1, <- Hlc. apply drop_app_length. }
    rewrite Hash_two, Htake, Hd1, Hd2, (take_ge (wf_payload frame)) by lia.
    rewrite <- Hlc at 1. rewrite take_app_length. fold check. rewrite eqb_refl. cbn [negb].
    by destruct frame.
Qed.

Definition demo_frame : WireFrame :=
  MkFrame WireMessage.kHello kWireFlagResponse 3 7 (nil_id _) (nil_id _) [1; 2; 3].

Lemma demo_frame_decodes : DecodeFrame (EncodeFrame demo_frame) 1024 = inr demo_frame.
Proof. vm_compute. reflexivity. Qed.

Lemma demo_frame_byte : Forall is_byte (EncodeFrame demo_frame).
Proof.
  unfold is_byte. apply (bool_decide_unpack _). vm_compute. exact I.
Qed.
