(* ===== verification/Payloads.v ===== *)
(** proto.cpp, the payload codecs of the short messages: the hello of a worker, plan
    errors, fence notices, snapshot responses, currentness queries and results. On a
    refused hello the caller's payload is partly overwritten in the source; the model
    returns the error only, as every caller discards the payload then. *)

From S2P Require Import Prelude Canonical Sha256 Status Ids Codec Limits Graph Path Request View Result Parse PlanCodec Wire.

Open Scope string_scope.
Open Scope list_scope.
Open Scope Z_scope.

(** ** The readers of proto.cpp *)

Definition DecodeEnumValue := decode_enum wire_wording.
Arguments DecodeEnumValue T {_} name.
Definition DecodeId {tag} := decode_id wire_wording (tag := tag).
Definition DecodeStrong := decode_strong wire_wording.
Definition DecodeGenerations := decode_generations wire_wording.
Definition DecodeEvidence := decode_evidence wire_wording.
Definition DecodePath (limits : ResourceLimits) := decode_path wire_wording limits.
Definition DecodeCost := decode_cost wire_wording.

(** A payload decoder: any refused read is MALFORMED, and the payload ends with the input. *)
Definition decode_payload {A} (p : Parser string A) (trailing : string) (data : bytes) :
  WireError + A :=
  parse_all (with_error malformed p) (WireStatus.kTrailingBytes, trailing) data.

Lemma decode_payload_spec {A} (p : Parser string A) trailing P enc data x :
  Parses p P enc → Forall is_byte data →
  decode_payload p trailing data = inr x ↔ P x ∧ data = enc x.
Proof. intros Hp Hd. by apply parse_all_spec; [apply Parses_with_error|]. Qed.

Lemma Parses_DecodeId tag name : Parses (DecodeId (tag := tag) name) valid_id id_bytes.
Proof. apply Parses_decode_id. Qed.
Lemma Parses_DecodeEnumValue T `{CppEnum T} name : Parses (DecodeEnumValue T name) enum_fits enum_bytes.
Proof. apply Parses_decode_enum. Qed.
Lemma Parses_DecodeStrong name : Parses (DecodeStrong name) u64_fits (le_bytes 8).
Proof. apply Parses_decode_strong. Qed.
Lemma Parses_DecodeGenerations : Parses DecodeGenerations generations_typed generations_bytes.
Proof. apply Parses_generations. Qed.
Lemma Parses_DecodeEvidence : Parses DecodeEvidence evidence_ok evidence_bytes.
Proof. apply Parses_evidence. Qed.
Lemma Parses_DecodePath limits :
  lim_max_hops limits <= u64_max → Parses (DecodePath limits) (path_ok limits) path_bytes.
Proof. apply Parses_path. Qed.
Lemma Parses_DecodeCost : Parses DecodeCost cost_ok cost_bytes.
Proof. apply Parses_cost. Qed.
#[export] Hint Resolve Parses_DecodePath Parses_DecodeCost Parses_DecodeId Parses_DecodeEnumValue Parses_DecodeStrong
  Parses_DecodeGenerations Parses_DecodeEvidence : parses.

Lemma Writes_string s : Writes (Text s) (string_bytes s).
Proof. apply Writes_Text. Qed.
#[export] Hint Resolve Writes_string : writes.

(** [writer.Bool(o.has_value()); if (o.has_value()) op( *o)]. *)
Definition write_option {A} (op : A → ByteWriter → ByteWriter) (o : option A) (w : ByteWriter) :
  ByteWriter :=
  match o with Some x => w |> Bool true |> op x | None => w |> Bool false end.

Lemma Writes_option {A} (op : A → ByteWriter → ByteWriter) enc o :
  (∀ x, Writes (op x) (enc x)) → Writes (write_option op o) (option_bytes enc o).
Proof.
  intros Hop. destruct o as [x|]; cbn [write_option option_bytes]; [|apply Writes_bool].
  apply (Writes_comp (Bool true) (op x)); [apply Writes_bool|apply Hop].
Qed.

(** ** Hello *)

Record HelloPayload := MkHello {
  hl_publisher : PublisherId; hl_boot : WorkerBootId; hl_coordinator_epoch : Z;
  hl_snapshot : SnapshotId; hl_generations : SnapshotGenerations; hl_node_count : Z;
  hl_edge_count : Z
}.

Definition EncodeHelloPayload (p : HelloPayload) (w : ByteWriter) : ByteWriter :=
  w |> FixedBytes (id_bytes (hl_publisher p)) |> FixedBytes (id_bytes (hl_boot p))
    |> U64 (hl_coordinator_epoch p) |> FixedBytes (id_bytes (hl_snapshot p))
    |> EncodeGenerations (hl_generations p) |> U32 (hl_node_count p) |> U32 (hl_edge_count p).

Definition hello_payload : Parser string HelloPayload :=
  let? publisher := DecodeId "publisher identity" in
  let? boot := DecodeId "worker boot identity" in
  let? coordinator_epoch := DecodeStrong "coordinator epoch" in
  let? snapshot := DecodeId "snapshot identity" in
  let? generations := DecodeGenerations in
  let? nodes := pread RU32 "hello payload is truncated" in
  let? edges := pread RU32 "hello payload is truncated" in
  pret (MkHello publisher boot coordinator_epoch snapshot generations nodes edges).
Definition DecodeHelloPayload : bytes → WireError + HelloPayload :=
  decode_payload hello_payload "hello payload carries trailing bytes".

Definition hello_ok (p : HelloPayload) : Prop :=
  valid_id (hl_publisher p) ∧ valid_id (hl_boot p) ∧ u64_fits (hl_coordinator_epoch p) ∧
  valid_id (hl_snapshot p) ∧ generations_typed (hl_generations p) ∧ u32_fits (hl_node_count p) ∧
  u32_fits (hl_edge_count p).
Definition hello_bytes (p : HelloPayload) : bytes :=
  id_bytes (hl_publisher p) ++ id_bytes (hl_boot p) ++ le_bytes 8 (hl_coordinator_epoch p) ++
  id_bytes (hl_snapshot p) ++ generations_bytes (hl_generations p) ++
  le_bytes 4 (hl_node_count p) ++ le_bytes 4 (hl_edge_count p).

Lemma Writes_hello p : Writes (EncodeHelloPayload p) (hello_bytes p).
Proof. unfold EncodeHelloPayload, hello_bytes. writes_pipeline. Qed.
Lemma Parses_hello : Parses hello_payload hello_ok hello_bytes.
Proof.
  unfold hello_payload, hello_ok, hello_bytes.
  parse_field hl_publisher. parse_field hl_boot. parse_field hl_coordinator_epoch.
  parse_field hl_snapshot. parse_field hl_generations. parse_field hl_node_count.
  parse_field hl_edge_count. parse_ret.
Qed.

(** ** Plan errors and fence notices *)

Record PlanErrorPayload := MkPlanError {
  pe_request : PlanningRequestId; pe_status : WireStatus.t; pe_plan_status : PlanStatus.t;
  pe_code : DiagnosticCode.t; pe_detail : string
}.

Definition EncodePlanErrorPayload (p : PlanErrorPayload) (w : ByteWriter) : ByteWriter :=
  w |> FixedBytes (id_bytes (pe_request p)) |> U32 (enum_value (pe_status p))
    |> U32 (enum_value (pe_plan_status p)) |> U32 (enum_value (pe_code p)) |> Text (pe_detail p).

Definition plan_error_payload : Parser string PlanErrorPayload :=
  let? request := DecodeId "request identity" in
  let? status := DecodeEnumValue WireStatus.t "wire status" in
  let? plan_status := DecodeEnumValue PlanStatus.t "plan status" in
  let? code := DecodeEnumValue DiagnosticCode.t "diagnostic code" in
  let? detail := ptext "error detail is truncated" in
  pret (MkPlanError request status plan_status code detail).
Definition DecodePlanErrorPayload : bytes → WireError + PlanErrorPayload :=
  decode_payload plan_error_payload "error payload carries trailing bytes".

Definition plan_error_ok (p : PlanErrorPayload) : Prop :=
  valid_id (pe_request p) ∧ string_fits (pe_detail p).
Definition plan_error_bytes (p : PlanErrorPayload) : bytes :=
  id_bytes (pe_request p) ++ enum_bytes (pe_status p) ++ enum_bytes (pe_plan_status p) ++
  enum_bytes (pe_code p) ++ string_bytes (pe_detail p).

Record FenceNoticePayload := MkFence {
  fn_boot : WorkerBootId; fn_status : WireStatus.t; fn_code : DiagnosticCode.t; fn_detail : string
}.

Definition EncodeFenceNoticePayload (p : FenceNoticePayload) (w : ByteWriter) : ByteWriter :=
  w |> FixedBytes (id_bytes (fn_boot p)) |> U32 (enum_value (fn_status p))
    |> U32 (enum_value (fn_code p)) |> Text (fn_detail p).

Definition fence_payload : Parser string FenceNoticePayload :=
  let? boot := DecodeId "worker boot identity" in
  let? status := DecodeEnumValue WireStatus.t "wire status" in
  let? code := DecodeEnumValue DiagnosticCode.t "diagnostic code" in
  let? detail := ptext "fence detail is truncated" in
  pret (MkFence boot status code detail).
Definition DecodeFenceNoticePayload : bytes → WireError + FenceNoticePayload :=
  decode_payload fence_payload "fence payload carries trailing bytes".

Definition fence_ok (p : FenceNoticePayload) : Prop :=
  valid_id (fn_boot p) ∧ string_fits (fn_detail p).
Definition fence_bytes (p : FenceNoticePayload) : bytes :=
  id_bytes (fn_boot p) ++ enum_bytes (fn_status p) ++ enum_bytes (fn_code p) ++
  string_bytes (fn_detail p).

Lemma Writes_plan_error p : Writes (EncodePlanErrorPayload p) (plan_error_bytes p).
Proof. unfold EncodePlanErrorPayload, plan_error_bytes. writes_pipeline. Qed.
Lemma Parses_plan_error : Parses plan_error_payload plan_error_ok plan_error_bytes.
Proof.
  unfold plan_error_payload, plan_error_ok, plan_error_bytes.
  parse_field pe_request. parse_field pe_status. parse_field pe_plan_status. parse_field pe_code.
  parse_field pe_detail. parse_ret.
Qed.

Lemma Writes_fence p : Writes (EncodeFenceNoticePayload p) (fence_bytes p).
Proof. unfold EncodeFenceNoticePayload, fence_bytes. writes_pipeline. Qed.
Lemma Parses_fence : Parses fence_payload fence_ok fence_bytes.
Proof.
  unfold fence_payload, fence_ok, fence_bytes.
  parse_field fn_boot. parse_field fn_status. parse_field fn_code. parse_field fn_detail. parse_ret.
Qed.

(** ** Snapshot responses *)

Record SnapshotResponsePayload := MkSnapshotResponse {
  sr_snapshot : SnapshotId; sr_generations : SnapshotGenerations; sr_node_count : Z;
  sr_edge_count : Z
}.

Definition EncodeSnapshotResponsePayload (p : SnapshotResponsePayload) (w : ByteWriter) : ByteWriter :=
  w |> FixedBytes (id_bytes (sr_snapshot p)) |> EncodeGenerations (sr_generations p)
    |> U32 (sr_node_count p) |> U32 (sr_edge_count p).

Definition snapshot_response_payload : Parser string SnapshotResponsePayload :=
  let? snapshot := DecodeId "snapshot identity" in
  let? generations := DecodeGenerations in
  let? nodes := pread RU32 "snapshot response is truncated" in
  let? edges := pread RU32 "snapshot response is truncated" in
  pret (MkSnapshotResponse snapshot generations nodes edges).
Definition DecodeSnapshotResponsePayload : bytes → WireError + SnapshotResponsePayload :=
  decode_payload snapshot_response_payload "snapshot response carries trailing bytes".

Definition snapshot_response_ok (p : SnapshotResponsePayload) : Prop :=
  valid_id (sr_snapshot p) ∧ generations_typed (sr_generations p) ∧ u32_fits (sr_node_count p) ∧
  u32_fits (sr_edge_count p).
Definition snapshot_response_bytes (p : SnapshotResponsePayload) : bytes :=
  id_bytes (sr_snapshot p) ++ generations_bytes (sr_generations p) ++
  le_bytes 4 (sr_node_count p) ++ le_bytes 4 (sr_edge_count p).

Lemma Writes_snapshot_response p :
  Writes (EncodeSnapshotResponsePayload p) (snapshot_response_bytes p).
Proof. unfold EncodeSnapshotResponsePayload, snapshot_response_bytes. writes_pipeline. Qed.
Lemma Parses_snapshot_response :
  Parses snapshot_response_payload snapshot_response_ok snapshot_response_bytes.
Proof.
  unfold snapshot_response_payload, snapshot_response_ok, snapshot_response_bytes.
  parse_field sr_snapshot. parse_field sr_generations. parse_field sr_node_count.
  parse_field sr_edge_count. parse_ret.
Qed.

(** ** Currentness queries and results *)

Record CurrentnessQueryPayload := MkCurrentnessQuery {
  cq_plan : PathPlanId; cq_evidence : EvidenceVector; cq_request : PlanningRequestId
}.

Definition EncodeCurrentnessQueryPayload (p : CurrentnessQueryPayload) (w : ByteWriter) : ByteWriter :=
  w |> FixedBytes (id_bytes (cq_plan p)) |> FixedBytes (id_bytes (cq_request p))
    |> EncodeEvidence (cq_evidence p).

Definition currentness_query_payload : Parser string CurrentnessQueryPayload :=
  let? plan := DecodeId "plan identity" in
  let? request := DecodeId "request identity" in
  let? evidence := DecodeEvidence in
  pret (MkCurrentnessQuery plan evidence request).
Definition DecodeCurrentnessQueryPayload : bytes → WireError + CurrentnessQueryPayload :=
  decode_payload currentness_query_payload "currentness query carries trailing bytes".

Definition currentness_query_ok (p : CurrentnessQueryPayload) : Prop :=
  valid_id (cq_plan p) ∧ valid_id (cq_request p) ∧ evidence_ok (cq_evidence p).
Definition currentness_query_bytes (p : CurrentnessQueryPayload) : bytes :=
  id_bytes (cq_plan p) ++ id_bytes (cq_request p) ++ evidence_bytes (cq_evidence p).

Lemma Writes_currentness_query p :
  Writes (EncodeCurrentnessQueryPayload p) (currentness_query_bytes p).
Proof. unfold EncodeCurrentnessQueryPayload, currentness_query_bytes. writes_pipeline. Qed.
Lemma Parses_currentness_query :
  Parses currentness_query_payload currentness_query_ok currentness_query_bytes.
Proof.
  unfold currentness_query_payload, currentness_query_ok, currentness_query_bytes.
  parse_field cq_plan. parse_field cq_request. parse_field cq_evidence. parse_ret.
Qed.

(** An explanation entry, in the wording of the message that carries it. *)
Definition EncodeExplanation (e : ExplanationEntry) (w : ByteWriter) : ByteWriter :=
  w |> U32 (enum_value (xe_code e)) |> Text (xe_detail e).
Definition decode_explanation (name truncated : string) : Parser string ExplanationEntry :=
  let? code := DecodeEnumValue DiagnosticCode.t name in
  let? detail := ptext truncated in
  pret (MkExplanation code detail).
Definition explanation_ok (e : ExplanationEntry) : Prop := string_fits (xe_detail e).
Definition explanation_bytes (e : ExplanationEntry) : bytes :=
  enum_bytes (xe_code e) ++ string_bytes (xe_detail e).

Lemma Writes_explanation e : Writes (EncodeExplanation e) (explanation_bytes e).
Proof. unfold EncodeExplanation, explanation_bytes. writes_pipeline. Qed.
#[export] Hint Resolve Writes_explanation : writes.
Lemma Parses_explanation name truncated :
  Parses (decode_explanation name truncated) explanation_ok explanation_bytes.
Proof.
  unfold decode_explanation, explanation_ok, explanation_bytes.
  parse_field xe_code. parse_field xe_detail. parse_ret.
Qed.
#[export] Hint Resolve Parses_explanation : parses.

Record CurrentnessResultPayload := MkCurrentnessResult {
  cw_plan : PathPlanId; cw_currentness : Currentness.t; cw_changes : list ExplanationEntry
}.

Definition EncodeCurrentnessResultPayload (p : CurrentnessResultPayload) (w : ByteWriter) : ByteWriter :=
  w |> FixedBytes (id_bytes (cw_plan p)) |> U32 (enum_value (cw_currentness p))
    |> write_list EncodeExplanation (cw_changes p).

Definition currentness_result_payload (limits : ResourceLimits) :
  Parser string CurrentnessResultPayload :=
  let? plan := DecodeId "plan identity" in
  let? currentness := DecodeEnumValue Currentness.t "currentness" in
  let too_many := "change count exceeds the configured limit" in
  let? changes := plist too_many too_many (max_explanation_entries limits)
    (decode_explanation "change code" "change detail is truncated") in
  pret (MkCurrentnessResult plan currentness changes).
Definition DecodeCurrentnessResultPayload (data : bytes) (limits : ResourceLimits) :
  WireError + CurrentnessResultPayload :=
  decode_payload (currentness_result_payload limits) "currentness result carries trailing bytes" data.

Definition currentness_result_ok (limits : ResourceLimits) (p : CurrentnessResultPayload) : Prop :=
  valid_id (cw_plan p) ∧ at_most (max_explanation_entries limits) explanation_ok (cw_changes p).
Definition currentness_result_bytes (p : CurrentnessResultPayload) : bytes :=
  id_bytes (cw_plan p) ++ enum_bytes (cw_currentness p) ++
  list_bytes explanation_bytes (cw_changes p).

Lemma Writes_currentness_result p :
  Writes (EncodeCurrentnessResultPayload p) (currentness_result_bytes p).
Proof. unfold EncodeCurrentnessResultPayload, currentness_result_bytes. writes_pipeline. Qed.
Lemma Parses_currentness_result limits :
  max_explanation_entries limits <= u64_max →
  Parses (currentness_result_payload limits) (currentness_result_ok limits) currentness_result_bytes.
Proof.
  intros Hlim. unfold currentness_result_payload, currentness_result_ok, currentness_result_bytes.
  parse_field cw_plan. parse_field cw_currentness. parse_field cw_changes. parse_ret.
Qed.

(** ** Exactness *)

(** A strict codec: an input decodes to a value exactly when the value is well formed
    and the input is what the encoder writes for it, given room enough. *)
Definition codec_exact {A} (encode : A → ByteWriter → ByteWriter) (decode : bytes → WireError + A)
    (ok : A → Prop) : Prop :=
  ∀ data x, Forall is_byte data →
    decode data = inr x ↔
    ok x ∧ ∃ ceiling, 0 <= ceiling ∧ let w := encode x (new_writer ceiling) in
      overflowed_ w = false ∧ data = data_ w.

Lemma written_bytes (op : ByteWriter → ByteWriter) bs data :
  Writes op bs →
  data = bs ↔ ∃ ceiling, 0 <= ceiling ∧ let w := op (new_writer ceiling) in
                overflowed_ w = false ∧ data = data_ w.
Proof.
  intros Hw. split.
  - intros ->. exists (Z.of_nat (length bs)). split; [lia|].
    destruct (Writes_new_writer _ _ (Z.of_nat (length bs)) Hw) as [Hov Hd]; [lia|].
    cbv zeta in *. assert (overflowed_ (op (new_writer (Z.of_nat (length bs)))) = false) by (apply Hov; lia).
    split; [done|]. symmetry. by apply Hd.
  - intros (c & Hc & Hov & ->). destruct (Writes_new_writer _ _ c Hw Hc) as [_ Hd]. by apply Hd.
Qed.

Lemma decode_payload_exact {A} (encode : A → ByteWriter → ByteWriter) (p : Parser string A) trailing P enc :
  (∀ x, Writes (encode x) (enc x)) → Parses p P enc →
  codec_exact encode (decode_payload p trailing) P.
Proof.
  intros Hw Hp data x Hd. rewrite (decode_payload_spec p trailing P enc data x Hp Hd).
  by rewrite (written_bytes _ _ data (Hw x)).
Qed.

(** Every short message of the protocol has a strict codec: hellos, plan errors,
    fence notices, snapshot responses, currentness queries and currentness results
    decode exactly from the encodings of the payloads whose identifiers are set and
    whose lists are within the limits; a truncated, over-long, unknown-valued or
    trailing input is refused. *)
Theorem messages_exact limits :
  max_explanation_entries limits <= u64_max →
  codec_exact EncodeHelloPayload DecodeHelloPayload hello_ok ∧
  codec_exact EncodePlanErrorPayload DecodePlanErrorPayload plan_error_ok ∧
  codec_exact EncodeFenceNoticePayload DecodeFenceNoticePayload fence_ok ∧
  codec_exact EncodeSnapshotResponsePayload DecodeSnapshotResponsePayload snapshot_response_ok ∧
  codec_exact EncodeCurrentnessQueryPayload DecodeCurrentnessQueryPayload currentness_query_ok ∧
  codec_exact EncodeCurrentnessResultPayload (λ data, DecodeCurrentnessResultPayload data limits)
    (currentness_result_ok limits).
Proof.
  intros Hlim.
  split; [exact (decode_payload_exact _ _ _ _ _ Writes_hello Parses_hello)|].
  split; [exact (decode_payload_exact _ _ _ _ _ Writes_plan_error Parses_plan_error)|].
  split; [exact (decode_payload_exact _ _ _ _ _ Writes_fence Parses_fence)|].
  split; [exact (decode_payload_exact _ _ _ _ _ Writes_snapshot_response Parses_snapshot_response)|].
  split; [exact (decode_payload_exact _ _ _ _ _ Writes_currentness_query Parses_currentness_query)|].
  exact (decode_payload_exact _ _ _ _ _ Writes_currentness_result (Parses_currentness_result limits Hlim)).
Qed.

Lemma messages_exact_witness :
  codec_exact EncodeCurrentnessResultPayload
    (λ data, DecodeCurrentnessResultPayload data default_limits) (currentness_result_ok default_limits).
Proof. apply (messages_exact default_limits). vm_compute. congruence. Defined.
