(* ===== verification/RequestCodec.v ===== *)
(** proto.cpp, the payload of a planning request: the widest message of the protocol.
    The decoder reads every field in the order of the encoder, with the counts
    checked against the limits before anything is read, and then validates the
    request as a whole; so it accepts exactly the encodings of valid requests. *)

From S2P Require Import Prelude Canonical Sha256 Status Ids Codec Limits Graph Path Request View Result Parse PlanCodec Wire Payloads.

Open Scope string_scope.
Open Scope list_scope.
Open Scope Z_scope.

(** ** Encoding *)

Definition write_ids {tag} (ids : list (FixedId tag)) : ByteWriter → ByteWriter :=
  write_list (λ x, FixedBytes (id_bytes x)) ids.

Definition EncodeEndpointRef (e : EndpointRef) (w : ByteWriter) : ByteWriter :=
  w |> FixedBytes (id_bytes (er_id e)) |> U32 (enum_value (er_class e)) |> U64 (er_generation e).
Definition EncodeStage (s : TransitStage) (w : ByteWriter) : ByteWriter :=
  w |> U32 (enum_value (ts_kind s)) |> write_ids (ts_alternatives s).
Definition EncodeRequirement (r : CapabilityRequirement) (w : ByteWriter) : ByteWriter :=
  w |> FixedBytes (id_bytes (cr_capability r)) |> U32 (enum_value (cr_scope r))
    |> U32 (enum_value (cr_comparator r)) |> U64 (cr_value r).

Definition EncodeConstraints (c : ConstraintSet) (w : ByteWriter) : ByteWriter :=
  w |> FixedBytes (id_bytes (cs_id c)) |> U64 (cs_generation c) |> U32 (enum_value (cs_layer c))
    |> write_ids (cs_forbidden_nodes c) |> write_ids (cs_forbidden_links c)
    |> write_ids (cs_forbidden_ports c) |> write_ids (cs_forbidden_failure_domains c)
    |> write_ids (cs_forbidden_failure_domain_classes c)
    |> write_list EncodeStage (cs_required_transit c)
    |> write_list EncodeRequirement (cs_required_capabilities c)
    |> write_option U32 (cs_max_hops c)
    |> write_option U32 (cs_max_members_per_failure_domain c)
    |> Bool (cs_fail_closed_on_unknown_domains c).

Definition EncodePolicy (p : PlanningPolicy) (w : ByteWriter) : ByteWriter :=
  w |> U64 (pp_generation p) |> U64 (cm_hop_cost (pp_cost_model p))
    |> U64 (cm_degraded_penalty (pp_cost_model p)) |> U64 (cm_locality_penalty (pp_cost_model p))
    |> Bool (pp_allow_degraded_links p) |> Bool (pp_allow_draining_ports p)
    |> Bool (pp_allow_maintenance_ports p) |> Bool (pp_require_operational_proof p)
    |> Bool (pp_allow_zero_hop_self_path p) |> write_ids (pp_locality_scope p)
    |> U32 (enum_value (pp_authority_validation p)).

Definition EncodeAuthority (a : CallerAuthority) (w : ByteWriter) : ByteWriter :=
  w |> U32 (ca_scope_mask a) |> FixedBytes (id_bytes (ca_publisher a))
    |> FixedBytes (id_bytes (ca_worker_boot a)) |> U64 (ca_coordinator_epoch a)
    |> FixedBytes (id_bytes (ca_attempt a)) |> Bool (ca_epoch_bound a) |> Bool (ca_enforce_scope a).

Definition EncodePlanningRequestPayload (r : PlanningRequest) (w : ByteWriter) : ByteWriter :=
  w |> FixedBytes (id_bytes (rq_id r)) |> EncodeEndpointRef (rq_source r)
    |> EncodeEndpointRef (rq_destination r) |> EncodeConstraints (rq_constraints r)
    |> EncodePolicy (rq_policy r) |> U32 (rq_max_candidates r) |> U32 (enum_value (rq_mode r))
    |> EncodeAuthority (rq_authority r) |> Bool (rq_expect_epoch r) |> U64 (rq_expected_epoch r)
    |> Bool (rq_expect_topology r) |> U64 (rq_expected_topology r)
    |> Bool (rq_expect_snapshot r) |> FixedBytes (id_bytes (rq_expected_snapshot r)).

(** ** Decoding *)

(** A count that cannot be read leaves the detail text as it was. *)
Definition DecodeTypedIdVector {tag} (limit : Z) (name : string) : Parser string (list (FixedId tag)) :=
  plist "" (name +:+ ": count exceeds the configured limit") limit (DecodeId name).

Definition decode_endpoint_ref (side : string) : Parser string EndpointRef :=
  let? id := DecodeId (side +:+ " endpoint") in
  let? class := DecodeEnumValue EndpointClass.t (side +:+ " class") in
  let? generation := DecodeStrong (side +:+ " generation") in
  pret (MkEndpointRef id class generation).

Definition decode_stage (limits : ResourceLimits) : Parser string TransitStage :=
  let? kind := DecodeEnumValue TransitKind.t "transit kind" in
  let? alternatives := DecodeTypedIdVector (max_members_in_any_set limits) "transit alternative" in
  pret (MkStage kind alternatives).

Definition decode_requirement : Parser string CapabilityRequirement :=
  let? capability := DecodeId "capability identity" in
  let? scope := DecodeEnumValue CapabilityScope.t "capability scope" in
  let? comparator := DecodeEnumValue CapabilityComparator.t "capability comparator" in
  let? value := DecodeStrong "capability value" in
  pret (MkRequirement capability scope comparator value).

Definition decode_constraints (limits : ResourceLimits) : Parser string ConstraintSet :=
  let? id := DecodeId "constraint set identity" in
  let? generation := DecodeStrong "constraint generation" in
  let? layer := DecodeEnumValue PathLayer.t "planning layer" in
  let? nodes := DecodeTypedIdVector (max_forbidden_ids limits) "forbidden node" in
  let? links := DecodeTypedIdVector (max_forbidden_ids limits) "forbidden link" in
  let? ports := DecodeTypedIdVector (max_forbidden_ids limits) "forbidden port" in
  let? domains := DecodeTypedIdVector (max_forbidden_ids limits) "forbidden failure domain" in
  let? classes := DecodeTypedIdVector (max_forbidden_domain_classes limits)
    "forbidden failure domain class" in
  let many_stages := "transit stage count exceeds the configured limit" in
  let? stages := plist many_stages many_stages (max_required_ids limits) (decode_stage limits) in
  let many_capabilities := "capability requirement count exceeds the configured limit" in
  let? capabilities := plist many_capabilities many_capabilities
    (max_capability_requirements limits) decode_requirement in
  let? max_hops := poption "constraint max_hops flag is missing"
    (prange kMaxHopCount "max_hops is out of range") in
  let? members := poption "constraint failure-domain limit flag is missing"
    (pread RU32 "failure-domain member limit is missing") in
  let? fail_closed := pread RBool "failure-domain fail-closed flag is missing" in
  pret (MkConstraints id generation layer nodes links ports domains classes stages capabilities
          max_hops members fail_closed).

Definition decode_cost_model : Parser string CostModel :=
  let? hop_cost := DecodeStrong "hop cost" in
  let? degraded_penalty := DecodeStrong "degraded penalty" in
  let? locality_penalty := DecodeStrong "locality penalty" in
  pret (MkCostModel hop_cost degraded_penalty locality_penalty).

Definition decode_policy (limits : ResourceLimits) : Parser string PlanningPolicy :=
  let? generation := DecodeStrong "policy generation" in
  let? cost_model := decode_cost_model in
  let truncated := "policy flags are truncated" in
  let? degraded := pread RBool truncated in
  let? draining := pread RBool truncated in
  let? maintenance := pread RBool truncated in
  let? proof := pread RBool truncated in
  let? zero_hop := pread RBool truncated in
  let? scope := DecodeTypedIdVector (max_forbidden_ids limits) "locality scope node" in
  let? validation := DecodeEnumValue AuthorityValidationMode.t "authority validation mode" in
  pret (MkPolicy generation cost_model degraded draining maintenance proof zero_hop scope validation).

(** The identities of the caller may be nil. *)
Definition read_optional_id {tag} (name : string) : Parser string (FixedId tag) :=
  pid_any tag (name +:+ " is truncated").

Definition decode_authority : Parser string CallerAuthority :=
  let? scope_mask := pread RU32 "authority scope mask is missing" in
  let? publisher := read_optional_id "publisher identity" in
  let? worker_boot := read_optional_id "worker boot identity" in
  let? coordinator_epoch := DecodeStrong "coordinator epoch" in
  let? attempt := read_optional_id "mutation attempt identity" in
  let? epoch_bound := pread RBool "" in
  let? enforce_scope := pread RBool "" in
  pret (MkAuthority scope_mask publisher worker_boot coordinator_epoch attempt epoch_bound
          enforce_scope).

Definition request_payload (limits : ResourceLimits) : Parser string PlanningRequest :=
  let? id := DecodeId "planning request identity" in
  let? source := decode_endpoint_ref "source" in
  let? destination := decode_endpoint_ref "destination" in
  let? constraints := decode_constraints limits in
  let? policy := decode_policy limits in
  let? max_candidates := pread RU32 "" in
  let? mode := DecodeEnumValue PlanningMode.t "planning mode" in
  let? authority := decode_authority in
  let? expect_epoch := pread RBool "" in
  let? expected_epoch := DecodeStrong "expected epoch" in
  let? expect_topology := pread RBool "" in
  let? expected_topology := DecodeStrong "expected topology generation" in
  let? expect_snapshot := pread RBool "expected snapshot flag is missing" in
  let? expected_snapshot := read_optional_id "expected snapshot identity" in
  early pfail "expected snapshot identity is nil"
    when (expect_snapshot && negb (IsValid expected_snapshot)) ;;
  pret (MkRequest id source destination constraints policy max_candidates mode authority
          expect_epoch expected_epoch expect_topology expected_topology expect_snapshot
          expected_snapshot).

Definition DecodePlanningRequestPayload (data : bytes) (limits : ResourceLimits) :
  WireError + PlanningRequest :=
  match decode_payload (request_payload limits) "planning request payload carries trailing bytes" data with
  | inl error => inl error
  | inr decoded =>
      match ValidateRequest decoded limits with
      | Some (_, detail) => inl (malformed ("planning request failed validation: " +:+ detail))
      | None => inr decoded
      end
  end.

(** ** What the fields accept *)

Definition endpoint_ref_ok (e : EndpointRef) : Prop := valid_id (er_id e) ∧ u64_fits (er_generation e).
Definition endpoint_ref_bytes (e : EndpointRef) : bytes :=
  id_bytes (er_id e) ++ enum_bytes (er_class e) ++ le_bytes 8 (er_generation e).
Definition stage_wire_ok (limits : ResourceLimits) (s : TransitStage) : Prop :=
  at_most (max_members_in_any_set limits) valid_id (ts_alternatives s).
Definition stage_bytes (s : TransitStage) : bytes :=
  enum_bytes (ts_kind s) ++ list_bytes id_bytes (ts_alternatives s).
Definition requirement_ok (r : CapabilityRequirement) : Prop :=
  valid_id (cr_capability r) ∧ u64_fits (cr_value r).
Definition requirement_bytes (r : CapabilityRequirement) : bytes :=
  id_bytes (cr_capability r) ++ enum_bytes (cr_scope r) ++ enum_bytes (cr_comparator r) ++
  le_bytes 8 (cr_value r).

Definition constraints_wire_ok (limits : ResourceLimits) (c : ConstraintSet) : Prop :=
  valid_id (cs_id c) ∧ u64_fits (cs_generation c) ∧
  at_most (max_forbidden_ids limits) valid_id (cs_forbidden_nodes c) ∧
  at_most (max_forbidden_ids limits) valid_id (cs_forbidden_links c) ∧
  at_most (max_forbidden_ids limits) valid_id (cs_forbidden_ports c) ∧
  at_most (max_forbidden_ids limits) valid_id (cs_forbidden_failure_domains c) ∧
  at_most (max_forbidden_domain_classes limits) valid_id (cs_forbidden_failure_domain_classes c) ∧
  at_most (max_required_ids limits) (stage_wire_ok limits) (cs_required_transit c) ∧
  at_most (max_capability_requirements limits) requirement_ok (cs_required_capabilities c) ∧
  option_fits (λ h, 0 <= h <= kMaxHopCount) (cs_max_hops c) ∧
  option_fits u32_fits (cs_max_members_per_failure_domain c).
Definition constraints_bytes (c : ConstraintSet) : bytes :=
  id_bytes (cs_id c) ++ le_bytes 8 (cs_generation c) ++ enum_bytes (cs_layer c) ++
  list_bytes id_bytes (cs_forbidden_nodes c) ++ list_bytes id_bytes (cs_forbidden_links c) ++
  list_bytes id_bytes (cs_forbidden_ports c) ++
  list_bytes id_bytes (cs_forbidden_failure_domains c) ++
  list_bytes id_bytes (cs_forbidden_failure_domain_classes c) ++
  list_bytes stage_bytes (cs_required_transit c) ++
  list_bytes requirement_bytes (cs_required_capabilities c) ++
  option_bytes (le_bytes 4) (cs_max_hops c) ++
  option_bytes (le_bytes 4) (cs_max_members_per_failure_domain c) ++
  bool_bytes (cs_fail_closed_on_unknown_domains c).

Definition cost_model_bytes (m : CostModel) : bytes :=
  le_bytes 8 (cm_hop_cost m) ++ le_bytes 8 (cm_degraded_penalty m) ++
  le_bytes 8 (cm_locality_penalty m).
Definition policy_wire_ok (limits : ResourceLimits) (p : PlanningPolicy) : Prop :=
  u64_fits (pp_generation p) ∧ model_typed (pp_cost_model p) ∧
  at_most (max_forbidden_ids limits) valid_id (pp_locality_scope p).
Definition policy_bytes (p : PlanningPolicy) : bytes :=
  le_bytes 8 (pp_generation p) ++ cost_model_bytes (pp_cost_model p) ++
  bool_bytes (pp_allow_degraded_links p) ++ bool_bytes (pp_allow_draining_ports p) ++
  bool_bytes (pp_allow_maintenance_ports p) ++ bool_bytes (pp_require_operational_proof p) ++
  bool_bytes (pp_allow_zero_hop_self_path p) ++ list_bytes id_bytes (pp_locality_scope p) ++
  enum_bytes (pp_authority_validation p).

Definition authority_typed (a : CallerAuthority) : Prop :=
  u32_fits (ca_scope_mask a) ∧ id_wf (ca_publisher a) ∧ id_wf (ca_worker_boot a) ∧
  u64_fits (ca_coordinator_epoch a) ∧ id_wf (ca_attempt a).
Definition authority_bytes (a : CallerAuthority) : bytes :=
  le_bytes 4 (ca_scope_mask a) ++ id_bytes (ca_publisher a) ++ id_bytes (ca_worker_boot a) ++
  le_bytes 8 (ca_coordinator_epoch a) ++ id_bytes (ca_attempt a) ++
  bool_bytes (ca_epoch_bound a) ++ bool_bytes (ca_enforce_scope a).

Definition request_wire_ok (limits : ResourceLimits) (r : PlanningRequest) : Prop :=
  valid_id (rq_id r) ∧ endpoint_ref_ok (rq_source r) ∧ endpoint_ref_ok (rq_destination r) ∧
  constraints_wire_ok limits (rq_constraints r) ∧ policy_wire_ok limits (rq_policy r) ∧
  u32_fits (rq_max_candidates r) ∧ authority_typed (rq_authority r) ∧
  u64_fits (rq_expected_epoch r) ∧ u64_fits (rq_expected_topology r) ∧
  id_wf (rq_expected_snapshot r) ∧
  (rq_expect_snapshot r = true → IsValid (rq_expected_snapshot r) = true).
Definition request_bytes (r : PlanningRequest) : bytes :=
  id_bytes (rq_id r) ++ endpoint_ref_bytes (rq_source r) ++ endpoint_ref_bytes (rq_destination r) ++
  constraints_bytes (rq_constraints r) ++ policy_bytes (rq_policy r) ++
  le_bytes 4 (rq_max_candidates r) ++ enum_bytes (rq_mode r) ++ authority_bytes (rq_authority r) ++
  bool_bytes (rq_expect_epoch r) ++ le_bytes 8 (rq_expected_epoch r) ++
  bool_bytes (rq_expect_topology r) ++ le_bytes 8 (rq_expected_topology r) ++
  bool_bytes (rq_expect_snapshot r) ++ id_bytes (rq_expected_snapshot r).

(** *** The encoder *)

Lemma Writes_ids {tag} (l : list (FixedId tag)) : Writes (write_ids l) (list_bytes id_bytes l).
Proof. apply Writes_write_list. intros x. eauto with writes. Qed.
#[local] Hint Resolve Writes_ids : writes.
Lemma Writes_stage s : Writes (EncodeStage s) (stage_bytes s).
Proof. unfold EncodeStage, stage_bytes. writes_pipeline. Qed.
Lemma Writes_requirement r : Writes (EncodeRequirement r) (requirement_bytes r).
Proof. unfold EncodeRequirement, requirement_bytes. writes_pipeline. Qed.
Lemma Writes_option_U32 o : Writes (write_option U32 o) (option_bytes (le_bytes 4) o).
Proof. apply Writes_option, Writes_U32. Qed.
#[local] Hint Resolve Writes_stage Writes_requirement Writes_option_U32 : writes.
Lemma Writes_endpoint_ref e : Writes (EncodeEndpointRef e) (endpoint_ref_bytes e).
Proof. unfold EncodeEndpointRef, endpoint_ref_bytes. writes_pipeline. Qed.
Lemma Writes_constraints c : Writes (EncodeConstraints c) (constraints_bytes c).
Proof. unfold EncodeConstraints, constraints_bytes. writes_pipeline. Qed.
Lemma Writes_policy p : Writes (EncodePolicy p) (policy_bytes p).
Proof. unfold EncodePolicy, policy_bytes, cost_model_bytes. writes_pipeline. Qed.
Lemma Writes_authority a : Writes (EncodeAuthority a) (authority_bytes a).
Proof. unfold EncodeAuthority, authority_bytes. writes_pipeline. Qed.
#[local] Hint Resolve Writes_endpoint_ref Writes_constraints Writes_policy Writes_authority : writes.
Lemma Writes_request r : Writes (EncodePlanningRequestPayload r) (request_bytes r).
Proof. unfold EncodePlanningRequestPayload, request_bytes. writes_pipeline. Qed.

(** *** The decoder *)

Section decoder.
Context (limits : ResourceLimits) (Hfit : limits_fit limits).

Lemma Parses_ids tag limit name :
  limit <= u64_max →
  Parses (DecodeTypedIdVector (tag := tag) limit name) (at_most limit valid_id) (list_bytes id_bytes).
Proof. intros Hl. apply Parses_list; [apply Parses_DecodeId|done]. Qed.
Lemma Parses_hops_limit :
  Parses (prange kMaxHopCount "max_hops is out of range") (λ h, 0 <= h <= kMaxHopCount) (le_bytes 4).
Proof. apply Parses_range. vm_compute. congruence. Qed.
Lemma Parses_optional_id tag name : Parses (read_optional_id (tag := tag) name) id_wf id_bytes.
Proof. apply Parses_id_any. Qed.
#[local] Hint Resolve Parses_ids Parses_hops_limit Parses_optional_id : parses.
#[local] Hint Resolve lf_hops lf_explanations lf_forbidden lf_classes lf_required lf_members
  lf_capabilities lf_candidates : parses.

Lemma Parses_endpoint_ref side :
  Parses (decode_endpoint_ref side) endpoint_ref_ok endpoint_ref_bytes.
Proof.
  unfold decode_endpoint_ref, endpoint_ref_ok, endpoint_ref_bytes.
  parse_field er_id. parse_field er_class.
  parse_field er_generation. parse_ret.
Qed.

Lemma Parses_stage : Parses (decode_stage limits) (stage_wire_ok limits) stage_bytes.
Proof.
  unfold decode_stage, stage_wire_ok, stage_bytes.
  parse_field ts_kind.
  parse_field ts_alternatives. parse_ret.
Qed.

Lemma Parses_requirement : Parses decode_requirement requirement_ok requirement_bytes.
Proof.
  unfold decode_requirement, requirement_ok, requirement_bytes.
  parse_field cr_capability.
  parse_field cr_scope.
  parse_field cr_comparator.
  parse_field cr_value. parse_ret.
Qed.
#[local] Hint Resolve Parses_endpoint_ref Parses_stage Parses_requirement : parses.

Lemma Parses_constraints :
  Parses (decode_constraints limits) (constraints_wire_ok limits) constraints_bytes.
Proof.
  unfold decode_constraints, constraints_wire_ok, constraints_bytes. cbv zeta.
  parse_field cs_id. parse_field cs_generation.
  parse_field cs_layer.
  parse_field cs_forbidden_nodes. parse_field cs_forbidden_links. parse_field cs_forbidden_ports.
  parse_field cs_forbidden_failure_domains. parse_field cs_forbidden_failure_domain_classes.
  parse_field cs_required_transit. parse_field cs_required_capabilities.
  parse_field cs_max_hops. parse_field cs_max_members_per_failure_domain.
  parse_field cs_fail_closed_on_unknown_domains. parse_ret.
Qed.

Lemma Parses_cost_model : Parses decode_cost_model model_typed cost_model_bytes.
Proof.
  unfold decode_cost_model, model_typed, cost_model_bytes.
  parse_field cm_hop_cost. parse_field cm_degraded_penalty. parse_field cm_locality_penalty. parse_ret.
Qed.
#[local] Hint Resolve Parses_cost_model : parses.

Lemma Parses_policy : Parses (decode_policy limits) (policy_wire_ok limits) policy_bytes.
Proof.
  unfold decode_policy, policy_wire_ok, policy_bytes. cbv zeta.
  parse_field pp_generation. parse_field pp_cost_model. parse_field pp_allow_degraded_links.
  parse_field pp_allow_draining_ports. parse_field pp_allow_maintenance_ports.
  parse_field pp_require_operational_proof. parse_field pp_allow_zero_hop_self_path.
  parse_field pp_locality_scope. parse_field pp_authority_validation. parse_ret.
Qed.

Lemma Parses_authority : Parses decode_authority authority_typed authority_bytes.
Proof.
  unfold decode_authority, authority_typed, authority_bytes.
  parse_field ca_scope_mask. parse_field ca_publisher. parse_field ca_worker_boot.
  parse_field ca_coordinator_epoch. parse_field ca_attempt. parse_field ca_epoch_bound.
  parse_field ca_enforce_scope. parse_ret.
Qed.
#[local] Hint Resolve Parses_constraints Parses_policy Parses_authority : parses.

Lemma Parses_request : Parses (request_payload limits) (request_wire_ok limits) request_bytes.
Proof.
  unfold request_payload, request_wire_ok, request_bytes.
  parse_field rq_id. parse_field rq_source. parse_field rq_destination. parse_field rq_constraints.
  parse_field rq_policy. parse_field rq_max_candidates. parse_field rq_mode.
  parse_field rq_authority. parse_field rq_expect_epoch. parse_field rq_expected_epoch.
  parse_field rq_expect_topology. parse_field rq_expected_topology. parse_field rq_expect_snapshot.
  parse_field rq_expected_snapshot.
  rename a11 into expect. rename a12 into snapshot.
  parse_guard.
  { subst. apply andb_false_iff. destruct (rq_expect_snapshot b); [right; apply negb_false_iff; auto|by left]. }
  assert (expect = true → IsValid snapshot = true) by (intros ->; by apply negb_false_iff).
  parse_ret.
Qed.
End decoder.

(** ** Exactness *)

(** The fields of a request fit their C++ types; the hop bound is a [HopCount]. *)
Definition stage_typed (s : TransitStage) : Prop := Forall id_wf (ts_alternatives s).
Definition requirement_typed (r : CapabilityRequirement) : Prop :=
  id_wf (cr_capability r) ∧ u64_fits (cr_value r).
Record request_typed (r : PlanningRequest) : Prop := {
  qt_id : id_wf (rq_id r);
  qt_source : id_wf (er_id (rq_source r)) ∧ u64_fits (er_generation (rq_source r));
  qt_destination : id_wf (er_id (rq_destination r)) ∧ u64_fits (er_generation (rq_destination r));
  qt_constraint_set : id_wf (cs_id (rq_constraints r)) ∧ u64_fits (cs_generation (rq_constraints r));
  qt_nodes : Forall id_wf (cs_forbidden_nodes (rq_constraints r));
  qt_links : Forall id_wf (cs_forbidden_links (rq_constraints r));
  qt_ports : Forall id_wf (cs_forbidden_ports (rq_constraints r));
  qt_domains : Forall id_wf (cs_forbidden_failure_domains (rq_constraints r));
  qt_classes : Forall id_wf (cs_forbidden_failure_domain_classes (rq_constraints r));
  qt_stages : Forall stage_typed (cs_required_transit (rq_constraints r));
  qt_requirements : Forall requirement_typed (cs_required_capabilities (rq_constraints r));
  qt_hops : option_fits (λ h, 0 <= h <= kMaxHopCount) (cs_max_hops (rq_constraints r));
  qt_members : option_fits u32_fits (cs_max_members_per_failure_domain (rq_constraints r));
  qt_policy : u64_fits (pp_generation (rq_policy r)) ∧ model_typed (pp_cost_model (rq_policy r));
  qt_scope : Forall id_wf (pp_locality_scope (rq_policy r));
  qt_candidates : u32_fits (rq_max_candidates r);
  qt_authority : authority_typed (rq_authority r);
  qt_expected : u64_fits (rq_expected_epoch r) ∧ u64_fits (rq_expected_topology r);
  qt_snapshot : id_wf (rq_expected_snapshot r)
}.

Lemma valid_ids_at_most {tag} limit (l : list (FixedId tag)) :
  Forall id_wf l → ids_ok limit l → at_most limit valid_id l.
Proof.
  intros Hwf (Hlen & Hv & _). split; [done|]. rewrite Forall_forall in *. intros x Hx. split; auto.
Qed.

Lemma at_most_wf {tag} limit (l : list (FixedId tag)) : at_most limit valid_id l → Forall id_wf l.
Proof. intros [_ Hl]. eapply Forall_impl; [exact Hl|]. by intros x [? _]. Qed.

(** The wire asks nothing of a request that validation does not. *)
Lemma request_wire_ok_typed limits r :
  request_ok r limits → request_typed r ↔ request_wire_ok limits r.
Proof.
  intros [Hid Hsrc Hdst _ _ [] [Hscope _] _ Hsnap]. split.
  - intros []. destruct_and?. split_and!; try done.
    + split_and!; try done; try by apply valid_ids_at_most.
      * split; [done|]. rewrite Forall_forall in *. intros s Hs.
        apply valid_ids_at_most; [by apply qt_stages0|]. by apply (co_stages s Hs).
      * split; [done|]. rewrite Forall_forall in *. intros q Hq.
        destruct (qt_requirements0 q Hq) as [? ?]. split; [|done]. split; [done|]. by apply co_cap_ids.
    + split_and!; try done. by apply valid_ids_at_most.
  - intros ([? _] & [[? _] ?] & [[? _] ?] & Hc & Hp & ? & ? & ? & ? & ? & _).
    destruct Hc as ([? _] & ? & Hn & Hl & Hpo & Hd & Hcl & [_ Hst] & [_ Hreq] & ? & ?).
    destruct Hp as (? & ? & Hsc).
    constructor; eauto using at_most_wf.
    + eapply Forall_impl; [exact Hst|]. intros s. apply at_most_wf.
    + eapply Forall_impl; [exact Hreq|]. intros q [[? _] ?]. by split.
Qed.

(** C16: the planning request codec is exact: an input decodes to a request exactly when
    the request is valid under the receiver's limits and the input is its encoding;
    so a client's valid request arrives unchanged, and nothing that
    [ValidateRequest] refuses, no truncated, padded or over-limit payload and no
    unknown enumeration value reaches the planner. *)
Theorem wire_request_exact limits data r :
  limits_fit limits → Forall is_byte data →
  DecodePlanningRequestPayload data limits = inr r ↔
  request_typed r ∧ request_ok r limits ∧
  ∃ ceiling, 0 <= ceiling ∧ let w := EncodePlanningRequestPayload r (new_writer ceiling) in
    overflowed_ w = false ∧ data = data_ w.
Proof.
  intros Hfit Hdata. unfold DecodePlanningRequestPayload.
  pose proof (λ x, decode_payload_spec (request_payload limits) "planning request payload carries trailing bytes"
    _ _ data x (Parses_request limits Hfit) Hdata) as Hspec.
  rewrite <- (written_bytes _ _ data (Writes_request r)). split.
  - destruct (decode_payload _ _ _) as [e|d] eqn:Ed; [done|]. destruct (proj1 (Hspec d) eq_refl) as [Hw Henc].
    destruct (ValidateRequest d limits) as [[code detail]|] eqn:Ev; [done|]. intros [= <-].
    rewrite ValidateRequest_None in Ev. by rewrite request_wire_ok_typed by done.
  - intros (Ht & Hok & Henc). rewrite (proj2 (Hspec r)).
    + by rewrite (proj2 (ValidateRequest_None r limits) Hok).
    + split; [|done]. by rewrite <- request_wire_ok_typed.
Qed.

(** A request with one constraint of each kind. *)
Definition demo_wire_request : PlanningRequest :=
  let id tag k := FromBytes (tag := tag) (replicate (kByteCount tag - 1) 0 ++ [k]) in
  MkRequest (id _ 1) (MkEndpointRef (id _ 2) EndpointClass.kEndpoint 0)
    (MkEndpointRef (id _ 3) EndpointClass.kEndpoint 0)
    (MkConstraints (id _ 4) 1 PathLayer.kPhysical [id _ 5] [id _ 6] [id _ 7] [id _ 8] [id _ 9]
       [MkStage TransitKind.kExact [id _ 10]]
       [MkRequirement (id _ 11) CapabilityScope.kEveryNode CapabilityComparator.kAtLeast 5]
       (Some 6) None true)
    (MkPolicy 1 default_cost_model true false false true false [] AuthorityValidationMode.kNone)
    3 PlanningMode.kStandard (MkAuthority 1 (nil_id _) (nil_id _) 1 (nil_id _) false true)
    true 1 false 0 false (nil_id _).

Definition demo_request_data : bytes :=
  Eval vm_compute in data_ (EncodePlanningRequestPayload demo_wire_request (new_writer 4096)).

Ltac decide_request_typed :=
  repeat first
    [ progress unfold stage_typed, requirement_typed, model_typed, authority_typed, option_fits, id_wf,
        u64_fits, u32_fits, is_byte
    | split | apply Forall_cons | apply Forall_nil | exact I ];
  try (vm_compute; first [reflexivity|congruence]).

Lemma wire_request_exact_witness :
  DecodePlanningRequestPayload demo_request_data default_limits = inr demo_wire_request.
Proof.
  apply (wire_request_exact default_limits demo_request_data demo_wire_request).
  - apply default_limits_fit.
  - unfold is_byte. apply (bool_decide_unpack _). vm_compute. exact I.
  - split; [constructor; decide_request_typed|]. split.
    + apply ValidateRequest_None. vm_compute. reflexivity.
    + exists 4096. split; [lia|]. vm_compute. by split.
Defined.
