(* ===== verification/ResultCodec.v ===== *)
(** proto.cpp, the payload of a planning result. The provenance and the evidence of a
    candidate do not travel: the receiver gives every candidate the evidence of the
    result and an empty provenance, and recomputes each candidate's identity from
    its path. *)

From S2P Require Import Prelude Canonical Sha256 Status Ids Codec Limits Graph Path Request View Result Parse PlanCodec Wire Payloads.

Open Scope string_scope.
Open Scope list_scope.
Open Scope Z_scope.

(** ** Encoding *)

Definition EncodeWireCandidate (c : Candidate) (w : ByteWriter) : ByteWriter :=
  w |> FixedBytes (id_bytes (cd_id c)) |> EncodePath (cd_path c) |> EncodeCost (cd_cost c)
    |> U32 (cd_rank c) |> U32 (enum_value (cd_currentness c)) |> U32 (enum_value (cd_authority c))
    |> write_list (λ note, U32 (enum_value note)) (cd_notes c).

Definition EncodeRejection (r : RejectionExplanation) (w : ByteWriter) : ByteWriter :=
  w |> U32 (enum_value (rx_code r)) |> EncodeSubject (rx_subject r) |> U64 (rx_occurrences r)
    |> Text (rx_detail r).

Definition EncodePlanningResultPayload (r : PlanningResult) (w : ByteWriter) : ByteWriter :=
  w |> U32 (enum_value (rs_status r))
    |> write_option (λ code, U32 (enum_value code)) (rs_primary_failure r)
    |> FixedBytes (id_bytes (rs_source_endpoint r))
    |> FixedBytes (id_bytes (rs_destination_endpoint r))
    |> FixedBytes (id_bytes (rs_source_node r)) |> FixedBytes (id_bytes (rs_destination_node r))
    |> FixedBytes (id_bytes (rs_plan_id r)) |> U64 (rs_planning_generation r)
    |> FixedBytes (rs_semantic_digest r) |> EncodeEvidence (rs_evidence r)
    |> U32 (rs_requested_candidates r) |> Bool (rs_truncated r) |> Bool (rs_diagnostic_mode r)
    |> write_list EncodeWireCandidate (rs_candidates r)
    |> write_list EncodeExplanation (rs_explanations r)
    |> write_list EncodeRejection (rs_rejections r).

(** ** Decoding *)

Definition decode_rank : Parser string Z :=
  let invalid := "candidate rank is invalid" in
  let? rank := prange kMaxCandidateRank invalid in
  early pfail invalid when (rank =? 0) ;; pret rank.

Definition decode_candidate (limits : ResourceLimits) (evidence : EvidenceVector) :
  Parser string Candidate :=
  let? id := DecodeId "candidate identity" in
  let? path := DecodePath limits in
  let? cost := DecodeCost in
  let? rank := decode_rank in
  let? currentness := DecodeEnumValue Currentness.t "candidate currentness" in
  let? authority := DecodeEnumValue AuthorityValidation.t "candidate authority validation" in
  let many_notes := "candidate note count exceeds the configured limit" in
  let? notes := plist many_notes many_notes (max_explanation_entries limits)
    (DecodeEnumValue DiagnosticCode.t "candidate note") in
  early pfail "candidate identity does not match its canonical path encoding"
    when negb (eqb id (PathId path)) ;;
  pret (MkCandidate id path cost rank evidence default_provenance authority currentness notes).

Definition decode_subject : Parser string SubjectKey :=
  let? kind := DecodeEnumValue SubjectKind.t "rejection subject kind" in
  let? bytes := pread (RFixedBytes 16) "rejection subject is truncated" in
  pret (MkSubject kind bytes).

Definition decode_rejection : Parser string RejectionExplanation :=
  let? code := DecodeEnumValue DiagnosticCode.t "rejection code" in
  let? subject := decode_subject in
  let? occurrences := pread RU64 "rejection entry is truncated" in
  let? detail := ptext "rejection entry is truncated" in
  pret (MkRejection code subject detail occurrences).

Definition result_payload (limits : ResourceLimits) : Parser string PlanningResult :=
  let? status := DecodeEnumValue PlanStatus.t "plan status" in
  let? failure := poption "primary failure flag is missing"
    (DecodeEnumValue DiagnosticCode.t "primary failure") in
  let? source_endpoint := DecodeId "source endpoint" in
  let? destination_endpoint := DecodeId "destination endpoint" in
  let? source_node := DecodeId "source node" in
  let? destination_node := DecodeId "destination node" in
  let? plan_id := DecodeId "plan identity" in
  let? generation := DecodeStrong "planning generation" in
  let? digest := pread (RFixedBytes kSha256Bytes) "semantic digest is truncated" in
  let? evidence := DecodeEvidence in
  let truncated_flags := "result flags are truncated" in
  let? requested := pread RU32 truncated_flags in
  let? truncated := pread RBool truncated_flags in
  let? diagnostic_mode := pread RBool truncated_flags in
  let many_candidates := "candidate count exceeds the configured limit" in
  let? candidates := plist many_candidates many_candidates (max_candidates_per_request limits)
    (decode_candidate limits evidence) in
  let many_explanations := "explanation count exceeds the configured limit" in
  let? explanations := plist many_explanations many_explanations (max_explanation_entries limits)
    (decode_explanation "explanation code" "explanation text is truncated") in
  let many_rejections := "rejection count exceeds the configured limit" in
  let? rejections := plist many_rejections many_rejections (max_explanation_entries limits)
    decode_rejection in
  pret (MkResult status failure source_endpoint destination_endpoint source_node destination_node
          candidates rejections explanations evidence plan_id generation digest requested truncated
          diagnostic_mode).

Definition DecodePlanningResultPayload (data : bytes) (limits : ResourceLimits) :
  WireError + PlanningResult :=
  decode_payload (result_payload limits) "planning result payload carries trailing bytes" data.

(** ** Exactness *)

Definition wire_candidate_ok (limits : ResourceLimits) (evidence : EvidenceVector) (c : Candidate) :
  Prop :=
  valid_id (cd_id c) ∧ path_ok limits (cd_path c) ∧ cost_ok (cd_cost c) ∧
  1 <= cd_rank c <= kMaxCandidateRank ∧
  at_most (max_explanation_entries limits) enum_fits (cd_notes c) ∧
  cd_id c = PathId (cd_path c) ∧ cd_evidence c = evidence ∧ cd_provenance c = default_provenance.
Definition wire_candidate_bytes (c : Candidate) : bytes :=
  id_bytes (cd_id c) ++ path_bytes (cd_path c) ++ cost_bytes (cd_cost c) ++
  le_bytes 4 (cd_rank c) ++ enum_bytes (cd_currentness c) ++ enum_bytes (cd_authority c) ++
  list_bytes enum_bytes (cd_notes c).

Definition rejection_ok (r : RejectionExplanation) : Prop :=
  bytes_of 16 (sk_bytes (rx_subject r)) ∧ u64_fits (rx_occurrences r) ∧ string_fits (rx_detail r).
Definition rejection_bytes (r : RejectionExplanation) : bytes :=
  enum_bytes (rx_code r) ++ subject_bytes (rx_subject r) ++ le_bytes 8 (rx_occurrences r) ++
  string_bytes (rx_detail r).

(** What a result can carry over the wire. *)
Definition result_ok (limits : ResourceLimits) (r : PlanningResult) : Prop :=
  valid_id (rs_source_endpoint r) ∧ valid_id (rs_destination_endpoint r) ∧
  valid_id (rs_source_node r) ∧ valid_id (rs_destination_node r) ∧ valid_id (rs_plan_id r) ∧
  u64_fits (rs_planning_generation r) ∧ bytes_of kSha256Bytes (rs_semantic_digest r) ∧
  evidence_ok (rs_evidence r) ∧ u32_fits (rs_requested_candidates r) ∧
  at_most (max_candidates_per_request limits) (wire_candidate_ok limits (rs_evidence r))
    (rs_candidates r) ∧
  at_most (max_explanation_entries limits) explanation_ok (rs_explanations r) ∧
  at_most (max_explanation_entries limits) rejection_ok (rs_rejections r).
Definition result_bytes (r : PlanningResult) : bytes :=
  enum_bytes (rs_status r) ++ option_bytes enum_bytes (rs_primary_failure r) ++
  id_bytes (rs_source_endpoint r) ++ id_bytes (rs_destination_endpoint r) ++
  id_bytes (rs_source_node r) ++ id_bytes (rs_destination_node r) ++ id_bytes (rs_plan_id r) ++
  le_bytes 8 (rs_planning_generation r) ++ rs_semantic_digest r ++
  evidence_bytes (rs_evidence r) ++ le_bytes 4 (rs_requested_candidates r) ++
  bool_bytes (rs_truncated r) ++ bool_bytes (rs_diagnostic_mode r) ++
  list_bytes wire_candidate_bytes (rs_candidates r) ++
  list_bytes explanation_bytes (rs_explanations r) ++ list_bytes rejection_bytes (rs_rejections r).

Lemma Writes_notes l :
  Writes (write_list (λ note : DiagnosticCode.t, U32 (enum_value note)) l) (list_bytes enum_bytes l).
Proof. apply Writes_write_list. intros x. eauto with writes. Qed.
#[local] Hint Resolve Writes_notes : writes.
Lemma Writes_wire_candidate c : Writes (EncodeWireCandidate c) (wire_candidate_bytes c).
Proof. unfold EncodeWireCandidate, wire_candidate_bytes. writes_pipeline. Qed.
Lemma Writes_rejection r : Writes (EncodeRejection r) (rejection_bytes r).
Proof. unfold EncodeRejection, rejection_bytes. writes_pipeline. Qed.
Lemma Writes_failure (o : option DiagnosticCode.t) :
  Writes (write_option (λ code, U32 (enum_value code)) o) (option_bytes enum_bytes o).
Proof. apply Writes_option. intros x. eauto with writes. Qed.
#[local] Hint Resolve Writes_failure Writes_wire_candidate Writes_rejection : writes.
Lemma Writes_result r : Writes (EncodePlanningResultPayload r) (result_bytes r).
Proof. unfold EncodePlanningResultPayload, result_bytes. writes_pipeline. Qed.

Lemma Parses_rank : Parses decode_rank (λ v, 1 <= v <= kMaxCandidateRank) (le_bytes 4).
Proof.
  unfold decode_rank. cbv zeta.
  eapply (Parses_bind id); [apply Parses_range; vm_compute; congruence|intros v ?; cbn beta in *; unfold id; lia
    |intros x; symmetry; apply app_nil_r|].
  intros v Hv. apply Parses_guard; [intros b [? <-]; cbn beta in *; unfold id; lia|].
  intros Hne. apply Parses_ret; [|done]. intros b. cbn beta in *. unfold id in *. lia.
Qed.
#[local] Hint Resolve Parses_rank : parses.

Section decoder.
Context (limits : ResourceLimits) (Hfit : limits_fit limits).
#[local] Hint Resolve lf_hops lf_explanations lf_candidates : parses.

Lemma Parses_wire_candidate evidence :
  Parses (decode_candidate limits evidence) (wire_candidate_ok limits evidence) wire_candidate_bytes.
Proof.
  unfold decode_candidate, wire_candidate_ok, wire_candidate_bytes. cbv zeta.
  parse_field cd_id. parse_field cd_path. parse_field cd_cost. parse_field cd_rank.
  parse_field cd_currentness. parse_field cd_authority. parse_field cd_notes.
  parse_guard; [subst; apply negb_false_iff; by apply eqb_eq|].
  rewrite negb_false_iff, eqb_eq in *. cbn beta in *. parse_ret; lia.
Qed.

Lemma Parses_subject : Parses decode_subject (λ k, bytes_of 16 (sk_bytes k)) subject_bytes.
Proof. unfold decode_subject, subject_bytes. parse_field sk_kind. parse_field sk_bytes. parse_ret. Qed.
#[local] Hint Resolve Parses_subject : parses.

Lemma Parses_rejection : Parses decode_rejection rejection_ok rejection_bytes.
Proof.
  unfold decode_rejection, rejection_ok, rejection_bytes.
  parse_field rx_code. parse_field rx_subject. parse_field rx_occurrences. parse_field rx_detail.
  parse_ret.
Qed.
#[local] Hint Resolve Parses_wire_candidate Parses_rejection : parses.

Lemma Parses_result : Parses (result_payload limits) (result_ok limits) result_bytes.
Proof.
  unfold result_payload, result_ok, result_bytes. cbv zeta.
  parse_field rs_status.
  parse_field rs_primary_failure; [by destruct (rs_primary_failure b) as [[]|]|].
  parse_field rs_source_endpoint. parse_field rs_destination_endpoint. parse_field rs_source_node.
  parse_field rs_destination_node. parse_field rs_plan_id. parse_field rs_planning_generation.
  parse_field rs_semantic_digest. parse_field rs_evidence. parse_field rs_requested_candidates.
  parse_field rs_truncated. parse_field rs_diagnostic_mode.
  parse_field rs_candidates; [by subst|]. parse_field rs_explanations. parse_field rs_rejections. parse_ret.
Qed.
End decoder.

(** C17: the planning result codec is exact: an input decodes to a result exactly when it
    is the encoding of a result whose identifiers are set and whose lists are within
    the limits, and in which every candidate has a well-formed simple path, costs
    that add up, a positive rank, the identity of its own path, the evidence of the
    result and no provenance; anything else a worker sends is refused. *)
Theorem wire_result_exact limits :
  limits_fit limits →
  codec_exact EncodePlanningResultPayload (λ data, DecodePlanningResultPayload data limits)
    (result_ok limits).
Proof. intros Hfit. exact (decode_payload_exact _ _ _ _ _ Writes_result (Parses_result limits Hfit)). Qed.

Lemma wire_result_exact_witness :
  codec_exact EncodePlanningResultPayload
    (λ data, DecodePlanningResultPayload data default_limits) (result_ok default_limits).
Proof. exact (wire_result_exact default_limits default_limits_fit). Defined.

(** A result that names no node cannot travel: it is encoded, and refused on arrival. *)
Example nil_nodes_refused :
  let data := data_ (EncodePlanningResultPayload empty_result (new_writer 4096)) in
  DecodePlanningResultPayload data default_limits = inl (malformed "source endpoint: nil identifier rejected").
Proof. vm_compute. reflexivity. Qed.
