(* ===== verification/Store.v ===== *)
(** store.hpp / store.cpp: the persistent image of the retained plans, its strict
    decoder, and the replacement of the store file. A recovered plan is history: it is
    never current, and its candidates must be revalidated. *)

From stdpp Require Import sorting.
From S2P Require Import Prelude Canonical Sha256 Status Ids Codec Limits Graph Path Request View Result Parse PlanCodec.

Open Scope string_scope.
Open Scope list_scope.
Open Scope Z_scope.

Definition kPersistedFormatVersion : Z := 1.
Definition kStoreMagic : string := "PPLNPLAN".
Definition kStoreHeaderBytes : nat := 36.
Definition kStoreDigestBytes : nat := kSha256Bytes.

Record StoredPlanRecord := MkStored {
  sp_request : PlanningRequestId; sp_plan : PathPlanId; sp_generation : Z;
  sp_publish_sequence : Z; sp_status : PlanStatus.t; sp_evidence : EvidenceVector;
  sp_constraint_set : ConstraintSetId; sp_constraint_generation : Z; sp_policy_generation : Z;
  sp_source : NodeId; sp_destination : NodeId; sp_layer : PathLayer.t; sp_diagnostic_mode : bool;
  sp_candidates : list CandidatePath; sp_costs : list PathCost; sp_ranks : list Z;
  sp_semantic_digest : bytes
}.

Record StoreOptions := MkStoreOptions { so_limits : ResourceLimits; so_publish_sequence : Z }.

(** A [StoreResult] that is not ok: its code and detail. *)
Definition StoreError : Type := DiagnosticCode.t * string.
Definition corrupt (detail : string) : StoreError := (DiagnosticCode.kPersistenceCorrupt, detail).

(** ** Records and plans *)

Definition ToStoredRecord (p : PathPlan) : StoredPlanRecord :=
  MkStored (pl_request p) (pl_id p) (pl_generation p) (pl_publish_sequence p) (pl_status p)
    (pl_evidence p) (pl_constraint_set p) (pl_constraint_generation p) (pl_policy_generation p)
    (pl_source p) (pl_destination p) (pl_layer p) (pl_diagnostic_mode p)
    (map cd_path (pl_candidates p)) (map cd_cost (pl_candidates p)) (map cd_rank (pl_candidates p))
    (pl_semantic_digest p).

(** One index of the parallel vectors: a missing rank is the position. *)
Record StoredEntry := MkEntry { en_path : CandidatePath; en_cost : PathCost; en_rank : Z }.
Definition stored_entry (r : StoredPlanRecord) (index : nat) (path : CandidatePath) : StoredEntry :=
  MkEntry path (nth index (sp_costs r) zero_cost)
    (match sp_ranks r !! index with
     | Some rank => rank
     | None => wrap32 (wrap32 (Z.of_nat index) + 1)
     end).
Definition stored_entries (r : StoredPlanRecord) : list StoredEntry :=
  imap (stored_entry r) (sp_candidates r).

Definition recovered_candidate (r : StoredPlanRecord) (e : StoredEntry) : Candidate :=
  MkCandidate (PathId (en_path e)) (en_path e) (en_cost e) (en_rank e) (sp_evidence r)
    default_provenance AuthorityValidation.kNotRequested Currentness.kRevalidationRequired [].

Definition FromStoredRecord (r : StoredPlanRecord) : PathPlan :=
  let count := Nat.min (length (sp_candidates r)) (length (sp_costs r)) in
  MkPlan (sp_plan r) (sp_request r) (sp_generation r) (sp_publish_sequence r) (sp_status r)
    (sp_source r) (sp_destination r) (sp_layer r) (sp_evidence r) (sp_policy_generation r)
    (sp_constraint_set r) (sp_constraint_generation r) (sp_diagnostic_mode r) false
    (map (recovered_candidate r) (take count (stored_entries r))) (sp_semantic_digest r).

(** ** Encoding *)

Definition EncodeEntry (e : StoredEntry) (w : ByteWriter) : ByteWriter :=
  w |> EncodePath (en_path e) |> EncodeCost (en_cost e) |> U32 (en_rank e).

Definition EncodeRecord (r : StoredPlanRecord) (w : ByteWriter) : ByteWriter :=
  w |> FixedBytes (id_bytes (sp_request r)) |> FixedBytes (id_bytes (sp_plan r))
    |> U64 (sp_generation r) |> U64 (sp_publish_sequence r) |> U32 (enum_value (sp_status r))
    |> FixedBytes (id_bytes (sp_constraint_set r)) |> U64 (sp_constraint_generation r)
    |> U64 (sp_policy_generation r) |> FixedBytes (id_bytes (sp_source r))
    |> FixedBytes (id_bytes (sp_destination r)) |> U32 (enum_value (sp_layer r))
    |> Bool (sp_diagnostic_mode r) |> EncodeEvidence (sp_evidence r)
    |> FixedBytes (sp_semantic_digest r) |> write_list EncodeEntry (stored_entries r).

(** What the encoder checks of a record before it writes it. *)
Definition check_record (limits : ResourceLimits) (r : StoredPlanRecord) : option StoreError :=
  early Some (DiagnosticCode.kMalformedIdentifier, "record carries a nil identity")
    when (negb (IsValid (sp_plan r)) || negb (IsValid (sp_request r))) ;;
  early Some (corrupt "candidate and cost counts disagree")
    when negb (length (sp_candidates r) =? length (sp_costs r))%nat ;;
  early Some (DiagnosticCode.kPersistenceLimitExceeded, "candidate count exceeds the configured ceiling")
    when Exceeds (length (sp_candidates r)) (max_candidates_per_request limits) ;;
  None.

Fixpoint write_records (limits : ResourceLimits) (records : list StoredPlanRecord) (w : ByteWriter) :
  StoreError + ByteWriter :=
  match records with
  | [] => inr w
  | r :: records =>
      onerror e := check_record limits r give inl e ;;
      write_records limits records (EncodeRecord r w)
  end.

Definition store_header (count payload_size : nat) : ByteWriter :=
  new_writer (Z.of_nat kStoreHeaderBytes)
    |> FixedBytes (text_bytes kStoreMagic) |> U32 kPersistedFormatVersion
    |> U32 kPlanningRuleVersion |> U32 kPathEncodingVersion |> U64 (Z.of_nat count)
    |> U64 (Z.of_nat payload_size).

(** The ceiling of the payload is computed in 32 bits. *)
Definition payload_ceiling (limits : ResourceLimits) : Z := wrap32 (max_frame_bytes limits * 16).

Definition EncodePlanStore (records : list StoredPlanRecord) (options : StoreOptions) :
  StoreError + bytes :=
  let limits := so_limits options in
  onerror code := ValidateLimits limits give inl (code, "resource limits are incoherent") ;;
  early inl (DiagnosticCode.kPersistenceLimitExceeded, "record count exceeds the configured ceiling")
    when Exceeds (length records) (max_persisted_plans limits) ;;
  let start := new_writer (payload_ceiling limits) |> U64 (so_publish_sequence options)
    |> VarU64 (Z.of_nat (length records)) in
  match write_records limits records start with
  | inl error => inl error
  | inr payload =>
      early inl (DiagnosticCode.kPersistenceLimitExceeded, "store payload exceeded its ceiling")
        when overflowed_ payload ;;
      let header := store_header (length records) (length (data_ payload)) in
      early inl (corrupt "store header encoding failed") when overflowed_ header ;;
      let hasher := new_Sha256 |> Update (data_ header) |> Update (data_ payload) in
      inr (data_ header ++ Finish hasher ++ data_ payload)
  end.

(** ** Decoding *)

Record StoreHeader := MkStoreHeader { sh_record_count : Z; sh_payload_length : Z }.

Definition DecodeStoreHeader (limits : ResourceLimits) : Parser StoreError StoreHeader :=
  let? magic := pread (RFixedBytes 8) (corrupt "store magic is truncated") in
  early pfail (corrupt "store magic mismatch") when negb (eqb magic (text_bytes kStoreMagic)) ;;
  let truncated := corrupt "store header is truncated" in
  let? format_version := pread RU32 truncated in
  let? rule_version := pread RU32 truncated in
  let? encoding_version := pread RU32 truncated in
  let? record_count := pread RU64 truncated in
  let? payload_length := pread RU64 truncated in
  let unsupported detail := (DiagnosticCode.kPersistenceVersionUnsupported, detail) in
  early pfail (unsupported "unsupported persisted format version")
    when negb (format_version =? kPersistedFormatVersion) ;;
  early pfail (unsupported "stored planning-rule or path-encoding version is unsupported")
    when (negb (rule_version =? kPlanningRuleVersion) ||
          negb (encoding_version =? kPathEncodingVersion)) ;;
  early pfail (DiagnosticCode.kPersistenceLimitExceeded,
               "stored record count exceeds the configured ceiling")
    when (record_count >? max_persisted_plans limits) ;;
  pret (MkStoreHeader record_count payload_length).

Definition ReadId {tag} (name : string) : Parser StoreError (FixedId tag) :=
  with_error corrupt (decode_id store_wording name).
Definition ReadStrong (name : string) : Parser StoreError Z :=
  with_error corrupt (decode_strong store_wording name).
Definition ReadEnumValue (T : Type) `{CppEnum T} (name : string) : Parser StoreError T :=
  with_error corrupt (decode_enum store_wording T name).
Definition ReadEvidence : Parser StoreError EvidenceVector :=
  with_error corrupt (decode_evidence store_wording).
Definition ReadPath (limits : ResourceLimits) : Parser StoreError CandidatePath :=
  with_error corrupt (decode_path store_wording limits).
Definition ReadCost : Parser StoreError PathCost := with_error corrupt (decode_cost store_wording).
Definition impossible (detail : string) : StoreError :=
  (DiagnosticCode.kPersistenceImpossibleValue, detail).

(** One candidate of a record, after the candidates before it. *)
Definition read_entry (limits : ResourceLimits) (topology : Z) (seen : list StoredEntry) :
  Parser StoreError StoredEntry :=
  let? path := ReadPath limits in
  let? cost := ReadCost in
  let bad_rank := corrupt "candidate rank is not the expected sequence" in
  let? rank := prange kMaxCandidateRank bad_rank in
  early pfail bad_rank when negb (rank =? Z.of_nat (length seen) + 1) ;;
  early pfail (impossible "candidate cost hop count does not match the encoded path")
    when negb (c_hops cost =? Z.of_nat (length (p_hops path))) ;;
  early pfail (impossible "candidate hop structural generation exceeds the stored topology generation")
    when existsb (λ h, h_structural_generation h >? topology) (p_hops path) ;;
  early pfail (DiagnosticCode.kPersistenceDuplicateCandidate, "duplicate candidate identity in a record")
    when existsb (λ e, eqb (PathId (en_path e)) (PathId path)) seen ;;
  pret (MkEntry path cost rank).

(** [costs[index].total < costs[index - 1].total] for some index. *)
Fixpoint decreasing_cost (costs : list PathCost) : bool :=
  match costs with
  | a :: (b :: _) as rest => (c_total b <? c_total a) || decreasing_cost rest
  | _ => false
  end.

(** One record, after the records before it: its fields, its candidates, and the tests
    that need all of them. *)
Definition read_record (limits : ResourceLimits) (seen : list StoredPlanRecord) :
  Parser StoreError StoredPlanRecord :=
  let? request := ReadId "request identity" in
  let? plan := ReadId "plan identity" in
  let? generation := ReadStrong "planning generation" in
  let? publish_sequence := ReadStrong "publish sequence" in
  let? status := ReadEnumValue PlanStatus.t "plan status" in
  let? constraint_set := ReadId "constraint set identity" in
  let? constraint_generation := ReadStrong "constraint generation" in
  let? policy_generation := ReadStrong "policy generation" in
  let? source := ReadId "source node" in
  let? destination := ReadId "destination node" in
  let? layer := ReadEnumValue PathLayer.t "plan layer" in
  let? diagnostic_mode := pread RBool (corrupt "diagnostic-mode flag is truncated") in
  let? evidence := ReadEvidence in
  let? digest := pread (RFixedBytes kSha256Bytes) (corrupt "semantic digest is truncated") in
  let too_many := (DiagnosticCode.kPersistenceLimitExceeded,
                   "candidate count exceeds the configured ceiling") in
  let? count := pread RVarU64 too_many in
  early pfail too_many when (count >? max_candidates_per_request limits) ;;
  let? read := pvec (Z.to_nat count)
    (read_entry limits (g_topology (ev_generations evidence))) [] in
  early pfail (corrupt "candidate costs are not non-decreasing")
    when decreasing_cost (map en_cost read) ;;
  early pfail (DiagnosticCode.kPersistenceDuplicatePlan, "duplicate plan identity in the store")
    when existsb (λ r, eqb (sp_plan r) plan) seen ;;
  let record :=
    MkStored request plan generation publish_sequence status evidence constraint_set
      constraint_generation policy_generation source destination layer diagnostic_mode
      (map en_path read) (map en_cost read) (map en_rank read) digest in
  early pfail (DiagnosticCode.kPersistenceDigestMismatch,
               "record semantic digest does not match its content")
    when negb (eqb (ComputeSemanticDigest (FromStoredRecord record)) digest) ;;
  pret record.

Record StorePayload := MkStorePayload {
  py_publish_sequence : Z; py_records : list StoredPlanRecord
}.

Definition read_payload (limits : ResourceLimits) (record_count : Z) : Parser StoreError StorePayload :=
  let disagrees := corrupt "store payload header disagrees with the store header" in
  let? publish_sequence := pread RU64 disagrees in
  let? stored_count := pread RVarU64 disagrees in
  early pfail disagrees when negb (stored_count =? record_count) ;;
  let? records := pvec (Z.to_nat record_count) (read_record limits) [] in
  pret (MkStorePayload publish_sequence records).

(** Sizes are 64 bits wide. *)
Definition DecodePlanStore (image : bytes) (limits : ResourceLimits) :
  StoreError + list StoredPlanRecord :=
  let prefix := (kStoreHeaderBytes + kStoreDigestBytes)%nat in
  early inl (corrupt "store image is shorter than its header") when (length image <? prefix)%nat ;;
  match (DecodeStoreHeader limits (new_reader (take kStoreHeaderBytes image))).1 with
  | inl error => inl error
  | inr h =>
      let expected_size := wrap64 (Z.of_nat prefix + sh_payload_length h) in
      early inl (corrupt "store image is truncated") when (Z.of_nat (length image) <? expected_size) ;;
      early inl (DiagnosticCode.kPersistenceTrailingBytes, "store image carries trailing bytes")
        when (Z.of_nat (length image) >? expected_size) ;;
      let payload := take (Z.to_nat (sh_payload_length h)) (drop prefix image) in
      let hasher := new_Sha256 |> Update (take kStoreHeaderBytes image) |> Update payload in
      early inl (DiagnosticCode.kPersistenceDigestMismatch, "store integrity digest mismatch")
        when negb (eqb (take kStoreDigestBytes (drop kStoreHeaderBytes image)) (Finish hasher)) ;;
      match parse_all (read_payload limits (sh_record_count h))
              (DiagnosticCode.kPersistenceTrailingBytes, "store payload carries trailing bytes")
              payload with
      | inl error => inl error
      | inr decoded => inr (py_records decoded)
      end
  end.

(** ** What the decoder accepts *)

Definition entry_bytes (e : StoredEntry) : bytes :=
  path_bytes (en_path e) ++ cost_bytes (en_cost e) ++ le_bytes 4 (en_rank e).
Definition record_bytes (r : StoredPlanRecord) : bytes :=
  id_bytes (sp_request r) ++ id_bytes (sp_plan r) ++ le_bytes 8 (sp_generation r) ++
  le_bytes 8 (sp_publish_sequence r) ++ enum_bytes (sp_status r) ++
  id_bytes (sp_constraint_set r) ++ le_bytes 8 (sp_constraint_generation r) ++
  le_bytes 8 (sp_policy_generation r) ++ id_bytes (sp_source r) ++ id_bytes (sp_destination r) ++
  enum_bytes (sp_layer r) ++ bool_bytes (sp_diagnostic_mode r) ++ evidence_bytes (sp_evidence r) ++
  sp_semantic_digest r ++ list_bytes entry_bytes (stored_entries r).
Definition payload_bytes (p : StorePayload) : bytes :=
  le_bytes 8 (py_publish_sequence p) ++ list_bytes record_bytes (py_records p).

Lemma Writes_entry e : Writes (EncodeEntry e) (entry_bytes e).
Proof. unfold EncodeEntry, entry_bytes. writes_pipeline. Qed.
#[local] Hint Resolve Writes_entry : writes.
Lemma Writes_record r : Writes (EncodeRecord r) (record_bytes r).
Proof. unfold EncodeRecord, record_bytes. writes_pipeline. Qed.
#[local] Hint Resolve Writes_record : writes.

(** *** Candidates *)

(** The candidates of a record, [seen] before [e]. *)
Definition entry_fits (limits : ResourceLimits) (topology : Z) (e : StoredEntry) : Prop :=
  path_ok limits (en_path e) ∧ cost_ok (en_cost e) ∧ en_rank e <= kMaxCandidateRank ∧
  c_hops (en_cost e) = Z.of_nat (length (p_hops (en_path e))) ∧
  Forall (λ h, h_structural_generation h <= topology) (p_hops (en_path e)).
Definition entry_ok (limits : ResourceLimits) (topology : Z) (seen : list StoredEntry)
    (e : StoredEntry) : Prop :=
  entry_fits limits topology e ∧ en_rank e = Z.of_nat (length seen) + 1 ∧
  PathId (en_path e) ∉ map (λ e, PathId (en_path e)) seen.

Lemma existsb_eqb_false {A B} `{Ordered B} (f : A → B) x l :
  existsb (λ e, eqb (f e) x) l = false ↔ x ∉ map f l.
Proof.
  rewrite <- not_true_iff_false, existsb_exists. apply not_iff_compat. split.
  - intros (e & He & Heq). apply eqb_eq in Heq as <-. by apply list_elem_of_fmap_2, list_elem_of_In.
  - intros (e & -> & He)%list_elem_of_fmap. exists e. split; [by apply list_elem_of_In|by apply eqb_eq].
Qed.

Lemma existsb_false {A} (f : A → bool) l : existsb f l = false ↔ Forall (λ x, f x = false) l.
Proof.
  induction l as [|x l IH]; [by split|]. cbn [existsb]. rewrite orb_false_iff, Forall_cons. by rewrite IH.
Qed.

Section decoder.
Context (limits : ResourceLimits) (Hhops : lim_max_hops limits <= u64_max)
  (Hcandidates : max_candidates_per_request limits <= u64_max).

Lemma Parses_store_path :
  Parses (ReadPath limits) (path_ok limits) path_bytes.
Proof. by apply Parses_with_error, Parses_path. Qed.
Lemma Parses_store_cost : Parses ReadCost cost_ok cost_bytes.
Proof. apply Parses_with_error, Parses_cost. Qed.
Lemma Parses_store_rank detail :
  Parses (prange kMaxCandidateRank (corrupt detail)) (λ v, 0 <= v <= kMaxCandidateRank) (le_bytes 4).
Proof. apply Parses_range. vm_compute. congruence. Qed.
#[local] Hint Resolve Parses_store_path Parses_store_cost Parses_store_rank : parses.

Lemma Parses_entry topology seen :
  Parses (read_entry limits topology seen) (entry_ok limits topology seen) entry_bytes.
Proof.
  unfold read_entry, entry_ok, entry_fits, entry_bytes. cbv zeta.
  parse_field en_path. parse_field en_cost.
  parse_field en_rank; [lia|].
  parse_guard; [subst; apply negb_false_iff, Z.eqb_eq; congruence|].
  parse_guard; [subst; apply negb_false_iff, Z.eqb_eq; congruence|].
  parse_guard.
  { subst. apply existsb_false. eapply Forall_impl; [eassumption|]. intros h ?.
    rewrite Z.gtb_ltb. by apply Z.ltb_ge. }
  parse_guard; [subst; by apply (existsb_eqb_false (λ e, PathId (en_path e)))|].
  rewrite !negb_false_iff, !Z.eqb_eq, (existsb_eqb_false (λ e, PathId (en_path e))), existsb_false in *.
  cbn beta in *. parse_ret; [lia|].
  eapply Forall_impl; [eassumption|]. intros h ?. cbn beta in *. bool_to_prop. lia.
Qed.

(** *** Records *)

Definition parallel (r : StoredPlanRecord) : Prop :=
  length (sp_costs r) = length (sp_candidates r) ∧ length (sp_ranks r) = length (sp_candidates r).

Definition record_ok (r : StoredPlanRecord) : Prop :=
  valid_id (sp_request r) ∧ valid_id (sp_plan r) ∧ u64_fits (sp_generation r) ∧
  u64_fits (sp_publish_sequence r) ∧ valid_id (sp_constraint_set r) ∧
  u64_fits (sp_constraint_generation r) ∧ u64_fits (sp_policy_generation r) ∧
  valid_id (sp_source r) ∧ valid_id (sp_destination r) ∧ evidence_ok (sp_evidence r) ∧
  bytes_of kSha256Bytes (sp_semantic_digest r) ∧ parallel r ∧
  Z.of_nat (length (sp_candidates r)) <= max_candidates_per_request limits ∧
  appended (entry_ok limits (g_topology (ev_generations (sp_evidence r)))) [] (stored_entries r) ∧
  decreasing_cost (sp_costs r) = false ∧
  ComputeSemanticDigest (FromStoredRecord r) = sp_semantic_digest r.

Definition new_record (seen : list StoredPlanRecord) (r : StoredPlanRecord) : Prop :=
  record_ok r ∧ sp_plan r ∉ map sp_plan seen.

Lemma stored_entries_paths r : map en_path (stored_entries r) = sp_candidates r.
Proof.
  unfold stored_entries. apply list_eq. intros i. rewrite list_lookup_fmap, list_lookup_imap.
  by destruct (_ !! i).
Qed.

Lemma length_stored_entries r : length (stored_entries r) = length (sp_candidates r).
Proof. apply length_imap. Qed.

Lemma stored_entries_parallel r :
  parallel r → map en_cost (stored_entries r) = sp_costs r ∧ map en_rank (stored_entries r) = sp_ranks r.
Proof.
  intros [Hc Hr]. unfold stored_entries. split; apply list_eq; intros i; rewrite list_lookup_fmap, list_lookup_imap.
  - destruct (sp_candidates r !! i) as [p|] eqn:Ei; simpl.
    + symmetry. rewrite nth_lookup. destruct (sp_costs r !! i) eqn:Ec; [done|].
      apply lookup_ge_None in Ec. apply lookup_lt_Some in Ei. lia.
    + symmetry. apply lookup_ge_None. apply lookup_ge_None in Ei. lia.
  - destruct (sp_candidates r !! i) as [p|] eqn:Ei; simpl.
    + destruct (sp_ranks r !! i) eqn:Ec; [done|].
      apply lookup_ge_None in Ec. apply lookup_lt_Some in Ei. lia.
    + symmetry. apply lookup_ge_None. apply lookup_ge_None in Ei. lia.
Qed.

(** The vectors of a record that was built from entries. *)
Lemma entries_stored r l :
  sp_candidates r = map en_path l → sp_costs r = map en_cost l → sp_ranks r = map en_rank l →
  parallel r ∧ stored_entries r = l.
Proof.
  intros E1 E2 E3. split; [by unfold parallel; rewrite E1, E2, E3, !length_map|].
  unfold stored_entries. rewrite E1. apply list_eq. intros i. rewrite list_lookup_imap, list_lookup_fmap.
  destruct (l !! i) as [e|] eqn:Ei; [|done]. simpl. f_equal. unfold stored_entry.
  rewrite E2, E3, list_lookup_fmap, Ei. simpl.
  rewrite (nth_lookup_Some (map en_cost l) i zero_cost (en_cost e)) by (by rewrite list_lookup_fmap, Ei).
  by destruct e.
Qed.

Lemma Parses_ReadId tag name : Parses (ReadId (tag := tag) name) valid_id id_bytes.
Proof. apply Parses_with_error, Parses_decode_id. Qed.
Lemma Parses_ReadStrong name : Parses (ReadStrong name) u64_fits (le_bytes 8).
Proof. apply Parses_with_error, Parses_decode_strong. Qed.
Lemma Parses_ReadEnumValue T `{CppEnum T} name : Parses (ReadEnumValue T name) enum_fits enum_bytes.
Proof. apply Parses_with_error, Parses_decode_enum. Qed.
Lemma Parses_ReadEvidence :
  Parses ReadEvidence evidence_ok evidence_bytes.
Proof. apply Parses_with_error, Parses_evidence. Qed.
#[local] Hint Resolve Parses_ReadId Parses_ReadStrong Parses_ReadEnumValue Parses_ReadEvidence : parses.

Lemma Parses_entries topology n :
  Parses (pvec n (read_entry limits topology) [])
    (λ l, length l = n ∧ appended (entry_ok limits topology) [] l) (flat_map entry_bytes).
Proof.
  eapply Parses_ext; [| |apply (Parses_vec n _ (entry_ok limits topology) entry_bytes []); intros seen; apply Parses_entry].
  - intros l. cbn [app]. naive_solver.
  - intros l _. cbn [length]. by rewrite drop_0.
Qed.

(** A record is its scalar fields and its entries. *)
Lemma record_of_entries b read :
  parallel b → stored_entries b = read →
  b = MkStored (sp_request b) (sp_plan b) (sp_generation b) (sp_publish_sequence b) (sp_status b)
        (sp_evidence b) (sp_constraint_set b) (sp_constraint_generation b) (sp_policy_generation b)
        (sp_source b) (sp_destination b) (sp_layer b) (sp_diagnostic_mode b)
        (map en_path read) (map en_cost read) (map en_rank read) (sp_semantic_digest b).
Proof.
  intros Hp <-. destruct (stored_entries_parallel b Hp) as [-> ->]. rewrite stored_entries_paths.
  by destruct b.
Qed.

Lemma Parses_record seen : Parses (read_record limits seen) (new_record seen) record_bytes.
Proof.
  unfold read_record, new_record, record_ok, record_bytes, list_bytes. cbv zeta.
  parse_field sp_request. parse_field sp_plan. parse_field sp_generation.
  parse_field sp_publish_sequence. parse_field sp_status. parse_field sp_constraint_set.
  parse_field sp_constraint_generation. parse_field sp_policy_generation. parse_field sp_source.
  parse_field sp_destination. parse_field sp_layer. parse_field sp_diagnostic_mode.
  parse_field sp_evidence. parse_field sp_semantic_digest.
  parse_field (λ r, Z.of_nat (length (stored_entries r)));
    [rewrite length_stored_entries; unfold u64_fits; lia|].
  parse_guard; [subst; rewrite Z.gtb_ltb, length_stored_entries; by apply Z.ltb_ge|].
  eapply (Parses_bind stored_entries);
    [apply Parses_entries
    |intros b ?; cbn beta in *; destruct_and?; subst; split; [by rewrite Nat2Z.id|done]
    |intros b; symmetry; apply app_nil_r|].
  intros read [Hread Hentries].
  parse_guard.
  { subst. by rewrite (proj1 (stored_entries_parallel b ltac:(done))). }
  parse_guard; [subst; by apply (existsb_eqb_false sp_plan)|].
  parse_guard.
  { subst. apply negb_false_iff, eqb_eq. by rewrite <- record_of_entries by done. }
  rewrite negb_false_iff, eqb_eq, (existsb_eqb_false sp_plan) in *. bool_to_prop.
  apply Parses_ret; [|done]. intros b. cbn beta. split.
  - intros ?. destruct_and?. subst. by apply record_of_entries.
  - intros ->. destruct (entries_stored (MkStored a a0 a1 a2 a3 a11 a4 a5 a6 a7 a8 a9 a10
      (map en_path read) (map en_cost read) (map en_rank read) a12) read) as [Hp He]; [done..|].
    rewrite He. cbn in *. rewrite length_map, Hread. unfold u64_fits in *. split_and!; try done; lia.
Qed.

(** *** Images *)

Definition records_ok (records : list StoredPlanRecord) : Prop :=
  Forall record_ok records ∧ NoDup (map sp_plan records).

Lemma appended_records records : appended new_record [] records ↔ records_ok records.
Proof.
  unfold new_record. rewrite appended_fresh. unfold records_ok. cbn [map]. split; [naive_solver|].
  intros [? ?]. split_and!; [done..|]. intros y _ Hy. by apply elem_of_nil in Hy.
Qed.

Lemma Parses_payload count :
  0 <= count →
  Parses (read_payload limits count)
    (λ p, u64_fits (py_publish_sequence p) ∧ u64_fits (Z.of_nat (length (py_records p))) ∧
          Z.of_nat (length (py_records p)) = count ∧ records_ok (py_records p)) payload_bytes.
Proof.
  intros Hcount. unfold read_payload, payload_bytes, list_bytes. cbv zeta.
  parse_field py_publish_sequence.
  parse_field (λ p, Z.of_nat (length (py_records p))).
  parse_guard; [subst; apply negb_false_iff, Z.eqb_eq; congruence|].
  rewrite negb_false_iff, Z.eqb_eq in *.
  eapply (Parses_bind py_records _ _ (λ l, length l = Z.to_nat count ∧ appended new_record [] l)
    (flat_map record_bytes)).
  - eapply Parses_ext; [| |apply (Parses_vec _ _ new_record record_bytes []); intros seen; apply Parses_record].
    + intros l. cbn [app]. naive_solver.
    + intros l _. cbn [length]. by rewrite drop_0.
  - intros b ?. cbn beta in *. destruct_and?. split; [lia|]. by apply appended_records.
  - intros b. symmetry. apply app_nil_r.
  - intros records [Hlen Hall]. apply appended_records in Hall. cbn beta in *.
    apply Parses_ret; [|done]. intros b. split.
    + intros ?. destruct_and?. destruct b. cbn in *. by subst.
    + intros ->. cbn. unfold u64_fits in *. split_and!; try done; lia.
Qed.

Definition store_header_bytes (h : StoreHeader) : bytes :=
  text_bytes kStoreMagic ++ le_bytes 4 kPersistedFormatVersion ++ le_bytes 4 kPlanningRuleVersion ++
  le_bytes 4 kPathEncodingVersion ++ le_bytes 8 (sh_record_count h) ++
  le_bytes 8 (sh_payload_length h).
Definition store_header_ok (h : StoreHeader) : Prop :=
  u64_fits (sh_record_count h) ∧ u64_fits (sh_payload_length h) ∧
  sh_record_count h <= max_persisted_plans limits.

Lemma Parses_store_header : Parses (DecodeStoreHeader limits) store_header_ok store_header_bytes.
Proof.
  unfold DecodeStoreHeader, store_header_ok, store_header_bytes. cbv zeta.
  parse_field (λ _ : StoreHeader, text_bytes kStoreMagic).
  { split; [done|]. apply text_bytes_byte. }
  parse_guard; [subst; apply negb_false_iff; by apply eqb_eq|].
  parse_field (λ _ : StoreHeader, kPersistedFormatVersion); [by split|].
  parse_field (λ _ : StoreHeader, kPlanningRuleVersion); [by split|].
  parse_field (λ _ : StoreHeader, kPathEncodingVersion); [by split|].
  parse_field sh_record_count. parse_field sh_payload_length.
  parse_guard; [subst; by rewrite Z.eqb_refl|].
  parse_guard; [subst; by rewrite !Z.eqb_refl|].
  parse_guard; [subst; rewrite Z.gtb_ltb; by apply Z.ltb_ge|].
  rewrite orb_false_iff, !negb_false_iff, !Z.eqb_eq, eqb_eq in *. destruct_and?. subst.
  bool_to_prop. parse_ret.
Qed.
End decoder.

(** ** Exactness *)

Definition store_fields (p : StorePayload) : StoreHeader :=
  MkStoreHeader (Z.of_nat (length (py_records p))) (Z.of_nat (length (payload_bytes p))).

(** The image of a record set: header, digest of header and payload, payload. *)
Definition store_image (p : StorePayload) : bytes :=
  let header := store_header_bytes (store_fields p) in
  header ++ Hash (header ++ payload_bytes p) ++ payload_bytes p.

Lemma length_store_header_bytes h : length (store_header_bytes h) = kStoreHeaderBytes.
Proof. unfold store_header_bytes. by rewrite !length_app, !length_le_bytes. Qed.

(** What a store may hold under the limits of its reader. *)
Definition store_ok (limits : ResourceLimits) (p : StorePayload) : Prop :=
  u64_fits (py_publish_sequence p) ∧ Z.of_nat (length (payload_bytes p)) <= u64_max ∧
  Z.of_nat (length (py_records p)) <= max_persisted_plans limits ∧
  records_ok limits (py_records p).

Record store_limits_fit (limits : ResourceLimits) : Prop := {
  sl_hops : lim_max_hops limits <= u64_max;
  sl_candidates : max_candidates_per_request limits <= u64_max;
  sl_plans : max_persisted_plans limits <= u64_max
}.

(** An image that is accepted has a header, the digest, and exactly the payload. *)
Lemma store_slices (image : bytes) :
  image = take kStoreHeaderBytes image ++ take kStoreDigestBytes (drop kStoreHeaderBytes image) ++
          drop (kStoreHeaderBytes + kStoreDigestBytes) image.
Proof. by rewrite <- drop_drop, !take_drop. Qed.

Lemma expected_size_exact n len :
  u64_fits len → n <= u64_max → 68 <= n → wrap64 (68 + len) = n → len = n - 68.
Proof.
  unfold u64_fits, wrap64. intros Hlen Hn H68 Hw.
  assert (Hdiv := Z.div_mod (68 + len) 18446744073709551616 ltac:(done)).
  rewrite Hw in Hdiv. unfold u64_max in *. lia.
Qed.

Section exact.
Context (limits : ResourceLimits) (Hfit : store_limits_fit limits).

Lemma DecodePlanStore_sound image records :
  Forall is_byte image → Z.of_nat (length image) <= u64_max →
  DecodePlanStore image limits = inr records →
  ∃ sequence, let p := MkStorePayload sequence records in store_ok limits p ∧ image = store_image p.
Proof.
  intros Hbytes Hsize. unfold DecodePlanStore. cbv zeta.
  destruct (Nat.ltb_spec (length image) (kStoreHeaderBytes + kStoreDigestBytes)) as [|Hlen]; [done|].
  pose proof (Parses_store_header limits (new_reader (take kStoreHeaderBytes image))
    (new_reader_ok _ ltac:(by apply Forall_take))) as Hp.
  destruct (DecodeStoreHeader _ _) as [[e|h] r'] eqn:Eh; [done|]. cbn [fst].
  destruct (proj1 (Hp h r') eq_refl) as ((Hcount & Hplen & Hplans) & [rest Hrest] & _).
  cbn [position_ rdata_ new_reader] in Hrest. rewrite drop_0 in Hrest.
  assert (Hheader : take kStoreHeaderBytes image = store_header_bytes h).
  { assert (Hl : length (take kStoreHeaderBytes image) = kStoreHeaderBytes) by (rewrite length_take; lia).
    rewrite Hrest, length_app, length_store_header_bytes in Hl. destruct rest; [by rewrite Hrest, app_nil_r|].
    cbn [length] in Hl. lia. }
  destruct (Z.ltb_spec (Z.of_nat (length image)) (wrap64 (Z.of_nat (kStoreHeaderBytes + kStoreDigestBytes) + sh_payload_length h))) as [|H1]; [done|].
  rewrite Z.gtb_ltb.
  destruct (Z.ltb_spec (wrap64 (Z.of_nat (kStoreHeaderBytes + kStoreDigestBytes) + sh_payload_length h)) (Z.of_nat (length image))) as [|H2]; [done|].
  change (kStoreHeaderBytes + kStoreDigestBytes)%nat with 68%nat in *.
  change (Z.of_nat 68) with 68 in *.
  assert (Hpl : sh_payload_length h = Z.of_nat (length image) - 68)
    by (apply expected_size_exact; [done..|lia|lia]).
  set (payload := take _ (drop 68 image)).
  assert (Hpayload : payload = drop 68 image) by (apply take_ge; rewrite length_drop; lia).
  destruct (eqb _ _) eqn:Ed; [|done]. apply eqb_eq in Ed. cbn [negb].
  destruct (parse_all _ _ _) as [e|p] eqn:Ep; [done|]. intros [= <-].
  apply (parse_all_spec _ _ _ _ payload p
    (Parses_payload limits (sl_hops _ Hfit) (sl_candidates _ Hfit) (sh_record_count h) ltac:(apply Hcount))) in Ep
    as ((Hseq & Hn & Hneq & Hok) & Henc); [|rewrite Hpayload; by apply Forall_drop].
  exists (py_publish_sequence p). replace (MkStorePayload (py_publish_sequence p) (py_records p)) with p by (by destruct p).
  assert (Hfields : store_fields p = h).
  { unfold store_fields. rewrite <- Henc, Hpayload, length_drop. destruct h. cbn in *. f_equal; lia. }
  cbv zeta. split.
  - split_and!; try done; [|lia]. rewrite <- Henc, Hpayload, length_drop. unfold u64_fits in *. lia.
  - rewrite Hash_two, Hheader in Ed. unfold store_image. rewrite Hfields, <- Henc, <- Ed, Hpayload, <- Hheader.
    apply store_slices.
Qed.

Lemma DecodePlanStore_complete image p :
  Forall is_byte image → store_ok limits p → image = store_image p → Z.of_nat (length image) <= u64_max →
  DecodePlanStore image limits = inr (py_records p).
Proof.
  intros Hbytes (Hseq & Hsize & Hplans & Hok) Henc Hsize2. unfold DecodePlanStore. cbv zeta.
  set (h := store_fields p) in *. set (header := store_header_bytes h).
  set (check := Hash (header ++ payload_bytes p)).
  assert (Himage : image = header ++ check ++ payload_bytes p) by done. clear Henc.
  assert (Hlh : length header = kStoreHeaderBytes) by apply length_store_header_bytes.
  assert (Hlc : length check = kStoreDigestBytes) by apply length_Hash.
  assert (Hlen : length image = (68 + length (payload_bytes p))%nat)
    by (rewrite Himage, !length_app, Hlh, Hlc; done).
  change (kStoreHeaderBytes + kStoreDigestBytes)%nat with 68%nat.
  rewrite (proj2 (Nat.ltb_ge _ _)) by lia.
  assert (Htake : take kStoreHeaderBytes image = header) by (rewrite Himage, <- Hlh; apply take_app_length).
  assert (Hd1 : drop kStoreHeaderBytes image = check ++ payload_bytes p)
    by (rewrite Himage, <- Hlh; apply drop_app_length).
  assert (Hd2 : drop 68 image = payload_bytes p).
  { change 68%nat with (kStoreHeaderBytes + kStoreDigestBytes)%nat. rewrite <- drop_drop, Hd1, <- Hlc.
    apply drop_app_length. }
  assert (Hcheck : take kStoreDigestBytes (drop kStoreHeaderBytes image) = check)
    by (rewrite Hd1, <- Hlc; apply take_app_length).
  rewrite Htake.
  assert (Hhb : Forall is_byte header) by (rewrite <- Htake; by apply Forall_take).
  pose proof (Parses_store_header limits (new_reader header) (new_reader_ok _ Hhb) h
    (advance (length header) (new_reader header))) as Hp.
  pose proof (sl_plans _ Hfit).
  rewrite (proj2 Hp).
  2:{ split; [|split; [exists []; by rewrite app_nil_r|done]]. unfold store_header_ok, h, store_fields, u64_fits. cbn [sh_record_count sh_payload_length]. lia. }
  cbn [fst]. replace (wrap64 (Z.of_nat 68 + sh_payload_length h)) with (Z.of_nat (length image)).
  2:{ unfold wrap64, h, store_fields. cbn [sh_payload_length]. unfold u64_max in *. rewrite Z.mod_small; lia. }
  rewrite Z.gtb_ltb, Z.ltb_irrefl. rewrite Hcheck, Hd2, take_ge by (unfold h, store_fields; cbn [sh_payload_length]; lia).
  rewrite Hash_two. fold check. rewrite eqb_refl. cbn [negb].
  rewrite (proj2 (parse_all_spec _ _ _ _ (payload_bytes p) p
    (Parses_payload limits (sl_hops _ Hfit) (sl_candidates _ Hfit) (sh_record_count h)
       ltac:(unfold h, store_fields; cbn [sh_record_count]; lia)) ltac:(rewrite <- Hd2; by apply Forall_drop))); [done|].
  unfold h, store_fields, u64_fits in *. cbn [sh_record_count]. split_and!; try done; lia.
Qed.
End exact.

(** *** The encoder *)

Lemma write_records_spec limits records w :
  write_records limits records w =
    match first_error (check_record limits) records with
    | Some e => inl e
    | None => inr (fold_left (λ w r, EncodeRecord r w) records w)
    end.
Proof.
  revert w. induction records as [|r records IH]; intros w; [done|]. cbn [write_records first_error fold_left].
  destruct (check_record limits r); [done|]. apply IH.
Qed.

Definition write_payload (p : StorePayload) (w : ByteWriter) : ByteWriter :=
  w |> U64 (py_publish_sequence p) |> write_list EncodeRecord (py_records p).

Lemma Writes_payload p : Writes (write_payload p) (payload_bytes p).
Proof. unfold write_payload, payload_bytes. writes_pipeline. Qed.

(** The header always fits. *)
Lemma store_header_data count size :
  let w := store_header count size in
  overflowed_ w = false ∧
  data_ w = store_header_bytes (MkStoreHeader (Z.of_nat count) (Z.of_nat size)).
Proof.
  assert (Hw : Writes (λ w, w |> FixedBytes (text_bytes kStoreMagic) |> U32 kPersistedFormatVersion
    |> U32 kPlanningRuleVersion |> U32 kPathEncodingVersion |> U64 (Z.of_nat count)
    |> U64 (Z.of_nat size)) (store_header_bytes (MkStoreHeader (Z.of_nat count) (Z.of_nat size))))
    by (unfold store_header_bytes; writes_pipeline).
  destruct (Writes_new_writer _ _ (Z.of_nat kStoreHeaderBytes) Hw) as [Hov Hdata]; [lia|].
  cbv zeta in *. rewrite length_store_header_bytes in Hov.
  assert (H : overflowed_ (store_header count size) = false) by (apply Hov; done).
  split; [exact H|by apply Hdata].
Qed.

(** What the encoder asks of its records: less than its decoder does. *)
Definition encodable (records : list StoredPlanRecord) (options : StoreOptions) : Prop :=
  let limits := so_limits options in
  let p := MkStorePayload (so_publish_sequence options) records in
  ValidateLimits limits = None ∧ Z.of_nat (length records) <= max_persisted_plans limits ∧
  Forall (λ r, IsValid (sp_plan r) = true ∧ IsValid (sp_request r) = true ∧
               length (sp_candidates r) = length (sp_costs r) ∧
               Z.of_nat (length (sp_candidates r)) <= max_candidates_per_request limits) records ∧
  Z.of_nat (length (payload_bytes p)) <= payload_ceiling limits.

Lemma check_record_None limits r :
  check_record limits r = None ↔
  IsValid (sp_plan r) = true ∧ IsValid (sp_request r) = true ∧
  length (sp_candidates r) = length (sp_costs r) ∧
  Z.of_nat (length (sp_candidates r)) <= max_candidates_per_request limits.
Proof.
  unfold check_record, Exceeds. destruct (IsValid (sp_plan r)); [|naive_solver].
  destruct (IsValid (sp_request r)); [|naive_solver]. cbn [negb orb].
  destruct (Nat.eqb_spec (length (sp_candidates r)) (length (sp_costs r))); [|naive_solver]. cbn [negb].
  rewrite Z.gtb_ltb. destruct (Z.ltb_spec (max_candidates_per_request limits) (Z.of_nat (length (sp_candidates r)))); naive_solver lia.
Qed.

Lemma EncodePlanStore_spec records options image :
  EncodePlanStore records options = inr image ↔
  encodable records options ∧
  image = store_image (MkStorePayload (so_publish_sequence options) records).
Proof.
  unfold EncodePlanStore, encodable. cbv zeta. set (limits := so_limits options).
  set (p := MkStorePayload (so_publish_sequence options) records).
  destruct (ValidateLimits limits); [split; [discriminate|intros ((Hnone & _) & _); discriminate]|]. unfold Exceeds. rewrite Z.gtb_ltb.
  destruct (Z.ltb_spec (max_persisted_plans limits) (Z.of_nat (length records)));
    [split; [discriminate|intros ((_ & ? & _) & _); exfalso; lia]|].
  rewrite write_records_spec.
  assert (Hck : first_error (check_record limits) records = None ↔
    Forall (λ r, IsValid (sp_plan r) = true ∧ IsValid (sp_request r) = true ∧
      length (sp_candidates r) = length (sp_costs r) ∧
      Z.of_nat (length (sp_candidates r)) <= max_candidates_per_request limits) records).
  { rewrite first_error_None, Forall_forall. by setoid_rewrite check_record_None. }
  destruct (first_error (check_record limits) records) as [e|];
    [split; [discriminate|intros ((_ & _ & Hok & _) & _); apply Hck in Hok; discriminate]|].
  change (fold_left _ records _) with (write_payload p (new_writer (payload_ceiling limits))).
  destruct (Writes_new_writer _ _ (payload_ceiling limits) (Writes_payload p)) as [Hov Hdata];
    [unfold payload_ceiling, wrap32; by apply Z.mod_pos_bound|]. cbv zeta in *.
  destruct (overflowed_ (write_payload p _)) eqn:Ew.
  { split; [discriminate|]. intros ((_ & _ & _ & Hle) & _). apply Hov in Hle. discriminate. }
  rewrite (Hdata eq_refl). destruct (store_header_data (length records) (length (payload_bytes p))) as [-> Hh].
  rewrite Hh, Hash_two. unfold store_image, store_fields. cbn [py_records p]. split.
  - intros [= <-]. split; [|reflexivity]. split; [reflexivity|]. split; [assumption|].
    split; [by apply Hck|by apply Hov].
  - intros [_ ->]. reflexivity.
Qed.
