(* ===== verification/StoreFacts.v ===== *)
(** The plan store as its callers use it: the image codec is exact, plans survive a
    save and a load as history, and the store file is replaced atomically. *)

From stdpp Require Import gmap strings.
From S2P Require Import Prelude Canonical Sha256 Status Ids Codec Limits Graph Path Request View Result Parse PlanCodec Store.

Open Scope string_scope.
Open Scope list_scope.
Open Scope Z_scope.

(** C15: the plan store codec is exact: an image decodes to records exactly when it is the
    image of those records, with some publish sequence, and they are fit to store:
    every identifier set, every path well formed and simple, every cost the sum of its
    components, ranks in sequence, costs in order, no candidate and no plan twice, no
    hop younger than the topology, and every semantic digest that of the content. The
    encoder writes that image whenever it succeeds, but it checks less. *)
Theorem store_exact limits options image records :
  store_limits_fit limits → Forall is_byte image → Z.of_nat (length image) <= u64_max →
  (DecodePlanStore image limits = inr records ↔
   ∃ sequence, store_ok limits (MkStorePayload sequence records) ∧
               image = store_image (MkStorePayload sequence records)) ∧
  (EncodePlanStore records options = inr image ↔
   encodable records options ∧
   image = store_image (MkStorePayload (so_publish_sequence options) records)).
Proof.
  intros Hfit Hbytes Hsize. split; [|apply EncodePlanStore_spec]. split.
  - by apply DecodePlanStore_sound.
  - intros (sequence & Hok & Himage).
    by rewrite (DecodePlanStore_complete limits Hfit image (MkStorePayload sequence records) Hbytes Hok Himage Hsize).
Qed.

(** ** Plans through the store *)

(** The store keeps the elements of a path, not the state they had. *)
Definition plain_path (p : CandidatePath) : CandidatePath :=
  MkPath (p_source p) (p_destination p) (p_layer p) (p_nodes p) (map hop_identity (p_hops p)).
Definition plain_record (r : StoredPlanRecord) : StoredPlanRecord :=
  MkStored (sp_request r) (sp_plan r) (sp_generation r) (sp_publish_sequence r) (sp_status r)
    (sp_evidence r) (sp_constraint_set r) (sp_constraint_generation r) (sp_policy_generation r)
    (sp_source r) (sp_destination r) (sp_layer r) (sp_diagnostic_mode r)
    (map plain_path (sp_candidates r)) (sp_costs r) (sp_ranks r) (sp_semantic_digest r).

Lemma path_bytes_plain p : path_bytes (plain_path p) = path_bytes p.
Proof. unfold path_bytes, plain_path. cbn [p_source p_destination p_layer p_hops]. by rewrite list_bytes_map. Qed.

Lemma write_list_map {A B} (op : B → ByteWriter → ByteWriter) op' (f : A → B) l w :
  (∀ x w, x ∈ l → op (f x) w = op' x w) → write_list op (map f l) w = write_list op' l w.
Proof.
  intros Hop. unfold write_list. rewrite length_map. generalize (VarU64 (Z.of_nat (length l)) w). clear w.
  induction l as [|x l IH]; intros w; [reflexivity|]. cbn [map fold_left]. rewrite Hop by left.
  apply IH. intros y w' Hy. apply Hop. by right.
Qed.

Lemma EncodePath_plain p w : EncodePath (plain_path p) w = EncodePath p w.
Proof. unfold EncodePath, plain_path. cbn [p_source p_destination p_layer p_hops].
  apply write_list_map. intros h w' _. unfold EncodeHop, hop_identity.
  cbn [h_link h_from h_to h_from_port h_to_port h_layer h_relationship h_structural_generation
    h_static_cost]. reflexivity.
Qed.

Lemma PathDigest_plain p : PathDigest (plain_path p) = PathDigest p.
Proof.
  unfold PathDigest. cbv zeta. rewrite EncodePath_plain.
  replace (length (p_hops (plain_path p))) with (length (p_hops p)) by (symmetry; apply length_map).
  reflexivity.
Qed.
Lemma PathId_plain p : PathId (plain_path p) = PathId p.
Proof. unfold PathId. rewrite PathDigest_plain. reflexivity. Qed.

Definition plain_entry (e : StoredEntry) : StoredEntry :=
  MkEntry (plain_path (en_path e)) (en_cost e) (en_rank e).

Lemma stored_entries_plain r : stored_entries (plain_record r) = map plain_entry (stored_entries r).
Proof.
  unfold stored_entries, plain_record. cbn. apply list_eq. intros i.
  rewrite list_lookup_imap, !list_lookup_fmap, list_lookup_imap. by destruct (sp_candidates r !! i).
Qed.

Lemma list_bytes_map_ext {A B} (f : A → B) enc enc' l :
  (∀ x, enc (f x) = enc' x) → list_bytes enc (map f l) = list_bytes enc' l.
Proof.
  intros Hf. rewrite list_bytes_map. unfold list_bytes. f_equal.
  induction l as [|x l IH]; [reflexivity|]. cbn [flat_map]. by rewrite IH, Hf.
Qed.

Lemma entry_bytes_plain e : entry_bytes (plain_entry e) = entry_bytes e.
Proof. unfold entry_bytes, plain_entry. cbn [en_path en_cost en_rank]. by rewrite path_bytes_plain. Qed.

Lemma record_bytes_plain r : record_bytes (plain_record r) = record_bytes r.
Proof.
  unfold record_bytes. rewrite stored_entries_plain, (list_bytes_map_ext _ _ _ _ entry_bytes_plain).
  reflexivity.
Qed.

Definition plain_payload (p : StorePayload) : StorePayload :=
  MkStorePayload (py_publish_sequence p) (map plain_record (py_records p)).

Lemma payload_bytes_plain p : payload_bytes (plain_payload p) = payload_bytes p.
Proof.
  unfold payload_bytes, plain_payload. cbn [py_records py_publish_sequence].
  by rewrite (list_bytes_map_ext _ _ _ _ record_bytes_plain).
Qed.

Lemma store_image_plain p : store_image (plain_payload p) = store_image p.
Proof.
  unfold store_image, store_fields. cbv zeta. rewrite payload_bytes_plain. unfold plain_payload.
  cbn [py_records]. rewrite length_map. reflexivity.
Qed.

(** The recovered plan has the content of the stored one. *)
Definition own_identities (p : PathPlan) : Prop :=
  Forall (λ c, cd_id c = PathId (cd_path c)) (pl_candidates p).

Definition recovered (p : PathPlan) : PathPlan := FromStoredRecord (plain_record (ToStoredRecord p)).

Lemma recovered_candidates p :
  pl_candidates (recovered p) =
  map (λ c, recovered_candidate (ToStoredRecord p)
              (MkEntry (plain_path (cd_path c)) (cd_cost c) (cd_rank c))) (pl_candidates p).
Proof.
  unfold recovered, FromStoredRecord. cbn [pl_candidates]. rewrite take_ge.
  2:{ rewrite length_stored_entries. unfold plain_record, ToStoredRecord.
      cbn [sp_candidates sp_costs]. rewrite !length_map. lia. }
  rewrite stored_entries_plain, map_map. unfold stored_entries, ToStoredRecord. cbn [sp_candidates].
  apply list_eq. intros i. rewrite !list_lookup_fmap, list_lookup_imap, list_lookup_fmap.
  destruct (pl_candidates p !! i) as [c|] eqn:Ei; [|reflexivity]. cbn. f_equal.
  unfold stored_entry, plain_entry. cbn [sp_costs sp_ranks en_path en_cost en_rank].
  rewrite (nth_lookup_Some _ i zero_cost (cd_cost c)) by (by rewrite list_lookup_fmap, Ei).
  rewrite list_lookup_fmap, Ei. reflexivity.
Qed.

Lemma EncodeSemantic_recovered p w :
  own_identities p → EncodeSemantic (recovered p) w = EncodeSemantic p w.
Proof.
  intros Hown. unfold EncodeSemantic. rewrite recovered_candidates.
  etransitivity; [apply (write_list_map _ EncodeCandidate)|reflexivity].
  intros c w' Hc. unfold EncodeCandidate, recovered_candidate.
  cbn [cd_id cd_path cd_cost cd_rank en_path en_cost en_rank].
  rewrite PathId_plain. unfold own_identities in Hown. rewrite Forall_forall in Hown.
  rewrite (Hown c Hc). reflexivity.
Qed.

Lemma ComputeSemanticDigest_recovered p :
  own_identities p → ComputeSemanticDigest (recovered p) = ComputeSemanticDigest p.
Proof.
  intros Hown. unfold ComputeSemanticDigest. cbv zeta. rewrite EncodeSemantic_recovered by done.
  rewrite recovered_candidates, length_map. reflexivity.
Qed.

(** A plan that can be stored: what the planner publishes, with every identity set. *)
Record storable (limits : ResourceLimits) (p : PathPlan) : Prop := {
  sb_request : valid_id (pl_request p);
  sb_id : valid_id (pl_id p);
  sb_constraint_set : valid_id (pl_constraint_set p);
  sb_source : valid_id (pl_source p);
  sb_destination : valid_id (pl_destination p);
  sb_generation : u64_fits (pl_generation p);
  sb_sequence : u64_fits (pl_publish_sequence p);
  sb_constraints : u64_fits (pl_constraint_generation p);
  sb_policy : u64_fits (pl_policy_generation p);
  sb_evidence : evidence_ok (pl_evidence p);
  sb_digest : pl_semantic_digest p = ComputeSemanticDigest p;
  sb_digest_bytes : bytes_of kSha256Bytes (pl_semantic_digest p);
  sb_count : Z.of_nat (length (pl_candidates p)) <= max_candidates_per_request limits;
  sb_own : own_identities p;
  sb_candidates : ∀ i c, pl_candidates p !! i = Some c →
    path_ok limits (plain_path (cd_path c)) ∧ cost_ok (cd_cost c) ∧
    cd_rank c = Z.of_nat i + 1 ∧ cd_rank c <= kMaxCandidateRank ∧
    c_hops (cd_cost c) = Z.of_nat (length (p_hops (cd_path c))) ∧
    Forall (λ h, h_structural_generation h <= g_topology (ev_generations (pl_evidence p)))
      (p_hops (cd_path c));
  sb_unique : NoDup (map cd_id (pl_candidates p));
  sb_order : Sorted (λ a b, c_total a <= c_total b) (map cd_cost (pl_candidates p))
}.

Lemma decreasing_cost_Sorted costs :
  decreasing_cost costs = false ↔ Sorted (λ a b, c_total a <= c_total b) costs.
Proof.
  induction costs as [|a [|b rest] IH]; [split; [constructor|done]|split; [by repeat constructor|done]|].
  cbn [decreasing_cost]. rewrite orb_false_iff, Z.ltb_ge, IH. split.
  - intros [? ?]. constructor; [done|]. by constructor.
  - intros Hs. apply Sorted_inv in Hs as [? Hd]. by apply HdRel_inv in Hd.
Qed.

Lemma storable_record limits p :
  storable limits p → record_ok limits (plain_record (ToStoredRecord p)).
Proof.
  intros []. unfold record_ok.
  assert (Hpar : parallel (plain_record (ToStoredRecord p)))
    by (unfold parallel, plain_record, ToStoredRecord; cbn [sp_candidates sp_costs sp_ranks]; by rewrite !length_map).
  assert (Hentries : stored_entries (plain_record (ToStoredRecord p)) =
    map (λ c, MkEntry (plain_path (cd_path c)) (cd_cost c) (cd_rank c)) (pl_candidates p)).
  { apply entries_stored; unfold plain_record, ToStoredRecord; cbn [sp_candidates sp_costs sp_ranks];
      by rewrite !map_map. }
  split_and!; try done.
  - unfold plain_record, ToStoredRecord. cbn [sp_candidates]. by rewrite !length_map.
  - rewrite Hentries. intros i e He. cbn [app]. rewrite list_lookup_fmap in He.
    destruct (pl_candidates p !! i) as [c|] eqn:Ei; [|done]. injection He as <-.
    destruct (sb_candidates0 i c Ei) as (Hp & Hc & Hr & Hm & Hh & Hg).
    assert (Hi : (i < length (pl_candidates p))%nat) by (by eapply lookup_lt_Some).
    unfold entry_ok, entry_fits. cbn [en_path en_cost en_rank]. split_and!; try done.
    + unfold plain_path. cbn [p_hops]. by rewrite length_map.
    + unfold plain_path. cbn [p_hops]. apply Forall_map. exact Hg.
    + rewrite length_take, length_map. lia.
    + rewrite PathId_plain. intros (e & Heq & Hin)%list_elem_of_fmap.
      apply elem_of_take in Hin as (j & Hj & Hlt). rewrite list_lookup_fmap in Hj.
      destruct (pl_candidates p !! j) as [d|] eqn:Ej; [|done]. injection Hj as <-.
      cbn [en_path] in Heq. rewrite PathId_plain in Heq.
      unfold own_identities in sb_own0. rewrite Forall_lookup in sb_own0.
      rewrite <- (sb_own0 i c Ei), <- (sb_own0 j d Ej) in Heq.
      assert (i = j); [|lia]. eapply (NoDup_lookup (map cd_id (pl_candidates p)) i j (cd_id c)); [done|..];
        rewrite list_lookup_fmap; [by rewrite Ei|by rewrite Ej, Heq].
  - unfold plain_record, ToStoredRecord. cbn [sp_costs]. by apply decreasing_cost_Sorted.
  - fold (recovered p). rewrite ComputeSemanticDigest_recovered by done. by symmetry.
Qed.

(** What a recovered candidate keeps of the stored one, and what it loses. *)
Definition demoted (c d : Candidate) : Prop :=
  cd_id d = cd_id c ∧ same_route (cd_path d) (cd_path c) ∧ cd_cost d = cd_cost c ∧
  cd_rank d = cd_rank c ∧ cd_currentness d = Currentness.kRevalidationRequired ∧
  cd_authority d = AuthorityValidation.kNotRequested.

Lemma demoted_recovered p :
  own_identities p → Forall2 demoted (pl_candidates p) (pl_candidates (recovered p)).
Proof.
  unfold own_identities. intros Hown. rewrite recovered_candidates. apply Forall2_fmap_r.
  apply Forall_Forall2_diag. eapply Forall_impl; [exact Hown|]. intros c Hc.
  unfold compose, demoted, recovered_candidate.
  cbn [cd_id cd_path cd_cost cd_rank cd_currentness cd_authority en_path en_cost en_rank].
  rewrite PathId_plain, Hc. split_and!; try reflexivity.
  unfold same_route, plain_path. cbn [p_source p_destination p_layer p_nodes p_hops].
  split_and!; try reflexivity. rewrite map_map. apply map_ext. reflexivity.
Qed.

Lemma store_limits_ceiling limits : payload_ceiling limits < 4294967296.
Proof. unfold payload_ceiling, wrap32. by apply Z.mod_pos_bound. Qed.

Lemma DecodePlanStore_encoded limits options plans image :
  store_limits_fit limits → so_limits options = limits → u64_fits (so_publish_sequence options) →
  Forall (storable limits) plans → NoDup (map pl_id plans) → Forall is_byte image →
  EncodePlanStore (map ToStoredRecord plans) options = inr image →
  DecodePlanStore image limits = inr (map (λ p, plain_record (ToStoredRecord p)) plans).
Proof.
  intros Hfit Hlim Hseq Hplans Hdup Hbytes [Hok Himage]%EncodePlanStore_spec.
  rewrite <- store_image_plain in Himage.
  set (p := plain_payload _) in *.
  assert (Hp : payload_bytes p = payload_bytes (MkStorePayload (so_publish_sequence options) (map ToStoredRecord plans)))
    by apply payload_bytes_plain.
  unfold encodable in Hok. cbv zeta in Hok. rewrite <- Hp, Hlim in Hok.
  destruct Hok as (_ & Hcount & _ & Hsize). rewrite length_map in Hcount.
  pose proof (store_limits_ceiling limits) as Hceil.
  replace (map (λ p, plain_record (ToStoredRecord p)) plans) with (py_records p)
    by (unfold p, plain_payload; cbn [py_records]; apply map_map).
  apply DecodePlanStore_complete; [done|done| |done|].
  - unfold store_ok. split; [exact Hseq|]. split; [unfold u64_max; lia|].
    unfold p, plain_payload. cbn [py_records]. rewrite !length_map. split; [done|].
    rewrite map_map. split.
    + apply Forall_map. eapply Forall_impl; [exact Hplans|]. intros q. apply storable_record.
    + rewrite map_map. exact Hdup.
  - rewrite Himage. unfold store_image. cbv zeta.
    rewrite !length_app, length_Hash, length_store_header_bytes. unfold u64_max, kStoreHeaderBytes. lia.
Qed.

(** C14: plans survive the store as history: an image that encodes storable plans with
    distinct identities decodes, and every plan comes back with its identity, its
    content, its digest (recomputed from the content) and candidates of the same
    identities, routes, costs and ranks, but never as current fabric truth: the
    plan is not proven current and every candidate must be revalidated. *)
Theorem store_recovers limits options plans image :
  store_limits_fit limits → so_limits options = limits → u64_fits (so_publish_sequence options) →
  Forall (storable limits) plans → NoDup (map pl_id plans) → Forall is_byte image →
  EncodePlanStore (map ToStoredRecord plans) options = inr image →
  ∃ records, DecodePlanStore image limits = inr records ∧
    Forall2 (λ p q, pl_id q = pl_id p ∧ pl_request q = pl_request p ∧ pl_status q = pl_status p ∧
                    pl_evidence q = pl_evidence p ∧ ComputeSemanticDigest q = pl_semantic_digest p ∧
                    pl_semantic_digest q = pl_semantic_digest p ∧ pl_currentness_proven q = false ∧
                    Forall2 demoted (pl_candidates p) (pl_candidates q))
      plans (map FromStoredRecord records).
Proof.
  intros Hfit Hlim Hseq Hplans Hdup Hbytes Henc.
  eexists. split; [by eapply DecodePlanStore_encoded|].
  rewrite map_map. apply Forall2_fmap_r, Forall_Forall2_diag. eapply Forall_impl; [exact Hplans|].
  intros p []. unfold compose. fold (recovered p). split_and!; try reflexivity.
  - rewrite ComputeSemanticDigest_recovered by done. by symmetry.
  - by apply demoted_recovered.
Qed.
