(* ===== verification/StoreFile.v ===== *)
(** store.cpp, the store file: [SavePlanStore] writes the image beside the destination
    and renames it into place, [LoadPlanStore] reads it back in bounded chunks. The
    file system is a map from paths to contents; what the operating system does with
    each call is an argument, and the states of the disk between the calls are kept,
    since a crash may leave any of them. Renaming is atomic, as the platforms
    document; data that a power loss takes back out of the device is not modelled. *)

From stdpp Require Import gmap strings.
From S2P Require Import Prelude Canonical Sha256 Status Ids Codec Limits Graph Builder Path Request View ViewFacts Result Planner Concurrent Identity Parse PlanCodec Store StoreFacts.

Open Scope string_scope.
Open Scope list_scope.
Open Scope Z_scope.

Notation Disk := (gmap string bytes).

(** The outcomes of the calls of one save; [os_progress] is how much of the image has
    reached the temporary file at successive moments of the write. *)
Record SaveOutcome := MkOutcome {
  os_opened : bool; os_progress : list nat; os_written : bool; os_replaced : bool;
  os_removed : bool
}.

Definition TempPathFor (path : string) : string := path +:+ ".tmp".

(** The result (an error, or [None]) and the disks on the way, the last one first. *)
Definition SavePlanStore (os : SaveOutcome) (path : string) (records : list StoredPlanRecord)
    (options : StoreOptions) (disk : Disk) : option StoreError * list Disk :=
  early (Some (corrupt "store path is empty"), [disk]) when (String.length path =? 0)%nat ;;
  match EncodePlanStore records options with
  | inl error => (Some error, [disk])
  | inr image =>
      let temporary := TempPathFor path in
      early (Some (corrupt "cannot open the temporary store file"), [disk])
        when negb (os_opened os) ;;
      let partial n := <[temporary := take n image]> disk in
      let writing := map partial (reverse (0%nat :: os_progress os)) ++ [disk] in
      early (Some (corrupt "cannot write the temporary store file"), writing)
        when negb (os_written os) ;;
      let complete : Disk := <[temporary := image]> disk in
      if os_replaced os
      then (None, <[path := image]> (delete temporary complete) :: complete :: writing)
      else (Some (corrupt "atomic replacement failed"),
            (if os_removed os then delete temporary complete else complete) :: complete :: writing)
  end.

Definition kReadBuffer : Z := 65536.

(** [while (stream.good())]: a short read ends the stream. *)
Fixpoint read_chunks (fuel : nat) (ceiling : Z) (rest image : bytes) : option bytes :=
  match fuel with
  | O => Some image
  | S fuel =>
      let chunk := take (Z.to_nat kReadBuffer) rest in
      early Some image when (length chunk =? 0)%nat ;;
      early None when (Z.of_nat (length image + length chunk) >? ceiling) ;;
      let image := image ++ chunk in
      early Some image when (Z.of_nat (length chunk) <? kReadBuffer) ;;
      read_chunks fuel ceiling (drop (Z.to_nat kReadBuffer) rest) image
  end.

(** Here the ceiling is computed in 64 bits. *)
Definition load_ceiling (limits : ResourceLimits) : Z :=
  wrap64 (Z.of_nat (kStoreHeaderBytes + kStoreDigestBytes) + wrap64 (max_frame_bytes limits * 16)).

Definition LoadPlanStore (disk : Disk) (path : string) (limits : ResourceLimits) :
  StoreError + list StoredPlanRecord :=
  early inl (corrupt "store path is empty") when (String.length path =? 0)%nat ;;
  match disk !! path with
  | None => inl (corrupt "store file not found or not readable")
  | Some content =>
      match read_chunks (S (length content)) (load_ceiling limits) content [] with
      | None =>
          inl (DiagnosticCode.kPersistenceLimitExceeded, "store image exceeds the configured ceiling")
      | Some image => DecodePlanStore image limits
      end
  end.

(** The chunks make up the file, unless it is too large. *)
Lemma read_chunks_spec fuel ceiling rest image :
  (length rest < fuel)%nat → Z.of_nat (length image) <= ceiling →
  read_chunks fuel ceiling rest image =
    if Z.of_nat (length image + length rest) <=? ceiling then Some (image ++ rest) else None.
Proof.
  revert rest image. induction fuel as [|fuel IH]; intros rest image Hfuel Himage; [lia|].
  cbn [read_chunks]. remember (Z.to_nat kReadBuffer) as n eqn:En.
  assert (Hn : Z.of_nat n = kReadBuffer) by (subst n; by rewrite Z2Nat.id). clear En.
  unfold kReadBuffer in Hn. set (chunk := take n rest).
  assert (Hc : length chunk = Nat.min n (length rest)) by (unfold chunk; by rewrite length_take).
  assert (Hall : length rest = (length chunk + length (drop n rest))%nat) by (rewrite length_drop; lia).
  destruct (Nat.eqb_spec (length chunk) 0) as [H0|H0].
  { assert (rest = []) as -> by (apply nil_length_inv; lia). cbn [length]. rewrite Nat.add_0_r, app_nil_r.
    by rewrite (proj2 (Z.leb_le _ _)). }
  rewrite Z.gtb_ltb. destruct (Z.ltb_spec ceiling (Z.of_nat (length image + length chunk))) as [Hover|Hfits].
  { rewrite (proj2 (Z.leb_gt _ _)); [done|lia]. }
  destruct (Z.ltb_spec (Z.of_nat (length chunk)) kReadBuffer) as [Hshort|Hlong].
  - assert (chunk = rest) as -> by (apply take_ge; unfold kReadBuffer in *; lia).
    by rewrite (proj2 (Z.leb_le _ _)).
  - rewrite IH; [|unfold kReadBuffer in *; lia|rewrite length_app; lia].
    rewrite length_app, <- app_assoc. unfold chunk at 2. rewrite take_drop.
    by rewrite Hall, Nat.add_assoc.
Qed.

(** ** An image is a byte string *)

Lemma land_255_byte z : is_byte (Z.land z 255).
Proof. unfold is_byte. rewrite land_255. by apply Z.mod_pos_bound. Qed.

Lemma Hash_range data : Forall is_byte (Hash data).
Proof.
  unfold Hash, Finish. cbv zeta. induction (state_ _) as [|w l IH]; [constructor|]. cbn [flat_map].
  apply Forall_app. split; [|exact IH]. unfold word_bytes. repeat constructor; apply land_255_byte.
Qed.

Lemma evidence_bytes_range e : evidence_ok e → Forall is_byte (evidence_bytes e).
Proof. intros (Hs & _ & _). unfold evidence_bytes, generations_bytes. bytes_range. Qed.

Lemma hop_bytes_range h : hop_ok h → Forall is_byte (hop_bytes h).
Proof. intros (? & ? & ? & ? & ? & _). unfold hop_bytes. bytes_range. Qed.

Lemma path_bytes_range limits p : path_ok limits p → Forall is_byte (path_bytes p).
Proof.
  intros (? & ? & _ & Hhops & _). unfold path_bytes. bytes_range.
  apply (list_bytes_range hop_ok); [done|apply hop_bytes_range].
Qed.

Lemma record_bytes_range limits r : record_ok limits r → Forall is_byte (record_bytes r).
Proof.
  intros (? & ? & _ & _ & ? & _ & _ & ? & ? & Hev & [_ Hdigest] & _ & _ & Hentries & _).
  unfold record_bytes. pose proof (evidence_bytes_range _ Hev). bytes_range.
  apply (list_bytes_range (λ e, path_ok limits (en_path e))).
  - apply Forall_lookup. intros i e He. by destruct (Hentries i e He) as ((? & _) & _).
  - intros e He. unfold entry_bytes, cost_bytes. pose proof (path_bytes_range _ _ He). bytes_range.
Qed.

Lemma store_image_range limits p : records_ok limits (py_records p) → Forall is_byte (store_image p).
Proof.
  intros [Hall _]. unfold store_image, store_header_bytes. cbv zeta.
  assert (Forall is_byte (payload_bytes p)).
  { unfold payload_bytes. bytes_range. apply (list_bytes_range (record_ok limits)); [done|].
    apply record_bytes_range. }
  pose proof Hash_range. bytes_range.
Qed.

(** ** Replacement *)

Lemma TempPathFor_ne path : TempPathFor path ≠ path.
Proof.
  unfold TempPathFor. induction path as [|c path IH]; [done|]. intros [= Heq]. by apply IH.
Qed.

(** The disks a save goes through: the destination holds what it held, or the image. *)
Lemma SavePlanStore_disks os path records options disk :
  let '(result, disks) := SavePlanStore os path records options disk in
  (∀ d, d ∈ disks →
     (∀ other, other ≠ path → other ≠ TempPathFor path → d !! other = disk !! other) ∧
     (d !! path = disk !! path ∨
      ∃ image, EncodePlanStore records options = inr image ∧ d !! path = Some image)) ∧
  ∃ last, head disks = Some last ∧
    match result with
    | Some _ => last !! path = disk !! path
    | None => String.length path ≠ 0%nat ∧ last !! TempPathFor path = None ∧
        ∃ image, EncodePlanStore records options = inr image ∧ last !! path = Some image
    end.
Proof.
  pose proof (TempPathFor_ne path) as Hne. unfold SavePlanStore.
  assert (Hsame : ∀ error : option StoreError,
    (∀ d, d ∈ [disk] → (∀ other, other ≠ path → other ≠ TempPathFor path → d !! other = disk !! other) ∧
       (d !! path = disk !! path ∨ ∃ image, EncodePlanStore records options = inr image ∧ d !! path = Some image)) ∧
    ∃ last, head [disk] = Some last ∧ last !! path = disk !! path).
  { intros _. split; [intros d Hd; apply list_elem_of_singleton in Hd as ->; auto|by exists disk]. }
  destruct (Nat.eqb_spec (String.length path) 0) as [|Hpath]; [by apply (Hsame None)|].
  destruct (EncodePlanStore records options) as [error|image] eqn:Henc; [by apply (Hsame None)|].
  destruct (os_opened os); [|by apply (Hsame None)]. cbn [negb]. cbv zeta.
  set (partial n := <[TempPathFor path := take n image]> disk).
  set (writing := map partial _ ++ [disk]).
  assert (Htemp : ∀ content d, d = <[TempPathFor path := content]> disk →
    (∀ other, other ≠ path → other ≠ TempPathFor path → d !! other = disk !! other) ∧
    d !! path = disk !! path).
  { intros content d ->. split; [intros other _ ?|]; by rewrite lookup_insert_ne. }
  assert (Hwriting : ∀ d, d ∈ writing →
    (∀ other, other ≠ path → other ≠ TempPathFor path → d !! other = disk !! other) ∧
    d !! path = disk !! path).
  { intros d Hd. apply elem_of_app in Hd as [Hd|Hd].
    - apply list_elem_of_fmap in Hd as (n & -> & _). by eapply Htemp.
    - by apply list_elem_of_singleton in Hd as ->. }
  assert (Hlast : ∃ last, head writing = Some last ∧ last !! path = disk !! path).
  { destruct (head writing) as [last|] eqn:Eh.
    - exists last. split; [done|]. apply Hwriting. unfold writing in *.
      destruct (map partial _); simpl in *; simplify_eq; left.
    - unfold writing in Eh. by destruct (map partial _). }
  destruct (os_written os); cbn [negb].
  2:{ split; [|exact Hlast]. intros d Hd. destruct (Hwriting d Hd). auto. }
  set (complete := <[TempPathFor path := image]> disk).
  destruct (Htemp image complete eq_refl) as [Hc1 Hc2].
  destruct (os_replaced os).
  - split.
    + intros d Hd. apply elem_of_cons in Hd as [->|Hd]; [|apply elem_of_cons in Hd as [->|Hd]].
      * split; [|right; exists image; by rewrite lookup_insert_eq].
        intros other ??. rewrite lookup_insert_ne, lookup_delete_ne by done. by apply Hc1.
      * auto.
      * destruct (Hwriting d Hd). auto.
    + eexists. split; [reflexivity|]. split; [done|].
      rewrite lookup_insert_ne by done. rewrite lookup_delete_eq. split; [done|].
      exists image. by rewrite lookup_insert_eq.
  - split.
    + intros d Hd. apply elem_of_cons in Hd as [->|Hd]; [|apply elem_of_cons in Hd as [->|Hd]].
      * destruct (os_removed os); [|auto]. split; [|left; by rewrite lookup_delete_ne].
        intros other ??. rewrite lookup_delete_ne by done. by apply Hc1.
      * auto.
      * destruct (Hwriting d Hd). auto.
    + eexists. split; [reflexivity|]. destruct (os_removed os); [|done]. by rewrite lookup_delete_ne.
Qed.

Lemma LoadPlanStore_same d d' path limits :
  d !! path = d' !! path → LoadPlanStore d path limits = LoadPlanStore d' path limits.
Proof. intros Heq. unfold LoadPlanStore. by rewrite Heq. Qed.

Lemma length_store_image p :
  Z.of_nat (length (store_image p)) = 68 + Z.of_nat (length (payload_bytes p)).
Proof.
  unfold store_image. cbv zeta. rewrite !length_app, length_Hash, length_store_header_bytes.
  unfold kStoreHeaderBytes. lia.
Qed.

(** The reader's ceiling covers whatever the writer's lets through. *)
Lemma LoadPlanStore_saved limits options path plans image d :
  store_limits_fit limits → 0 <= max_frame_bytes limits <= u32_max → so_limits options = limits →
  u64_fits (so_publish_sequence options) → Forall (storable limits) plans → NoDup (map pl_id plans) →
  EncodePlanStore (map ToStoredRecord plans) options = inr image →
  String.length path ≠ 0%nat → d !! path = Some image →
  LoadPlanStore d path limits = inr (map (λ p, plain_record (ToStoredRecord p)) plans).
Proof.
  intros Hfit Hframe Hlim Hseq Hplans Hdup Henc Hpath Hd. unfold LoadPlanStore.
  rewrite (proj2 (Nat.eqb_neq _ _) Hpath), Hd.
  pose proof Henc as [(_ & _ & _ & Hsize) Himage]%EncodePlanStore_spec. rewrite Hlim in Hsize.
  assert (Hceil : load_ceiling limits = 68 + max_frame_bytes limits * 16).
  { unfold load_ceiling, wrap64. change (Z.of_nat (kStoreHeaderBytes + kStoreDigestBytes)) with 68.
    unfold u32_max in Hframe. rewrite (Z.mod_small (max_frame_bytes limits * 16)) by lia. apply Z.mod_small. lia. }
  assert (Hlen : Z.of_nat (length image) <= load_ceiling limits).
  { rewrite Himage, length_store_image, Hceil. unfold payload_ceiling, wrap32 in Hsize.
    pose proof (Z.mod_le (max_frame_bytes limits * 16) 4294967296). lia. }
  rewrite read_chunks_spec; [|lia|cbn [length]; lia]. cbn [length]. rewrite Nat.add_0_l.
  rewrite (proj2 (Z.leb_le _ _) Hlen). cbn [app].
  eapply DecodePlanStore_encoded; try done.
  rewrite Himage, <- store_image_plain. apply (store_image_range limits).
  unfold plain_payload. cbn [py_records]. rewrite map_map. split.
  - apply Forall_map. eapply Forall_impl; [exact Hplans|]. intros p. apply storable_record.
  - by rewrite map_map.
Qed.

(** C13: saving is atomic under crashes, for plans that are storable (every identity set,
    their own digest, values in range; a plan without resolved endpoints is not), no two
    of one identity, under limits whose ceilings fit their types: whatever the file
    system does with the calls of the save, and wherever the process dies in it, the
    other files are untouched and the store loads either exactly what it loaded before
    or exactly the plans of the save; a save that reports success loads the plans, and
    one that reports a failure leaves what was there. For other plans it does not hold:
    [store_accepts_undecodable]. *)
Theorem store_crash_safe limits options os path plans disk :
  store_limits_fit limits → 0 <= max_frame_bytes limits <= u32_max → so_limits options = limits →
  u64_fits (so_publish_sequence options) → Forall (storable limits) plans → NoDup (map pl_id plans) →
  let saved := inr (map (λ p, plain_record (ToStoredRecord p)) plans) in
  let '(result, disks) := SavePlanStore os path (map ToStoredRecord plans) options disk in
  (∀ d, d ∈ disks →
     (∀ other, other ≠ path → other ≠ TempPathFor path → d !! other = disk !! other) ∧
     (LoadPlanStore d path limits = LoadPlanStore disk path limits ∨
      LoadPlanStore d path limits = saved)) ∧
  ∃ last, head disks = Some last ∧
    LoadPlanStore last path limits =
      match result with None => saved | Some _ => LoadPlanStore disk path limits end.
Proof.
  intros Hfit Hframe Hlim Hseq Hplans Hdup saved.
  pose proof (SavePlanStore_disks os path (map ToStoredRecord plans) options disk) as Hsave.
  destruct (SavePlanStore _ _ _ _ _) as [result disks]. destruct Hsave as [Hall (last & Hhead & Hlast)]. split.
  - intros d Hd. destruct (Hall d Hd) as [Hother Hpath]. split; [done|].
    destruct Hpath as [Hold|(image & Henc & Hnew)]; [left; by apply LoadPlanStore_same|].
    destruct (decide (String.length path = 0%nat)) as [H0|H0].
    + left. unfold LoadPlanStore. by rewrite H0.
    + right. by eapply LoadPlanStore_saved.
  - exists last. split; [done|]. destruct result as [error|]; [by apply LoadPlanStore_same|].
    destruct Hlast as (H0 & _ & image & Henc & Hnew). by eapply LoadPlanStore_saved.
Qed.

(** ** The plans of the demo fabric through the store *)

Ltac storable_tac :=
  repeat first
    [ progress unfold valid_id, evidence_ok, generations_typed, path_ok, hop_ok, cost_ok, bytes_of, id_wf,
        u64_fits, u32_fits, is_byte, own_identities
    | match goal with
      | |- path_wf _ => apply IsWellFormed_spec
      | |- NoDup (p_nodes _) => apply IsSimple_spec
      | |- NoDup (map cd_id _) => apply (bool_decide_unpack _); vm_compute; exact I
      | |- Sorted _ _ => apply decreasing_cost_Sorted
      | |- Forall _ _ => first [apply Forall_cons; split | apply Forall_nil; exact I]
      | |- _ ∧ _ => split
      | |- _ <= _ <= _ => split
      | |- _ <= _ < _ => split
      end ];
  try (vm_compute; first [reflexivity|congruence]).
Ltac storable_plan :=
  constructor; lazymatch goal with |- ∀ i : nat, _ => idtac | _ => storable_tac end;
  intros [|[|i]] c Hi; [injection Hi as <-; storable_tac|injection Hi as <-; storable_tac|discriminate].

Lemma demo_made_1_storable : storable default_limits demo_made_1.
Proof. storable_plan. Qed.
Lemma demo_made_2_storable : storable default_limits demo_made_2.
Proof. storable_plan. Qed.

Definition demo_plans : list PathPlan := [demo_made_1; demo_made_2].
Lemma demo_plans_storable : Forall (storable default_limits) demo_plans.
Proof.
  apply Forall_cons. split; [apply demo_made_1_storable|].
  apply Forall_cons. split; [apply demo_made_2_storable|by apply Forall_nil].
Qed.
Lemma demo_plans_unique : NoDup (map pl_id demo_plans).
Proof. apply (bool_decide_unpack _). vm_compute. exact I. Qed.

Definition demo_options : StoreOptions := MkStoreOptions default_limits 5.
Definition demo_image : bytes :=
  Eval vm_compute in
  match EncodePlanStore (map ToStoredRecord demo_plans) demo_options with inr image => image | inl _ => [] end.
Lemma demo_image_encoded : EncodePlanStore (map ToStoredRecord demo_plans) demo_options = inr demo_image.
Proof. vm_compute. reflexivity. Qed.
Lemma demo_image_bytes : Forall is_byte demo_image.
Proof. unfold is_byte. apply (bool_decide_unpack _). vm_compute. exact I. Qed.
Lemma default_store_limits : store_limits_fit default_limits.
Proof. constructor; vm_compute; congruence. Qed.

Lemma store_recovers_witness :
  ∃ records, DecodePlanStore demo_image default_limits = inr records ∧
    Forall2 (λ p q, pl_id q = pl_id p ∧ pl_request q = pl_request p ∧ pl_status q = pl_status p ∧
                    pl_evidence q = pl_evidence p ∧ ComputeSemanticDigest q = pl_semantic_digest p ∧
                    pl_semantic_digest q = pl_semantic_digest p ∧ pl_currentness_proven q = false ∧
                    Forall2 demoted (pl_candidates p) (pl_candidates q))
      demo_plans (map FromStoredRecord records).
Proof.
  refine (store_recovers default_limits demo_options demo_plans demo_image default_store_limits eq_refl _
    demo_plans_storable demo_plans_unique demo_image_bytes demo_image_encoded).
  unfold u64_fits, u64_max. cbn [so_publish_sequence demo_options]. lia.
Defined.

Definition demo_records : list StoredPlanRecord := map (λ p, plain_record (ToStoredRecord p)) demo_plans.

Lemma store_exact_witness :
  ∃ sequence, store_ok default_limits (MkStorePayload sequence demo_records) ∧
    demo_image = store_image (MkStorePayload sequence demo_records).
Proof.
  assert (Hl : Z.of_nat (length demo_image) <= u64_max) by (vm_compute; congruence).
  apply (proj1 (store_exact default_limits demo_options demo_image demo_records
    default_store_limits demo_image_bytes Hl)).
  vm_compute. reflexivity.
Defined.

(** A save whose replacement fails, over a store that already has the image. *)
Definition demo_outcome : SaveOutcome := MkOutcome true [17%nat; 90%nat] true false true.
Definition demo_disk : Disk := {[ "plans" := demo_image ]}.

Lemma store_crash_safe_witness :
  let '(result, disks) :=
    SavePlanStore demo_outcome "plans" (map ToStoredRecord demo_plans) demo_options demo_disk in
  (∀ d, d ∈ disks →
     (∀ other, other ≠ "plans" → other ≠ TempPathFor "plans" → d !! other = demo_disk !! other) ∧
     (LoadPlanStore d "plans" default_limits = LoadPlanStore demo_disk "plans" default_limits ∨
      LoadPlanStore d "plans" default_limits = inr demo_records)) ∧
  ∃ last, head disks = Some last ∧
    LoadPlanStore last "plans" default_limits =
      match result with
      | None => inr demo_records
      | Some _ => LoadPlanStore demo_disk "plans" default_limits
      end.
Proof.
  assert (Hframe : 0 <= max_frame_bytes default_limits <= u32_max) by (vm_compute; split; congruence).
  assert (Hseq : u64_fits (so_publish_sequence demo_options)) by (vm_compute; split; congruence).
  pose proof (store_crash_safe default_limits demo_options demo_outcome "plans" demo_plans demo_disk
    default_store_limits Hframe eq_refl Hseq demo_plans_storable demo_plans_unique) as H.
  cbv zeta in H. fold demo_records in H. exact H.
Defined.

(** At the largest frame size the limits allow, the writer's 32-bit ceiling wraps to
    zero, so not even an empty store can be saved; the reader's does not wrap. *)
Definition widest_limits : ResourceLimits :=
  match default_limits with
  | MkLimits a1 a2 a3 a4 a5 a6 a7 a8 a9 b1 b2 b3 b4 b5 b6 b7 b8 b9 b10 b11 c1 c2 c3 c4 d1 d2 d3 d4 d5 d6
      _ e2 e3 e4 e5 e6 e7 =>
      MkLimits a1 a2 a3 a4 a5 a6 a7 a8 a9 b1 b2 b3 b4 b5 b6 b7 b8 b9 b10 b11 c1 c2 c3 c4 d1 d2 d3 d4 d5 d6
        (Z.shiftl 256 20) e2 e3 e4 e5 e6 e7
  end.
Lemma store_ceiling_wraps :
  ValidateLimits widest_limits = None ∧ payload_ceiling widest_limits = 0 ∧
  load_ceiling widest_limits = 68 + 2 ^ 32 ∧
  EncodePlanStore [] (MkStoreOptions widest_limits 0) =
    inl (DiagnosticCode.kPersistenceLimitExceeded, "store payload exceeded its ceiling").
Proof. vm_compute. split_and!; reflexivity. Qed.

(** A plan that names no node is written, and makes the image undecodable. *)
Definition unresolved_plan : PathPlan :=
  let p := demo_made_1 in
  let q := MkPlan (pl_id p) (pl_request p) 1 0 PlanStatus.kSourceUnknown (nil_id _) (nil_id _)
    (pl_layer p) (pl_evidence p) 1 (pl_constraint_set p) 1 false false [] zero_digest in
  with_identity (pl_id q) (ComputeSemanticDigest q) q.
Lemma store_accepts_undecodable :
  match EncodePlanStore (map ToStoredRecord [demo_made_1; unresolved_plan]) demo_options with
  | inr image => DecodePlanStore image default_limits = inl (corrupt "source node is nil")
  | inl _ => False
  end.
Proof. vm_compute. reflexivity. Qed.
