(* ===== verification/Net.v ===== *)
(** net.hpp / net.cpp: the text of endpoints, and the two loops that move a whole buffer
    through a socket that may take or give any part of it. What the operating system
    answers to a [send] or a [recv] is an argument: the answer to each round of the
    loop. Opening, connecting and closing sockets is the operating system's. *)

From Stdlib Require Import Ascii String.
From S2P Require Import Prelude Canonical Ids.

Open Scope string_scope.
Open Scope list_scope.
Open Scope Z_scope.

(** ** Endpoints *)

Definition host_char (c : ascii) : bool :=
  let value := char_code c in
  let between (low high : Z) := (low <=? value) && (value <=? high) in
  early false when ((value <=? 32) || (value =? 127)) ;;
  between 97 122 || between 65 90 || between 48 57 ||
  existsb (Ascii.eqb c) ["."; "-"; ":"; "_"]%char.

Definition ValidateHostString (host : string) : bool :=
  early false when ((String.length host =? 0)%nat || (253 <? String.length host)%nat) ;;
  forallb host_char (list_ascii_of_string host).

(** [std::string::rfind]. *)
Fixpoint rfind (c : ascii) (l : list ascii) : option nat :=
  match l with
  | [] => None
  | x :: l =>
      match rfind c l with
      | Some i => Some (S i)
      | None => if Ascii.eqb x c then Some 0%nat else None
      end
  end.

(** The digit loop over the text of the port, of at most five characters. *)
Fixpoint port_digits (value : Z) (text : list ascii) : option Z :=
  match text with
  | [] => Some value
  | c :: text =>
      early None when ((char_code c <? 48) || (char_code c >? 57)) ;;
      port_digits (wrap32 (value * 10 + (char_code c - 48))) text
  end.

Definition ParseEndpoint (endpoint : string) : option (string * Z) :=
  let text := list_ascii_of_string endpoint in
  match rfind ":"%char text with
  | None => None
  | Some separator =>
      early None when ((separator =? 0)%nat || (length text <=? separator + 1)%nat) ;;
      let host := string_of_list_ascii (take separator text) in
      early None when negb (ValidateHostString host) ;;
      let port_text := drop (separator + 1) text in
      early None when ((length port_text =? 0)%nat || (5 <? length port_text)%nat) ;;
      match port_digits 0 port_text with
      | None => None
      | Some value => early None when ((value =? 0) || (value >? 65535)) ;; Some (host, value)
      end
  end.

Definition FormatEndpoint (host : string) (port : Z) : string :=
  (host ++ ":" ++ UIntToString port)%string.

(** ** Whole buffers *)

(** At most a mebibyte at a time. *)
Definition io_chunk (remaining : nat) : nat := Nat.min remaining (Pos.to_nat 1048576).

(** The answer of the operating system to one [send]: how much it took, or an error. *)
Inductive SendAnswer :=
  | Took (n : nat)
  | SendFailed (text : string).

(** What has been sent, and the error that ended the loop; [None] is out of fuel. *)
Fixpoint send_loop (fuel : nat) (answer : nat → SendAnswer) (sent : list Z) (data : list Z) :
  option (list Z * option string) :=
  match data with
  | [] => Some (sent, None)
  | _ =>
      match fuel with
      | O => None
      | S fuel =>
          match answer (length sent) with
          | SendFailed text => Some (sent, Some ("send failed: " ++ text)%string)
          | Took O => Some (sent, Some "send made no progress")
          | Took n =>
              let n := Nat.min n (io_chunk (length data)) in
              send_loop fuel answer (sent ++ take n data) (drop n data)
          end
      end
  end.
Definition SendAll (answer : nat → SendAnswer) (data : list Z) : option (list Z * option string) :=
  send_loop (length data) answer [] data.

Inductive RecvOutcome := kOk | kPeerClosed | kBoundExceeded | kError.

(** The answer to one [recv]: bytes (none when the peer has closed), or an error. *)
Inductive RecvAnswer :=
  | Gave (bytes : list Z)
  | Elapsed
  | Reset
  | RecvFailed (text : string).

(** The outcome, what was received, and the error text; [None] is out of fuel. A [recv]
    gives at most what it was asked for. *)
Fixpoint recv_loop (fuel : nat) (answer : nat → RecvAnswer) (bound_ms : Z) (received : list Z)
    (missing : nat) : option (RecvOutcome * list Z * string) :=
  match missing with
  | O => Some (kOk, received, "")
  | _ =>
      match fuel with
      | O => None
      | S fuel =>
          match answer (length received) with
          | Elapsed =>
              Some (kBoundExceeded, received,
                    ("receive bound of " ++ UIntToString bound_ms ++
                     " ms elapsed with an incomplete message")%string)
          | Reset => Some (kPeerClosed, received, "")
          | RecvFailed text => Some (kError, received, ("recv failed: " ++ text)%string)
          | Gave [] => Some (kPeerClosed, received, "")
          | Gave bytes =>
              let bytes := take (io_chunk missing) bytes in
              recv_loop fuel answer bound_ms (received ++ bytes) (missing - length bytes)
          end
      end
  end.
Definition RecvExact (answer : nat → RecvAnswer) (size : nat) (bound_ms : Z) :
  option (RecvOutcome * list Z * string) :=
  early Some (kError, [], "receive bound must be positive") when (bound_ms =? 0) ;;
  recv_loop size answer bound_ms [] size.

(** ** Endpoints are exact *)

Lemma rfind_None c l : rfind c l = None ↔ c ∉ l.
Proof.
  induction l as [|x l IH]; cbn [rfind]; [by split; [intros _ []%not_elem_of_nil|]|].
  rewrite not_elem_of_cons. destruct (rfind c l) as [i|].
  - split; [done|]. intros [_ Hl]. apply IH in Hl. done.
  - destruct (Ascii.eqb_spec x c) as [->|Hne]; split; try done; [by intros [? _]|].
    intros _. split; [congruence|by apply IH].
Qed.

Lemma rfind_Some c l i :
  rfind c l = Some i → l = take i l ++ c :: drop (i + 1) l ∧ c ∉ drop (i + 1) l.
Proof.
  revert i. induction l as [|x l IH]; intros i; cbn [rfind]; [done|].
  destruct (rfind c l) as [j|] eqn:E.
  - intros [= <-]. destruct (IH j eq_refl) as [Hl Hn]. cbn [Nat.add take drop app]. split; [by rewrite <- Hl|done].
  - destruct (Ascii.eqb_spec x c) as [->|]; [|done]. intros [= <-]. cbn. rewrite drop_0. split; [done|].
    by apply rfind_None.
Qed.

Lemma rfind_app c l1 l2 : c ∉ l2 → rfind c (l1 ++ c :: l2) = Some (length l1).
Proof.
  intros Hn. induction l1 as [|x l1 IH]; cbn [app rfind length].
  - rewrite (proj2 (rfind_None c l2) Hn). by rewrite Ascii.eqb_refl.
  - by rewrite IH.
Qed.

(** The text of a port: one to five digits, of the value [port]. *)
Definition port_text (port : Z) (text : string) : Prop :=
  ∃ ds, text = digit_text ds ∧ Forall is_digit ds ∧ num 0 ds = port ∧ (1 <= length ds <= 5)%nat.

Lemma num_bound acc ds :
  0 <= acc → Forall is_digit ds → num acc ds < (acc + 1) * 10 ^ Z.of_nat (length ds).
Proof.
  intros Hacc Hds. revert acc Hacc. induction Hds as [|d ds Hd _ IH]; intros acc Hacc; cbn [length].
  - cbn. lia.
  - unfold num in *. cbn [fold_left]. unfold is_digit in Hd. specialize (IH (acc * 10 + d) ltac:(lia)).
    rewrite Nat2Z.inj_succ, Z.pow_succ_r by lia. nia.
Qed.

Lemma port_digits_text acc ds :
  0 <= acc → Forall is_digit ds → (acc + 1) * 10 ^ Z.of_nat (length ds) <= 4294967296 →
  port_digits acc (list_ascii_of_string (digit_text ds)) = Some (num acc ds).
Proof.
  intros Hacc Hds. revert acc Hacc. induction Hds as [|d ds Hd Hds IH]; intros acc Hacc Hb; [done|].
  cbn [length] in Hb. rewrite Nat2Z.inj_succ, Z.pow_succ_r in Hb by lia.
  unfold digit_text in *. cbn [map string_of_list_ascii list_ascii_of_string port_digits].
  rewrite char_code_digit by done. unfold is_digit in Hd.
  rewrite (proj2 (Z.ltb_ge (48 + d) 48)) by lia. rewrite Z.gtb_ltb, (proj2 (Z.ltb_ge 57 (48 + d))) by lia.
  cbn [orb]. replace (48 + d - 48) with d by lia.
  assert (Hp : 0 < 10 ^ Z.of_nat (length ds)) by (apply Z.pow_pos_nonneg; lia).
  assert (Hacc' : (acc + 1) * 10 <= 4294967296) by nia.
  rewrite wrap32_small by (unfold u32_max; lia). unfold num. cbn [fold_left]. apply IH; [lia|].
  etransitivity; [|exact Hb].
  transitivity ((acc * 10 + 10) * 10 ^ Z.of_nat (length ds)); [apply Z.mul_le_mono_nonneg_r; lia|lia].
Qed.

Lemma port_digits_inv acc text v :
  port_digits acc text = Some v → ∃ ds, text = list_ascii_of_string (digit_text ds) ∧ Forall is_digit ds.
Proof.
  revert acc. induction text as [|c text IH]; intros acc; cbn [port_digits].
  { intros _. exists []. by split; [|constructor]. }
  destruct (_ || _) eqn:Hc; [done|]. rewrite Z.gtb_ltb in Hc. bool_to_prop.
  intros (ds & -> & Hds)%IH. exists ((char_code c - 48) :: ds). split.
  - unfold digit_text. cbn [map string_of_list_ascii list_ascii_of_string]. by rewrite digit_char_code by lia.
  - constructor; [unfold is_digit; lia|done].
Qed.

Lemma digits_no_colon ds : Forall is_digit ds → ":"%char ∉ list_ascii_of_string (digit_text ds).
Proof.
  intros Hds Hin. unfold digit_text in Hin. rewrite list_ascii_of_string_of_list_ascii in Hin.
  apply list_elem_of_fmap in Hin as (d & Heq & Hd). rewrite Forall_forall in Hds. specialize (Hds d Hd).
  apply (f_equal char_code) in Heq. rewrite char_code_digit in Heq by done. unfold is_digit in Hds.
  change (char_code ":"%char) with 58 in Heq. lia.
Qed.

Lemma list_ascii_app s1 s2 :
  list_ascii_of_string (s1 ++ s2)%string = list_ascii_of_string s1 ++ list_ascii_of_string s2.
Proof. induction s1 as [|c s1 IH]; [done|]. exact (f_equal (cons c) IH). Qed.

Lemma length_list_ascii s : length (list_ascii_of_string s) = String.length s.
Proof. induction s as [|c s IH]; [done|]. cbn. by rewrite IH. Qed.

Lemma ParseEndpoint_spec endpoint host port :
  ParseEndpoint endpoint = Some (host, port) ↔
  ValidateHostString host = true ∧ 1 <= port <= 65535 ∧
  ∃ text, port_text port text ∧ endpoint = (host ++ ":" ++ text)%string.
Proof.
  unfold ParseEndpoint. cbv zeta. split.
  - destruct (rfind _ _) as [i|] eqn:Ei; [|done]. apply rfind_Some in Ei as [Htext Hn].
    set (l := list_ascii_of_string endpoint) in *.
    destruct (_ || _) eqn:E1; [done|]. destruct (ValidateHostString _) eqn:Eh; [|done]. cbn [negb].
    destruct ((length (drop (i + 1) l) =? 0)%nat || _) eqn:E2; [done|].
    destruct (port_digits 0 (drop (i + 1) l)) as [v|] eqn:Ep; [|done].
    destruct ((v =? 0) || _) eqn:E3; [done|]. intros [= <- <-].
    apply orb_false_iff in E2 as [E2 E2'], E3 as [E3 E3'].
    destruct (port_digits_inv _ _ _ Ep) as (ds & Hds & Hdig). rewrite Hds in Ep, E2, E2'.
    rewrite length_list_ascii, length_digit_text in E2, E2'.
    assert (Hlen : (1 <= length ds <= 5)%nat)
      by (apply Nat.eqb_neq in E2; apply Nat.ltb_ge in E2'; lia).
    assert (Hpow : 10 ^ Z.of_nat (length ds) <= 10 ^ 5) by (apply Z.pow_le_mono_r; lia).
    rewrite port_digits_text in Ep by (try done; lia). injection Ep as <-.
    pose proof (num_ge 0 ds ltac:(lia) Hdig). rewrite Z.gtb_ltb in E3'. bool_to_prop.
    split_and!; [done|lia|lia|]. exists (digit_text ds). split; [by exists ds|].
    rewrite <- (string_of_list_ascii_of_string endpoint). fold l. rewrite Htext at 1. rewrite Hds.
    clear. generalize (take i l). intros h. induction h as [|c h IH]; cbn.
    + by rewrite string_of_list_ascii_of_string.
    + by rewrite IH.
  - intros (Hh & Hp & text & (ds & -> & Hds & <- & Hlen) & ->). rewrite !list_ascii_app.
    cbn [list_ascii_of_string app]. rewrite rfind_app by by apply digits_no_colon.
    assert (Hhl : (1 <= String.length host)%nat).
    { unfold ValidateHostString in Hh. destruct host; [discriminate Hh|cbn; lia]. }
    rewrite length_app. cbn [length]. rewrite !length_list_ascii, length_digit_text.
    rewrite (proj2 (Nat.eqb_neq _ _)), (proj2 (Nat.leb_gt _ _)) by lia. cbn [orb].
    rewrite <- length_list_ascii, take_app_length, string_of_list_ascii_of_string, Hh. cbn [negb].
    replace (drop (length (list_ascii_of_string host) + 1)
      (list_ascii_of_string host ++ ":"%char :: list_ascii_of_string (digit_text ds)))
      with (list_ascii_of_string (digit_text ds))
      by (rewrite <- drop_drop, drop_app_length; reflexivity).
    rewrite length_list_ascii, length_digit_text.
    rewrite (proj2 (Nat.eqb_neq _ _)), (proj2 (Nat.ltb_ge _ _)) by lia. cbn [orb].
    assert (Hpow : 10 ^ Z.of_nat (length ds) <= 10 ^ 5) by (apply Z.pow_le_mono_r; lia).
    rewrite port_digits_text by (try done; lia).
    rewrite (proj2 (Z.eqb_neq _ _)), Z.gtb_ltb, (proj2 (Z.ltb_ge _ _)) by lia. reflexivity.
Qed.

Lemma UIntToString_port port : 1 <= port <= 65535 → port_text port (UIntToString port).
Proof.
  intros Hp. destruct (digit_loop_digits 5 port) as (ds & _ & Hds & Hnum & Hlast & Hlen); [cbn; lia|].
  exists (rev ds). rewrite num_rev, length_rev. split_and!; [|by apply Forall_rev|done| |done].
  - unfold UIntToString. rewrite (proj2 (Z.eqb_neq _ _)) by lia. rewrite <- Hnum.
    rewrite digit_loop_num by (try done; lia). unfold digit_text. by rewrite map_rev.
  - destruct ds; [cbn in Hnum; lia|cbn; lia].
Qed.

(** C36: endpoint texts are exact: a text parses to a host and a port exactly when it is
    the host, a colon, and one to five digits of the port, the host is a permitted
    name (which may itself hold colons: the last one separates), and the port is from
    1 to 65535; and what is rendered of such a host and port parses back to them. *)
Theorem endpoint_exact endpoint host port :
  (ParseEndpoint endpoint = Some (host, port) ↔
   ValidateHostString host = true ∧ 1 <= port <= 65535 ∧
   ∃ text, port_text port text ∧ endpoint = (host ++ ":" ++ text)%string) ∧
  (ValidateHostString host = true → 1 <= port <= 65535 →
   ParseEndpoint (FormatEndpoint host port) = Some (host, port)).
Proof.
  split; [apply ParseEndpoint_spec|]. intros Hh Hp. apply ParseEndpoint_spec. split_and!; [done|lia|lia|].
  exists (UIntToString port). split; [by apply UIntToString_port|done].
Qed.

Lemma endpoint_exact_witness : ParseEndpoint (FormatEndpoint "::1" 8080) = Some ("::1", 8080).
Proof. apply (endpoint_exact "" "::1" 8080); [vm_compute; reflexivity|lia]. Defined.

(** ** Buffers move whole *)

Lemma io_chunk_bounds n : (1 <= n)%nat → (1 <= io_chunk n <= n)%nat.
Proof. unfold io_chunk. lia. Qed.

Lemma send_loop_spec fuel answer sent data :
  (length data <= fuel)%nat →
  ∃ more rest error,
    send_loop fuel answer sent data = Some (sent ++ more, error) ∧ data = more ++ rest ∧
    (error = None ↔ rest = []).
Proof.
  revert sent data. induction fuel as [|fuel IH]; intros sent data Hf.
  { destruct data; [|cbn in Hf; lia]. exists [], [], None. by rewrite app_nil_r. }
  destruct data as [|x data]; [exists [], [], None; by rewrite app_nil_r|]. cbn [send_loop].
  destruct (answer (length sent)) as [[|n]|text].
  - exists [], (x :: data), (Some "send made no progress"). by rewrite app_nil_r.
  - set (k := Nat.min (S n) _). pose proof (io_chunk_bounds (length (x :: data)) ltac:(cbn; lia)) as Hk.
    destruct (IH (sent ++ take k (x :: data)) (drop k (x :: data))) as (more & rest & error & -> & Hd & He).
    { rewrite length_drop. unfold k. lia. }
    exists (take k (x :: data) ++ more), rest, error.
    rewrite <- !app_assoc, <- Hd, take_drop. done.
  - exists [], (x :: data), (Some ("send failed: " ++ text)%string). by rewrite app_nil_r.
Qed.

(** The answers come from a stream: what is given at a position is what is there. *)
Definition gives (stream : list Z) (answer : nat → RecvAnswer) : Prop :=
  ∀ p bytes, answer p = Gave bytes → bytes `prefix_of` drop p stream.

Lemma recv_loop_spec stream fuel answer bound_ms received missing :
  gives stream answer → (missing <= fuel)%nat → received = take (length received) stream →
  ∃ outcome got text,
    recv_loop fuel answer bound_ms received missing = Some (outcome, got, text) ∧
    got = take (length got) stream ∧
    (length got <= length received + missing)%nat ∧
    (outcome = kOk ↔ length got = (length received + missing)%nat).
Proof.
  intros Hs. revert received missing. induction fuel as [|fuel IH]; intros received missing Hf Hr.
  { destruct missing; [|lia]. exists kOk, received, "". rewrite Nat.add_0_r. done. }
  destruct missing as [|missing]; [exists kOk, received, ""; rewrite Nat.add_0_r; done|]. cbn [recv_loop].
  assert (Hstop : ∀ outcome (text : string), outcome ≠ kOk →
    ∃ outcome' got text', Some (outcome, received, text) = Some (outcome', got, text') ∧
      got = take (length got) stream ∧ (length got <= length received + S missing)%nat ∧
      (outcome' = kOk ↔ length got = (length received + S missing)%nat)).
  { intros outcome text Hne. exists outcome, received, text. split_and!; [done|done|lia|]. split; [done|lia]. }
  destruct (answer (length received)) as [[|x bytes]| | |text] eqn:Ea; try by apply Hstop.
  set (got := take (io_chunk (S missing)) (x :: bytes)).
  pose proof (io_chunk_bounds (S missing) ltac:(lia)) as Hk.
  assert (Hlen : (1 <= length got <= S missing)%nat) by (unfold got; rewrite length_take; cbn [length]; lia).
  destruct (Hs _ _ Ea) as [rest Hrest].
  destruct (IH (received ++ got) (S missing - length got)%nat) as (outcome & all & text & -> & Hall & Hle & Hok).
  - lia.
  - rewrite length_app, <- take_take_drop, <- Hr, Hrest. f_equal.
    rewrite <- (take_drop (io_chunk (S missing)) (x :: bytes)), <- app_assoc. symmetry. apply take_app_length.
  - exists outcome, all, text. rewrite length_app in Hle, Hok. split_and!; [done|done|lia|].
    replace (length received + S missing)%nat with (length received + length got + (S missing - length got))%nat by lia.
    exact Hok.
Qed.

(** Buffers move whole or not at all. However the operating system cuts a transfer,
    [SendAll] ends within as many rounds as there are bytes, has sent a prefix of the
    buffer, in order and once, and succeeds exactly when that is all of it; and
    [RecvExact], on a stream, ends within as many rounds as the bytes asked for, has
    received the front of the stream, never more than was asked for, and succeeds
    exactly when all of them are there. So what is sent whole and received whole is
    the same buffer, whatever follows it on the stream. *)
Theorem buffers_move_whole data tail stream send recv size bound_ms :
  gives stream recv → bound_ms ≠ 0 →
  (∃ sent rest error, SendAll send data = Some (sent, error) ∧ data = sent ++ rest ∧
     (error = None ↔ sent = data)) ∧
  (∃ outcome got text, RecvExact recv size bound_ms = Some (outcome, got, text) ∧
     got = take (length got) stream ∧ (length got <= size)%nat ∧
     (outcome = kOk ↔ length got = size) ∧
     (stream = data ++ tail → size = length data → outcome = kOk → got = data)).
Proof.
  intros Hs Hb. split.
  - destruct (send_loop_spec (length data) send [] data ltac:(lia)) as (sent & rest & error & Heq & Hd & He).
    exists sent, rest, error. split_and!; [exact Heq|done|]. rewrite He. split.
    + intros ->. by rewrite Hd, app_nil_r.
    + intros Hall. rewrite Hall in Hd. apply (f_equal length) in Hd. rewrite length_app in Hd.
      destruct rest; [done|cbn in Hd; lia].
  - unfold RecvExact. rewrite (proj2 (Z.eqb_neq _ _) Hb).
    destruct (recv_loop_spec stream size recv bound_ms [] size Hs ltac:(lia) eq_refl)
      as (outcome & got & text & Heq & Hgot & Hle & Hok).
    exists outcome, got, text. split_and!; [done|done|done|done|].
    intros -> -> Hout. apply Hok in Hout. cbn [length Nat.add] in Hout.
    rewrite Hgot, Hout. apply take_app_length.
Qed.

(** Five bytes that arrive two at a time. *)
Definition demo_stream : list Z := [1; 2; 3; 4; 5; 6; 7].
Definition demo_recv (p : nat) : RecvAnswer := Gave (take 2 (drop p demo_stream)).
Lemma buffers_move_whole_witness :
  ∃ got text, RecvExact demo_recv 5 100 = Some (kOk, got, text) ∧ got = [1; 2; 3; 4; 5].
Proof.
  assert (Hs : gives demo_stream demo_recv).
  { intros p bytes [= <-]. exists (drop 2 (drop p demo_stream)). by rewrite take_drop. }
  destruct (buffers_move_whole [1; 2; 3; 4; 5] [6; 7] demo_stream (λ _, Took 2) demo_recv 5 100 Hs ltac:(lia))
    as (_ & outcome & got & text & Heq & _ & _ & _ & Hwhole).
  exists got, text. assert (Hout : outcome = kOk) by (vm_compute in Heq; congruence). subst outcome.
  split; [exact Heq|]. by apply Hwhole.
Defined.
