(* ===== verification/Dist.v ===== *)
(** dist.hpp / dist.cpp: the coordinator, the worker and the client of the distributed
    runtime. A member function is the sequence of its critical sections, each a
    function of the coordinator's state; what is sent is returned as frames with
    the session they go to. Sockets are abstract: a session is its position in the
    vector of sessions, which never shrinks while the coordinator runs. *)

From stdpp Require Import gmap strings.
From S2P Require Import Prelude Canonical Sha256 Status Ids Codec Limits Graph Path Request View Result Planner Parse PlanCodec Wire Payloads RequestCodec ResultCodec Store StoreFile.

Open Scope string_scope.
Open Scope list_scope.
Open Scope Z_scope.

Record WorkerRegistration := MkRegistration {
  wr_boot : WorkerBootId; wr_publisher : PublisherId; wr_snapshot : SnapshotId;
  wr_generations : SnapshotGenerations; wr_registered_epoch : Z; wr_fenced : bool;
  wr_plans_completed : Z; wr_publications_rejected : Z
}.

Record Session := MkSession {
  ss_finished : bool; ss_worker_role : bool; ss_boot_key : string; ss_outstanding_request : string
}.
Definition new_session : Session := MkSession false false "" "".

Record Pending := MkPending {
  pn_ready : bool; pn_status : WireStatus.t; pn_payload : bytes; pn_request_payload : bytes;
  pn_detail : string; pn_worker_key : string
}.

(** [Coordinator::Impl]; the limits and the store path are its configuration, and the
    disk is the file system its store lives on. *)
Record Coordinator := MkCoordinator {
  co_limits : ResourceLimits; co_store_path : string; co_disk : Disk; co_runtime : Runtime;
  co_sessions : list Session; co_workers : gmap string WorkerRegistration;
  co_fenced_boots : gset string; co_pending : gmap string Pending; co_next_sequence : Z;
  co_epoch : Z; co_accepted_publications : Z; co_recovered_plans : Z;
  co_retained_ids : list PathPlanId
}.

(** A frame for the peer of a session. *)
Definition Sent : Type := nat * WireFrame.

Section setters.
Context (c : Coordinator).
Definition set_disk (disk : Disk) : Coordinator :=
  MkCoordinator (co_limits c) (co_store_path c) disk (co_runtime c) (co_sessions c) (co_workers c)
    (co_fenced_boots c) (co_pending c) (co_next_sequence c) (co_epoch c)
    (co_accepted_publications c) (co_recovered_plans c) (co_retained_ids c).
Definition set_runtime (runtime : Runtime) : Coordinator :=
  MkCoordinator (co_limits c) (co_store_path c) (co_disk c) runtime (co_sessions c) (co_workers c)
    (co_fenced_boots c) (co_pending c) (co_next_sequence c) (co_epoch c)
    (co_accepted_publications c) (co_recovered_plans c) (co_retained_ids c).
Definition set_sessions (sessions : list Session) : Coordinator :=
  MkCoordinator (co_limits c) (co_store_path c) (co_disk c) (co_runtime c) sessions (co_workers c)
    (co_fenced_boots c) (co_pending c) (co_next_sequence c) (co_epoch c)
    (co_accepted_publications c) (co_recovered_plans c) (co_retained_ids c).
Definition set_workers (workers : gmap string WorkerRegistration) : Coordinator :=
  MkCoordinator (co_limits c) (co_store_path c) (co_disk c) (co_runtime c) (co_sessions c) workers
    (co_fenced_boots c) (co_pending c) (co_next_sequence c) (co_epoch c)
    (co_accepted_publications c) (co_recovered_plans c) (co_retained_ids c).
Definition set_fenced_boots (fenced : gset string) : Coordinator :=
  MkCoordinator (co_limits c) (co_store_path c) (co_disk c) (co_runtime c) (co_sessions c)
    (co_workers c) fenced (co_pending c) (co_next_sequence c) (co_epoch c)
    (co_accepted_publications c) (co_recovered_plans c) (co_retained_ids c).
Definition set_pending (pending : gmap string Pending) : Coordinator :=
  MkCoordinator (co_limits c) (co_store_path c) (co_disk c) (co_runtime c) (co_sessions c)
    (co_workers c) (co_fenced_boots c) pending (co_next_sequence c) (co_epoch c)
    (co_accepted_publications c) (co_recovered_plans c) (co_retained_ids c).
Definition next_sequence : Coordinator :=
  MkCoordinator (co_limits c) (co_store_path c) (co_disk c) (co_runtime c) (co_sessions c)
    (co_workers c) (co_fenced_boots c) (co_pending c) (wrap64 (co_next_sequence c + 1)) (co_epoch c)
    (co_accepted_publications c) (co_recovered_plans c) (co_retained_ids c).
Definition set_co_epoch (epoch : Z) : Coordinator :=
  MkCoordinator (co_limits c) (co_store_path c) (co_disk c) (co_runtime c) (co_sessions c)
    (co_workers c) (co_fenced_boots c) (co_pending c) (co_next_sequence c) epoch
    (co_accepted_publications c) (co_recovered_plans c) (co_retained_ids c).
Definition count_accepted : Coordinator :=
  MkCoordinator (co_limits c) (co_store_path c) (co_disk c) (co_runtime c) (co_sessions c)
    (co_workers c) (co_fenced_boots c) (co_pending c) (co_next_sequence c) (co_epoch c)
    (wrap64 (co_accepted_publications c + 1)) (co_recovered_plans c) (co_retained_ids c).
Definition count_recovered : Coordinator :=
  MkCoordinator (co_limits c) (co_store_path c) (co_disk c) (co_runtime c) (co_sessions c)
    (co_workers c) (co_fenced_boots c) (co_pending c) (co_next_sequence c) (co_epoch c)
    (co_accepted_publications c) (wrap64 (co_recovered_plans c + 1)) (co_retained_ids c).
Definition retain_id (id : PathPlanId) : Coordinator :=
  MkCoordinator (co_limits c) (co_store_path c) (co_disk c) (co_runtime c) (co_sessions c)
    (co_workers c) (co_fenced_boots c) (co_pending c) (co_next_sequence c) (co_epoch c)
    (co_accepted_publications c) (co_recovered_plans c) (co_retained_ids c ++ [id]).
End setters.

(** ** Frames *)

Definition BootKey (boot : WorkerBootId) : string := IdToString boot.
Definition RequestKey (request : PlanningRequestId) : string := IdToString request.

Definition nil_boot : WorkerBootId := nil_id _.
Definition nil_request : PlanningRequestId := nil_id _.

(** The payload a writer of the coordinator, worker or client holds. *)
Definition written (limits : ResourceLimits) (encode : ByteWriter → ByteWriter) : bytes :=
  data_ (encode (new_writer (max_frame_bytes limits))).

(** [ReadFrame], once the bytes are there: the declared length is checked before the
    payload is read, so exactly one frame is taken off the stream. *)
Definition ReadFrame (stream : bytes) (max_frame_bytes : Z) : string + WireFrame * bytes :=
  early inl "end of stream" when (length stream <? kWireHeaderBytes)%nat ;;
  let payload_bytes := match RUint 4 (MkReader stream 52 false) with (Some v, _) => v | _ => 0 end in
  early inl "declared payload length exceeds the configured frame ceiling"
    when (payload_bytes >? max_frame_bytes) ;;
  let size := (kWireHeaderBytes + Z.to_nat payload_bytes)%nat in
  early inl "end of stream" when (length stream <? size)%nat ;;
  match DecodeFrame (take size stream) max_frame_bytes with
  | inl (_, detail) => inl ("frame rejected: " +:+ detail)
  | inr frame => inr (frame, drop size stream)
  end.

(** ** Coordinator *)

Definition CurrentSnapshotId (c : Coordinator) : SnapshotId :=
  match CurrentSnapshot (co_runtime c) with Some s => SnapshotIdOf s | None => nil_id _ end.
Definition CurrentGenerations (c : Coordinator) : SnapshotGenerations :=
  match CurrentSnapshot (co_runtime c) with Some s => s_generations s | None => zero_generations end.

Definition SendFenceNotice (session : nat) (boot : WorkerBootId) (epoch : Z) (status : WireStatus.t)
    (code : DiagnosticCode.t) (detail : string) (c : Coordinator) : Sent :=
  (session,
   MkFrame WireMessage.kFenceNotice kWireFlagFenced epoch 0 boot nil_request
     (written (co_limits c) (EncodeFenceNoticePayload (MkFence boot status code detail)))).

Definition SendError (session : nat) (epoch : Z) (request : PlanningRequestId) (status : WireStatus.t)
    (plan_status : PlanStatus.t) (code : DiagnosticCode.t) (detail : string) (c : Coordinator) : Sent :=
  (session,
   MkFrame WireMessage.kPlanError kWireFlagResponse epoch 0 nil_boot request
     (written (co_limits c)
        (EncodePlanErrorPayload (MkPlanError request status plan_status code detail)))).

(** The acceptance decision, under the lock. *)
Definition ValidatePublication (boot : WorkerBootId) (epoch_value : Z) (snapshot : SnapshotId)
    (c : Coordinator) : WireStatus.t * string :=
  let key := BootKey boot in
  let current_id := CurrentSnapshotId c in
  early (WireStatus.kWorkerFenced, "worker boot identity is fenced")
    when bool_decide (key ∈ co_fenced_boots c) ;;
  early (WireStatus.kUnknownWorker, "worker boot identity is not registered")
    when match co_workers c !! key with Some r => wr_fenced r | None => true end ;;
  early (WireStatus.kEpochStale,
         "worker coordinator epoch " +:+ UIntToString epoch_value +:+ " is stale (current " +:+
         UIntToString (co_epoch c) +:+ ")")
    when negb (epoch_value =? co_epoch c) ;;
  early (WireStatus.kSnapshotMismatch,
         "worker evidence does not match the current coordinator snapshot")
    when (negb (IsValid current_id) || negb (eqb snapshot current_id)) ;;
  (WireStatus.kOk, "").

Definition session_of (c : Coordinator) (i : nat) : Session := nth i (co_sessions c) new_session.
Definition modify_pending (key : string) (f : Pending → Pending) (c : Coordinator) : Coordinator :=
  match co_pending c !! key with Some p => set_pending c (<[key := f p]> (co_pending c)) | None => c end.

Definition resolve (status : WireStatus.t) (payload : bytes) (detail : string) (p : Pending) : Pending :=
  MkPending true status payload (pn_request_payload p) detail (pn_worker_key p).

(** Losing the session of a worker fences its boot identity. *)
Definition ReleaseSession (i : nat) (c : Coordinator) : Coordinator :=
  let session := session_of c i in
  let key := ss_boot_key session in
  let c :=
    if ss_worker_role session && negb (String.eqb key "")
    then set_fenced_boots (set_workers c (delete key (co_workers c))) ({[key]} ∪ co_fenced_boots c)
    else c in
  let outstanding := ss_outstanding_request session in
  early c when String.eqb outstanding "" ;;
  modify_pending outstanding (λ p,
    if pn_ready p then p
    else resolve WireStatus.kUnknownWorker (pn_payload p)
           "worker session ended before it published a result" p) c.

(** *** Registration: three critical sections *)

Record Handshake := MkHandshake {
  hs_snapshot : SnapshotId; hs_generations : SnapshotGenerations; hs_epoch : Z
}.
Definition handshake_capture (c : Coordinator) : Handshake :=
  MkHandshake (CurrentSnapshotId c) (CurrentGenerations c) (co_epoch c).

Definition handshake_acceptance (hello : HelloPayload) (h : Handshake) (c : Coordinator) :
  WireStatus.t * string :=
  early (WireStatus.kWorkerFenced,
         "worker boot identity was fenced by session loss or an administrative fence")
    when bool_decide (BootKey (hl_boot hello) ∈ co_fenced_boots c) ;;
  early (WireStatus.kEpochStale,
         "worker coordinator epoch " +:+ UIntToString (hl_coordinator_epoch hello) +:+
         " does not match the current epoch " +:+ UIntToString (hs_epoch h))
    when negb (hl_coordinator_epoch hello =? hs_epoch h) ;;
  early (WireStatus.kSnapshotMismatch, "worker evidence does not match the coordinator snapshot")
    when (negb (IsValid (hs_snapshot h)) || negb (eqb (hl_snapshot hello) (hs_snapshot h))) ;;
  (WireStatus.kOk, "").

Definition handshake_register (i : nat) (hello : HelloPayload) (h : Handshake) (c : Coordinator) :
  Coordinator :=
  let key := BootKey (hl_boot hello) in
  let registration :=
    MkRegistration (hl_boot hello) (hl_publisher hello) (hl_snapshot hello) (hl_generations hello)
      (hs_epoch h) false 0 0 in
  let session := session_of c i in
  set_sessions (set_workers c (<[key := registration]> (co_workers c)))
    (<[i := MkSession (ss_finished session) true key (ss_outstanding_request session)]>
       (co_sessions c)).

Definition registration_answer (i : nat) (request : PlanningRequestId) (boot : WorkerBootId)
    (snapshot : SnapshotId) (generations : SnapshotGenerations) (epoch : Z) (c : Coordinator) : Sent :=
  (i, MkFrame WireMessage.kSnapshotResponse kWireFlagResponse epoch 0 boot request
        (written (co_limits c)
           (EncodeSnapshotResponsePayload (MkSnapshotResponse snapshot generations 0 0)))).

Definition HandleHandshake (i : nat) (frame : WireFrame) (c : Coordinator) :
  Coordinator * list Sent :=
  match DecodeHelloPayload (wf_payload frame) with
  | inl (status, detail) =>
      (c, [SendError i (co_epoch c) (wf_request frame) status PlanStatus.kMalformedRequest
             (DiagnosticForWireStatus status) detail c])
  | inr hello =>
      early (c, [SendError i (co_epoch c) (wf_request frame) WireStatus.kMalformed
                   PlanStatus.kMalformedRequest DiagnosticCode.kWorkerBootFenced
                   "handshake boot identity does not match the frame worker identity" c])
        when negb (eqb (hl_boot hello) (wf_worker_boot frame)) ;;
      let h := handshake_capture c in
      match handshake_acceptance hello h c with
      | (WireStatus.kOk, _) =>
          let c := handshake_register i hello h c in
          (c, [registration_answer i (wf_request frame) (hl_boot hello) (hs_snapshot h)
                 (hs_generations h) (hs_epoch h) c])
      | (WireStatus.kSnapshotMismatch as status, detail) =>
          (c, [SendError i (hs_epoch h) (wf_request frame) status PlanStatus.kRevalidationRequired
                 DiagnosticCode.kStaleEvidence detail c])
      | (status, detail) =>
          (c, [SendFenceNotice i (hl_boot hello) (hs_epoch h) status
                 (DiagnosticForWireStatus status) detail c])
      end
  end.

(** *** Publication: the registration's snapshot, the decision, its application *)

Definition publication_snapshot (key : string) (c : Coordinator) : SnapshotId :=
  match co_workers c !! key with Some r => wr_snapshot r | None => nil_id _ end.

Definition count_publication (accepted : bool) (r : WorkerRegistration) : WorkerRegistration :=
  let one (b : bool) := if b then 1 else 0 in
  MkRegistration (wr_boot r) (wr_publisher r) (wr_snapshot r) (wr_generations r)
    (wr_registered_epoch r) (wr_fenced r) (wrap64 (wr_plans_completed r + one accepted))
    (wrap64 (wr_publications_rejected r + one (negb accepted))).

(** The payload of the request to retain the plan under, when the result was the first
    for a waiting slot. *)
Definition apply_publication (frame : WireFrame) (acceptance : WireStatus.t) (detail : string)
    (c : Coordinator) : Coordinator * option bytes :=
  let key := BootKey (wf_worker_boot frame) in
  let request_key := RequestKey (wf_request frame) in
  let accepted := enum_eqb acceptance WireStatus.kOk in
  let c :=
    match co_workers c !! key with
    | Some r => set_workers c (<[key := count_publication accepted r]> (co_workers c))
    | None => c
    end in
  match co_pending c !! request_key with
  | None => (c, None)
  | Some slot =>
      early (c, None) when pn_ready slot ;;
      if accepted
      then
        (count_accepted
           (modify_pending request_key
              (resolve WireStatus.kOk (wf_payload frame) (pn_detail slot)) c),
         Some (pn_request_payload slot))
      else
        (modify_pending request_key (resolve acceptance (pn_payload slot) detail) c, None)
  end.

(** The retained plans, in the order of the identities. *)
Definition retained_snapshot (c : Coordinator) : list PathPlan :=
  omap (λ id, FindPlan id (co_runtime c)) (co_retained_ids c).

Definition SaveStore (os : SaveOutcome) (c : Coordinator) : Coordinator * option string :=
  early (c, Some "no store path is configured") when String.eqb (co_store_path c) "" ;;
  let records := map ToStoredRecord (retained_snapshot c) in
  let options := MkStoreOptions (co_limits c) (PublishSequence (co_runtime c)) in
  let '(result, disks) := SavePlanStore os (co_store_path c) records options (co_disk c) in
  (set_disk c (default (co_disk c) (head disks)), snd <$> result).

Definition retain_plan (plan : PathPlan) (c : Coordinator) : Coordinator * bool :=
  let '(runtime, retained) := Retain plan (co_runtime c) in
  let c := set_runtime c runtime in
  (if retained then retain_id c (pl_id plan) else c, retained).

Definition RetainAccepted (os : SaveOutcome) (request_payload result_payload : bytes) (sequence : Z)
    (c : Coordinator) : Coordinator :=
  match DecodePlanningRequestPayload request_payload (co_limits c),
        DecodePlanningResultPayload result_payload (co_limits c) with
  | inr request, inr result =>
      let plan := MakePathPlan request result sequence in
      let c := (retain_plan plan c).1 in
      if String.eqb (co_store_path c) "" then c else (SaveStore os c).1
  | _, _ => c
  end.

Definition HandleWorkerPublication (os : SaveOutcome) (i : nat) (frame : WireFrame) (c : Coordinator) :
  Coordinator * list Sent :=
  let key := BootKey (wf_worker_boot frame) in
  let worker_snapshot := publication_snapshot key c in
  let '(acceptance, detail) :=
    ValidatePublication (wf_worker_boot frame) (wf_coordinator_epoch frame) worker_snapshot c in
  let '(c, retain) := apply_publication frame acceptance detail c in
  let c :=
    match retain with
    | Some request_payload =>
        RetainAccepted os request_payload (wf_payload frame) (PublishSequence (co_runtime c)) c
    | None => c
    end in
  (c,
   if enum_eqb acceptance WireStatus.kOk then []
   else [SendFenceNotice i (wf_worker_boot frame) (co_epoch c) acceptance
           (DiagnosticForWireStatus acceptance) detail c]).

Definition recovered_plan (record : StoredPlanRecord) : PathPlan :=
  let plan := FromStoredRecord record in
  MkPlan (pl_id plan) (pl_request plan) (pl_generation plan) (pl_publish_sequence plan)
    (pl_status plan) (pl_source plan) (pl_destination plan) (pl_layer plan) (pl_evidence plan)
    (pl_policy_generation plan) (pl_constraint_set plan) (pl_constraint_generation plan)
    (pl_diagnostic_mode plan) false
    (map (set_currentness Currentness.kRevalidationRequired) (pl_candidates plan))
    (pl_semantic_digest plan).

Definition RecoverStore (c : Coordinator) : Coordinator :=
  early c when String.eqb (co_store_path c) "" ;;
  match LoadPlanStore (co_disk c) (co_store_path c) (co_limits c) with
  | inl _ => c
  | inr records =>
      fold_left (λ c record,
        let '(c, retained) := retain_plan (recovered_plan record) c in
        if retained then count_recovered c else c) records c
  end.

(** *** Clients *)

Definition HandleSnapshotRequest (i : nat) (frame : WireFrame) (epoch : Z) (boot : WorkerBootId)
    (c : Coordinator) : Sent :=
  registration_answer i (wf_request frame) boot (CurrentSnapshotId c) (CurrentGenerations c) epoch c.

Definition answer_currentness (query : CurrentnessQueryPayload) (c : Coordinator) :
  CurrentnessResultPayload :=
  let currentness :=
    match CurrentSnapshot (co_runtime c) with
    | Some s => ClassifyEvidence (cq_evidence query) (Evidence s)
    | None => Currentness.kRevalidationRequired
    end in
  if enum_eqb currentness Currentness.kCurrent &&
     negb (ev_publish_sequence (cq_evidence query) =? PublishSequence (co_runtime c))
  then MkCurrentnessResult (cq_plan query) Currentness.kRevalidationRequired
         [MkExplanation DiagnosticCode.kInvalidationWatermarkChanged
            "the coordinator publication watermark advanced"]
  else MkCurrentnessResult (cq_plan query) currentness [].

(** The session of a worker that can take a request. *)
Definition available (c : Coordinator) (s : Session) : bool :=
  ss_worker_role s && negb (ss_finished s) && String.eqb (ss_outstanding_request s) "" &&
  match co_workers c !! ss_boot_key s with Some r => negb (wr_fenced r) | None => false end.
Definition chosen_worker (c : Coordinator) : option (nat * Session) :=
  list_find (λ s, available c s = true) (co_sessions c).

Definition set_outstanding (key : string) (s : Session) : Session :=
  MkSession (ss_finished s) (ss_worker_role s) (ss_boot_key s) key.

(** A client request meets a worker, or the verdict that there is none. *)
Definition dispatch (request : PlanningRequestId) (payload : bytes) (c : Coordinator) :
  Coordinator * list Sent :=
  let key := RequestKey request in
  match chosen_worker c with
  | None =>
      (set_pending c (<[key := MkPending true WireStatus.kNoWorkerAvailable [] []
         "no registered worker is available for this request" ""]> (co_pending c)), [])
  | Some (i, s) =>
      let relayed :=
        MkFrame WireMessage.kPlanRequest 0 (co_epoch c) (co_next_sequence c) nil_boot request payload in
      let slot := MkPending false WireStatus.kInternal [] payload "" (ss_boot_key s) in
      let c := set_pending c (<[key := slot]> (co_pending c)) in
      let c := set_sessions c (<[i := set_outstanding key s]> (co_sessions c)) in
      (next_sequence c, [(i, relayed)])
  end.

(** The relay could not be written: [operator[]] creates a slot that is not there. *)
Definition dispatch_failed (request : PlanningRequestId) (c : Coordinator) : Coordinator :=
  let key := RequestKey request in
  let slot := default (MkPending false WireStatus.kInternal [] [] "" "") (co_pending c !! key) in
  set_pending c
    (<[key := resolve WireStatus.kNoWorkerAvailable (pn_payload slot)
                "worker session is not writable" slot]> (co_pending c)).

(** After the wait: a slot that is ready, or a timeout. *)
Definition collect (request : PlanningRequestId) (c : Coordinator) :
  Coordinator * (WireStatus.t * bytes * string) :=
  let key := RequestKey request in
  let release c := set_sessions c (map (λ s,
    if String.eqb (ss_outstanding_request s) key then set_outstanding "" s else s) (co_sessions c)) in
  match co_pending c !! key with
  | None => (release c, (WireStatus.kInternal, [], "internal dispatch state was lost"))
  | Some slot =>
      let c := release (set_pending c (delete key (co_pending c))) in
      if pn_ready slot then (c, (pn_status slot, pn_payload slot, pn_detail slot))
      else (c, (WireStatus.kReceiveBoundExceeded, [],
                "worker did not publish a result within the receive bound"))
  end.

Definition reply (i : nat) (request : PlanningRequestId) (epoch : Z)
    (outcome : WireStatus.t * bytes * string) (c : Coordinator) : Sent :=
  let '(status, payload, detail) := outcome in
  if enum_eqb status WireStatus.kOk
  then (i, MkFrame WireMessage.kPlanResult kWireFlagResponse epoch 0 nil_boot request payload)
  else SendError i epoch request status PlanStatus.kRevalidationRequired
         (DiagnosticForWireStatus status) detail c.

(** What a client frame starts: an answer, or a request to wait for under the epoch the
    reply will carry. *)
Inductive ClientAction :=
  | Answered (sent : Sent)
  | Relay (request : PlanningRequest) (epoch : Z).

Definition HandleClientFrame (i : nat) (frame : WireFrame) (c : Coordinator) : ClientAction :=
  let epoch := co_epoch c in
  let refuse status code detail :=
    Answered (SendError i epoch (wf_request frame) status PlanStatus.kMalformedRequest code detail c) in
  match wf_type frame with
  | WireMessage.kSnapshotRequest => Answered (HandleSnapshotRequest i frame epoch nil_boot c)
  | WireMessage.kValidateCurrentness =>
      match DecodeCurrentnessQueryPayload (wf_payload frame) with
      | inl (status, detail) => refuse status (DiagnosticForWireStatus status) detail
      | inr query =>
          Answered (i, MkFrame WireMessage.kCurrentnessResult kWireFlagResponse epoch 0 nil_boot
            (wf_request frame)
            (written (co_limits c) (EncodeCurrentnessResultPayload (answer_currentness query c))))
      end
  | WireMessage.kPlanRequest =>
      match DecodePlanningRequestPayload (wf_payload frame) (co_limits c) with
      | inl (status, detail) => refuse status (DiagnosticForWireStatus status) detail
      | inr request =>
          if negb (eqb (rq_id request) (wf_request frame))
          then refuse WireStatus.kRequestMismatch DiagnosticCode.kProtocolMalformedFrame
                 "frame request identity does not match the decoded request"
          else Relay request epoch
      end
  | _ =>
      Answered (SendError i epoch (wf_request frame) WireStatus.kUnsupported PlanStatus.kUnsupported
        DiagnosticCode.kUnsupportedRequest "unsupported message for a client session" c)
  end.

(** *** The session loop *)

Inductive SessionNext :=
  | Reading
  | Ending
  | Waiting (request : PlanningRequest) (epoch : Z).

Definition client_frame (i : nat) (frame : WireFrame) (c : Coordinator) :
  Coordinator * list Sent * SessionNext :=
  match HandleClientFrame i frame c with
  | Answered sent => (c, [sent], Reading)
  | Relay request epoch =>
      let '(c, sent) := dispatch (rq_id request) (wf_payload frame) c in (c, sent, Waiting request epoch)
  end.

(** One turn: a handshake that is refused ends the session, and a worker's errors and
    other frames are dropped. *)
Definition session_turn (os : SaveOutcome) (i : nat) (frame : WireFrame) (c : Coordinator) :
  Coordinator * list Sent * SessionNext :=
  let epoch := co_epoch c in
  if enum_eqb (wf_type frame) WireMessage.kHello || enum_eqb (wf_type frame) WireMessage.kRegisterWorker
  then
    let '(c, sent) := HandleHandshake i frame c in
    (c, sent, if ss_worker_role (session_of c i) then Reading else Ending)
  else if ss_worker_role (session_of c i)
  then
    match wf_type frame with
    | WireMessage.kPlanResult => let '(c, sent) := HandleWorkerPublication os i frame c in (c, sent, Reading)
    | WireMessage.kSnapshotRequest => (c, [HandleSnapshotRequest i frame epoch nil_boot c], Reading)
    | WireMessage.kValidateCurrentness => client_frame i frame c
    | _ => (c, [], Reading)
    end
  else client_frame i frame c.

(** The end of the loop. *)
Definition session_end (i : nat) (c : Coordinator) : Coordinator :=
  let s := session_of c i in
  ReleaseSession i
    (set_sessions c
       (<[i := MkSession true (ss_worker_role s) (ss_boot_key s) (ss_outstanding_request s)]>
          (co_sessions c))).

(** The sessions whose threads have not ended. *)
Definition session_count (c : Coordinator) : nat :=
  length (List.filter (λ s, negb (ss_finished s)) (co_sessions c)).

(** A connection of [AcceptLoop]: a session, unless there are too many. *)
Definition accept_connection (c : Coordinator) : Coordinator :=
  early c when (Z.of_nat (session_count c) >=? max_sessions (co_limits c)) ;;
  set_sessions c (co_sessions c ++ [new_session]).

(** *** The owner of the coordinator *)

(** The map of workers is walked in the order of its keys. *)
Definition by_key (a b : string * WorkerRegistration) : Prop := String.leb a.1 b.1 = true.
#[export] Instance by_key_dec : RelDecision by_key.
Proof. intros a b. unfold by_key. apply _. Defined.
Definition Workers (c : Coordinator) : list WorkerRegistration :=
  map snd (merge_sort by_key (map_to_list (co_workers c))).

(** The locked part of [AdvanceEpoch]: the boots and the sessions to notify. *)
Definition advance_epoch_locked (epoch : Z) (c : Coordinator) :
  Coordinator * list nat * list WorkerBootId :=
  let boots := map wr_boot (Workers c) in
  let sockets := map fst (List.filter (λ e, ss_worker_role e.2) (imap pair (co_sessions c))) in
  let keys := map ss_boot_key
    (List.filter (λ s, ss_worker_role s && negb (String.eqb (ss_boot_key s) "")) (co_sessions c)) in
  (set_workers
     (set_fenced_boots (set_co_epoch c epoch) (list_to_set keys ∪ co_fenced_boots c)) ∅,
   sockets, boots).

Definition advance_epoch_runtime (epoch : Z) (c : Coordinator) : Coordinator :=
  set_runtime c (AdvanceEpoch epoch true (co_runtime c)).1.1.

Definition epoch_notices (epoch : Z) (sockets : list nat) (boots : list WorkerBootId)
    (c : Coordinator) : list Sent :=
  imap (λ index socket,
    SendFenceNotice socket (nth index boots nil_boot) epoch WireStatus.kEpochStale
      DiagnosticCode.kCoordinatorEpochStale
      "the coordinator epoch advanced; this worker incarnation must restart" c) sockets.

Definition CoordinatorAdvanceEpoch (new_epoch : Z) (c : Coordinator) :
  Coordinator * (string + list Sent) :=
  early (c, inl ("epoch " +:+ UIntToString new_epoch +:+ " is not greater than the current epoch " +:+
                 UIntToString (co_epoch c)))
    when (new_epoch <=? co_epoch c) ;;
  let '(c, sockets, boots) := advance_epoch_locked new_epoch c in
  let c := advance_epoch_runtime new_epoch c in
  (c, inr (epoch_notices new_epoch sockets boots c)).

Definition raise_epoch (epoch : Z) (c : Coordinator) : Coordinator :=
  if epoch >? co_epoch c then set_co_epoch c epoch else c.
Definition CoordinatorPublishSnapshot (snapshot : option FabricSnapshot) (epoch : Z) (c : Coordinator) :
  Coordinator :=
  let c := raise_epoch epoch c in
  set_runtime c (PublishSnapshot snapshot (co_runtime c)).

Definition fence_registration (r : WorkerRegistration) : WorkerRegistration :=
  MkRegistration (wr_boot r) (wr_publisher r) (wr_snapshot r) (wr_generations r)
    (wr_registered_epoch r) true (wr_plans_completed r) (wr_publications_rejected r).

(** The last session with the boot is the one that is told. *)
Definition FenceWorker (boot : WorkerBootId) (c : Coordinator) : Coordinator * (string + Sent) :=
  let key := BootKey boot in
  match co_workers c !! key with
  | None => (c, inl "worker boot identity is not registered")
  | Some r =>
      let c := set_workers c (<[key := fence_registration r]> (co_workers c)) in
      let c := set_fenced_boots c ({[key]} ∪ co_fenced_boots c) in
      match last (List.filter (λ e, String.eqb (ss_boot_key e.2) key) (imap pair (co_sessions c))) with
      | None => (c, inl "worker session is no longer present")
      | Some (i, s) =>
          (* a finished session has no socket *)
          early (c, inl "worker session is no longer present") when ss_finished s ;;
          (c, inr (SendFenceNotice i boot (co_epoch c) WireStatus.kWorkerFenced
                     DiagnosticCode.kWorkerBootFenced
                     "the coordinator fenced this worker boot identity" c))
      end
  end.

(** A coordinator that has been started: its history is recovered before it listens. *)
Definition start_coordinator (limits : ResourceLimits) (store_path : string) (disk : Disk)
    (snapshot : option FabricSnapshot) (initial_epoch : Z) : Coordinator :=
  RecoverStore
    (MkCoordinator limits store_path disk (new_PlannerRuntime (MkPlannerConfig limits snapshot None)) [] ∅ ∅ ∅ 1
       initial_epoch 0 0 []).

(** [Stop], once every session thread has been joined; each has released its session. *)
Definition stop_coordinator (c : Coordinator) : Coordinator :=
  let c := fold_left (λ c i, if ss_finished (session_of c i) then c else session_end i c)
             (seq 0 (length (co_sessions c))) c in
  set_pending (set_workers (set_sessions c []) ∅) ∅.
