(* ===== verification/Delivery.v ===== *)
(** Delivery: what one side of the distributed runtime writes, the other side reads.
    A frame is taken off a stream exactly, and the payloads of requests and results
    decode to what was encoded, under the frame ceiling of the sender. *)

From stdpp Require Import gmap strings.
From S2P Require Import Prelude Canonical Sha256 Status Ids Codec Limits Graph Path Request View Result Parse PlanCodec Wire Payloads RequestCodec ResultCodec Store StoreFacts StoreFile Dist.

Open Scope string_scope.
Open Scope list_scope.
Open Scope Z_scope.

(** ** Payloads are bytes *)

Lemma ids_bytes_range {tag} limit (l : list (FixedId tag)) :
  at_most limit valid_id l → Forall is_byte (list_bytes id_bytes l).
Proof. intros [_ Hl]. apply (list_bytes_range valid_id); [done|apply valid_bytes_range]. Qed.
Lemma option_bytes_range {A} (enc : A → bytes) o :
  (∀ x, Forall is_byte (enc x)) → Forall is_byte (option_bytes enc o).
Proof. intros He. destruct o; cbn [option_bytes]; [|apply bool_bytes_range]. apply Forall_app. split; [apply bool_bytes_range|done]. Qed.
Lemma string_bytes_range s : Forall is_byte (string_bytes s).
Proof.
  unfold string_bytes, text_of_bytes. apply Forall_app. split; [apply varint_range; lia|apply text_bytes_byte].
Qed.
#[export] Hint Resolve string_bytes_range ids_bytes_range option_bytes_range evidence_bytes_range : bytes.

Lemma endpoint_ref_bytes_range e : endpoint_ref_ok e → Forall is_byte (endpoint_ref_bytes e).
Proof. intros [? ?]. unfold endpoint_ref_bytes. bytes_range. Qed.
Lemma constraints_bytes_range limits c : constraints_wire_ok limits c → Forall is_byte (constraints_bytes c).
Proof.
  intros (? & ? & ? & ? & ? & ? & ? & [_ Hst] & [_ Hre] & _). unfold constraints_bytes. bytes_range.
  - apply (list_bytes_range (stage_wire_ok limits)); [done|]. intros s Hs. unfold stage_bytes. bytes_range.
  - apply (list_bytes_range requirement_ok); [done|]. intros r [? ?]. unfold requirement_bytes. bytes_range.
Qed.
Lemma policy_bytes_range limits p : policy_wire_ok limits p → Forall is_byte (policy_bytes p).
Proof. intros (? & ? & ?). unfold policy_bytes, cost_model_bytes. bytes_range. Qed.
Lemma authority_bytes_range a : authority_typed a → Forall is_byte (authority_bytes a).
Proof. intros (? & ? & ? & ? & ?). unfold authority_bytes. bytes_range. Qed.
#[export] Hint Resolve endpoint_ref_bytes_range constraints_bytes_range policy_bytes_range
  authority_bytes_range : bytes.

Lemma request_bytes_range limits r : request_wire_ok limits r → Forall is_byte (request_bytes r).
Proof.
  intros (? & ? & ? & ? & ? & _ & ? & _ & _ & ? & _). unfold request_bytes. bytes_range.
Qed.

Lemma wire_candidate_bytes_range limits evidence c :
  wire_candidate_ok limits evidence c → Forall is_byte (wire_candidate_bytes c).
Proof.
  intros (? & Hp & _ & _ & [_ Hn] & _). unfold wire_candidate_bytes, cost_bytes.
  pose proof (path_bytes_range _ _ Hp). bytes_range.
  apply (list_bytes_range enum_fits); [done|]. intros x _. apply enum_bytes_range.
Qed.

Lemma result_bytes_range limits r : result_ok limits r → Forall is_byte (result_bytes r).
Proof.
  intros (? & ? & ? & ? & ? & _ & [_ Hd] & ? & _ & [_ Hc] & [_ He] & [_ Hr]). unfold result_bytes.
  bytes_range; try by apply option_bytes_range; intros; apply enum_bytes_range.
  - apply (list_bytes_range (wire_candidate_ok limits (rs_evidence r))); [done|].
    apply wire_candidate_bytes_range.
  - apply (list_bytes_range explanation_ok); [done|]. intros x _. unfold explanation_bytes. bytes_range.
  - apply (list_bytes_range rejection_ok); [done|]. intros x ([_ ?] & _ & _).
    unfold rejection_bytes, subject_bytes. bytes_range.
Qed.

(** ** Payloads decode to what was encoded *)

Lemma written_exact (op : ByteWriter → ByteWriter) bs ceiling :
  Writes op bs → 0 <= ceiling → overflowed_ (op (new_writer ceiling)) = false →
  data_ (op (new_writer ceiling)) = bs ∧ Z.of_nat (length bs) <= ceiling.
Proof.
  intros Hw Hc Ho. destruct (Writes_new_writer op bs ceiling Hw Hc) as [Hlen Hdata].
  exact (conj (Hdata Ho) (proj1 Hlen Ho)).
Qed.

Definition request_payload_of (limits : ResourceLimits) (r : PlanningRequest) : ByteWriter :=
  EncodePlanningRequestPayload r (new_writer (max_frame_bytes limits)).
Definition result_payload_of (limits : ResourceLimits) (r : PlanningResult) : ByteWriter :=
  EncodePlanningResultPayload r (new_writer (max_frame_bytes limits)).

(** What a side has written into a payload: bytes under the ceiling. *)
Definition payload_fits (limits : ResourceLimits) (payload : bytes) : Prop :=
  Forall is_byte payload ∧ Z.of_nat (length payload) <= max_frame_bytes limits.

Lemma request_delivered limits r :
  limits_fit limits → 0 <= max_frame_bytes limits → request_typed r → request_ok r limits →
  overflowed_ (request_payload_of limits r) = false →
  payload_fits limits (data_ (request_payload_of limits r)) ∧
  DecodePlanningRequestPayload (data_ (request_payload_of limits r)) limits = inr r.
Proof.
  unfold request_payload_of. intros Hfit Hmax Ht Hok Hov.
  destruct (written_exact (EncodePlanningRequestPayload r) _ (max_frame_bytes limits) (Writes_request r) Hmax Hov) as [Hdata Hlen].
  apply (request_wire_ok_typed limits r Hok) in Ht. pose proof (request_bytes_range _ _ Ht) as Hb.
  rewrite Hdata. split; [exact (conj Hb Hlen)|].
  unfold DecodePlanningRequestPayload.
  rewrite (proj2 (decode_payload_spec (request_payload limits) _ _ _ (request_bytes r) r (Parses_request limits Hfit) Hb))
    by exact (conj Ht eq_refl).
  by rewrite (proj2 (ValidateRequest_None r limits) Hok).
Qed.

(** What a result is on the other side: the operational state of the links a path was
    planned over does not travel, nor does the provenance of a candidate; its evidence
    is that of the result. *)
Definition wire_candidate (evidence : EvidenceVector) (c : Candidate) : Candidate :=
  MkCandidate (cd_id c) (plain_path (cd_path c)) (cd_cost c) (cd_rank c) evidence default_provenance
    (cd_authority c) (cd_currentness c) (cd_notes c).
Definition wire_image (r : PlanningResult) : PlanningResult :=
  set_candidates (map (wire_candidate (rs_evidence r)) (rs_candidates r)) r.

Lemma result_bytes_image r : result_bytes (wire_image r) = result_bytes r.
Proof.
  unfold result_bytes, wire_image.
  cbn [rs_status rs_primary_failure rs_source_endpoint rs_destination_endpoint rs_source_node
    rs_destination_node rs_plan_id rs_planning_generation rs_semantic_digest rs_evidence
    rs_requested_candidates rs_truncated rs_diagnostic_mode rs_candidates rs_explanations rs_rejections
    set_candidates].
  rewrite (list_bytes_map_ext (wire_candidate (rs_evidence r)) wire_candidate_bytes wire_candidate_bytes);
    [reflexivity|].
  intros c. unfold wire_candidate_bytes, wire_candidate.
  cbn [cd_id cd_path cd_cost cd_rank cd_currentness cd_authority cd_notes].
  rewrite path_bytes_plain. reflexivity.
Qed.

Lemma result_delivered limits r :
  limits_fit limits → 0 <= max_frame_bytes limits → result_ok limits (wire_image r) →
  overflowed_ (result_payload_of limits r) = false →
  payload_fits limits (data_ (result_payload_of limits r)) ∧
  DecodePlanningResultPayload (data_ (result_payload_of limits r)) limits = inr (wire_image r).
Proof.
  unfold result_payload_of. intros Hfit Hmax Hok Hov.
  destruct (written_exact (EncodePlanningResultPayload r) _ (max_frame_bytes limits) (Writes_result r) Hmax Hov)
    as [Hdata Hlen].
  pose proof (result_bytes_range _ _ Hok) as Hb. rewrite result_bytes_image in Hb.
  rewrite Hdata. split; [exact (conj Hb Hlen)|]. unfold DecodePlanningResultPayload.
  apply (decode_payload_spec (result_payload limits) _ _ _ (result_bytes r) (wire_image r) (Parses_result limits Hfit) Hb).
  exact (conj Hok (eq_sym (result_bytes_image r))).
Qed.

(** ** Frames off a stream *)

Lemma EncodeFrame_length f :
  frame_ok f → length (EncodeFrame f) = (kWireHeaderBytes + length (wf_payload f))%nat.
Proof.
  intros Hok. rewrite (EncodeFrame_bytes f Hok), !length_app, length_header_bytes by apply Hok.
  rewrite length_take, length_Hash. reflexivity.
Qed.

Lemma header_bytes_range h :
  id_wf (wh_worker_boot h) → id_wf (wh_request h) → Forall is_byte (header_bytes h).
Proof. intros ? ?. unfold header_bytes. bytes_range. Qed.

Lemma EncodeFrame_range f : frame_ok f → Forall is_byte (EncodeFrame f).
Proof.
  intros Hok. rewrite (EncodeFrame_bytes f Hok). pose proof (fo_payload _ Hok).
  pose proof (header_bytes_range (frame_fields f) (fo_worker_boot _ Hok) (fo_request _ Hok)).
  apply Forall_app. split; [done|]. apply Forall_app. split; [|done].
  apply Forall_take, Hash_range.
Qed.

(** The declared length, at its place in the header. *)
Lemma frame_length_field f rest :
  frame_ok f →
  (RUint 4 (MkReader (EncodeFrame f ++ rest) 52 false)).1 = Some (Z.of_nat (length (wf_payload f))).
Proof.
  intros Hok. pose proof Hok as [_ _ _ _ [L1 _] [L2 _] _ Hlen]. rewrite (EncodeFrame_bytes f Hok).
  unfold header_bytes, frame_fields.
  cbn [wh_flags wh_type wh_epoch wh_sequence wh_worker_boot wh_request wh_payload_bytes].
  set (pre := le_bytes 4 kWireMagicValue ++ le_bytes 2 kWireProtocolVersion ++ le_bytes 2 (wf_flags f) ++
    enum_bytes (wf_type f) ++ le_bytes 8 (wf_coordinator_epoch f) ++ le_bytes 8 (wf_sequence f) ++
    id_bytes (wf_worker_boot f) ++ id_bytes (wf_request f)).
  assert (Hpre : length pre = 52%nat)
    by (unfold pre, enum_bytes; rewrite !length_app, !length_le_bytes, L1, L2; reflexivity).
  set (check := take kWireIntegrityBytes _).
  match goal with |- (RUint 4 (MkReader ?bs _ _)).1 = _ =>
    replace bs with (pre ++ le_bytes 4 (Z.of_nat (length (wf_payload f))) ++
                     (le_bytes 4 0 ++ check ++ wf_payload f ++ rest))
      by (unfold pre; rewrite <- !app_assoc; reflexivity) end.
  rewrite <- Hpre, Reads_UInt; [reflexivity|]. unfold u32_max in Hlen. cbn. lia.
Qed.

Lemma ReadFrame_spec stream max_frame_bytes f rest :
  Forall is_byte stream → max_frame_bytes <= u32_max →
  ReadFrame stream max_frame_bytes = inr (f, rest) ↔
  frame_ok f ∧ Z.of_nat (length (wf_payload f)) <= max_frame_bytes ∧ stream = EncodeFrame f ++ rest.
Proof.
  intros Hb Hmax. unfold ReadFrame. cbv zeta. split.
  - destruct (length stream <? kWireHeaderBytes)%nat; [done|].
    set (size := (kWireHeaderBytes + _)%nat). destruct (_ >? _); [done|].
    destruct (length stream <? size)%nat; [done|].
    destruct (DecodeFrame (take size stream) max_frame_bytes) as [[? ?]|f'] eqn:Ed; [done|]. intros [= <- <-].
    apply DecodeFrame_spec in Ed as (Hok & Hlen & Henc); [|by apply Forall_take|done].
    split_and!; [done|done|]. rewrite <- Henc. symmetry. apply take_drop.
  - intros (Hok & Hlen & ->). pose proof (EncodeFrame_length f Hok) as Hsize.
    rewrite length_app, Hsize. rewrite (proj2 (Nat.ltb_ge _ _)) by lia.
    pose proof (frame_length_field f rest Hok) as Hfield.
    destruct (RUint 4 _) as [[v|] r]; [|done]. cbn [fst] in Hfield. injection Hfield as ->.
    destruct (Z.gtb_spec (Z.of_nat (length (wf_payload f))) max_frame_bytes); [lia|].
    rewrite Nat2Z.id, (proj2 (Nat.ltb_ge _ _)) by lia. rewrite <- Hsize, take_app_length, drop_app_length.
    rewrite (proj2 (DecodeFrame_spec (EncodeFrame f) max_frame_bytes f (EncodeFrame_range f Hok) Hmax)
      (conj Hok (conj Hlen eq_refl))). reflexivity.
Qed.

(** C18: frames are exact, alone and on a stream: an input decodes to a frame exactly
    when the frame is well formed, its payload is within the ceiling, and the input is
    byte for byte the frame's encoding; and a session reads a frame off its stream
    exactly when the stream starts with that encoding, leaving what follows it. So
    every frame round trips, consecutive frames never run into each other, and every
    other input (bad magic, version, flags, type, reserved field or length, trailing
    bytes, any change under the integrity check) is refused. *)
Theorem wire_frame_exact data max_frame_bytes f rest :
  Forall is_byte data → max_frame_bytes <= u32_max →
  (DecodeFrame data max_frame_bytes = inr f ↔
   frame_ok f ∧ Z.of_nat (length (wf_payload f)) <= max_frame_bytes ∧ data = EncodeFrame f) ∧
  (ReadFrame data max_frame_bytes = inr (f, rest) ↔
   frame_ok f ∧ Z.of_nat (length (wf_payload f)) <= max_frame_bytes ∧ data = EncodeFrame f ++ rest).
Proof. intros Hb Hmax. split; [by apply DecodeFrame_spec|by apply ReadFrame_spec]. Qed.

(** Two frames on a stream. *)
Lemma wire_frame_exact_witness :
  frame_ok demo_frame ∧ Z.of_nat (length (wf_payload demo_frame)) <= 1024.
Proof.
  assert (Hb : Forall is_byte (EncodeFrame demo_frame ++ EncodeFrame demo_frame))
    by (apply Forall_app; split; exact demo_frame_byte).
  assert (Hr : ReadFrame (EncodeFrame demo_frame ++ EncodeFrame demo_frame) 1024 =
               inr (demo_frame, EncodeFrame demo_frame)) by (vm_compute; reflexivity).
  destruct (proj1 (proj2 (wire_frame_exact _ 1024 demo_frame (EncodeFrame demo_frame) Hb
    ltac:(vm_compute; congruence))) Hr) as (Hok & Hlen & _).
  exact (conj Hok Hlen).
Defined.
