(* ===== verification/DistSystem.v ===== *)
(** Interleaved sessions of the coordinator. Every session has a thread, and the owner
    calls the coordinator beside them; each critical section of dist.cpp is one atomic
    step of a transition system. The theorems are the promises of dist.hpp: what a
    client receives was accepted from a worker that was, when the decision was made,
    registered, not fenced, in the current epoch and on the current evidence; and a
    boot identity that was fenced is refused for good. *)

From stdpp Require Import gmap strings.
From S2P Require Import Prelude Canonical Sha256 Status Ids Codec Limits Graph Path Request View Result Planner Parse PlanCodec Wire Payloads RequestCodec ResultCodec Store StoreFile Dist.

Open Scope string_scope.
Open Scope list_scope.
Open Scope Z_scope.

(** Where the thread of a session is. [captured] and [decided] are ghost: the
    coordinator when the registration was read and when the decision was made. *)
Inductive Point :=
  | Idle
  | HelloCaptured (frame : WireFrame) (hello : HelloPayload) (h : Handshake)
  | HelloAccepted (frame : WireFrame) (hello : HelloPayload) (h : Handshake)
  | PublicationRead (frame : WireFrame) (captured : Coordinator)
  | PublicationDecided (frame : WireFrame) (captured decided : Coordinator)
      (acceptance : WireStatus.t) (detail : string)
  | Retaining (request_payload result_payload : bytes)
  | Listing (id : PathPlanId)
  | Saving
  | Relaying (frame : WireFrame) (request : PlanningRequest) (epoch : Z)
  | Awaiting (request : PlanningRequest) (epoch : Z) (relayed : bool)
  | Ended.

(** An accepted publication that answered a waiting request. *)
Record Acceptance := MkAcceptance {
  ac_frame : WireFrame; ac_captured : Coordinator; ac_decided : Coordinator
}.
(** A reply to a client: the request, and the status, payload and detail collected. *)
Record Reply := MkReply { ry_request : PlanningRequestId; ry_outcome : WireStatus.t * bytes * string }.

Record DistSystem := MkSystem {
  dy_co : Coordinator; dy_points : gmap nat Point; dy_accepted : list Acceptance;
  dy_replies : list Reply
}.

Definition is_hello (frame : WireFrame) : bool :=
  enum_eqb (wf_type frame) WireMessage.kHello || enum_eqb (wf_type frame) WireMessage.kRegisterWorker.

(** The thread goes on reading, or leaves the loop. *)
Definition after_hello (i : nat) (c : Coordinator) : Point :=
  if ss_worker_role (session_of c i) then Idle else Ended.

Definition decide_publication (frame : WireFrame) (captured c : Coordinator) : WireStatus.t * string :=
  ValidatePublication (wf_worker_boot frame) (wf_coordinator_epoch frame)
    (publication_snapshot (BootKey (wf_worker_boot frame)) captured) c.

(** A session that is not in the map has not sent a frame yet. *)
Definition point_of (points : gmap nat Point) (i : nat) : Point := default Idle (points !! i).

Section steps.
Variables (c : Coordinator) (points : gmap nat Point) (accepted : list Acceptance)
  (replies : list Reply) (i : nat).
Notation sys := (MkSystem c points accepted replies).
Notation moved c' point := (MkSystem c' (<[i := point]> points) accepted replies).

(** One critical section of the thread of session [i]. *)
Inductive session_step : DistSystem → Prop :=
  | ss_hello frame hello :
      point_of points i = Idle → is_hello frame = true →
      DecodeHelloPayload (wf_payload frame) = inr hello → hl_boot hello = wf_worker_boot frame →
      session_step (moved c (HelloCaptured frame hello (handshake_capture c)))
  | ss_hello_malformed frame :
      point_of points i = Idle → is_hello frame = true →
      (∀ hello, DecodeHelloPayload (wf_payload frame) = inr hello → hl_boot hello ≠ wf_worker_boot frame) →
      session_step (moved c (after_hello i c))
  | ss_hello_decided frame hello h :
      point_of points i = HelloCaptured frame hello h →
      session_step (moved c
        (if enum_eqb (handshake_acceptance hello h c).1 WireStatus.kOk
         then HelloAccepted frame hello h else after_hello i c))
  | ss_registered frame hello h :
      point_of points i = HelloAccepted frame hello h →
      session_step (moved (handshake_register i hello h c) Idle)
  | ss_publication frame :
      point_of points i = Idle → ss_worker_role (session_of c i) = true →
      wf_type frame = WireMessage.kPlanResult →
      session_step (moved c (PublicationRead frame c))
  | ss_decided frame captured :
      point_of points i = PublicationRead frame captured →
      session_step (moved c
        (PublicationDecided frame captured c (decide_publication frame captured c).1 (decide_publication frame captured c).2))
  | ss_refused frame captured decided acceptance detail :
      point_of points i = PublicationDecided frame captured decided acceptance detail →
      (apply_publication frame acceptance detail c).2 = None →
      session_step (moved (apply_publication frame acceptance detail c).1 Idle)
  | ss_applied frame captured decided acceptance detail request_payload :
      point_of points i = PublicationDecided frame captured decided acceptance detail →
      (apply_publication frame acceptance detail c).2 = Some request_payload →
      session_step
        (MkSystem (apply_publication frame acceptance detail c).1
           (<[i := Retaining request_payload (wf_payload frame)]> points)
           (accepted ++ [MkAcceptance frame captured decided]) replies)
  | ss_retained request_payload result_payload request result :
      point_of points i = Retaining request_payload result_payload →
      DecodePlanningRequestPayload request_payload (co_limits c) = inr request →
      DecodePlanningResultPayload result_payload (co_limits c) = inr result →
      let plan := MakePathPlan request result (PublishSequence (co_runtime c)) in
      let out := Retain plan (co_runtime c) in
      session_step (moved (set_runtime c out.1) (if out.2 then Listing (pl_id plan) else Saving))
  | ss_not_retained request_payload result_payload :
      point_of points i = Retaining request_payload result_payload →
      (∀ request result,
         DecodePlanningRequestPayload request_payload (co_limits c) = inr request →
         DecodePlanningResultPayload result_payload (co_limits c) = inr result → False) →
      session_step (moved c Idle)
  | ss_listed id :
      point_of points i = Listing id → session_step (moved (retain_id c id) Saving)
  | ss_saved os :
      point_of points i = Saving →
      session_step (moved (if String.eqb (co_store_path c) "" then c else (SaveStore os c).1) Idle)
  | ss_request frame request epoch :
      point_of points i = Idle → ss_worker_role (session_of c i) = false →
      HandleClientFrame i frame c = Relay request epoch →
      session_step (moved c (Relaying frame request epoch))
  | ss_dispatched frame request epoch :
      point_of points i = Relaying frame request epoch →
      session_step (moved (dispatch (rq_id request) (wf_payload frame) c).1
        (Awaiting request epoch (bool_decide (is_Some (chosen_worker c)))))
  | ss_unwritable request epoch :
      point_of points i = Awaiting request epoch true →
      session_step (moved (dispatch_failed (rq_id request) c) (Awaiting request epoch false))
  | ss_collected request epoch relayed :
      point_of points i = Awaiting request epoch relayed →
      session_step
        (MkSystem (collect (rq_id request) c).1 (<[i := Idle]> points) accepted
           (replies ++ [MkReply (rq_id request) (collect (rq_id request) c).2]))
  | ss_lost :
      point_of points i = Idle ∨ point_of points i = Ended →
      session_step (moved (session_end i c) Ended).

(** A step of the owner or of the accepting thread. The owner also has the runtime
    itself, [Coordinator::Runtime()]: anything may happen to it. *)
Inductive owner_step : DistSystem → Prop :=
  | os_connected : owner_step (MkSystem (accept_connection c) points accepted replies)
  | os_epoch epoch :
      co_epoch c < epoch →
      owner_step (MkSystem (advance_epoch_locked epoch c).1.1 points accepted replies)
  | os_runtime runtime : owner_step (MkSystem (set_runtime c runtime) points accepted replies)
  | os_raised epoch : owner_step (MkSystem (raise_epoch epoch c) points accepted replies)
  | os_fenced boot : owner_step (MkSystem (FenceWorker boot c).1 points accepted replies)
  | os_store os : owner_step (MkSystem (SaveStore os c).1 points accepted replies).
End steps.

Inductive dist_step (s : DistSystem) : DistSystem → Prop :=
  | ds_session i s' :
      session_step (dy_co s) (dy_points s) (dy_accepted s) (dy_replies s) i s' → dist_step s s'
  | ds_owner s' :
      owner_step (dy_co s) (dy_points s) (dy_accepted s) (dy_replies s) s' → dist_step s s'.

(** A coordinator that was started and has served nobody yet. *)
Definition dist_start (limits : ResourceLimits) (store_path : string) (disk : Disk)
    (snapshot : option FabricSnapshot) (epoch : Z) : DistSystem :=
  MkSystem (start_coordinator limits store_path disk snapshot epoch) ∅ [] [].

(** ** The acceptance decision *)

(** The conditions of dist.hpp for the publication of a worker. *)
Record admitted (c : Coordinator) (boot : WorkerBootId) (epoch : Z) (snapshot : SnapshotId) : Prop := {
  ad_unfenced : BootKey boot ∉ co_fenced_boots c;
  ad_registered : ∃ r, co_workers c !! BootKey boot = Some r ∧ wr_fenced r = false;
  ad_epoch : epoch = co_epoch c;
  ad_snapshot : ∃ s, CurrentSnapshot (co_runtime c) = Some s ∧ SnapshotIdOf s = snapshot ∧
                     IsValid snapshot = true
}.

Lemma ValidatePublication_ok boot epoch snapshot c :
  (ValidatePublication boot epoch snapshot c).1 = WireStatus.kOk ↔ admitted c boot epoch snapshot.
Proof.
  unfold ValidatePublication. cbv zeta. case_bool_decide as Hf; cbn [fst].
  { split; [discriminate|]. intros [? _ _ _]. done. }
  destruct (co_workers c !! BootKey boot) as [r|] eqn:Er; cbn [fst].
  2:{ split; [discriminate|]. intros [_ (r & ? & _) _ _]. congruence. }
  destruct (wr_fenced r) eqn:Ew; cbn [fst].
  { split; [discriminate|]. intros [_ (r' & ? & ?) _ _]. congruence. }
  destruct (Z.eqb_spec epoch (co_epoch c)) as [->|Hne]; cbn [negb fst].
  2:{ split; [discriminate|]. by intros [_ _ ? _]. }
  unfold CurrentSnapshotId. destruct (CurrentSnapshot (co_runtime c)) as [s|] eqn:Es.
  2:{ split; [discriminate|]. intros [_ _ _ (s & ? & _)]. congruence. }
  destruct (IsValid (SnapshotIdOf s)) eqn:Ev; cbn [negb orb].
  2:{ split; [discriminate|]. intros [_ _ _ (s' & Hs & Hid & Hv)]. replace s' with s in * by congruence. congruence. }
  destruct (eqb snapshot (SnapshotIdOf s)) eqn:Eq; cbn [negb fst].
  - apply eqb_eq in Eq as ->. split; [intros _|done]. constructor; eauto.
  - apply eqb_neq in Eq. split; [discriminate|]. intros [_ _ _ (s' & Hs & <- & _)]. congruence.
Qed.

(** ** What the sections leave alone *)

(** No slot is resolved and no fence is lifted. *)
Record quiet (c c' : Coordinator) : Prop := {
  qt_pending : co_pending c' = co_pending c;
  qt_accepted : co_accepted_publications c' = co_accepted_publications c;
  qt_fenced : co_fenced_boots c ⊆ co_fenced_boots c'
}.
Lemma quiet_refl c : quiet c c.
Proof. by constructor. Qed.
Create HintDb quiet.
#[export] Hint Resolve quiet_refl : quiet.

Lemma quiet_accept_connection c : quiet c (accept_connection c).
Proof. unfold accept_connection. destruct (_ >=? _); by constructor. Qed.
Lemma quiet_advance_epoch_locked epoch c : quiet c (advance_epoch_locked epoch c).1.1.
Proof. constructor; [done|done|]. cbn. set_solver. Qed.
Lemma quiet_raise_epoch epoch c : quiet c (raise_epoch epoch c).
Proof. unfold raise_epoch. destruct (_ >? _); by constructor. Qed.
Lemma quiet_FenceWorker boot c : quiet c (FenceWorker boot c).1.
Proof.
  unfold FenceWorker. destruct (co_workers c !! _) as [r|]; [|apply quiet_refl]. cbv zeta.
  destruct (last _) as [[i s]|]; [destruct (ss_finished s)|]; constructor; try done; cbn; set_solver.
Qed.
Lemma quiet_SaveStore os c : quiet c (SaveStore os c).1.
Proof.
  unfold SaveStore. destruct (String.eqb _ _); [apply quiet_refl|]. cbv zeta.
  destruct (SavePlanStore _ _ _ _ _) as [result disks]. by constructor.
Qed.
Lemma quiet_register i hello h c : quiet c (handshake_register i hello h c).
Proof. by constructor. Qed.
Lemma quiet_set_runtime runtime c : quiet c (set_runtime c runtime).
Proof. by constructor. Qed.
Lemma quiet_retain_id id c : quiet c (retain_id c id).
Proof. by constructor. Qed.
#[export] Hint Resolve quiet_accept_connection quiet_advance_epoch_locked quiet_raise_epoch
  quiet_FenceWorker quiet_SaveStore quiet_register quiet_set_runtime quiet_retain_id : quiet.

(** The slots that are ready with a result come from accepted publications. *)
Definition answers (accepted : list Acceptance) (key : string) (payload : bytes) : Prop :=
  ∃ a, a ∈ accepted ∧ RequestKey (wf_request (ac_frame a)) = key ∧ wf_payload (ac_frame a) = payload.

Definition slots_ok (accepted : list Acceptance) (pending : gmap string Pending) : Prop :=
  ∀ key slot, pending !! key = Some slot → pn_ready slot = true → pn_status slot = WireStatus.kOk →
    answers accepted key (pn_payload slot).

Definition acceptance_ok (a : Acceptance) : Prop :=
  let boot := wf_worker_boot (ac_frame a) in
  admitted (ac_decided a) boot (wf_coordinator_epoch (ac_frame a))
    (publication_snapshot (BootKey boot) (ac_captured a)).

Definition point_ok (p : Point) : Prop :=
  match p with
  | PublicationDecided frame captured decided acceptance _ =>
      acceptance = WireStatus.kOk → acceptance_ok (MkAcceptance frame captured decided)
  | _ => True
  end.

Definition reply_ok (accepted : list Acceptance) (r : Reply) : Prop :=
  let '(status, payload, _) := ry_outcome r in
  status = WireStatus.kOk → answers accepted (RequestKey (ry_request r)) payload.

Record DistInv (s : DistSystem) : Prop := {
  di_points : ∀ i, point_ok (point_of (dy_points s) i);
  di_slots : slots_ok (dy_accepted s) (co_pending (dy_co s));
  di_accepted : Forall acceptance_ok (dy_accepted s);
  di_replies : Forall (reply_ok (dy_accepted s)) (dy_replies s);
  di_count : co_accepted_publications (dy_co s) = wrap64 (Z.of_nat (length (dy_accepted s)))
}.

Lemma point_of_insert points i p j :
  point_of (<[i := p]> points) j = if decide (i = j) then p else point_of points j.
Proof.
  unfold point_of. destruct (decide (i = j)) as [<-|Hne]; [by rewrite lookup_insert_eq|].
  by rewrite lookup_insert_ne.
Qed.

Lemma points_ok_insert points i p :
  (∀ j, point_ok (point_of points j)) → point_ok p → ∀ j, point_ok (point_of (<[i := p]> points) j).
Proof. intros Hall Hp j. rewrite point_of_insert. by destruct (decide _). Qed.

(** A section that resolves no slot with a result, and moves one thread. *)
Lemma DistInv_section c c' points points' accepted replies :
  DistInv (MkSystem c points accepted replies) →
  slots_ok accepted (co_pending c') →
  co_accepted_publications c' = co_accepted_publications c →
  (∀ j, point_ok (point_of points' j)) →
  DistInv (MkSystem c' points' accepted replies).
Proof. intros [Hp Hs Ha Hr Hc] Hs' Hc' Hp'. constructor; cbn in *; try done. congruence. Qed.

Lemma DistInv_quiet c c' points accepted replies i p :
  DistInv (MkSystem c points accepted replies) → quiet c c' → point_ok p →
  DistInv (MkSystem c' (<[i := p]> points) accepted replies).
Proof.
  intros Hinv [Hpend Hacc _] Hp. eapply DistInv_section; [done| |done|].
  - rewrite Hpend. apply Hinv.
  - apply points_ok_insert; [apply Hinv|done].
Qed.

(** The slots after a section that touches one of them. *)
Lemma slots_ok_insert accepted pending key slot :
  slots_ok accepted pending →
  (pn_ready slot = true → pn_status slot = WireStatus.kOk → answers accepted key (pn_payload slot)) →
  slots_ok accepted (<[key := slot]> pending).
Proof.
  intros Hall Hslot k s [[<- <-]|[_ Hk]]%lookup_insert_Some; [done|by apply (Hall k)].
Qed.
Lemma slots_ok_delete accepted pending key : slots_ok accepted pending → slots_ok accepted (delete key pending).
Proof. intros Hall k s [_ Hk]%lookup_delete_Some. by apply (Hall k). Qed.
Lemma slots_ok_refused accepted pending key status payload detail slot :
  slots_ok accepted pending → status ≠ WireStatus.kOk →
  slots_ok accepted (<[key := resolve status payload detail slot]> pending).
Proof. intros Hall Hs. by apply slots_ok_insert. Qed.
Lemma answers_more accepted more key payload :
  answers accepted key payload → answers (accepted ++ more) key payload.
Proof. intros (a & Ha & ?). exists a. split; [|done]. apply elem_of_app. by left. Qed.
Lemma slots_ok_more accepted more pending : slots_ok accepted pending → slots_ok (accepted ++ more) pending.
Proof. intros Hall k s Hk Hr Hs. by eapply answers_more, Hall. Qed.
Lemma reply_ok_more accepted more r : reply_ok accepted r → reply_ok (accepted ++ more) r.
Proof. unfold reply_ok. destruct (ry_outcome r) as [[s p] d]. eauto using answers_more. Qed.
#[export] Hint Resolve slots_ok_insert slots_ok_delete slots_ok_refused slots_ok_more : quiet.

Lemma slots_ok_modify accepted key f c :
  slots_ok accepted (co_pending c) →
  (∀ slot, co_pending c !! key = Some slot → pn_ready (f slot) = true →
     pn_status (f slot) = WireStatus.kOk → answers accepted key (pn_payload (f slot))) →
  slots_ok accepted (co_pending (modify_pending key f c)).
Proof.
  intros Hall Hf. unfold modify_pending. destruct (co_pending c !! key) as [slot|] eqn:E; [|done].
  apply slots_ok_insert; eauto.
Qed.

Lemma modify_pending_frame key f c :
  co_accepted_publications (modify_pending key f c) = co_accepted_publications c ∧
  co_fenced_boots (modify_pending key f c) = co_fenced_boots c.
Proof. unfold modify_pending. by destruct (co_pending c !! key). Qed.

(** The end of a session. *)
Lemma session_end_frame i c :
  co_accepted_publications (session_end i c) = co_accepted_publications c ∧
  co_fenced_boots c ⊆ co_fenced_boots (session_end i c).
Proof.
  unfold session_end, ReleaseSession. cbv zeta.
  set (c1 := set_sessions c _). set (c2 := if _ && _ then _ else _).
  assert (H2 : co_accepted_publications c2 = co_accepted_publications c ∧
               co_fenced_boots c ⊆ co_fenced_boots c2).
  { unfold c2. destruct (_ && _); cbn; [split; [done|set_solver]|done]. }
  destruct (String.eqb (ss_outstanding_request _) _); [exact H2|].
  destruct (modify_pending_frame (ss_outstanding_request (session_of c1 i)) (λ p, if pn_ready p then p
    else resolve WireStatus.kUnknownWorker (pn_payload p)
           "worker session ended before it published a result" p) c2) as [-> ->].
  exact H2.
Qed.

Lemma session_end_slots i c accepted :
  slots_ok accepted (co_pending c) → slots_ok accepted (co_pending (session_end i c)).
Proof.
  intros Hall. unfold session_end, ReleaseSession. cbv zeta.
  set (c1 := set_sessions c _). set (c2 := if _ && _ then _ else _).
  assert (H2 : co_pending c2 = co_pending c) by (unfold c2; by destruct (_ && _)).
  destruct (String.eqb (ss_outstanding_request _) _); [by rewrite H2|].
  apply slots_ok_modify; rewrite H2; [done|]. intros slot Hslot. destruct (pn_ready slot) eqn:Er; [|done].
  intros _ Hs. by apply (Hall _ _ Hslot).
Qed.

(** The application of a decision. *)
Lemma apply_publication_frame frame acceptance detail c :
  co_fenced_boots (apply_publication frame acceptance detail c).1 = co_fenced_boots c.
Proof.
  unfold apply_publication. cbv zeta. set (c1 := match co_workers c !! _ with Some _ => _ | None => _ end).
  assert (H1 : co_fenced_boots c1 = co_fenced_boots c) by (unfold c1; by destruct (co_workers c !! _)).
  destruct (co_pending c1 !! _) as [slot|]; [|done]. destruct (pn_ready slot); [done|].
  destruct (enum_eqb _ _); cbn [fst count_accepted co_fenced_boots].
  - by destruct (modify_pending_frame (RequestKey (wf_request frame)) (resolve WireStatus.kOk (wf_payload frame)
      (pn_detail slot)) c1) as [_ ->].
  - by destruct (modify_pending_frame (RequestKey (wf_request frame)) (resolve acceptance (pn_payload slot) detail) c1)
      as [_ ->].
Qed.

(** What an application does to the slots, and whether it counts. *)
Lemma apply_publication_cases frame acceptance detail c :
  let out := apply_publication frame acceptance detail c in
  let key := RequestKey (wf_request frame) in
  match co_pending c !! key with
  | Some slot =>
      if pn_ready slot
      then co_pending out.1 = co_pending c ∧ out.2 = None ∧
           co_accepted_publications out.1 = co_accepted_publications c
      else if enum_eqb acceptance WireStatus.kOk
      then co_pending out.1 = <[key := resolve WireStatus.kOk (wf_payload frame) (pn_detail slot) slot]> (co_pending c) ∧
           out.2 = Some (pn_request_payload slot) ∧
           co_accepted_publications out.1 = wrap64 (co_accepted_publications c + 1)
      else co_pending out.1 = <[key := resolve acceptance (pn_payload slot) detail slot]> (co_pending c) ∧
           out.2 = None ∧ co_accepted_publications out.1 = co_accepted_publications c
  | None => co_pending out.1 = co_pending c ∧ out.2 = None ∧
            co_accepted_publications out.1 = co_accepted_publications c
  end.
Proof.
  cbv zeta. unfold apply_publication. cbv zeta.
  set (c1 := match co_workers c !! _ with Some _ => _ | None => _ end).
  assert (H1 : co_pending c1 = co_pending c ∧ co_accepted_publications c1 = co_accepted_publications c)
    by (unfold c1; by destruct (co_workers c !! _)).
  destruct H1 as [H1 H2]. rewrite H1. destruct (co_pending c !! _) as [slot|] eqn:Es; [|done].
  destruct (pn_ready slot); [done|]. unfold modify_pending. rewrite H1, Es.
  destruct (enum_eqb _ _); cbn; by rewrite ?H2.
Qed.

Lemma handshake_quiet_points i c : point_ok (after_hello i c).
Proof. unfold after_hello. by destruct (ss_worker_role _). Qed.
#[export] Hint Resolve handshake_quiet_points : quiet.
#[export] Hint Extern 0 (point_ok _) => exact I : quiet.

Lemma dispatch_frame request payload c :
  co_accepted_publications (dispatch request payload c).1 = co_accepted_publications c ∧
  co_fenced_boots (dispatch request payload c).1 = co_fenced_boots c.
Proof. unfold dispatch. cbv zeta. by destruct (chosen_worker c) as [[i s]|]. Qed.
Lemma dispatch_slots request payload c accepted :
  slots_ok accepted (co_pending c) → slots_ok accepted (co_pending (dispatch request payload c).1).
Proof.
  intros Hall. unfold dispatch. cbv zeta. destruct (chosen_worker c) as [[i s]|]; by apply slots_ok_insert.
Qed.

Lemma collect_frame request c :
  co_accepted_publications (collect request c).1 = co_accepted_publications c ∧
  co_fenced_boots (collect request c).1 = co_fenced_boots c.
Proof.
  unfold collect. cbv zeta. destruct (co_pending c !! _) as [slot|]; [|done]. by destruct (pn_ready slot).
Qed.
Lemma collect_slots request c accepted :
  slots_ok accepted (co_pending c) →
  slots_ok accepted (co_pending (collect request c).1) ∧
  reply_ok accepted (MkReply request (collect request c).2).
Proof.
  intros Hall. unfold collect. cbv zeta. destruct (co_pending c !! _) as [slot|] eqn:Es; [|done].
  destruct (pn_ready slot) eqn:Er; cbn; (split; [by apply slots_ok_delete|]); [|done].
  intros Hs. by apply (Hall _ _ Es).
Qed.

(** ** The invariant *)

Lemma session_step_inv c points accepted replies i s :
  DistInv (MkSystem c points accepted replies) →
  session_step c points accepted replies i s → DistInv s.
Proof.
  intros Hinv. pose proof (di_points _ Hinv i) as Hp. cbn [dy_points] in Hp.
  pose proof (di_slots _ Hinv) as Hslots. cbn [dy_co dy_accepted] in Hslots.
  destruct 1 as [frame hello Hi Hh Hd Hb|frame Hi Hh Hd|frame hello h Hi|frame hello h Hi|frame Hi Hr Ht
    |frame captured Hi|frame captured decided acceptance detail Hi Ha
    |frame captured decided acceptance detail payload Hi Ha|rp sp request result Hi Hq Hs plan out
    |rp sp Hi Hq|id Hi|os Hi|frame request epoch Hi Hr Ha|frame request epoch Hi|request epoch Hi
    |request epoch relayed Hi|Hi].
  - apply (DistInv_quiet c); auto with quiet.
  - apply (DistInv_quiet c); auto with quiet.
  - apply (DistInv_quiet c); auto with quiet. destruct (enum_eqb _ _); auto with quiet.
  - apply (DistInv_quiet c); auto with quiet.
  - apply (DistInv_quiet c); auto with quiet.
  - apply (DistInv_quiet c); auto with quiet. intros Hok. by apply ValidatePublication_ok.
  - pose proof (apply_publication_cases frame acceptance detail c) as Hcases. cbv zeta in Hcases.
    eapply DistInv_section; [exact Hinv| | |by apply points_ok_insert; [apply Hinv|]].
    + destruct (co_pending c !! _) as [slot|]; [|by destruct Hcases as (-> & _)].
      destruct (pn_ready slot); [by destruct Hcases as (-> & _)|].
      destruct (enum_eqb acceptance _) eqn:Ee; [destruct Hcases as (_ & ? & _); congruence|].
      destruct Hcases as (-> & _). apply slots_ok_refused; [done|]. intros ->. by rewrite (proj2 (enum_eqb_eq _ _)) in Ee.
    + destruct (co_pending c !! _) as [slot|]; [|by destruct Hcases as (_ & _ & ?)].
      destruct (pn_ready slot); [by destruct Hcases as (_ & _ & ?)|].
      destruct (enum_eqb acceptance _); destruct Hcases as (_ & ? & ?); [congruence|done].
  - pose proof (apply_publication_cases frame acceptance detail c) as Hcases. cbv zeta in Hcases.
    rewrite Ha in Hcases. destruct (co_pending c !! _) as [slot|] eqn:Es; [|by destruct Hcases as (_ & ? & _)].
    destruct (pn_ready slot); [by destruct Hcases as (_ & ? & _)|].
    destruct (enum_eqb acceptance _) eqn:Ee; [|by destruct Hcases as (_ & ? & _)].
    apply enum_eqb_eq in Ee as ->. destruct Hcases as (Hpend & _ & Hcount).
    rewrite Hi in Hp. specialize (Hp eq_refl).
    constructor; cbn [dy_co dy_points dy_accepted dy_replies].
    + apply points_ok_insert; [apply Hinv|done].
    + rewrite Hpend. apply slots_ok_insert; [by apply slots_ok_more|]. intros _ _.
      exists (MkAcceptance frame captured decided). split; [|done]. apply elem_of_app. right. by left.
    + apply Forall_app. split; [apply Hinv|by constructor].
    + eapply Forall_impl; [apply Hinv|]. intros r. apply reply_ok_more.
    + pose proof (di_count _ Hinv) as Hn. cbn [dy_co dy_accepted] in Hn.
      rewrite Hcount, Hn, length_app. unfold wrap64. rewrite Zplus_mod_idemp_l. f_equal. cbn [length]. lia.
  - apply (DistInv_quiet c); auto with quiet. by destruct out.2.
  - apply (DistInv_quiet c); auto with quiet.
  - apply (DistInv_quiet c); auto with quiet.
  - apply (DistInv_quiet c); [done| |done]. destruct (String.eqb _ _); auto with quiet.
  - apply (DistInv_quiet c); auto with quiet.
  - eapply DistInv_section; [exact Hinv|by apply dispatch_slots|by apply dispatch_frame|].
    by apply points_ok_insert; [apply Hinv|].
  - eapply DistInv_section; [exact Hinv| |done|by apply points_ok_insert; [apply Hinv|]].
    by apply slots_ok_refused.
  - destruct (collect_slots (rq_id request) c accepted Hslots) as [Hsl Hreply].
    constructor; cbn [dy_co dy_points dy_accepted dy_replies].
    + apply points_ok_insert; [apply Hinv|done].
    + done.
    + apply Hinv.
    + apply Forall_app. split; [apply Hinv|by constructor].
    + rewrite (proj1 (collect_frame _ _)). apply Hinv.
  - eapply DistInv_section; [exact Hinv|by apply session_end_slots|by apply session_end_frame|].
    by apply points_ok_insert; [apply Hinv|].
Qed.

Lemma owner_step_quiet c points accepted replies s :
  owner_step c points accepted replies s →
  ∃ c', s = MkSystem c' points accepted replies ∧ quiet c c'.
Proof. destruct 1; eexists; (split; [done|]); auto with quiet. Qed.

Lemma dist_step_inv s s' : dist_step s s' → DistInv s → DistInv s'.
Proof.
  intros Hstep Hinv. destruct s as [c points accepted replies].
  destruct Hstep as [i s' Hs|s' Hs].
  - by eapply session_step_inv.
  - destruct (owner_step_quiet _ _ _ _ _ Hs) as (c' & -> & [Hp Ha _]). cbn in *.
    eapply DistInv_section; [exact Hinv| |done|apply Hinv]. rewrite Hp. apply Hinv.
Qed.

(** ** Starting *)

Lemma retain_plan_quiet plan c : quiet c (retain_plan plan c).1.
Proof. unfold retain_plan. destruct (Retain plan _) as [runtime []]; by constructor. Qed.

Lemma quiet_trans c1 c2 c3 : quiet c1 c2 → quiet c2 c3 → quiet c1 c3.
Proof. intros [? ? ?] [? ? ?]. constructor; [congruence|congruence|set_solver]. Qed.

Lemma RecoverStore_quiet c : quiet c (RecoverStore c).
Proof.
  unfold RecoverStore. destruct (String.eqb _ _); [apply quiet_refl|].
  destruct (LoadPlanStore _ _ _) as [e|records]; [apply quiet_refl|].
  revert c. induction records as [|r records IH]; intros c0; [apply quiet_refl|].
  cbn [fold_left]. eapply quiet_trans; [|apply IH].
  pose proof (retain_plan_quiet (recovered_plan r) c0) as Hq.
  destruct (retain_plan (recovered_plan r) c0) as [c1 []]; [|done]. destruct Hq. by constructor.
Qed.

Lemma dist_start_inv limits store_path disk snapshot epoch :
  DistInv (dist_start limits store_path disk snapshot epoch).
Proof.
  unfold dist_start, start_coordinator. set (c := MkCoordinator _ _ _ _ _ _ _ _ _ _ _ _ _).
  destruct (RecoverStore_quiet c) as [Hp Ha _]. constructor; cbn [dy_co dy_points dy_accepted dy_replies].
  - intros i. unfold point_of. by rewrite lookup_empty.
  - rewrite Hp. intros k slot Hk. cbn in Hk. by rewrite lookup_empty in Hk.
  - done.
  - done.
  - by rewrite Ha.
Qed.

Lemma dist_reachable_inv s s' : rtc dist_step s s' → DistInv s → DistInv s'.
Proof. induction 1; eauto using dist_step_inv. Qed.

(** ** The states of a run *)

(** [c] was the coordinator at some moment of the run from [first] to [s]. *)
Definition past (first s : DistSystem) (c : Coordinator) : Prop :=
  ∃ earlier, rtc dist_step first earlier ∧ rtc dist_step earlier s ∧ dy_co earlier = c.

Definition point_seen (seen : Coordinator → Prop) (p : Point) : Prop :=
  match p with
  | PublicationRead _ captured => seen captured
  | PublicationDecided _ captured decided _ _ => seen captured ∧ seen decided
  | _ => True
  end.
Definition acceptance_seen (seen : Coordinator → Prop) (a : Acceptance) : Prop :=
  seen (ac_captured a) ∧ seen (ac_decided a).
Definition all_seen (seen : Coordinator → Prop) (s : DistSystem) : Prop :=
  (∀ i, point_seen seen (point_of (dy_points s) i)) ∧ Forall (acceptance_seen seen) (dy_accepted s).

Lemma all_seen_impl (seen seen' : Coordinator → Prop) s :
  (∀ c, seen c → seen' c) → all_seen seen s → all_seen seen' s.
Proof.
  intros Himp [Hp Ha]. split.
  - intros i. specialize (Hp i). destruct (point_of _ i); cbn in *; intuition.
  - eapply Forall_impl; [exact Ha|]. intros a [? ?]. split; auto.
Qed.

Lemma all_seen_insert seen c points accepted replies c' i p :
  all_seen seen (MkSystem c points accepted replies) → point_seen seen p →
  all_seen seen (MkSystem c' (<[i := p]> points) accepted replies).
Proof.
  intros [Hp Ha] Hpt. split; [|done]. intros j. cbn [dy_points]. rewrite point_of_insert.
  by destruct (decide (i = j)).
Qed.

Lemma session_step_seen seen c points accepted replies i s :
  seen c → all_seen seen (MkSystem c points accepted replies) →
  session_step c points accepted replies i s → all_seen seen s.
Proof.
  intros Hc Hall Hstep. pose proof (proj1 Hall i) as Hi. cbn [dy_points] in Hi.
  destruct Hstep; match goal with H : point_of _ _ = _ |- _ => rewrite H in Hi | _ => idtac end;
    try (apply (all_seen_insert seen c points accepted); [done|]; try done;
         unfold after_hello; by repeat case_match).
  split; [intros j; cbn [dy_points]; rewrite point_of_insert; destruct (decide (i = j)); [done|apply Hall]|].
  cbn [dy_accepted]. apply Forall_app. split; [apply Hall|]. by constructor.
Qed.

Lemma past_now first s : rtc dist_step first s → past first s (dy_co s).
Proof. intros Hr. exists s. split_and!; [done|apply rtc_refl|done]. Qed.

Lemma past_step first s s' c : past first s c → dist_step s s' → past first s' c.
Proof. intros (e & H1 & H2 & H3) Hs. exists e. split_and!; [done|by eapply rtc_r|done]. Qed.

Lemma dist_step_seen first s s' :
  rtc dist_step first s → dist_step s s' → all_seen (past first s) s → all_seen (past first s') s'.
Proof.
  intros Hrun Hstep Hall. apply (all_seen_impl _ (past first s')) in Hall; [|eauto using past_step].
  assert (Hnow : past first s' (dy_co s)) by (eapply past_step; [by apply past_now|done]).
  destruct s as [c points accepted replies]. destruct Hstep as [i s' Hs|s' Hs].
  - by eapply session_step_seen.
  - by destruct (owner_step_quiet _ _ _ _ _ Hs) as (c' & -> & _).
Qed.

Lemma run_seen first s :
  all_seen (λ _, False) first → rtc dist_step first s → all_seen (past first s) s.
Proof.
  intros Hfirst. revert s. apply (rtc_ind_r (λ s, all_seen (past first s) s)).
  - by eapply all_seen_impl; [|exact Hfirst].
  - intros s s' Hrun Hstep. by apply dist_step_seen.
Qed.

(** ** Fences *)

Lemma dist_step_fenced s s' :
  dist_step s s' → co_fenced_boots (dy_co s) ⊆ co_fenced_boots (dy_co s').
Proof.
  destruct s as [c points accepted replies]. destruct 1 as [i s' Hs|s' Hs]; cbn [dy_co] in *.
  - destruct Hs; cbn [dy_co]; try done; try (apply qt_fenced; solve [auto with quiet]).
    + by rewrite apply_publication_frame.
    + by rewrite apply_publication_frame.
    + destruct (String.eqb _ _); [done|]. apply quiet_SaveStore.
    + by rewrite (proj2 (dispatch_frame _ _ _)).
    + by rewrite (proj2 (collect_frame _ _)).
    + apply session_end_frame.
  - destruct (owner_step_quiet _ _ _ _ _ Hs) as (c' & -> & Hq). apply Hq.
Qed.

Lemma run_fenced s s' :
  rtc dist_step s s' → co_fenced_boots (dy_co s) ⊆ co_fenced_boots (dy_co s').
Proof. induction 1 as [|s s1 s' Hs _ IH]; [done|]. apply dist_step_fenced in Hs. set_solver. Qed.
