(* ===== verification/DistPeers.v ===== *)
(** dist.cpp: the worker and the client of the distributed runtime. [Worker::Run] is
    its registration and one turn of its loop per frame received; a call of the
    client is the frame it sends and the reading of the frame that answers. *)

From stdpp Require Import gmap strings.
From S2P Require Import Prelude Canonical Sha256 Status Ids Codec Limits Graph Path Request View Result Planner Parse PlanCodec Wire Payloads RequestCodec ResultCodec Store StoreFile Dist.

Open Scope string_scope.
Open Scope list_scope.
Open Scope Z_scope.

Definition EncodeCount (n : nat) : Z := wrap32 (Z.of_nat n).

(** ** Worker *)

Record Worker := MkWorker {
  wk_limits : ResourceLimits; wk_publisher : PublisherId; wk_boot : WorkerBootId;
  wk_runtime : Runtime; wk_fenced : bool; wk_registered : bool; wk_plans_served : Z;
  wk_results_rejected : Z
}.

(** An identity that is not configured comes from the entropy of the system. *)
Definition new_Worker (limits : ResourceLimits) (snapshot : option FabricSnapshot)
    (publisher : PublisherId) (boot : WorkerBootId) (fresh_publisher : PublisherId)
    (fresh_boot : WorkerBootId) : Worker :=
  MkWorker limits (if IsValid publisher then publisher else fresh_publisher)
    (if IsValid boot then boot else fresh_boot)
    (new_PlannerRuntime (MkPlannerConfig limits snapshot None)) false false 0 0.

Section worker_setters.
Context (w : Worker).
Definition set_worker_runtime (runtime : Runtime) : Worker :=
  MkWorker (wk_limits w) (wk_publisher w) (wk_boot w) runtime (wk_fenced w) (wk_registered w)
    (wk_plans_served w) (wk_results_rejected w).
Definition mark_fenced : Worker :=
  MkWorker (wk_limits w) (wk_publisher w) (wk_boot w) (wk_runtime w) true (wk_registered w)
    (wk_plans_served w) (wk_results_rejected w).
Definition mark_registered : Worker :=
  MkWorker (wk_limits w) (wk_publisher w) (wk_boot w) (wk_runtime w) (wk_fenced w) true
    (wk_plans_served w) (wk_results_rejected w).
Definition count_served : Worker :=
  MkWorker (wk_limits w) (wk_publisher w) (wk_boot w) (wk_runtime w) (wk_fenced w) (wk_registered w)
    (wrap64 (wk_plans_served w + 1)) (wk_results_rejected w).
Definition count_rejected : Worker :=
  MkWorker (wk_limits w) (wk_publisher w) (wk_boot w) (wk_runtime w) (wk_fenced w) (wk_registered w)
    (wk_plans_served w) (wrap64 (wk_results_rejected w + 1)).
End worker_setters.

Definition held_generations (s : option FabricSnapshot) : SnapshotGenerations :=
  match s with Some s => s_generations s | None => zero_generations end.
Definition held_id (s : option FabricSnapshot) : SnapshotId :=
  match s with Some s => SnapshotIdOf s | None => nil_id _ end.
Definition held_nodes (s : option FabricSnapshot) : Z :=
  match s with Some s => EncodeCount (length (s_nodes s)) | None => 0 end.
Definition held_edges (s : option FabricSnapshot) : Z :=
  match s with Some s => EncodeCount (length (s_edges s)) | None => 0 end.

(** The hello of a registration. *)
Definition worker_hello (w : Worker) : WireFrame :=
  let snapshot := CurrentSnapshot (wk_runtime w) in
  let epoch := g_epoch (held_generations snapshot) in
  let hello :=
    MkHello (wk_publisher w) (wk_boot w) epoch (held_id snapshot) (held_generations snapshot)
      (held_nodes snapshot) (held_edges snapshot) in
  MkFrame WireMessage.kHello 0 epoch 0 (wk_boot w) nil_request
    (written (wk_limits w) (EncodeHelloPayload hello)).

(** A payload that does not decode leaves the defaults. *)
Definition default_notice : FenceNoticePayload :=
  MkFence (nil_id _) WireStatus.kWorkerFenced DiagnosticCode.kWorkerBootFenced "".
Definition default_error : PlanErrorPayload :=
  MkPlanError (nil_id _) WireStatus.kInternal PlanStatus.kNoPath
    DiagnosticCode.kUnknownSourceEntity "".
Definition decoded_or {E A} (otherwise : A) (result : E + A) : A :=
  match result with inl _ => otherwise | inr x => x end.
Definition read_notice (frame : WireFrame) : FenceNoticePayload :=
  decoded_or default_notice (DecodeFenceNoticePayload (wf_payload frame)).
Definition read_error (frame : WireFrame) : PlanErrorPayload :=
  decoded_or default_error (DecodePlanErrorPayload (wf_payload frame)).

(** The answer to the hello: an error, or the epoch the worker serves under. *)
Definition worker_registration (response : WireFrame) (w : Worker) : Worker * (string + Z) :=
  match wf_type response with
  | WireMessage.kFenceNotice =>
      let notice := read_notice response in
      (mark_fenced w, inl ("worker registration was fenced: " +:+ EnumName (fn_status notice) +:+
                           " " +:+ fn_detail notice))
  | WireMessage.kPlanError =>
      let plan_error := read_error response in
      (w, inl ("worker registration was rejected: " +:+ EnumName (pe_status plan_error) +:+ " " +:+
               pe_detail plan_error))
  | WireMessage.kSnapshotResponse =>
      match DecodeSnapshotResponsePayload (wf_payload response) with
      | inl (_, detail) => (w, inl ("malformed registration response: " +:+ detail))
      | inr _ => (mark_registered w, inr (wf_coordinator_epoch response))
      end
  | type => (w, inl ("unexpected registration response: " +:+ EnumName type))
  end.

Definition worker_error (frame : WireFrame) (epoch : Z) (status : WireStatus.t)
    (plan_status : PlanStatus.t) (code : DiagnosticCode.t) (detail : string) (w : Worker) : WireFrame :=
  MkFrame WireMessage.kPlanError kWireFlagResponse epoch 0 (wk_boot w) (wf_request frame)
    (written (wk_limits w)
       (EncodePlanErrorPayload (MkPlanError (wf_request frame) status plan_status code detail))).

Inductive WorkerNext :=
  | Serving
  | Returned (error : option string).

(** A request is planned by the worker's own runtime; [send_error] is the outcome of
    sending the result. *)
Definition worker_plan (send_error : option string) (frame : WireFrame) (epoch : Z) (w : Worker) :
  Worker * list WireFrame * WorkerNext :=
  match DecodePlanningRequestPayload (wf_payload frame) (wk_limits w) with
  | inl (status, detail) =>
      (w, [worker_error frame epoch status PlanStatus.kMalformedRequest
             (DiagnosticForWireStatus status) detail w], Serving)
  | inr request =>
      let '(runtime, result) := Plan request (wk_runtime w) in
      let w := set_worker_runtime w runtime in
      let writer := EncodePlanningResultPayload result (new_writer (max_frame_bytes (wk_limits w))) in
      early (w, [worker_error frame epoch WireStatus.kTooLarge PlanStatus.kResourceLimit
                   DiagnosticCode.kProtocolMalformedFrame
                   "planning result exceeds the configured frame ceiling" w], Serving)
        when overflowed_ writer ;;
      match send_error with
      | Some text => (w, [], Returned (Some ("cannot publish a planning result: " +:+ text)))
      | None =>
          (count_served w,
           [MkFrame WireMessage.kPlanResult kWireFlagResponse epoch 0 (wk_boot w) (wf_request frame)
              (data_ writer)], Serving)
      end
  end.

(** One frame of the loop. *)
Definition worker_turn (send_error : option string) (frame : WireFrame) (epoch : Z) (w : Worker) :
  Worker * Z * list WireFrame * WorkerNext :=
  let epoch := if wf_coordinator_epoch frame >? epoch then wf_coordinator_epoch frame else epoch in
  match wf_type frame with
  | WireMessage.kPlanRequest =>
      let '(w, sent, next) := worker_plan send_error frame epoch w in (w, epoch, sent, next)
  | WireMessage.kSnapshotRequest =>
      let held := CurrentSnapshot (wk_runtime w) in
      let response :=
        MkSnapshotResponse (held_id held) (held_generations held) (held_nodes held) (held_edges held) in
      (w, epoch,
       [MkFrame WireMessage.kSnapshotResponse kWireFlagResponse epoch 0 (wk_boot w)
          (wf_request frame) (written (wk_limits w) (EncodeSnapshotResponsePayload response))],
       Serving)
  | WireMessage.kFenceNotice =>
      let notice := read_notice frame in
      (count_rejected (mark_fenced w), epoch, [],
       Returned (Some ("worker fenced by the coordinator: " +:+ EnumName (fn_status notice) +:+
                       " " +:+ fn_detail notice)))
  | WireMessage.kShutdownWorker => (w, epoch, [], Returned None)
  | _ =>
      (w, epoch,
       [worker_error frame epoch WireStatus.kUnsupported PlanStatus.kUnsupported
          DiagnosticCode.kUnsupportedRequest "unsupported message for a worker session" w],
       Serving)
  end.

(** The loop over the frames that arrive before the session ends with [ended]. *)
Fixpoint worker_serve (arriving : list (WireFrame * option string)) (ended : string) (epoch : Z)
    (w : Worker) : Worker * list WireFrame * option string :=
  match arriving with
  | [] => (w, [], Some ended)
  | (frame, send_error) :: arriving =>
      let '(w, epoch, sent, next) := worker_turn send_error frame epoch w in
      match next with
      | Returned error => (w, sent, error)
      | Serving =>
          let '(w, rest, error) := worker_serve arriving ended epoch w in (w, sent ++ rest, error)
      end
  end.

(** ** Client *)

Record Client := MkClient { cl_limits : ResourceLimits; cl_sequence : Z; cl_last_epoch : Z }.
Definition new_Client (limits : ResourceLimits) : Client := MkClient limits 0 0.

Definition count_call (c : Client) : Client :=
  MkClient (cl_limits c) (wrap64 (cl_sequence c + 1)) (cl_last_epoch c).
Definition see_epoch (frame : WireFrame) (c : Client) : Client :=
  if wf_coordinator_epoch frame >? cl_last_epoch c
  then MkClient (cl_limits c) (cl_sequence c) (wf_coordinator_epoch frame)
  else c.

Definition client_call (type : WireMessage.t) (request : PlanningRequestId) (payload : bytes)
    (c : Client) : Client * WireFrame :=
  let c := count_call c in
  (c, MkFrame type 0 (cl_last_epoch c) (cl_sequence c) nil_boot request payload).

Definition unexpected (response : WireFrame) : string :=
  "unexpected response: " +:+ EnumName (wf_type response).

(** [SnapshotInfo]. *)
Definition ask_snapshot (c : Client) : Client * WireFrame :=
  client_call WireMessage.kSnapshotRequest nil_request [] c.
Definition read_snapshot (response : WireFrame) (c : Client) :
  Client * (string + SnapshotId * SnapshotGenerations) :=
  early (c, inl (unexpected response))
    when negb (enum_eqb (wf_type response) WireMessage.kSnapshotResponse) ;;
  match DecodeSnapshotResponsePayload (wf_payload response) with
  | inl (_, detail) => (c, inl ("malformed snapshot response: " +:+ detail))
  | inr payload => (see_epoch response c, inr (sr_snapshot payload, sr_generations payload))
  end.

(** [Submit]; a failure is a status and a text. *)
Definition submit (request : PlanningRequest) (c : Client) :
  (PlanStatus.t * string) + Client * WireFrame :=
  let writer := EncodePlanningRequestPayload request (new_writer (max_frame_bytes (cl_limits c))) in
  early inl (PlanStatus.kResourceLimit, "planning request exceeds the configured frame ceiling")
    when overflowed_ writer ;;
  inr (client_call WireMessage.kPlanRequest (rq_id request) (data_ writer) c).

Definition read_result (response : WireFrame) (c : Client) :
  Client * ((PlanStatus.t * string) + PlanningResult) :=
  let c := see_epoch response c in
  (c,
   match wf_type response with
   | WireMessage.kPlanResult =>
       match DecodePlanningResultPayload (wf_payload response) (cl_limits c) with
       | inl (_, detail) =>
           inl (PlanStatus.kRevalidationRequired, "malformed planning result: " +:+ detail)
       | inr result => inr result
       end
   | WireMessage.kPlanError =>
       match DecodePlanErrorPayload (wf_payload response) with
       | inl (_, detail) =>
           inl (PlanStatus.kRevalidationRequired, "malformed error response: " +:+ detail)
       | inr payload =>
           inl (pe_plan_status payload, EnumName (pe_status payload) +:+ ": " +:+ pe_detail payload)
       end
   | WireMessage.kFenceNotice =>
       inl (PlanStatus.kEpochStale,
            "coordinator fenced this session: " +:+ fn_detail (read_notice response))
   | _ => inl (PlanStatus.kRevalidationRequired, unexpected response)
   end).

(** [QueryCurrentness]; what the writer could hold of the query is sent. *)
Definition ask_currentness (plan : PathPlan) (c : Client) : Client * WireFrame :=
  client_call WireMessage.kValidateCurrentness (pl_request plan)
    (written (cl_limits c)
       (EncodeCurrentnessQueryPayload (MkCurrentnessQuery (pl_id plan) (pl_evidence plan) (pl_request plan)))) c.
Definition read_currentness (response : WireFrame) (c : Client) : string + Currentness.t :=
  match wf_type response with
  | WireMessage.kPlanError =>
      let payload := read_error response in
      inl (EnumName (pe_status payload) +:+ ": " +:+ pe_detail payload)
  | WireMessage.kCurrentnessResult =>
      match DecodeCurrentnessResultPayload (wf_payload response) (cl_limits c) with
      | inl (_, detail) => inl ("malformed currentness result: " +:+ detail)
      | inr payload => inr (cw_currentness payload)
      end
  | _ => inl (unexpected response)
  end.
