(* ===== verification/DistFacts.v ===== *)
(** The distributed runtime as a whole: what is accepted under any interleaving, what a
    fence means, that the session handlers are runs of the transition system, what a
    restart recovers, and that a plan made through the coordinator is the worker's. *)

From stdpp Require Import gmap strings.
From S2P Require Import Prelude Canonical Sha256 Status Ids Codec Limits Graph Builder Path Request View ViewFacts Result Planner Parse PlanCodec Wire Payloads RequestCodec ResultCodec Store StoreFacts StoreFile Dist Delivery DistSystem DistPeers.

Open Scope string_scope.
Open Scope list_scope.
Open Scope Z_scope.

(** ** Acceptance *)

Section acceptance.
Context (limits : ResourceLimits) (store_path : string) (disk : Disk)
  (snapshot : option FabricSnapshot) (epoch : Z).
Notation first := (dist_start limits store_path disk snapshot epoch).

(** C4: whatever the interleaving of sessions and owner, completion order confers no
    authority: every publication that answered a request was, at a moment of the run,
    from a boot identity that was registered and not fenced, in the epoch of that
    moment, and the evidence it had registered with at another moment of the run was
    the current, valid snapshot; every successful reply to a client carries the
    payload of such a publication for the same request; and the accepted publications
    are counted exactly, modulo 2^64. *)
Theorem acceptance_safe sys :
  rtc dist_step first sys →
  (∀ a, a ∈ dy_accepted sys →
     let boot := wf_worker_boot (ac_frame a) in
     past first sys (ac_captured a) ∧ past first sys (ac_decided a) ∧
     admitted (ac_decided a) boot (wf_coordinator_epoch (ac_frame a))
       (publication_snapshot (BootKey boot) (ac_captured a))) ∧
  (∀ request payload detail,
     MkReply request (WireStatus.kOk, payload, detail) ∈ dy_replies sys →
     ∃ a, a ∈ dy_accepted sys ∧ RequestKey (wf_request (ac_frame a)) = RequestKey request ∧
          wf_payload (ac_frame a) = payload) ∧
  co_accepted_publications (dy_co sys) = wrap64 (Z.of_nat (length (dy_accepted sys))).
Proof.
  intros Hrun.
  pose proof (dist_reachable_inv _ _ Hrun (dist_start_inv _ _ _ _ _)) as Hinv.
  assert (Hseen : all_seen (past first sys) sys).
  { apply run_seen; [|done]. split; [|done]. intros i. cbn. unfold point_of. by rewrite lookup_empty. }
  split_and!; [| |apply Hinv].
  - intros a Ha. pose proof (proj1 (Forall_forall _ _) (di_accepted _ Hinv) a Ha) as Hok.
    destruct (proj1 (Forall_forall _ _) (proj2 Hseen) a Ha) as [Hc Hd]. by split_and!.
  - intros request payload detail Hr.
    by apply (proj1 (Forall_forall _ _) (di_replies _ Hinv) _ Hr).
Qed.
End acceptance.

(** ** Fences *)

(** C6: a fenced boot identity is refused for good: in every later state of every
    interleaving its publications are refused as fenced, whatever epoch and evidence
    they name, and so is every attempt to register it again. *)
Theorem fenced_for_good s s' boot :
  rtc dist_step s s' → BootKey boot ∈ co_fenced_boots (dy_co s) →
  (∀ epoch snapshot, ValidatePublication boot epoch snapshot (dy_co s') =
     (WireStatus.kWorkerFenced, "worker boot identity is fenced")) ∧
  (∀ hello h, hl_boot hello = boot →
     (handshake_acceptance hello h (dy_co s')).1 = WireStatus.kWorkerFenced).
Proof.
  intros Hrun%run_fenced Hin. apply Hrun in Hin. split.
  - intros epoch snapshot. unfold ValidatePublication. cbv zeta. by rewrite bool_decide_true by done.
  - intros hello h <-. unfold handshake_acceptance. by rewrite bool_decide_true by done.
Qed.

Lemma list_filter_elem {A} (f : A → bool) l x : x ∈ List.filter f l ↔ x ∈ l ∧ f x = true.
Proof. rewrite !list_elem_of_In. apply filter_In. Qed.

Lemma session_of_lookup c i s : co_sessions c !! i = Some s → session_of c i = s.
Proof. intros Hi. unfold session_of. by apply nth_lookup_Some. Qed.

(** The session of the worker is released. *)
Lemma session_end_fences c i s boot :
  co_sessions c !! i = Some s → ss_worker_role s = true → ss_boot_key s = BootKey boot →
  BootKey boot ≠ "" → BootKey boot ∈ co_fenced_boots (session_end i c) ∧
  co_workers (session_end i c) !! BootKey boot = None.
Proof.
  intros Hi Hrole Hkey Hne. unfold session_end, ReleaseSession. cbv zeta.
  rewrite (session_of_lookup c i s Hi). set (c1 := set_sessions c _).
  assert (Hs : session_of c1 i = MkSession true (ss_worker_role s) (ss_boot_key s) (ss_outstanding_request s)).
  { apply session_of_lookup. cbn. apply list_lookup_insert_eq. by eapply lookup_lt_Some. }
  rewrite Hs. cbn [ss_worker_role ss_boot_key ss_outstanding_request]. rewrite Hrole, Hkey.
  rewrite (proj2 (String.eqb_neq _ _) Hne). cbn [negb andb]. set (c2 := set_fenced_boots _ _).
  assert (H2 : BootKey boot ∈ co_fenced_boots c2 ∧ co_workers c2 !! BootKey boot = None).
  { cbn. split; [set_solver|apply lookup_delete_eq]. }
  destruct (String.eqb (ss_outstanding_request s) _); [exact H2|].
  unfold modify_pending. by destruct (co_pending c2 !! _).
Qed.

(** Losing the session of a worker, fencing it, and advancing the epoch fence boot
    identities: after [ReleaseSession] the boot of a worker session is fenced and no
    longer registered; after [FenceWorker] a registered boot is fenced, and nothing
    else about acceptance changed for the other boots; after the locked part of
    [AdvanceEpoch] no worker is registered, so no publication at all is accepted, and
    the boot of every worker session is fenced. *)
Theorem fences_exact c boot :
  (∀ i s, co_sessions c !! i = Some s → ss_worker_role s = true → ss_boot_key s = BootKey boot →
     BootKey boot ≠ "" →
     BootKey boot ∈ co_fenced_boots (session_end i c) ∧
     co_workers (session_end i c) !! BootKey boot = None) ∧
  (is_Some (co_workers c !! BootKey boot) →
     BootKey boot ∈ co_fenced_boots (FenceWorker boot c).1 ∧
     ∀ other epoch snapshot, BootKey other ≠ BootKey boot →
       ValidatePublication other epoch snapshot (FenceWorker boot c).1 =
       ValidatePublication other epoch snapshot c) ∧
  (∀ epoch, let c' := (advance_epoch_locked epoch c).1.1 in
     (∀ other value snapshot, (ValidatePublication other value snapshot c').1 ≠ WireStatus.kOk) ∧
     ∀ s, s ∈ co_sessions c → ss_worker_role s = true → ss_boot_key s ≠ "" →
       ss_boot_key s ∈ co_fenced_boots c').
Proof.
  split_and!.
  - intros i s. apply session_end_fences.
  - intros [r Hr]. unfold FenceWorker. rewrite Hr. cbv zeta. set (c2 := set_fenced_boots _ _).
    match goal with |- context [(match last ?l with _ => _ end).1] =>
      replace ((match last l with Some (i, s) => _ | None => _ end).1) with c2
        by (destruct (last l) as [[i s]|]; [by destruct (ss_finished s)|done]) end.
    split; [cbn; set_solver|]. intros other epoch snapshot Hne. unfold ValidatePublication. cbv zeta.
    cbn [co_fenced_boots co_workers co_epoch c2 set_fenced_boots set_workers].
    rewrite lookup_insert_ne by done.
    rewrite (bool_decide_ext (BootKey other ∈ {[BootKey boot]} ∪ co_fenced_boots c)
      (BootKey other ∈ co_fenced_boots c)) by set_solver. reflexivity.
  - intros epoch. cbv zeta. split.
    + intros other value snapshot [_ (r & Hr & _) _ _]%ValidatePublication_ok.
      cbn in Hr. by rewrite lookup_empty in Hr.
    + intros s Hs Hrole Hkey. cbn. apply elem_of_union_l, elem_of_list_to_set, list_elem_of_fmap.
      exists s. split; [done|]. apply list_filter_elem. split; [done|]. rewrite Hrole.
      by rewrite (proj2 (String.eqb_neq _ _) Hkey).
Qed.

(** The decision and its application are two critical sections: a worker that is fenced
    between them is still the one that answers. *)
Lemma decision_outlives_fence frame detail slot c :
  let boot := wf_worker_boot frame in
  let key := RequestKey (wf_request frame) in
  is_Some (co_workers c !! BootKey boot) → co_pending c !! key = Some slot → pn_ready slot = false →
  let fenced := (FenceWorker boot c).1 in
  BootKey boot ∈ co_fenced_boots fenced ∧
  co_pending (apply_publication frame WireStatus.kOk detail fenced).1 !! key =
    Some (resolve WireStatus.kOk (wf_payload frame) (pn_detail slot) slot).
Proof.
  cbv zeta. intros [r Hr] Hslot Hready.
  assert (Hq : co_pending (FenceWorker (wf_worker_boot frame) c).1 = co_pending c) by apply quiet_FenceWorker.
  pose proof (apply_publication_cases frame WireStatus.kOk detail (FenceWorker (wf_worker_boot frame) c).1) as H.
  cbv zeta in H. rewrite Hq, Hslot, Hready in H. destruct H as (H & _ & _). split.
  - unfold FenceWorker. rewrite Hr. cbv zeta.
    destruct (last _) as [[i s]|]; [destruct (ss_finished s)|]; cbn; set_solver.
  - rewrite H. apply lookup_insert_eq.
Qed.

(** ** The handlers are runs *)

Lemma session_rtc c points accepted replies i s s' :
  session_step c points accepted replies i s → rtc dist_step s s' →
  rtc dist_step (MkSystem c points accepted replies) s'.
Proof. intros Hs Hr. eapply rtc_l; [by apply (ds_session _ i)|done]. Qed.

Lemma point_of_insert_eq points i p : point_of (<[i := p]> points) i = p.
Proof. rewrite point_of_insert. by rewrite decide_True. Qed.

(** A run of thread [i] alone, from one point to another. *)
Definition runs (i : nat) (c c' : Coordinator) (p p' : Point) : Prop :=
  ∀ points accepted replies, point_of points i = p →
    ∃ points' accepted', rtc dist_step (MkSystem c points accepted replies) (MkSystem c' points' accepted' replies) ∧
      point_of points' i = p' ∧ ∀ j, j ≠ i → point_of points' j = point_of points j.

Lemma runs_refl i c p : runs i c c p p.
Proof. intros points accepted replies Hp. exists points, accepted. split; [apply rtc_refl|done]. Qed.

Lemma runs_step i c c1 c2 p p1 p2 :
  (∀ points accepted replies, point_of points i = p →
     ∃ accepted', session_step c points accepted replies i (MkSystem c1 (<[i := p1]> points) accepted' replies)) →
  runs i c1 c2 p1 p2 → runs i c c2 p p2.
Proof.
  intros Hstep Hrun points accepted replies Hp. destruct (Hstep points accepted replies Hp) as [accepted1 Hs].
  destruct (Hrun (<[i := p1]> points) accepted1 replies) as (points' & accepted' & Hr & Hp' & Hother);
    [apply point_of_insert_eq|].
  exists points', accepted'. split_and!; [by eapply session_rtc|done|].
  intros j Hj. rewrite Hother, point_of_insert by done. by rewrite decide_False.
Qed.
Ltac run_step := eapply runs_step; [intros points accepted replies Hp; eexists|].

Lemma hello_runs i frame c :
  (i < length (co_sessions c))%nat → is_hello frame = true →
  runs i c (HandleHandshake i frame c).1 Idle (after_hello i (HandleHandshake i frame c).1).
Proof.
  intros Hi Hh. unfold HandleHandshake. destruct (DecodeHelloPayload (wf_payload frame)) as [[status detail]|hello] eqn:Ed.
  { run_step; [apply (ss_hello_malformed _ _ _ _ _ frame); [done|done|congruence]|apply runs_refl]. }
  destruct (eqb (hl_boot hello) (wf_worker_boot frame)) eqn:Eb; cbn [negb].
  2:{ apply eqb_neq in Eb.
      run_step; [apply (ss_hello_malformed _ _ _ _ _ frame); [done|done|congruence]|apply runs_refl]. }
  apply eqb_eq in Eb. cbv zeta. run_step; [by apply (ss_hello _ _ _ _ _ frame hello)|].
  run_step; [by eapply ss_hello_decided|].
  destruct (handshake_acceptance hello (handshake_capture c) c) as [status detail]. cbn [fst].
  destruct (enum_eqb status WireStatus.kOk) eqn:Es.
  - apply enum_eqb_eq in Es as ->. cbn [fst].
    assert (Ha : after_hello i (handshake_register i hello (handshake_capture c) c) = Idle).
    { unfold after_hello. erewrite session_of_lookup; [|by apply list_lookup_insert_eq]. done. }
    rewrite Ha. run_step; [by eapply ss_registered|apply runs_refl].
  - assert (Hne : status ≠ WireStatus.kOk) by (intros ->; by rewrite (proj2 (enum_eqb_eq _ _)) in Es).
    destruct status; try done; apply runs_refl.
Qed.

Lemma retain_runs os i request_payload result_payload c :
  runs i c (RetainAccepted os request_payload result_payload (PublishSequence (co_runtime c)) c)
    (Retaining request_payload result_payload) Idle.
Proof.
  unfold RetainAccepted.
  destruct (DecodePlanningRequestPayload request_payload (co_limits c)) as [e|request] eqn:Eq;
    [run_step; [eapply ss_not_retained; [done|congruence]|apply runs_refl]|].
  destruct (DecodePlanningResultPayload result_payload (co_limits c)) as [e|result] eqn:Es;
    [run_step; [eapply ss_not_retained; [done|congruence]|apply runs_refl]|].
  cbv zeta. run_step; [by eapply ss_retained|]. unfold retain_plan. cbv zeta.
  destruct (Retain _ (co_runtime c)) as [runtime [|]]; cbn [fst snd].
  - run_step; [by eapply ss_listed|]. run_step; [by apply (ss_saved _ _ _ _ _ os)|apply runs_refl].
  - run_step; [by apply (ss_saved _ _ _ _ _ os)|apply runs_refl].
Qed.

Lemma publication_runs os i frame c :
  ss_worker_role (session_of c i) = true → wf_type frame = WireMessage.kPlanResult →
  runs i c (HandleWorkerPublication os i frame c).1 Idle Idle.
Proof.
  intros Hrole Htype. unfold HandleWorkerPublication. cbv zeta.
  run_step; [by apply (ss_publication _ _ _ _ _ frame)|]. run_step; [by eapply ss_decided|].
  unfold decide_publication. destruct (ValidatePublication _ _ _ _) as [acceptance detail]. cbn [fst snd].
  destruct (apply_publication frame acceptance detail c) as [c1 retain] eqn:Ea.
  assert (Hc : (apply_publication frame acceptance detail c).1 = c1) by (by rewrite Ea).
  assert (Hr : (apply_publication frame acceptance detail c).2 = retain) by (by rewrite Ea).
  cbn [fst]. clear Ea. subst c1. destruct retain as [request_payload|].
  - run_step; [by eapply ss_applied|]. apply retain_runs.
  - run_step; [by eapply ss_refused|apply runs_refl].
Qed.

(** Where a thread is after a turn of its loop. *)
Definition next_point (next : SessionNext) (c : Coordinator) (frame : WireFrame) (p : Point) : Prop :=
  match next with
  | Reading => p = Idle
  | Ending => p = Ended
  | Waiting request epoch =>
      p = Awaiting request epoch (bool_decide (is_Some (chosen_worker c)))
  end.

Lemma client_runs i frame c :
  ss_worker_role (session_of c i) = false →
  ∃ p, runs i c (client_frame i frame c).1.1 Idle p ∧ next_point (client_frame i frame c).2 c frame p.
Proof.
  intros Hrole. unfold client_frame. destruct (HandleClientFrame i frame c) as [sent|request epoch] eqn:Eh.
  - exists Idle. split; [apply runs_refl|done].
  - exists (Awaiting request epoch (bool_decide (is_Some (chosen_worker c)))).
    destruct (dispatch (rq_id request) (wf_payload frame) c) as [c1 sent] eqn:Ed. cbn [fst snd]. split; [|done].
    run_step; [by eapply ss_request|]. replace c1 with (dispatch (rq_id request) (wf_payload frame) c).1
      by (by rewrite Ed).
    run_step; [by eapply ss_dispatched|apply runs_refl].
Qed.

(** A worker's frames never wait. *)
Lemma worker_query_answered i frame c :
  wf_type frame = WireMessage.kValidateCurrentness → (client_frame i frame c).1.1 = c ∧ (client_frame i frame c).2 = Reading.
Proof.
  intros Ht. unfold client_frame, HandleClientFrame. rewrite Ht.
  by destruct (DecodeCurrentnessQueryPayload (wf_payload frame)) as [[status detail]|query].
Qed.

Lemma turn_runs os i frame c :
  (i < length (co_sessions c))%nat →
  ∃ p, runs i c (session_turn os i frame c).1.1 Idle p ∧
    next_point (session_turn os i frame c).2 c frame p.
Proof.
  intros Hlen. unfold session_turn. cbv zeta. fold (is_hello frame). destruct (is_hello frame) eqn:Eh.
  { pose proof (hello_runs i frame c Hlen Eh) as Hr. destruct (HandleHandshake i frame c) as [c1 sent]. cbn [fst snd] in *.
    eexists. split; [exact Hr|]. unfold after_hello. by destruct (ss_worker_role _). }
  destruct (ss_worker_role (session_of c i)) eqn:Er; [|by apply client_runs].
  assert (Hidle : runs i c c Idle Idle) by apply runs_refl.
  destruct (wf_type frame) eqn:Et; try by (exists Idle).
  - pose proof (publication_runs os i frame c Er Et) as Hr.
    destruct (HandleWorkerPublication os i frame c) as [c1 sent]. by exists Idle.
  - destruct (worker_query_answered i frame c Et) as [-> ->]. by exists Idle.
Qed.

(** C7: the session loop is what the transition system interleaves: one turn of the loop
    on a frame, run to its end without interruption, is a sequence of steps of the
    session's own thread that changes the coordinator exactly as the turn does, moves
    no other thread, and leaves this one reading, ended, or waiting for the request it
    has relayed. *)
Theorem turns_are_runs os i frame c points accepted replies :
  (i < length (co_sessions c))%nat → point_of points i = Idle →
  let turn := session_turn os i frame c in
  ∃ points' accepted',
    rtc dist_step (MkSystem c points accepted replies) (MkSystem turn.1.1 points' accepted' replies) ∧
    next_point turn.2 c frame (point_of points' i) ∧
    ∀ j, j ≠ i → point_of points' j = point_of points j.
Proof.
  intros Hlen Hpoint. cbv zeta. destruct (turn_runs os i frame c Hlen) as (p & Hrun & Hnext).
  destruct (Hrun points accepted replies Hpoint) as (points' & accepted' & Hr & <- & Hother). eauto.
Qed.

(** ** Restart *)

Lemma unindex_retained key l r : rn_retained (fold_left (unindex_subject key) l r) = rn_retained r.
Proof.
  apply (fold_left_invariant_eq rn_retained). intros r' k. unfold unindex_subject.
  by destruct (rn_subject_index r' !! _).
Qed.
Lemma index_retained key l r : rn_retained (for_each (index_subject key) l r).1 = rn_retained r.
Proof.
  revert r. induction l as [|k l IH]; intros r; [done|]. cbn [for_each]. unfold index_subject at 1.
  destruct (_ >=? _); [done|]. cbn [fst snd]. by rewrite IH.
Qed.
Lemma evict_retained order r : rn_retained (evict order r) ⊆ rn_retained r.
Proof.
  revert r. induction order as [|victim rest IH]; intros r; [done|]. cbn [evict].
  destruct (negb _); [done|]. cbv zeta. destruct (rn_retained _ !! _) as [entry|]; [|exact (IH _)].
  etransitivity; [apply IH|]. cbn [update_stats set_stats rn_retained set_retained]. unfold UnindexPlan.
  rewrite unindex_retained. apply delete_subseteq.
Qed.

(** What is retained was retained before, or is the plan with its own currentness. *)
Lemma Retain_retained plan r key entry :
  rn_retained (Retain plan r).1 !! key = Some entry →
  entry = MkRetained plan (if pl_currentness_proven plan then Currentness.kCurrent
                           else Currentness.kRevalidationRequired) ∨
  rn_retained r !! key = Some entry.
Proof.
  unfold Retain. destruct (negb _); [by right|]. cbv zeta.
  destruct (rn_retained r !! PlanKey (pl_id plan)) as [old|]; cbn [fst rn_retained set_retained set_retention_order].
  - intros [[_ <-]|[_ ?]]%lookup_insert_Some; [by left|by right].
  - unfold IndexPlan. rewrite index_retained. intros [[_ <-]|[_ Hk]]%lookup_insert_Some; [by left|right].
    eapply lookup_weaken; [exact Hk|apply evict_retained].
Qed.

Definition recovered_entry (records : list StoredPlanRecord) (entry : RetainedPlan) : Prop :=
  rt_currentness entry = Currentness.kRevalidationRequired ∧
  ∃ record, record ∈ records ∧ rt_plan entry = recovered_plan record.

Lemma recover_fold records l c :
  (∀ key entry, rn_retained (co_runtime c) !! key = Some entry → recovered_entry records entry) →
  (∀ record, record ∈ l → record ∈ records) →
  let c' := fold_left (λ c record,
    let '(c, retained) := retain_plan (recovered_plan record) c in
    if retained then count_recovered c else c) l c in
  (∀ key entry, rn_retained (co_runtime c') !! key = Some entry → recovered_entry records entry) ∧
  co_epoch c' = co_epoch c ∧ co_workers c' = co_workers c.
Proof.
  revert c. induction l as [|record l IH]; intros c Hall Hin; [done|]. cbn [fold_left].
  set (c1 := let '(_, _) := _ in _).
  assert (H1 : co_runtime c1 = (Retain (recovered_plan record) (co_runtime c)).1 ∧
               co_epoch c1 = co_epoch c ∧ co_workers c1 = co_workers c).
  { unfold c1, retain_plan. by destruct (Retain (recovered_plan record) (co_runtime c)) as [runtime []]. }
  destruct H1 as (H1 & <- & <-). apply IH; [|intros r Hr; apply Hin; by right].
  intros key entry. rewrite H1. intros [->|Hold]%Retain_retained; [|by apply (Hall key)].
  split; [done|]. exists record. split; [apply Hin; by left|done].
Qed.

(** C8: a restart recovers history, never authority: when a coordinator has been
    started, whatever its store holds, no worker is registered, the epoch is the
    configured one, and every plan it retains comes from a record its store loaded
    (there is none if the store does not load), is marked REVALIDATION_REQUIRED with
    every candidate, and claims no proof of currentness. *)
Theorem recovery_conservative limits store_path disk snapshot epoch key entry :
  let c := start_coordinator limits store_path disk snapshot epoch in
  co_workers c = ∅ ∧ co_epoch c = epoch ∧
  (rn_retained (co_runtime c) !! key = Some entry →
   rt_currentness entry = Currentness.kRevalidationRequired ∧
   pl_currentness_proven (rt_plan entry) = false ∧
   (∀ candidate, candidate ∈ pl_candidates (rt_plan entry) →
      cd_currentness candidate = Currentness.kRevalidationRequired) ∧
   ∃ records record, LoadPlanStore disk store_path limits = inr records ∧ record ∈ records ∧
     pl_id (rt_plan entry) = sp_plan record).
Proof.
  cbv zeta. unfold start_coordinator. set (c0 := MkCoordinator _ _ _ _ _ _ _ _ _ _ _ _ _).
  assert (H0 : ∀ P : Prop, rn_retained (co_runtime c0) !! key = Some entry → P)
    by (intros P; cbn; by rewrite lookup_empty).
  unfold RecoverStore. destruct (String.eqb _ _); [split_and!; [done|done|apply H0]|].
  change (LoadPlanStore (co_disk c0) (co_store_path c0) (co_limits c0)) with (LoadPlanStore disk store_path limits).
  destruct (LoadPlanStore disk store_path limits) as [e|records]; [split_and!; [done|done|apply H0]|].
  destruct (recover_fold records records c0) as (Hall & -> & ->);
    [intros k e He; cbn in He; by rewrite lookup_empty in He|done|].
  split_and!; [done|done|]. intros Hk. destruct (Hall key entry Hk) as (Hcur & record & Hin & Hplan).
  rewrite Hplan. split_and!; [done|done| |by exists records, record].
  intros candidate (x & -> & _)%list_elem_of_fmap. done.
Qed.

Definition demo_restarted : Coordinator :=
  start_coordinator default_limits "plans" demo_disk (Some Demo.snapshot) 3.
Definition demo_retained_key : string := default "" (head (map fst (map_to_list (rn_retained (co_runtime demo_restarted))))).

Lemma demo_retains :
  bool_decide (is_Some (rn_retained (co_runtime demo_restarted) !! demo_retained_key)) = true.
Proof. vm_compute. reflexivity. Qed.

Lemma recovery_conservative_witness :
  match rn_retained (co_runtime demo_restarted) !! demo_retained_key with
  | Some entry => rt_currentness entry = Currentness.kRevalidationRequired
  | None => False
  end.
Proof.
  destruct (rn_retained (co_runtime demo_restarted) !! demo_retained_key) as [entry|] eqn:E.
  - by apply (recovery_conservative default_limits "plans" demo_disk (Some Demo.snapshot) 3 demo_retained_key entry).
  - pose proof demo_retains as H. rewrite E in H. discriminate H.
Defined.

(** The identity of a plan that is retained again is listed again, and the image saved
    next holds the plan twice, which [DecodePlanStore] refuses: resubmitting a request
    with unchanged evidence loses the whole history at the next restart. *)
Definition demo_save : SaveOutcome := MkOutcome true [] true true true.
Definition demo_resubmitted : Coordinator :=
  let c := start_coordinator default_limits "plans" ∅ (Some Demo.snapshot) 3 in
  let plan := MakePathPlan demo_request (Plan demo_request (co_runtime c)).2 0 in
  (SaveStore demo_save (retain_plan plan (retain_plan plan c).1).1).1.
Lemma resubmission_loses_history :
  length (co_retained_ids demo_resubmitted) = 2%nat ∧
  rn_retained (co_runtime (start_coordinator default_limits "plans" (co_disk demo_resubmitted)
    (Some Demo.snapshot) 3)) = ∅.
Proof. split; vm_compute; reflexivity. Qed.
