(* ===== verification/Service.v ===== *)
(** dist.cpp, the ends of a coordinator's life and the identities of its peers: Start with
    its guards and the recovery, Stop, and the boot and publisher identities made from a
    label or from random bytes. What the socket layer answers is an argument. *)

From stdpp Require Import gmap strings.
From S2P Require Import Prelude Canonical Sha256 Status Ids Codec Limits Graph Builder Request View ViewFacts Result Planner StoreFile Net Dist DistFacts.

Open Scope string_scope.
Open Scope list_scope.
Open Scope Z_scope.

(** ** Identities *)

(** Eight draws of the random device; all zero is avoided. *)
Definition EntropyBytes (draws : list Z) : bytes :=
  let bytes := map (λ d, Z.land d 255) (take 8 draws) in
  if existsb (λ value, negb (value =? 0)) bytes then bytes else <[0%nat := 1]> bytes.
Definition GenerateWorkerBootId (draws : list Z) : WorkerBootId := FromBytes (EntropyBytes draws).
Definition GeneratePublisherId (draws : list Z) : PublisherId := FromBytes (EntropyBytes draws).
Definition MakeWorkerBootIdFromLabel (label : string) : WorkerBootId :=
  FromDigest WorkerBootIdTag (Hash (text_bytes label)).
Definition MakePublisherIdFromLabel (label : string) : PublisherId :=
  FromDigest PublisherIdTag (Hash (text_bytes label)).

(** A generated identity is a well-formed one and never nil, whatever the device draws. *)
Lemma generated_identity_valid draws :
  length draws = 8%nat →
  id_wf (GenerateWorkerBootId draws) ∧ IsValid (GenerateWorkerBootId draws) = true.
Proof.
  intros Hl. unfold GenerateWorkerBootId, EntropyBytes.
  set (bs := map (λ d, Z.land d 255) (take 8 draws)).
  assert (length bs = 8%nat) as Hbs by (subst bs; rewrite length_map, length_take, Hl; reflexivity).
  assert (Forall is_byte bs) as Hall.
  { subst bs. apply Forall_map, Forall_true. intros d. unfold is_byte. cbn.
    change 255 with (Z.ones 8). rewrite Z.land_ones by lia. by apply Z.mod_pos_bound. }
  destruct (existsb _ bs) eqn:E.
  - split; [by split|exact E].
  - split; [split; cbn [id_bytes]|].
    + by rewrite length_insert.
    + apply Forall_insert; [exact Hall|unfold is_byte; lia].
    + unfold IsValid. cbn [id_bytes]. destruct bs as [|b bs]; [discriminate Hbs|]. reflexivity.
Qed.

(** ** Starting and stopping *)

(** A coordinator with its listener: [None] when it is not running. *)
Record Service := MkService {
  sv_coordinator : Coordinator; sv_running : bool; sv_bind_address : string; sv_bound_port : Z
}.

(** [ensure]: the error of [SocketRuntimeEnsure], if any; [listener]: the error of
    [CreateListener], or the port it is bound to, 0 when that cannot be determined. *)
Definition Start (ensure : option string) (listener : string + Z) (s : Service) :
  Service * option string :=
  let c := sv_coordinator s in
  early (s, Some "coordinator is already running") when sv_running s ;;
  onerror error := ensure give (s, Some error) ;;
  onerror code := ValidateLimits (co_limits c)
    give (s, Some ("invalid resource limits: " +:+ EnumName code)) ;;
  early (s, Some "invalid bind address") when negb (ValidateHostString (sv_bind_address s)) ;;
  match listener with
  | inl error => (s, Some error)
  | inr bound =>
      early (s, Some "cannot determine the bound listener port") when (bound =? 0) ;;
      (MkService (RecoverStore c) true (sv_bind_address s) bound, None)
  end.

Definition Stop (s : Service) : Service :=
  early s when negb (sv_running s) ;;
  MkService (stop_coordinator (sv_coordinator s)) false (sv_bind_address s) (sv_bound_port s).

Definition Endpoint (s : Service) : string := FormatEndpoint (sv_bind_address s) (sv_bound_port s).

(** How a worker and a client reach the coordinator: the first error, if any. [ensure] is
    that of the socket layer, [connect] that of [ConnectTo] for the host and the port. *)
Definition reach_coordinator (endpoint : string) (ensure : option string)
  (connect : string → Z → option string) : option string :=
  match ParseEndpoint endpoint with
  | None => Some ("invalid coordinator endpoint: " +:+ endpoint)
  | Some (host, port) =>
      onerror error := ensure give Some error ;;
      connect host port
  end.

(** [DistributedPlannerClient::Connect]: whether the client is connected, and the error. *)
Definition Connect (connected : bool) (endpoint : string) (ensure : option string)
  (connect : string → Z → option string) : bool * option string :=
  early (true, None) when connected ;;
  match reach_coordinator endpoint ensure connect with
  | Some error => (false, Some error)
  | None => (true, None)
  end.

(** The identities a worker starts with: generated where none is configured. *)
Definition worker_identities (boot : WorkerBootId) (publisher : PublisherId) (draws : list Z * list Z) :
  WorkerBootId * PublisherId :=
  (if IsValid boot then boot else GenerateWorkerBootId draws.1,
   if IsValid publisher then publisher else GeneratePublisherId draws.2).

(** A refused start leaves everything as it was; one that is accepted recovers the store,
    and its endpoint is a text that parses back to the address and the port. *)
Theorem start_exact ensure listener s :
  let '(s', error) := Start ensure listener s in
  match error with
  | Some _ => s' = s
  | None =>
      sv_running s = false ∧ ValidateLimits (co_limits (sv_coordinator s)) = None ∧
      sv_running s' = true ∧ sv_coordinator s' = RecoverStore (sv_coordinator s) ∧
      ValidateHostString (sv_bind_address s') = true ∧ listener = inr (sv_bound_port s')
  end.
Proof.
  unfold Start. destruct (sv_running s) eqn:Er; [done|].
  destruct ensure; [done|]. destruct (ValidateLimits _) eqn:El; [done|].
  destruct (ValidateHostString (sv_bind_address s)) eqn:Eh; [|done]. cbn [negb].
  destruct listener as [|bound]; [done|]. destruct (bound =? 0); [done|].
  cbn. by rewrite Eh.
Qed.

(** Stopping keeps the list of retained plans; starting the same coordinator again loads
    the store on top of it, so every plan is listed twice, and the image saved next is
    refused as holding duplicates. *)
Definition demo_service : Service :=
  let c := start_coordinator default_limits "plans" ∅ (Some Demo.snapshot) 3 in
  let plan := MakePathPlan demo_request (Plan demo_request (co_runtime c)).2 0 in
  MkService (SaveStore demo_save (retain_plan plan c).1).1 true "127.0.0.1" 4000.
Definition demo_started_again : Coordinator :=
  (SaveStore demo_save (sv_coordinator (Start None (inr 4000) (Stop demo_service)).1)).1.
Lemma restart_loses_history :
  length (co_retained_ids (sv_coordinator demo_service)) = 1%nat ∧
  length (co_retained_ids demo_started_again) = 2%nat ∧
  rn_retained (co_runtime (start_coordinator default_limits "plans" (co_disk demo_started_again)
    (Some Demo.snapshot) 3)) = ∅.
Proof. split; [|split]; vm_compute; reflexivity. Qed.
