(* ===== verification/Exchange.v ===== *)
(** A plan made through the coordinator. The functions of the client, the coordinator and
    the worker are composed over the wire, frame by frame, and the client is shown to
    read the result that the worker's own runtime computes. *)

From stdpp Require Import gmap strings.
From S2P Require Import Prelude Canonical Sha256 Status Ids Codec Limits Graph Builder Path Request View ViewFacts Result Planner Parse PlanCodec Wire Payloads RequestCodec ResultCodec Store StoreFacts StoreFile Dist Delivery DistSystem DistPeers DistFacts.

Open Scope string_scope.
Open Scope list_scope.
Open Scope Z_scope.

(** The encoders are not to be unfolded by conversion. *)
#[local] Opaque EncodePlanningRequestPayload EncodePlanningResultPayload EncodeFrame.

(** A frame sent on one side and read off the stream on the other. *)
Definition delivered (limits : ResourceLimits) (f : WireFrame) : option WireFrame :=
  match ReadFrame (EncodeFrame f) (max_frame_bytes limits) with
  | inr (g, []) => Some g
  | _ => None
  end.

(** The request, its relay, the publication and the reply, with nothing in between. *)
Definition exchange (os : SaveOutcome) (limits : ResourceLimits) (i_client i_worker : nat)
    (request : PlanningRequest) (cl : Client) (c : Coordinator) (w : Worker) (epoch : Z) :
  option (Coordinator * Worker * Client * ((PlanStatus.t * string) + PlanningResult)) :=
  match submit request cl with
  | inl _ => None
  | inr (cl, asked) =>
      asked ← delivered limits asked;
      match session_turn os i_client asked c with
      | (c, [(i, relayed)], Waiting request reply_epoch) =>
          early None when negb (i =? i_worker)%nat ;;
          relayed ← delivered limits relayed;
          match worker_turn None relayed epoch w with
          | (w, _, [published], Serving) =>
              published ← delivered limits published;
              match session_turn os i_worker published c with
              | (c, [], Reading) =>
                  let '(c, outcome) := collect (rq_id request) c in
                  answer ← delivered limits (reply i_client (wf_request asked) reply_epoch outcome c).2;
                  let '(cl, out) := read_result answer cl in
                  Some (c, w, cl, out)
              | _ => None
              end
          | _ => None
          end
      | _ => None
      end
  end.

(** The three sides are configured alike, the request is valid, a worker that holds the
    current evidence is registered and free, and its result can travel. *)
Record ready (limits : ResourceLimits) (i_client i_worker : nat) (request : PlanningRequest)
    (cl : Client) (c : Coordinator) (w : Worker) (epoch : Z) : Prop := {
  rd_fit : limits_fit limits;
  rd_ceiling : 0 <= max_frame_bytes limits <= u32_max;
  rd_client_limits : cl_limits cl = limits;
  rd_limits : co_limits c = limits;
  rd_worker_limits : wk_limits w = limits;
  rd_last_epoch : u64_fits (cl_last_epoch cl);
  rd_epochs : u64_fits (co_epoch c);
  rd_sequence : u64_fits (co_next_sequence c);
  rd_typed : request_typed request;
  rd_valid : request_ok request limits;
  rd_request_size : overflowed_ (request_payload_of limits request) = false;
  rd_client : ss_worker_role (session_of c i_client) = false;
  rd_chosen : ∃ s, chosen_worker c = Some (i_worker, s);
  rd_boot : id_wf (wk_boot w);
  rd_admitted : admitted c (wk_boot w) (co_epoch c) (publication_snapshot (BootKey (wk_boot w)) c);
  rd_epoch : epoch <= co_epoch c;
  rd_result : result_ok limits (wire_image (Plan request (wk_runtime w)).2);
  rd_result_size : overflowed_ (result_payload_of limits (Plan request (wk_runtime w)).2) = false
}.

Lemma delivered_frame limits f :
  max_frame_bytes limits <= u32_max → frame_ok f → payload_fits limits (wf_payload f) →
  delivered limits f = Some f.
Proof.
  intros Hmax Hok [_ Hlen]. unfold delivered.
  rewrite <- (app_nil_r (EncodeFrame f)).
  assert (Hb : Forall is_byte (EncodeFrame f ++ []))
    by (rewrite app_nil_r; by apply EncodeFrame_range).
  rewrite (proj2 (ReadFrame_spec (EncodeFrame f ++ []) (max_frame_bytes limits) f [] Hb Hmax)
    (conj Hok (conj Hlen eq_refl))). reflexivity.
Qed.

Lemma frame_ok_payload limits type flags epoch sequence boot request payload :
  max_frame_bytes limits <= u32_max → flags ∈ [0; kWireFlagResponse; kWireFlagFenced] →
  u64_fits epoch → u64_fits sequence → id_wf boot → id_wf request → payload_fits limits payload →
  frame_ok (MkFrame type flags epoch sequence boot request payload).
Proof.
  intros Hmax Hflags He Hs Hb Hr [Hp Hl]. rewrite !elem_of_cons in Hflags.
  constructor; cbn [wf_flags wf_coordinator_epoch wf_sequence wf_worker_boot wf_request wf_payload]; try done.
  - unfold u16_fits. destruct Hflags as [->|[->|[->|[]%not_elem_of_nil]]]; vm_compute; split; congruence.
  - by destruct Hflags as [->|[->|[->|[]%not_elem_of_nil]]].
  - lia.
Qed.

Lemma RetainAccepted_rest os request_payload result_payload sequence c :
  let c' := RetainAccepted os request_payload result_payload sequence c in
  co_pending c' = co_pending c ∧ co_sessions c' = co_sessions c ∧
  co_accepted_publications c' = co_accepted_publications c.
Proof.
  cbv zeta. unfold RetainAccepted.
  destruct (DecodePlanningRequestPayload _ _) as [?|request]; [done|].
  destruct (DecodePlanningResultPayload _ _) as [?|result]; [done|]. cbv zeta.
  set (c1 := (retain_plan _ c).1).
  assert (H1 : co_pending c1 = co_pending c ∧ co_sessions c1 = co_sessions c ∧
               co_accepted_publications c1 = co_accepted_publications c)
    by (unfold c1, retain_plan; by destruct (Retain _ _) as [runtime []]).
  destruct (String.eqb _ _); [done|]. destruct H1 as (<- & <- & <-). unfold SaveStore.
  destruct (String.eqb _ _); [done|]. cbv zeta. by destruct (SavePlanStore _ _ _ _ _) as [result' disks].
Qed.

Lemma apply_publication_sessions frame acceptance detail c :
  co_sessions (apply_publication frame acceptance detail c).1 = co_sessions c.
Proof.
  unfold apply_publication, modify_pending. cbv zeta. set (c1 := match co_workers c !! _ with Some _ => _ | None => _ end).
  assert (H1 : co_sessions c1 = co_sessions c) by (unfold c1; by destruct (co_workers c !! _)).
  destruct (co_pending c1 !! _) as [slot|]; [|done]. destruct (pn_ready slot); [done|].
  by destruct (enum_eqb _ _).
Qed.

Section exchange.
Context (os : SaveOutcome) (limits : ResourceLimits) (i_client i_worker : nat) (request : PlanningRequest)
  (cl : Client) (c : Coordinator) (w : Worker) (epoch : Z)
  (Hready : ready limits i_client i_worker request cl c w epoch).

Notation key := (RequestKey (rq_id request)).
Notation plan := (Plan request (wk_runtime w)).
Notation asked_payload := (data_ (request_payload_of limits request)).
Notation answer_payload := (data_ (result_payload_of limits plan.2)).

Definition asked : WireFrame :=
  MkFrame WireMessage.kPlanRequest 0 (cl_last_epoch cl) (wrap64 (cl_sequence cl + 1)) nil_boot
    (rq_id request) asked_payload.
Definition relayed : WireFrame :=
  MkFrame WireMessage.kPlanRequest 0 (co_epoch c) (co_next_sequence c) nil_boot (rq_id request) asked_payload.
Definition published : WireFrame :=
  MkFrame WireMessage.kPlanResult kWireFlagResponse (co_epoch c) 0 (wk_boot w) (rq_id request) answer_payload.
Definition answered : WireFrame :=
  MkFrame WireMessage.kPlanResult kWireFlagResponse (co_epoch c) 0 nil_boot (rq_id request) answer_payload.
Definition dispatched : Coordinator := (dispatch (rq_id request) asked_payload c).1.
Definition concluded : Coordinator := (session_turn os i_worker published dispatched).1.1.
Definition served : Worker := count_served (set_worker_runtime w plan.1).

Lemma ready_request :
  payload_fits limits asked_payload ∧ DecodePlanningRequestPayload asked_payload limits = inr request.
Proof using Hready. apply request_delivered; try apply Hready. Qed.
Lemma ready_result :
  payload_fits limits answer_payload ∧ DecodePlanningResultPayload answer_payload limits = inr (wire_image plan.2).
Proof using Hready. apply result_delivered; try apply Hready. Qed.

Lemma exchange_frames :
  delivered limits asked = Some asked ∧ delivered limits relayed = Some relayed ∧
  delivered limits published = Some published ∧ delivered limits answered = Some answered.
Proof using Hready.
  pose proof (proj1 ready_request) as Hq. pose proof (proj1 ready_result) as Hs.
  pose proof (proj2 (rd_ceiling _ _ _ _ _ _ _ _ Hready)) as Hmax.
  pose proof (qt_id _ (rd_typed _ _ _ _ _ _ _ _ Hready)) as Hid.
  assert (Hseq : u64_fits (wrap64 (cl_sequence cl + 1))) by apply wrap64_range.
  assert (H0 : u64_fits 0) by (vm_compute; split; congruence).
  assert (Hnil : id_wf nil_boot) by apply nil_id_wf.
  pose proof (rd_last_epoch _ _ _ _ _ _ _ _ Hready). pose proof (rd_epochs _ _ _ _ _ _ _ _ Hready).
  pose proof (rd_sequence _ _ _ _ _ _ _ _ Hready). pose proof (rd_boot _ _ _ _ _ _ _ _ Hready).
  assert (Hf0 : 0 ∈ [0; kWireFlagResponse; kWireFlagFenced]) by by left.
  assert (Hf1 : kWireFlagResponse ∈ [0; kWireFlagResponse; kWireFlagFenced]) by (right; by left).
  split_and!; apply delivered_frame; try done; apply (frame_ok_payload limits); done.
Qed.

Lemma exchange_submit : submit request cl = inr (count_call cl, asked).
Proof using Hready.
  unfold submit. cbv zeta. rewrite (rd_client_limits _ _ _ _ _ _ _ _ Hready).
  change (EncodePlanningRequestPayload request (new_writer (max_frame_bytes limits)))
    with (request_payload_of limits request). rewrite (rd_request_size _ _ _ _ _ _ _ _ Hready). reflexivity.
Qed.

Lemma exchange_dispatch :
  session_turn os i_client asked c = (dispatched, [(i_worker, relayed)], Waiting request (co_epoch c)).
Proof using Hready.
  unfold session_turn. cbv zeta. change (wf_type asked) with WireMessage.kPlanRequest.
  change (enum_eqb WireMessage.kPlanRequest WireMessage.kHello ||
    enum_eqb WireMessage.kPlanRequest WireMessage.kRegisterWorker) with false. cbv iota.
  rewrite (rd_client _ _ _ _ _ _ _ _ Hready). unfold client_frame, HandleClientFrame. cbv zeta.
  change (wf_type asked) with WireMessage.kPlanRequest. change (wf_payload asked) with asked_payload.
  change (wf_request asked) with (rq_id request). cbv iota.
  rewrite (rd_limits _ _ _ _ _ _ _ _ Hready), (proj2 ready_request), eqb_refl. cbn [negb].
  destruct (rd_chosen _ _ _ _ _ _ _ _ Hready) as [s Hs]. unfold dispatched, dispatch. cbv zeta.
  rewrite Hs. reflexivity.
Qed.

Lemma exchange_worker : worker_turn None relayed epoch w = (served, co_epoch c, [published], Serving).
Proof using Hready.
  unfold worker_turn. cbv zeta. change (wf_type relayed) with WireMessage.kPlanRequest. cbv iota.
  change (wf_coordinator_epoch relayed) with (co_epoch c).
  replace (if co_epoch c >? epoch then co_epoch c else epoch) with (co_epoch c).
  2:{ pose proof (rd_epoch _ _ _ _ _ _ _ _ Hready). destruct (Z.gtb_spec (co_epoch c) epoch); lia. }
  unfold worker_plan. change (wf_payload relayed) with asked_payload.
  rewrite (rd_worker_limits _ _ _ _ _ _ _ _ Hready), (proj2 ready_request). cbv zeta.
  destruct plan as [runtime result] eqn:Ep. pose proof (rd_result_size _ _ _ _ _ _ _ _ Hready) as Hsize.
  rewrite Ep in Hsize. cbn [snd] in Hsize.
  change (wk_limits (set_worker_runtime w runtime)) with (wk_limits w).
  rewrite (rd_worker_limits _ _ _ _ _ _ _ _ Hready). change (EncodePlanningResultPayload result (new_writer (max_frame_bytes limits)))
    with (result_payload_of limits result). rewrite Hsize.
  unfold served, published. rewrite Ep. reflexivity.
Qed.

(** The worker's session, and the coordinator once the request is dispatched to it. *)
Lemma exchange_dispatched :
  ∃ s, co_sessions c !! i_worker = Some s ∧ ss_worker_role s = true ∧
    dispatched = next_sequence
      (set_sessions
         (set_pending c (<[key := MkPending false WireStatus.kInternal [] asked_payload "" (ss_boot_key s)]> (co_pending c)))
         (<[i_worker := set_outstanding key s]> (co_sessions c))).
Proof using Hready.
  destruct (rd_chosen _ _ _ _ _ _ _ _ Hready) as [s Hs]. exists s.
  pose proof Hs as Hs'. unfold chosen_worker in Hs'. apply list_find_Some in Hs' as (Hi & Hav & _).
  unfold available in Hav. apply andb_prop in Hav as [[[Hrole _]%andb_prop _]%andb_prop _].
  split_and!; [done|done|]. unfold dispatched, dispatch. cbv zeta. rewrite Hs. reflexivity.
Qed.

Lemma exchange_concluded :
  session_turn os i_worker published dispatched = (concluded, [], Reading) ∧
  co_pending concluded !! key =
    Some (MkPending true WireStatus.kOk answer_payload asked_payload "" (pn_worker_key
      (default (MkPending false WireStatus.kInternal [] [] "" "") (co_pending dispatched !! key)))) ∧
  delete key (co_pending concluded) = delete key (co_pending c) ∧
  co_sessions concluded = co_sessions dispatched ∧
  co_accepted_publications concluded = wrap64 (co_accepted_publications c + 1).
Proof using Hready.
  destruct exchange_dispatched as (s & Hi & Hrole & Hd).
  assert (Hsession : ss_worker_role (session_of dispatched i_worker) = true).
  { rewrite Hd. unfold session_of. cbn [co_sessions next_sequence set_sessions].
    rewrite (nth_lookup_Some _ i_worker new_session (set_outstanding key s)); [exact Hrole|].
    apply list_lookup_insert_eq. by eapply lookup_lt_Some. }
  assert (Hslot : co_pending dispatched !! key =
    Some (MkPending false WireStatus.kInternal [] asked_payload "" (ss_boot_key s)))
    by (rewrite Hd; apply lookup_insert_eq).
  assert (Hadm : admitted dispatched (wk_boot w) (co_epoch c)
    (publication_snapshot (BootKey (wk_boot w)) dispatched)).
  { destruct (rd_admitted _ _ _ _ _ _ _ _ Hready). rewrite Hd. by constructor. }
  assert (Hrest : co_accepted_publications dispatched = co_accepted_publications c ∧
                  delete key (co_pending dispatched) = delete key (co_pending c))
    by (rewrite Hd; split; [done|apply delete_insert_eq]).
  clear Hd. unfold concluded.
  assert (Hturn : session_turn os i_worker published dispatched =
    (let '(c, sent) := HandleWorkerPublication os i_worker published dispatched in (c, sent, Reading))).
  { unfold session_turn. cbv zeta. change (wf_type published) with WireMessage.kPlanResult.
    change (enum_eqb WireMessage.kPlanResult WireMessage.kHello ||
      enum_eqb WireMessage.kPlanResult WireMessage.kRegisterWorker) with false. cbv iota.
    by rewrite Hsession. }
  rewrite Hturn. unfold HandleWorkerPublication. cbv zeta.
  change (wf_worker_boot published) with (wk_boot w). change (wf_coordinator_epoch published) with (co_epoch c).
  apply ValidatePublication_ok in Hadm. destruct (ValidatePublication _ _ _ dispatched) as [acceptance detail].
  cbn [fst] in Hadm. subst acceptance.
  pose proof (apply_publication_cases published WireStatus.kOk detail dispatched) as Hcases. cbv zeta in Hcases.
  change (wf_request published) with (rq_id request) in Hcases. rewrite Hslot in Hcases. cbn [pn_ready] in Hcases.
  change (enum_eqb WireStatus.kOk WireStatus.kOk) with true in Hcases. cbv iota in Hcases.
  destruct Hcases as (Hp & Hr & Hc).
  assert (Hsessions : co_sessions (apply_publication published WireStatus.kOk detail dispatched).1 =
    co_sessions dispatched) by apply apply_publication_sessions.
  destruct (apply_publication published WireStatus.kOk detail dispatched) as [c1 retain]. cbn [fst snd] in *. subst retain.
  destruct (RetainAccepted_rest os asked_payload answer_payload (PublishSequence (co_runtime c1)) c1) as (Rp & Rs & Ra).
  change (enum_eqb WireStatus.kOk WireStatus.kOk) with true. cbv iota zeta.
  change (pn_request_payload (MkPending false WireStatus.kInternal [] asked_payload "" (ss_boot_key s)))
    with asked_payload.
  change (wf_payload published) with answer_payload. cbn [fst snd].
  destruct Hrest as [Hacc Hdel]. rewrite Rp, Rs, Ra, Hp, Hc, Hacc, Hslot, <- Hdel. split_and!; try done.
  - apply lookup_insert_eq.
  - apply delete_insert_eq.
Qed.

(** C5: planning through the coordinator is planning at the worker, as far as the wire
    carries the answer. When the three sides have the same limits, the request is valid,
    a registered worker on the current evidence is free, the frames are not too large and
    the worker's result can cross the wire ([result_ok]: in particular it has no nil
    identity, so its endpoints were resolved; a SOURCE_UNKNOWN answer is not covered), the
    exchange succeeds: every frame is read as it was sent, and the client reads the wire
    image of the result that the worker's runtime computes for the request. The wire
    image is that result with the link state and degraded mark of every hop and the
    provenance of every candidate replaced by defaults and the evidence of every
    candidate by that of the result. The worker has moved as by that [Plan] and counted it, the coordinator
    has counted one accepted publication and forgotten the request, and the worker's
    session is free again. *)
Theorem distributed_plan_is_local :
  ∃ c' cl',
    exchange os limits i_client i_worker request cl c w epoch =
      Some (c', count_served (set_worker_runtime w plan.1), cl', inr (wire_image plan.2)) ∧
    co_pending c' = delete key (co_pending c) ∧
    co_accepted_publications c' = wrap64 (co_accepted_publications c + 1) ∧
    ss_outstanding_request (session_of c' i_worker) = "".
Proof using Hready.
  destruct exchange_frames as (D1 & D2 & D3 & D4). destruct exchange_concluded as (Hturn & Hslot & Hdel & Hs & Hacc).
  destruct exchange_dispatched as (s & Hi & _ & Hd).
  unfold exchange. rewrite exchange_submit. rewrite D1. cbn [mbind option_bind].
  rewrite exchange_dispatch, Nat.eqb_refl. cbn [negb]. rewrite D2. cbn [mbind option_bind].
  rewrite exchange_worker, D3. cbn [mbind option_bind]. rewrite Hturn.
  unfold collect. cbv zeta. rewrite Hslot. cbn [pn_ready pn_status pn_payload pn_detail]. unfold reply.
  change (enum_eqb WireStatus.kOk WireStatus.kOk) with true. cbv iota. cbn [snd].
  change (wf_request asked) with (rq_id request). fold answered. rewrite D4. cbn [mbind option_bind].
  unfold read_result. cbv zeta. change (wf_type answered) with WireMessage.kPlanResult. cbv iota.
  change (wf_payload answered) with answer_payload.
  assert (Hlim : cl_limits (see_epoch answered (count_call cl)) = limits).
  { unfold see_epoch. rewrite <- (rd_client_limits _ _ _ _ _ _ _ _ Hready). by destruct (_ >? _). }
  rewrite Hlim, (proj2 ready_result). eexists _, _. split; [reflexivity|]. split_and!.
  - exact Hdel.
  - exact Hacc.
  - unfold session_of. cbn [co_sessions set_sessions set_pending]. rewrite Hs, Hd.
    cbn [co_sessions next_sequence set_sessions].
    erewrite nth_lookup_Some; [|rewrite list_lookup_fmap, list_lookup_insert_eq; [reflexivity|by eapply lookup_lt_Some]].
    cbn [ss_outstanding_request set_outstanding]. by rewrite String.eqb_refl.
Qed.
End exchange.

(** A worker and a client on the demo fabric. *)
Definition demo_worker_boot : WorkerBootId := FromBytes [1; 2; 3; 4; 5; 6; 7; 8].
Definition demo_other_boot : WorkerBootId := FromBytes [9; 9; 9; 9; 9; 9; 9; 9].
Definition demo_publisher : PublisherId := FromBytes [8; 7; 6; 5; 4; 3; 2; 1].
Definition demo_worker : Worker :=
  new_Worker default_limits (Some Demo.snapshot) demo_publisher demo_worker_boot demo_publisher demo_worker_boot.
Definition demo_coordinator : Coordinator :=
  let c := start_coordinator default_limits "" ∅ (Some Demo.snapshot) 1 in
  (session_turn demo_save 0 (worker_hello demo_worker) (accept_connection (accept_connection c))).1.1.
Definition demo_client : Client := new_Client default_limits.
Definition demo_result : PlanningResult := (Plan demo_request (wk_runtime demo_worker)).2.

Lemma demo_request_decodes :
  DecodePlanningRequestPayload (data_ (request_payload_of default_limits demo_request)) default_limits = inr demo_request.
Proof. vm_compute. reflexivity. Qed.
Lemma demo_request_byte : Forall is_byte (data_ (request_payload_of default_limits demo_request)).
Proof. unfold is_byte. apply (bool_decide_unpack _). vm_compute. exact I. Qed.
Lemma demo_result_decodes :
  DecodePlanningResultPayload (data_ (result_payload_of default_limits demo_result)) default_limits = inr (wire_image demo_result).
Proof. vm_compute. reflexivity. Qed.
Lemma demo_result_byte : Forall is_byte (data_ (result_payload_of default_limits demo_result)).
Proof. unfold is_byte. apply (bool_decide_unpack _). vm_compute. exact I. Qed.

Lemma demo_request_fits : request_typed demo_request ∧ request_ok demo_request default_limits.
Proof.
  pose proof demo_request_decodes as Hd. unfold DecodePlanningRequestPayload in Hd.
  destruct (decode_payload _ _ _) as [e|r] eqn:Er; [discriminate Hd|].
  apply (decode_payload_spec (request_payload default_limits) _ _ _ _ r
    (Parses_request default_limits default_limits_fit) demo_request_byte) in Er as [Hw _].
  destruct (ValidateRequest r default_limits) as [[? ?]|] eqn:Ev; [discriminate Hd|]. injection Hd as ->.
  apply ValidateRequest_None in Ev. split; [by apply (request_wire_ok_typed default_limits)|done].
Qed.
Lemma demo_result_ok : result_ok default_limits (wire_image demo_result).
Proof.
  pose proof demo_result_decodes as Hd. unfold DecodePlanningResultPayload in Hd.
  apply (decode_payload_spec (result_payload default_limits) _ _ _ _ _
    (Parses_result default_limits default_limits_fit) demo_result_byte) in Hd.
  exact (proj1 Hd).
Qed.

Lemma demo_ready : ready default_limits 1 0 demo_request demo_client demo_coordinator demo_worker 1.
Proof.
  assert (Hu : ∀ v, bool_decide (0 <= v <= u64_max) = true → u64_fits v)
    by (intros v Hv; by apply bool_decide_eq_true in Hv).
  constructor.
  - apply default_limits_fit.
  - vm_compute. split; congruence.
  - reflexivity.
  - vm_compute. reflexivity.
  - reflexivity.
  - apply Hu. vm_compute. reflexivity.
  - apply Hu. vm_compute. reflexivity.
  - apply Hu. vm_compute. reflexivity.
  - apply demo_request_fits.
  - apply demo_request_fits.
  - vm_compute. reflexivity.
  - vm_compute. reflexivity.
  - exists (default new_session (co_sessions demo_coordinator !! 0%nat)). vm_compute. reflexivity.
  - split; [reflexivity|]. unfold is_byte. apply (bool_decide_unpack _). vm_compute. exact I.
  - apply ValidatePublication_ok. vm_compute. reflexivity.
  - vm_compute. congruence.
  - exact demo_result_ok.
  - change (overflowed_ (result_payload_of default_limits demo_result) = false). vm_compute. reflexivity.
Qed.

Lemma distributed_plan_is_local_witness :
  rs_status demo_result = PlanStatus.kPlanned ∧
  ∃ c' cl',
    exchange demo_save default_limits 1 0 demo_request demo_client demo_coordinator demo_worker 1 =
      Some (c', count_served (set_worker_runtime demo_worker (Plan demo_request (wk_runtime demo_worker)).1),
            cl', inr (wire_image demo_result)).
Proof.
  split; [vm_compute; reflexivity|].
  destruct (distributed_plan_is_local demo_save default_limits 1 0 demo_request demo_client demo_coordinator
    demo_worker 1 demo_ready) as (c' & cl' & Heq & _).
  exists c', cl'. exact Heq.
Defined.

(** The same exchange among the interleavings of the coordinator. *)
Definition demo_start : DistSystem := dist_start default_limits "" ∅ (Some Demo.snapshot) 1.
Definition demo_frame_asked : WireFrame := asked default_limits demo_request demo_client.
Definition demo_frame_published : WireFrame :=
  published default_limits demo_request demo_coordinator demo_worker.
Definition demo_dispatched : Coordinator := dispatched default_limits demo_request demo_coordinator.
Definition demo_concluded : Coordinator :=
  concluded demo_save default_limits 0 demo_request demo_coordinator demo_worker.

(** A turn after which every thread is reading. *)
Definition all_idle (points : gmap nat Point) : Prop := ∀ j, point_of points j = Idle.
Lemma idle_turn s os i frame c points accepted :
  rtc dist_step s (MkSystem c points accepted []) → all_idle points →
  bool_decide (i < length (co_sessions c))%nat = true →
  (session_turn os i frame c).2 = Reading →
  ∃ points' accepted',
    rtc dist_step s (MkSystem (session_turn os i frame c).1.1 points' accepted' []) ∧ all_idle points'.
Proof.
  intros Hrun Hidle Hlen Hnext. apply bool_decide_eq_true in Hlen.
  destruct (turn_runs os i frame c Hlen) as (p & Hturn & Hp). rewrite Hnext in Hp. cbn in Hp. subst p.
  destruct (Hturn points accepted [] (Hidle i)) as (points' & accepted' & Hr & Hi & Hother).
  exists points', accepted'. split; [by etransitivity|].
  intros j. destruct (decide (j = i)) as [->|Hj]; [done|]. rewrite Hother by done. apply Hidle.
Qed.

Lemma demo_registered :
  ∃ points accepted, rtc dist_step demo_start (MkSystem demo_coordinator points accepted []) ∧ all_idle points.
Proof.
  eapply (idle_turn _ _ _ _ _ ∅ []); [|by intros j|vm_compute; reflexivity|vm_compute; reflexivity].
  eapply rtc_l; [apply ds_owner, os_connected|]. eapply rtc_l; [apply ds_owner, os_connected|]. apply rtc_refl.
Qed.

Lemma demo_served :
  ∃ points accepted, rtc dist_step demo_start (MkSystem demo_concluded points accepted []).
Proof.
  destruct demo_registered as (points & accepted & Hr & Hidle).
  destruct (turn_runs demo_save 1 demo_frame_asked demo_coordinator) as (p & Hturn & _); [vm_compute; lia|].
  destruct (Hturn points accepted [] (Hidle 1%nat)) as (points1 & accepted1 & Hr1 & _ & Hother1).
  unfold demo_frame_asked in Hr1. rewrite (exchange_dispatch _ _ _ _ _ _ _ _ _ demo_ready) in Hr1. cbn [fst] in Hr1.
  fold demo_dispatched in Hr1.
  destruct (turn_runs demo_save 0 demo_frame_published demo_dispatched) as (p2 & Hturn2 & _); [vm_compute; lia|].
  destruct (Hturn2 points1 accepted1 []) as (points2 & accepted2 & Hr2 & _); [by rewrite Hother1|].
  exists points2, accepted2. etransitivity; [exact Hr|]. etransitivity; [exact Hr1|]. exact Hr2.
Qed.

Lemma acceptance_safe_witness :
  ∃ sys a, rtc dist_step demo_start sys ∧ a ∈ dy_accepted sys ∧
    admitted (ac_decided a) (wf_worker_boot (ac_frame a)) (wf_coordinator_epoch (ac_frame a))
      (publication_snapshot (BootKey (wf_worker_boot (ac_frame a))) (ac_captured a)).
Proof.
  destruct demo_served as (points & accepted & Hr).
  destruct (acceptance_safe default_limits "" ∅ (Some Demo.snapshot) 1 _ Hr) as (Hall & _ & Hcount).
  assert (Hone : co_accepted_publications demo_concluded = 1) by (vm_compute; reflexivity).
  cbn [dy_co dy_accepted] in *. rewrite Hone in Hcount. destruct accepted as [|a accepted]; [discriminate Hcount|].
  exists (MkSystem demo_concluded points (a :: accepted) []), a. split; [exact Hr|]. split; [by left|].
  apply (Hall a). by left.
Defined.

(** The worker of the demo is fenced after the exchange, and refused from then on. *)
Lemma fenced_for_good_witness :
  (ValidatePublication demo_worker_boot 1 (nil_id _)
     (FenceWorker demo_other_boot (FenceWorker demo_worker_boot demo_concluded).1).1).1 =
  WireStatus.kWorkerFenced.
Proof.
  pose (s := MkSystem (FenceWorker demo_worker_boot demo_concluded).1 ∅ [] []).
  pose (s' := MkSystem (FenceWorker demo_other_boot (FenceWorker demo_worker_boot demo_concluded).1).1 ∅ [] []).
  assert (Hrun : rtc dist_step s s') by (apply rtc_once, ds_owner, (os_fenced _ ∅ [] [] demo_other_boot)).
  assert (Hin : BootKey demo_worker_boot ∈ co_fenced_boots (dy_co s)).
  { apply (bool_decide_unpack _). vm_compute. exact I. }
  destruct (fenced_for_good s s' demo_worker_boot Hrun Hin) as [Hrefused _].
  unfold s' in Hrefused. cbn [dy_co] in Hrefused. rewrite Hrefused. reflexivity.
Defined.

Lemma turns_are_runs_witness :
  ∃ points' accepted',
    rtc dist_step (MkSystem demo_dispatched ∅ [] []) (MkSystem demo_concluded points' accepted' []) ∧
    point_of points' 0 = Idle.
Proof.
  destruct (turns_are_runs demo_save 0 demo_frame_published demo_dispatched ∅ [] [])
    as (points' & accepted' & Hr & Hnext & _); [vm_compute; lia|reflexivity|].
  exists points', accepted'. split; [exact Hr|].
  assert (Hreading : (session_turn demo_save 0 demo_frame_published demo_dispatched).2 = Reading)
    by (vm_compute; reflexivity).
  rewrite Hreading in Hnext. exact Hnext.
Defined.

Lemma fences_exact_witness :
  BootKey demo_worker_boot ∈ co_fenced_boots (session_end 0 demo_concluded) ∧
  co_workers (session_end 0 demo_concluded) !! BootKey demo_worker_boot = None ∧
  BootKey demo_worker_boot ∈ co_fenced_boots (FenceWorker demo_worker_boot demo_concluded).1.
Proof.
  pose proof (fences_exact demo_concluded demo_worker_boot) as (Hend & Hfence & _).
  assert (Hs : ∃ s, co_sessions demo_concluded !! 0%nat = Some s ∧ ss_worker_role s = true ∧
                    ss_boot_key s = BootKey demo_worker_boot).
  { exists (default new_session (co_sessions demo_concluded !! 0%nat)).
    split; [vm_compute; reflexivity|]. split; vm_compute; reflexivity. }
  destruct Hs as (s & Hs & Hrole & Hkey).
  destruct (Hend 0%nat s Hs Hrole Hkey) as [H1 H2]; [vm_compute; discriminate|].
  split; [exact H1|]. split; [exact H2|].
  apply Hfence. apply (bool_decide_unpack _). vm_compute. exact I.
Defined.
