(* ===== verification/Explain.v ===== *)
(** explain.hpp / explain.cpp: the line-oriented rendering of results, plans,
    reports and snapshots. Every renderer is a concatenation of lines and a line is
    built of [key=value] fields, in the order the code appends them. *)

From S2P Require Import Prelude Canonical Sha256 Status Ids Codec Limits Graph Path Request View Result.

Open Scope string_scope.

Definition newline : string := String (Ascii.ascii_of_nat 10) EmptyString.
Definition quotation : string := String (Ascii.ascii_of_nat 34) EmptyString.

(** [out += key + value + newline]. *)
Definition line (text : string) : string := text +:+ newline.
(** [std::to_string] of a [size_t]. *)
Definition CountToString (n : nat) : string := UIntToString (Z.of_nat n).
Definition flag (b : bool) : string := if b then "true" else "false".
(** [for (x : l) out += f(x)]. *)
Definition each {A} (f : A → string) (l : list A) : string := fold_right (λ x out, f x +:+ out) "" l.

Definition Quote (value : string) : string := quotation +:+ value +:+ quotation.

Definition AppendCost (prefix : string) (cost : PathCost) : string :=
  line (prefix +:+ " total=" +:+ UIntToString (c_total cost) +:+
        " hops=" +:+ UIntToString (c_hops cost) +:+
        " hops_cost=" +:+ UIntToString (c_hops_cost cost) +:+
        " static_cost=" +:+ UIntToString (c_static_cost cost) +:+
        " degraded_penalty=" +:+ UIntToString (c_degraded_penalty cost) +:+
        " locality_penalty=" +:+ UIntToString (c_locality_penalty cost) +:+
        " degraded_hops=" +:+ UIntToString (c_degraded_hops cost) +:+
        " locality_breaches=" +:+ UIntToString (c_locality_breaches cost)).

Definition RenderEvidence (evidence : EvidenceVector) : string :=
  let g := ev_generations evidence in
  line ("evidence snapshot=" +:+ IdToString (ev_snapshot evidence)) +:+
  line ("evidence source=" +:+ EnumName (ev_source evidence)) +:+
  line ("evidence publish_sequence=" +:+ UIntToString (ev_publish_sequence evidence)) +:+
  line ("evidence topology_generation=" +:+ UIntToString (g_topology g)) +:+
  line ("evidence link_state_generation=" +:+ UIntToString (g_link_state g)) +:+
  line ("evidence port_generation=" +:+ UIntToString (g_ports g)) +:+
  line ("evidence capability_generation=" +:+ UIntToString (g_capabilities g)) +:+
  line ("evidence failure_domain_generation=" +:+ UIntToString (g_failure_domains g)) +:+
  line ("evidence fabric_epoch=" +:+ UIntToString (g_epoch g)) +:+
  line ("evidence policy_generation=" +:+ UIntToString (g_policy g)) +:+
  line ("evidence constraint_generation=" +:+ UIntToString (g_constraints g)).

Definition RenderHop (hop_index : nat) (hop : PathHop) : string :=
  line ("candidate hop " +:+ CountToString hop_index +:+ " link=" +:+ IdToString (h_link hop) +:+
        " from=" +:+ IdToString (h_from hop) +:+ " to=" +:+ IdToString (h_to hop) +:+
        " from_port=" +:+ IdToString (h_from_port hop) +:+
        " to_port=" +:+ IdToString (h_to_port hop) +:+
        " layer=" +:+ EnumName (h_layer hop) +:+
        " relationship=" +:+ EnumName (h_relationship hop) +:+
        " structural_generation=" +:+ UIntToString (h_structural_generation hop) +:+
        " static_cost=" +:+ UIntToString (h_static_cost hop) +:+
        " link_state=" +:+ EnumName (h_link_state hop) +:+
        " degraded=" +:+ flag (h_degraded hop)).

(** Both branches of the [status=] field of the source are the same text. *)
Definition RenderCandidate (verbose : bool) (c : Candidate) : string :=
  let p := cd_provenance c in
  line ("candidate rank=" +:+ UIntToString (cd_rank c) +:+ " id=" +:+ IdToString (cd_id c) +:+
        " status=" +:+ "CANDIDATE" +:+
        " currentness=" +:+ EnumName (cd_currentness c) +:+
        " authority=" +:+ EnumName (cd_authority c)) +:+
  AppendCost "candidate cost" (cd_cost c) +:+
  line ("candidate path " +:+ Render (cd_path c)) +:+
  line ("candidate planning_generation=" +:+ UIntToString (pv_planning_generation p) +:+
        " constraint_set=" +:+ IdToString (pv_constraint_set p) +:+
        " constraint_generation=" +:+ UIntToString (pv_constraint_generation p) +:+
        " policy_generation=" +:+ UIntToString (pv_policy_generation p)) +:+
  each (λ note, line ("candidate note " +:+ EnumName note)) (cd_notes c) +:+
  (if verbose then each (λ '(i, hop), RenderHop i hop) (indexed (p_hops (cd_path c))) else "").

(** [SubjectKey::ToString] is never empty: it holds a colon. *)
Definition RenderRejection (rejection : RejectionExplanation) : string :=
  line ("rejection code=" +:+ EnumName (rx_code rejection) +:+
        " occurrences=" +:+ UIntToString (rx_occurrences rejection) +:+
        (if String.eqb (SubjectToString (rx_subject rejection)) "" then ""
         else " subject=" +:+ SubjectToString (rx_subject rejection)) +:+
        " detail=" +:+ Quote (rx_detail rejection)).
Definition RenderRejections (l : list RejectionExplanation) : string := each RenderRejection l.

Definition RenderEntry (prefix : string) (entry : ExplanationEntry) : string :=
  line (prefix +:+ " code=" +:+ EnumName (xe_code entry) +:+ " detail=" +:+ Quote (xe_detail entry)).

Definition RenderResult (result : PlanningResult) (verbose : bool) : string :=
  line ("status " +:+ EnumName (rs_status result)) +:+
  line ("plan_id " +:+ IdToString (rs_plan_id result)) +:+
  line ("semantic_digest " +:+ HexEncode (rs_semantic_digest result)) +:+
  line ("planning_generation " +:+ UIntToString (rs_planning_generation result)) +:+
  line ("requested_candidates " +:+ UIntToString (rs_requested_candidates result)) +:+
  line ("returned_candidates " +:+ CountToString (length (rs_candidates result))) +:+
  line ("truncated " +:+ flag (rs_truncated result)) +:+
  line ("diagnostic_mode " +:+ flag (rs_diagnostic_mode result)) +:+
  (match rs_primary_failure result with
   | Some code => line ("primary_failure " +:+ EnumName code)
   | None => ""
   end) +:+
  RenderEvidence (rs_evidence result) +:+
  each (RenderCandidate verbose) (rs_candidates result) +:+
  RenderRejections (rs_rejections result) +:+
  each (RenderEntry "explanation") (rs_explanations result).

Definition RenderPlan (plan : PathPlan) (verbose : bool) : string :=
  line ("plan_id " +:+ IdToString (pl_id plan)) +:+
  line ("request " +:+ IdToString (pl_request plan)) +:+
  line ("status " +:+ EnumName (pl_status plan)) +:+
  line ("planning_generation " +:+ UIntToString (pl_generation plan)) +:+
  line ("publish_sequence " +:+ UIntToString (pl_publish_sequence plan)) +:+
  line ("semantic_digest " +:+ HexEncode (pl_semantic_digest plan)) +:+
  line ("source_node " +:+ IdToString (pl_source plan)) +:+
  line ("destination_node " +:+ IdToString (pl_destination plan)) +:+
  line ("layer " +:+ EnumName (pl_layer plan)) +:+
  line ("diagnostic_mode " +:+ flag (pl_diagnostic_mode plan)) +:+
  line ("currentness_proven " +:+ flag (pl_currentness_proven plan)) +:+
  line ("candidates " +:+ CountToString (length (pl_candidates plan))) +:+
  RenderEvidence (pl_evidence plan) +:+
  each (RenderCandidate verbose) (pl_candidates plan).

Definition RenderCurrentness (report : PlanCurrentnessReport) : string :=
  line ("currentness " +:+ EnumName (cr_currentness report)) +:+
  each (RenderEntry "change") (cr_changes report).

Definition RenderReplanReport (report : ReplanReport) : string :=
  line ("replan_outcome " +:+ EnumName (rr_outcome report)) +:+
  line ("replan_same_semantic_plan " +:+ flag (rr_same_semantic_plan report)) +:+
  line ("replan_prior_digest " +:+ HexEncode (rr_prior_digest report)) +:+
  line ("replan_current_digest " +:+ HexEncode (rr_current_digest report)) +:+
  each (RenderEntry "replan_change") (rr_changes report).

Definition RenderStatistics (stats : PlannerStatistics) : string :=
  line ("stat plans_computed=" +:+ UIntToString (plans_computed stats)) +:+
  line ("stat plans_published=" +:+ UIntToString (plans_published stats)) +:+
  line ("stat plans_publish_rejected_stale=" +:+
        UIntToString (plans_publish_rejected_stale stats)) +:+
  line ("stat candidates_returned=" +:+ UIntToString (candidates_returned stats)) +:+
  line ("stat states_expanded=" +:+ UIntToString (states_expanded stats)) +:+
  line ("stat queue_pushes=" +:+ UIntToString (queue_pushes stats)) +:+
  line ("stat spur_searches=" +:+ UIntToString (spur_searches stats)) +:+
  line ("stat snapshots_published=" +:+ UIntToString (snapshots_published stats)) +:+
  line ("stat epochs_advanced=" +:+ UIntToString (epochs_advanced stats)) +:+
  line ("stat invalidations_applied=" +:+ UIntToString (invalidations_applied stats)) +:+
  line ("stat plans_retired=" +:+ UIntToString (plans_retired stats)).

Definition RenderSnapshotSummary (s : FabricSnapshot) : string :=
  line ("snapshot id=" +:+ IdToString (SnapshotIdOf s)) +:+
  line ("snapshot digest=" +:+ HexEncode (s_digest s)) +:+
  line ("snapshot source=" +:+ EnumName (s_source s)) +:+
  line ("snapshot nodes=" +:+ CountToString (length (s_nodes s))) +:+
  line ("snapshot edges=" +:+ CountToString (length (s_edges s))) +:+
  line ("snapshot endpoints=" +:+ CountToString (length (s_endpoints s))) +:+
  line ("snapshot link_states=" +:+ CountToString (length (ls_records (s_link_states s)))) +:+
  line ("snapshot port_states=" +:+ CountToString (length (ps_records (s_port_states s)))) +:+
  line ("snapshot capabilities=" +:+ CountToString (length (cv_bindings (s_capabilities s)))) +:+
  line ("snapshot failure_domains=" +:+
        CountToString (length (fdv_domains (s_failure_domains s)))) +:+
  line ("snapshot membership_complete=" +:+ flag (fdv_complete (s_failure_domains s))) +:+
  RenderEvidence (Evidence s).

Definition RenderRankExplanation (l r : Candidate) : string :=
  line ("compare lhs=" +:+ IdToString (cd_id l) +:+ " rhs=" +:+ IdToString (cd_id r)) +:+
  AppendCost "compare lhs_cost" (cd_cost l) +:+
  AppendCost "compare rhs_cost" (cd_cost r) +:+
  line ("compare ranks_before=" +:+ (if RanksBefore l r then "lhs" else "rhs")).
